(* ===== verification/_CoqProject ===== *)
-Q . S2P
Prelude.v
Runtime.v
Sha256.v
Api.v
ResourceNames.v
VirtualServiceBuilder.v
BuilderWeights.v
BuilderStructure.v
BuilderTheorems.v
BuilderRouting.v
ServiceBuilder.v
BuilderAgreement.v
Client.v
RouteController.v
ControllerHelpers.v
ControllerTraces.v
ControllerSafety.v
ControllerFailures.v
ApiServer.v
ControllerSync.v
ControllerConvergence.v
ControllerExamples.v
BuilderFinalizers.v
Cluster.v
Recovery.v
Reliability.v
Interference.v
Lifecycle.v
ClusterExamples.v
RecoveryExamples.v
ReliabilityExamples.v
LifecycleExamples.v
VirtualServiceJSON.v
GoMemory.v
Copying.v
DeepCopy.v
DeepCopyTheorems.v
RouteListMemory.v
DeepCopyExamples.v
GoFloat.v
GoTime.v
Cfg.v
Upgrade.v
Uptime.v
RouteMapper.v
Collector.v
RequestCollector.v
MappingCollector.v
GoFlag.v
Main.v
ExitMatcher.v
GoJSON.v
JSONText.v
AcceptanceConfig.v
OutboundApp.v
