(* ===== verification/Prelude.v ===== *)
(** * Verification of the cf-k8s-networking route controller

    The repository turns Cloud Foundry Routes (a Kubernetes custom resource)
    into Istio VirtualServices and Kubernetes Services.  Its program is the
    route controller (src/routecontroller): a reconciler that controller-runtime
    calls with the name of a Route, two pure builders that compute the desired
    objects, the API types with their generated methods, the configuration and
    the start of the process.  Next to it live the tools of the test suites
    (src/test): the uptime and scale measurements, and the configuration of the
    acceptance tests.

    ** Parts, files and source

    - Prelude: machine integers, Go errors and panics ([outcome], a monad), the
      loop combinators [foldM] and [mapO] with their laws, lists, counting.
    - Runtime: what Go's runtime leaves open, as the class [GoRuntime] (the
      order a map is ranged over, the sorting algorithm of sort.Slice) with its
      laws; [go_reference] is an executable instance.
    - Sha256: crypto/sha256 and the [%x] verb, executable, with test vectors.
    - GoFloat, GoTime: float64 on SpecFloat, and time.ParseDuration.
    - Api: the resources (v1alpha1, v1alpha3, the Kubernetes and Istio fields
      the source touches) and the helpers of apimachinery and
      controller-runtime, as the class [K8s] with its laws.
    - ResourceNames, VirtualServiceBuilder, ServiceBuilder: the functions of
      resourcebuilders/virtual_service_builder.go and service_builder.go, one
      definition per function under the source's name.  VirtualServiceBuilder
      holds definitions only; BuilderWeights (weights), BuilderStructure
      (grouping, validation, one group), BuilderTheorems (the contract of
      [Build]), BuilderRouting (what the result routes) and BuilderAgreement
      (the two builders together) hold the theorems.
    - Client: the client of the API server as a free monad [prog] over the
      calls the controller makes, executions against any transition relation,
      a weakest-precondition calculus, and the traces of a program, which are
      its executions against a server that may reply anything.
    - RouteController: controllers/networking/route_controller.go, one
      definition per method.  ControllerHelpers (its pure helpers),
      ControllerTraces (the abstract specification [reconciled] of a
      reconciliation as call sequences, and the refinement), ControllerSafety
      (what holds of every trace), ControllerFailures (why one can fail),
      ApiServer (what a server promises, the class
      [ApiServerLaws], with an executable server), ControllerSync and
      ControllerConvergence (the state of the cluster after a reconciliation),
      ControllerExamples (a cluster reconciled by evaluation).
    - BuilderFinalizers, Cluster, ClusterExamples: several Routes reconciled one
      after another.  Recovery, RecoveryExamples: reconciliations that stop
      between two calls, and calls that fail after they took effect.
      Interference: users who create, change and delete Routes while a
      reconciliation runs, between any two of its calls, and what of the
      cluster endures that.  Lifecycle, LifecycleExamples: histories of such
      edits and of interrupted reconciliations.  Reliability,
      ReliabilityExamples: servers whose calls fail only for a reason, and the
      total correctness of reconciliations against them.
    - GoMemory: a heap of typed objects with pointers, slices, maps, and deep
      values with their footprints.  Copying: the statements deep copies are
      generated from.  DeepCopy: every method of the two
      zz_generated.deepcopy.go; DeepCopyTheorems, DeepCopyExamples.
      RouteListMemory: removeRouteFromRouteList on that heap.
    - VirtualServiceJSON: MarshalJSON and UnmarshalJSON of
      v1alpha3/virtualservice_types.go, with bufio.Writer; jsonpb is a parameter.
    - GoFlag, Main: the flag package; main.go, SetupWithManager and the
      registration of the API types, as a program over the calls to
      controller-runtime.
    - ExitMatcher: stress/matchers/exit_and_log_matcher.go.
    - Cfg: cfg/config.go.
    - Upgrade: test/uptime/internal/checker/upgrade.go, as a transition system
      of the polling goroutine, its callers, the mutex and the stop channel.
    - Uptime: test/uptime/internal/uptime and collector/request.go.
    - RouteMapper: test/scale/internal/collector/route_mapper.go.
    - Collector: goroutines that update shared results under a mutex and a wait
      group, as a transition system; RequestCollector and MappingCollector: the
      collectors of request.go and route_mapper.go as its instances.
    - GoJSON: the syntax encoding/json accepts; JSONText: the JSON grammar, that
      every text of it is read as what it spells, and that the fuel suffices.
      AcceptanceConfig: test/acceptance/cfg/cfg.go on top of them.
    - OutboundApp: the app of the acceptance tests in
      test/acceptance/assets/outbound-network-request-app.

    ** How the parts interact

    [Reconcile] reads the Route and the Routes of its FQDN, runs the builders
    and writes with CreateOrUpdate, whose mutate functions are the builders'
    [BuildMutateFunction].  The builders are pure; the Services that
    ServiceBuilder names are the hosts that VirtualServiceBuilder routes to
    ([destinations_resolve]).  All state is in the API server: the model keeps
    it behind [ApiServer], three maps from namespaced names to objects.

    ** What the theorems show

    - Builders: [Build] meets a declarative description ([Build_refines]), is
      a function of the set of routes whatever the runtime does
      ([Build_deterministic]), fails exactly on invalid groups with the first
      one's error, never panics, and its weights are percentages that sum to
      100 when the inputs are; the first entry that matches a path is one with
      the longest prefix.
    - Controller, against any server: a reconciliation that ends without an
      error made exactly the calls of the specification ([Reconcile_refines]);
      the first failing call ends it; it fails only when its last call failed,
      the builder rejects the listed Routes, or a destination has no port
      ([Reconcile_failures]); only Services of the route are deleted,
      and only after what replaces them exists; the finalizer goes last.
    - Controller, against a server with the laws: a live route's Services and
      VirtualService end up as the builders say and nothing else changes
      ([Reconcile_live]); a deleted route leaves nothing ([Reconcile_finalized]);
      reconciling again changes nothing ([Reconcile_idempotent]).
    - Cluster, where it is orderly: Routes are independent of each other (in
      UIDs, URLs, destination GUIDs and VirtualService names) and what is
      deleted has no finalizers but the controller's ([orderly_cluster]).
      Reconciling one Route undoes nothing that was done for the others
      ([Reconcile_noninterference]), so that all are in sync, or nothing is left
      of them, once each was reconciled ([cluster_converges]), also after any
      number of interrupted reconciliations ([crash_recovery]).  The
      VirtualService of a deleted Route is among what is gone, but when other
      Routes share it, provided that reading one fails only when there is none
      ([virtual_services_readable]).  In every history of interrupted
      reconciliations and of user edits that keep the cluster orderly, leave the
      Services alone and do not take the controller's finalizer away ([edited]),
      and may fall between any two calls, no Service is orphaned, and in the end
      the Services are exactly those of the live Routes ([eventually_exact]);
      against a server that does not fail one pass over the Routes always ends
      well ([one_pass_settles]); why a Route held by a foreign finalizer is
      excluded ([held_route_resurfaces]), and what a changed host leaves
      behind ([moved_route_leaves_virtual_service]).
    - Memory: DeepCopy gives a new object of the same deep value with a fresh
      footprint ([API_objects_DeepCopy]); the removal from a list of Routes
      writes the array it shares and yields the list of the pure model
      ([removeRouteFromRouteList_in_place]), which a deep copy protects the
      cache from ([cached_list_isolated]).  The pure model of the reconciler
      therefore takes lists as values.
    - JSON: whatever jsonpb is, the methods lose and change nothing of what it
      writes and reads ([JSON_transparent]).
    - Start: the process makes its calls in order and stops at the first error
      ([program_behaviour]), runs only when both indexes and the configured
      reconciler are registered ([start_configured]), and reads its command
      line in every spelling ([command_line]).
    - Configuration: [Load] on every branch; decimal intervals are seconds.
      NewConfig succeeds exactly on well-typed JSON objects ([NewConfig_spec])
      and reads back what any JSON text spells ([config_file_roundtrip]);
      timeouts are doubled exactly through float64 ([GetScaledTimeout_doubles]).
    - Measurements: in every interleaving of the goroutines, what the getters
      return after Wait says exactly what was observed, no update is lost, and
      Wait can return ([Request_collects], [RouteMapper_counts],
      [group_drains]); how the availability counts samples, also when asked for
      more than once ([SuccessPercentage_spec]); an upgrade is reported finished only on evidence.
    - Outbound app: it listens, which the tests wait for, exactly when its
      request was answered in full ([main_listens]).

    ** Conventions, fuel and bounds

    Integers are [Z]; every conversion or addition that can leave the width
    wraps ([int64], [int32]).  Strings are byte strings.  A panic is a value of
    [outcome]; a panic of the API client is not modelled.  Fuel occurs in
    [GoTime.parseRest] and in the JSON parser of GoJSON: each step consumes a
    character, the length of the input (twice it for JSON) is enough and
    more changes nothing ([parseRest_fuel], [parse_enough]).  [GoFlag.Parse]
    recurses on the number of arguments left.  A write to a bufio.Writer takes
    at most two rounds, since the buffer of 4096 bytes is empty after the first
    ([write_rounds]).  SHA-256 and the loops are structural.  [retry] and [polled] run the source's constant
    numbers of rounds, 3 and 60.

    ** Not modelled

    Logging and printing, except what PrintResults prints per sample and the
    lines of the outbound app; the JSON of Routes, which the serializer of
    apimachinery reads and writes, and what jsonpb writes; the test suites
    themselves, the deployment templates and scripts; encoding/json's limit of
    10000 nested values (since Go 1.15) and the text of its syntax errors.
    Garbage collection is no part of a call. The calls of two reconciliations
    are not interleaved: the manager runs one at a time, since the source
    leaves MaxConcurrentReconciles at its default of 1; when it calls again,
    after an error or an edit, is controller-runtime's. Users edit Routes
    between the calls of a reconciliation in Interference and Lifecycle;
    there, as in a Kubernetes server, an update of a Route that was edited
    since it was read is a conflict. Users who take the finalizer away or edit
    Services are not considered. The other theorems on a server with the laws
    take reconciliations that nobody interferes with. The client's cache is
    taken to be up to date: reads from one that is not are covered by the
    theorems that hold against any server. *)
From stdpp Require Export prelude gmap strings list sorting.
From Stdlib Require Export ZArith Lia.


(** * Notations and general settings *)

(** Go strings are byte sequences: they are modelled by [string], a list of
    8-bit [ascii] characters, with [+:+] for Go's [+] and for [%s] in a format. *)

(** * Machine integers

    Go's [int] is 64 bits wide on the platforms the controller is built
    for, and [int32(x)] keeps the low 32 bits.  Integers are [Z] and every
    operation that can leave the width is wrapped explicitly. *)

Definition wrap_signed (w z : Z) : Z := (z + 2 ^ (w - 1)) `mod` 2 ^ w - 2 ^ (w - 1).
Definition int64 (z : Z) : Z := wrap_signed 64 z.
Definition int32 (z : Z) : Z := wrap_signed 32 z.
Definition max_int64 : Z := 2 ^ 63 - 1.

Definition in_int64 (z : Z) : Prop := (- 2 ^ 63 ≤ z < 2 ^ 63)%Z.
Definition in_int32 (z : Z) : Prop := (- 2 ^ 31 ≤ z < 2 ^ 31)%Z.

Lemma wrap_signed_id w z :
  (0 < w → - 2 ^ (w - 1) ≤ z < 2 ^ (w - 1) → wrap_signed w z = z)%Z.
Proof.
  intros Hw Hz. unfold wrap_signed.
  assert (2 ^ w = 2 * 2 ^ (w - 1))%Z as Hp.
  { rewrite <- Z.pow_succ_r by lia. f_equal. lia. }
  rewrite Z.mod_small by lia. lia.
Qed.

Lemma wrap_signed_range w z :
  (0 < w → - 2 ^ (w - 1) ≤ wrap_signed w z < 2 ^ (w - 1))%Z.
Proof.
  intros Hw. unfold wrap_signed.
  assert (2 ^ w = 2 * 2 ^ (w - 1))%Z as Hp.
  { rewrite <- Z.pow_succ_r by lia. f_equal. lia. }
  assert (0 < 2 ^ (w - 1))%Z by (apply Z.pow_pos_nonneg; lia).
  pose proof (Z.mod_pos_bound (z + 2 ^ (w - 1)) (2 ^ w) ltac:(lia)). lia.
Qed.

(** Wrapping only ever changes a value by a multiple of the modulus. *)
Lemma wrap_signed_mod w z :
  (0 < w → wrap_signed w z `mod` 2 ^ w = z `mod` 2 ^ w)%Z.
Proof.
  intros Hw. unfold wrap_signed.
  assert (0 < 2 ^ w)%Z by (apply Z.pow_pos_nonneg; lia).
  rewrite <- Zminus_mod_idemp_l, Z.mod_mod, Zminus_mod_idemp_l by lia.
  f_equal. lia.
Qed.

Lemma int64_id z : in_int64 z → int64 z = z.
Proof. intros Hz. apply wrap_signed_id; unfold in_int64 in *; lia. Qed.

Lemma int32_id z : in_int32 z → int32 z = z.
Proof. intros Hz. apply wrap_signed_id; unfold in_int32 in *; lia. Qed.

Lemma int64_add_l x y : (int64 (int64 x + y) = int64 (x + y))%Z.
Proof.
  unfold int64, wrap_signed.
  replace ((x + 2 ^ (64 - 1)) `mod` 2 ^ 64 - 2 ^ (64 - 1) + y + 2 ^ (64 - 1))%Z
    with ((x + 2 ^ (64 - 1)) `mod` 2 ^ 64 + y)%Z by lia.
  rewrite Z.add_mod_idemp_l by done. do 2 f_equal. lia.
Qed.

Lemma int64_range z : in_int64 (int64 z).
Proof. apply (wrap_signed_range 64). lia. Qed.

Lemma int32_range z : in_int32 (int32 z).
Proof. apply (wrap_signed_range 32). lia. Qed.

(** * Results of Go functions

    A Go function that returns [(T, error)] has three ways to end: a value
    with a nil error, a non-nil error (the value is then ignored by every
    caller in this code base), or a run-time panic. *)

(** The errors the code handles: those it builds with [errors.New], and the
    status errors the Kubernetes API returns (a reason and a message). *)
Inductive error : Type :=
  | errors_New (msg : string)
  | StatusError (reason msg : string).

#[export] Instance error_eq_dec : EqDecision error.
Proof. solve_decision. Defined.

Inductive outcome (A : Type) : Type :=
  | Ok (a : A)
  | Err (e : error)
  | Panic (why : string).
Arguments Ok {A} a.
Arguments Err {A} e.
Arguments Panic {A} why.

#[export] Instance outcome_eq_dec `{EqDecision A} : EqDecision (outcome A).
Proof. solve_decision. Defined.

#[export] Instance outcome_ret : MRet outcome := λ A a, Ok a.

#[export] Instance outcome_bind : MBind outcome := λ A B f o,
  match o with
  | Ok a => f a
  | Err e => Err e
  | Panic why => Panic why
  end.

#[export] Instance outcome_fmap : FMap outcome := λ A B f o, o ≫= λ a, Ok (f a).

(** [s[i]]: out of range indexing panics. *)
Definition index {A} (l : list A) (i : nat) : outcome A :=
  match l !! i with
  | Some a => Ok a
  | None => Panic "index out of range"
  end.

(** [*p]: dereferencing a nil pointer panics. *)
Definition deref {A} (p : option A) : outcome A :=
  match p with
  | Some a => Ok a
  | None => Panic "nil pointer dereference"
  end.

Definition is_ok {A} (o : outcome A) : Prop := ∃ a, o = Ok a.
Definition panics {A} (o : outcome A) : Prop := ∃ why, o = Panic why.

(** [for _, x := range l { ... }] with a loop state and early exit. *)
Fixpoint foldM {M : Type → Type} `{MRet M, MBind M} {A S : Type}
    (f : S → A → M S) (s : S) (l : list A) : M S :=
  match l with
  | [] => mret s
  | x :: l' => s' ← f s x; foldM f s' l'
  end.

(** [for _, x := range l { ys = append(ys, f(x)) }] with early exit. *)
Fixpoint mapO {A B : Type} (f : A → outcome B) (l : list A) : outcome (list B) :=
  match l with
  | [] => Ok []
  | x :: l' => y ← f x; ys ← mapO f l'; Ok (y :: ys)
  end.

(** [p == nil] *)
Definition isNil {A} (p : option A) : bool := match p with None => true | Some _ => false end.

(** [m[k]] on a [map[string]string]: the zero value when the key is absent. *)
Definition map_get (m : gmap string string) (k : string) : string := default "" (m !! k).

Section outcome_lemmas.
Context {A B : Type}.
Implicit Types (f : A → outcome B) (o : outcome A).

Lemma bind_Ok f o b : (o ≫= f) = Ok b ↔ ∃ a, o = Ok a ∧ f a = Ok b.
Proof.
  destruct o as [a|e|w]; simpl; split; eauto; try done; intros (? & ? & ?); by simplify_eq.
Qed.

Lemma bind_Err f o e :
  (o ≫= f) = Err e ↔ o = Err e ∨ ∃ a, o = Ok a ∧ f a = Err e.
Proof.
  destruct o as [a|e'|w']; simpl.
  - split; [by eauto | by intros [?|(? & [= <-] & ?)]].
  - split; [by intros [= ->]; left | by intros [[= ->]|(? & ? & ?)]].
  - split; [by intros [= ->]; left | by intros [[= ->]|(? & ? & ?)]].
Qed.

Lemma bind_Panic f o w :
  (o ≫= f) = Panic w ↔ o = Panic w ∨ ∃ a, o = Ok a ∧ f a = Panic w.
Proof.
  destruct o as [a|e'|w']; simpl.
  - split; [by eauto | by intros [?|(? & [= <-] & ?)]].
  - split; [by intros [= ->]; left | by intros [[= ->]|(? & ? & ?)]].
  - split; [by intros [= ->]; left | by intros [[= ->]|(? & ? & ?)]].
Qed.

End outcome_lemmas.

Section mapO_lemmas.
Context {A B : Type}.
Implicit Types (f : A → outcome B).

Lemma mapO_Ok f l ys : mapO f l = Ok ys ↔ Forall2 (λ x y, f x = Ok y) l ys.
Proof.
  revert ys. induction l as [|x l IH]; intros ys; cbn [mapO].
  - split; [intros [= <-]; constructor | by inversion 1].
  - rewrite bind_Ok. split.
    + intros (y & Hy & (zs & Hzs & [= <-])%bind_Ok).
      constructor; [done | by apply IH].
    + inversion 1 as [|? y ? zs Hy Hzs]; simplify_eq.
      exists y. split; [done|]. apply bind_Ok. exists zs. split; [by apply IH | done].
Qed.

(** The loop stops at the first element that fails, with its error. *)
Lemma mapO_Err f l e :
  mapO f l = Err e ↔
  ∃ pre x post, l = pre ++ x :: post ∧ Forall (λ y, is_ok (f y)) pre ∧ f x = Err e.
Proof.
  induction l as [|x l IH]; cbn [mapO].
  - split; [done | by intros ([] & ? & ? & ? & _)].
  - rewrite bind_Err. split.
    + intros [Hx | (y & Hy & Hl)]; [by exists [], x, l; auto|].
      apply bind_Err in Hl as [Hl | (ys & _ & [=])].
      apply IH in Hl as (pre & x' & post & -> & Hpre & Hx').
      exists (x :: pre), x', post. repeat split; [|done].
      constructor; [by exists y | done].
    + intros ([|x' pre] & z & post & [= -> ->] & Hpre & Hz); [by left|].
      inversion Hpre as [|? ? [y Hy] Hpre']; simplify_eq.
      right. exists y. split; [done|]. apply bind_Err. left. apply IH.
      by exists pre, z, post.
Qed.

Lemma mapO_not_panics f l :
  (∀ x, x ∈ l → ¬ panics (f x)) → ¬ panics (mapO f l).
Proof.
  induction l as [|x l IH]; intros Hf [w Hw]; [done|].
  apply bind_Panic in Hw as [Hw | (y & _ & Hw)].
  { apply (Hf x); [constructor | by exists w]. }
  apply bind_Panic in Hw as [Hw | (? & _ & [=])].
  apply IH; [|by exists w]. intros z Hz. apply Hf. by constructor.
Qed.

Lemma mapO_total (g : A → B) l : mapO (λ x, Ok (g x)) l = Ok (g <$> l).
Proof. apply mapO_Ok. apply Forall2_fmap_r, Forall_Forall2_diag, Forall_true; done. Qed.

Lemma mapO_is_ok f l : is_ok (mapO f l) ↔ Forall (λ x, is_ok (f x)) l.
Proof.
  induction l as [|x l IH]; cbn [mapO]; [split; [constructor | by eexists]|].
  rewrite Forall_cons, <- IH. unfold is_ok. split.
  - intros [ys (y & Hy & (zs & Hzs & _)%bind_Ok)%bind_Ok]. eauto.
  - intros [[y Hy] [ys Hys]]. rewrite Hy. cbn. rewrite Hys. by eexists.
Qed.

Lemma mapO_ext f g l : (∀ x, x ∈ l → f x = g x) → mapO f l = mapO g l.
Proof.
  induction l as [|x l IH]; intros Hfg; cbn [mapO]; [done|].
  rewrite (Hfg x) by by left. rewrite IH; [done|]. intros y Hy. apply Hfg. by right.
Qed.

(** An accumulating loop is a map. *)
Lemma foldM_append f (acc : list B) l :
  foldM (λ ys x, y ← f x; Ok (ys ++ [y])) acc l = (ys ← mapO f l; Ok (acc ++ ys)).
Proof.
  revert acc. induction l as [|x l IH]; intros acc; cbn [foldM mapO].
  - unfold mret, outcome_ret. cbn. by rewrite app_nil_r.
  - destruct (f x) as [y| |]; cbn; [|done..]. rewrite IH.
    destruct (mapO f l); cbn; [|done..]. by rewrite <- app_assoc.
Qed.
End mapO_lemmas.

Section foldM_lemmas.
Context {A S : Type}.

Lemma foldM_ext (f g : S → A → outcome S) s l :
  (∀ s x, x ∈ l → f s x = g s x) → foldM f s l = foldM g s l.
Proof.
  revert s. induction l as [|x l IH]; intros s Hfg; cbn [foldM]; [done|].
  rewrite (Hfg s x) by by left. destruct (g s x); cbn; [|done..].
  apply IH. intros s' y Hy. apply Hfg. by right.
Qed.

(** The outcome of one check in a validation loop. *)
Definition checked (c : option error) : outcome unit :=
  match c with Some e => Err e | None => Ok tt end.

(** A loop of checks reports the first element that fails. *)
Lemma foldM_check (c : A → option error) l :
  foldM (λ _ x, checked (c x)) tt l =
  match list_find (λ x, is_Some (c x)) l with
  | Some (_, x) => checked (c x)
  | None => Ok tt
  end.
Proof.
  induction l as [|x l IH]; [done|]. cbn [foldM list_find].
  destruct (c x) as [e|] eqn:He; cbn [checked mbind outcome_bind].
  - rewrite decide_True by done. by rewrite He.
  - rewrite decide_False by by intros []. rewrite IH. by destruct (list_find _ l) as [[]|].
Qed.
End foldM_lemmas.

#[export] Instance outcome_bind_proper {A B} :
  Proper (pointwise_relation A eq ==> eq ==> eq) (@mbind outcome _ A B).
Proof. intros f g Hfg o _ <-. destruct o; simpl; [apply Hfg | done | done]. Qed.

(** * Automation *)

(** Invert every bind that is known to have returned [Ok]. *)
Ltac inv_ok :=
  repeat match goal with
  | H : (_ ≫= _) = Ok _ |- _ => apply bind_Ok in H as (? & ? & H)
  | H : Ok _ = Ok _ |- _ => injection H as H
  | H : Err _ = Ok _ |- _ => discriminate H
  | H : Panic _ = Ok _ |- _ => discriminate H
  | H : mret _ = Ok _ |- _ => injection H as H
  end; simplify_eq.

Create HintDb go.
#[export] Hint Resolve int64_range int32_range : go.
#[export] Hint Unfold in_int64 in_int32 : go.

(** * Lists *)

(** Go's [append(s[:i], s[i+1:]...)] when [s] has no spare capacity issue:
    the result shares the backing array of [s], whose cells from [i] on are
    overwritten by the tail.  The pair is (the resulting slice, the contents
    of the backing array afterwards). *)
Definition append_shift {A} (s : list A) (i : nat) : list A * list A :=
  let tail := drop (S i) s in
  let result := take i s ++ tail in
  (result, result ++ drop (length result) s).

Section list_lemmas.
Context {A : Type}.
Implicit Types (l : list A).

Lemma StronglySorted_weaken (R R' : relation A) l :
  (∀ x y, R x y → R' x y) → StronglySorted R l → StronglySorted R' l.
Proof.
  intros HR. induction 1 as [|x l Hs IH Hx]; constructor; [done|].
  eapply Forall_impl; [done|]. apply HR.
Qed.

Lemma append_shift_length l i :
  i < length l → length (append_shift l i).1 = length l - 1.
Proof. intros Hi. unfold append_shift. cbn [fst]. rewrite length_app, length_take, length_drop. lia. Qed.

(** The backing array keeps its length: nothing is reallocated. *)
Lemma append_shift_backing l i :
  i < length l → length (append_shift l i).2 = length l.
Proof.
  intros Hi. unfold append_shift. cbn [snd].
  repeat rewrite ?length_app, ?length_drop, ?length_take. lia.
Qed.

Lemma filter_all (P : A → Prop) `{∀ x, Decision (P x)} l :
  (∀ x, x ∈ l → P x) → filter P l = l.
Proof.
  induction l as [|x l IH]; intros HP; [done|].
  rewrite filter_cons_True by (apply HP; by left). rewrite IH; [done|].
  intros y Hy. apply HP. by right.
Qed.

Lemma StronglySorted_lookup (R : relation A) l i j x y :
  StronglySorted R l → l !! i = Some x → l !! j = Some y → i < j → R x y.
Proof.
  intros Hs. revert i j. induction Hs as [|z l Hs IH Hz]; intros i j Hi Hj Hij; [done|].
  destruct i as [|i]; destruct j as [|j]; simplify_eq/=; [lia| |lia|].
  - rewrite Forall_forall in Hz. apply Hz. by eapply list_elem_of_lookup_2.
  - apply (IH i j); [done..|lia].
Qed.

Lemma NoDup_fmap_inj_in {B} (f : A → B) l x y :
  NoDup (f <$> l) → x ∈ l → y ∈ l → f x = f y → x = y.
Proof.
  intros Hnd Hx Hy Hf.
  apply list_elem_of_lookup in Hx as [i Hi], Hy as [j Hj].
  assert (i = j) as ->; [|congruence].
  apply (NoDup_lookup (f <$> l) i j (f x)); [done| |].
  - by rewrite list_lookup_fmap, Hi.
  - by rewrite list_lookup_fmap, Hj, Hf.
Qed.
End list_lemmas.

(** * Counting *)

Section counting.
Local Open Scope Z_scope.

Definition count {A} (p : A → bool) (l : list A) : Z := Z.of_nat (length (filter (λ x, p x = true) l)).

Lemma count_snoc {A} (p : A → bool) l x : count p (l ++ [x]) = count p l + (if p x then 1 else 0).
Proof.
  unfold count. rewrite filter_app, length_app. destruct (p x) eqn:Hp.
  - rewrite filter_cons_True by done. cbn. lia.
  - rewrite filter_cons_False by by rewrite Hp. cbn. lia.
Qed.

Lemma count_cons {A} (p : A → bool) x l : count p (x :: l) = (if p x then 1 else 0) + count p l.
Proof.
  unfold count. destruct (p x) eqn:Hp.
  - rewrite filter_cons_True by done. cbn [length]. lia.
  - rewrite filter_cons_False by by rewrite Hp. done.
Qed.

Lemma count_nil {A} (p : A → bool) : count p [] = 0.
Proof. done. Qed.

Lemma count_Permutation {A} (p : A → bool) l l' : l ≡ₚ l' → count p l = count p l'.
Proof. intros Hp. unfold count. by rewrite Hp. Qed.

Lemma count_none {A} (p : A → bool) l : (∀ x, x ∈ l → p x = false) → count p l = 0.
Proof.
  intros Hl. unfold count. assert (filter (λ x, p x = true) l = []) as ->; [|done].
  apply elem_of_nil_inv. intros x [Hx Hin]%list_elem_of_filter. by rewrite Hl in Hx.
Qed.

Lemma count_negb {A} (p : A → bool) l : count p l + count (λ x, negb (p x)) l = Z.of_nat (length l).
Proof.
  induction l as [|x l IH] using rev_ind; [done|]. rewrite !count_snoc, length_app.
  destruct (p x); cbn [negb length]; lia.
Qed.

Lemma count_app {A} (p : A → bool) l l' : count p (l ++ l') = count p l + count p l'.
Proof. unfold count. rewrite filter_app, length_app. lia. Qed.
Lemma count_fmap {A B} (p : B → bool) (f : A → B) l : count p (f <$> l) = count (λ x, p (f x)) l.
Proof. induction l as [|x l IH]; [done|]. by rewrite fmap_cons, !count_cons, IH. Qed.
End counting.
