(* ===== verification/Runtime.v ===== *)
(** The parts of the Go language and its standard library whose behaviour the
    language leaves open, as an interface: [sort.Slice], which is documented
    to sort but not to be stable, and [range] over a map, whose order is
    unspecified.  The class [GoRuntime] holds the operations, [GoRuntimeLaws]
    what their documentation promises, and [go_reference] is one concrete
    runtime: the insertion sort the standard library uses on short slices, and
    the map's own enumeration order. *)
From S2P Require Import Prelude.

(** [less] arguments of [sort.Slice]: a strict weak order. *)
Class StrictWeakOrder {A} (less : A → A → bool) : Prop := {
  less_asym x y : less x y = true → less y x = false;
  less_negtrans x y z : less x y = false → less y z = false → less x z = false;
}.

(** [x] may stand before [y] in a slice sorted by [less]. *)
Definition not_after {A} (less : A → A → bool) : relation A := λ x y, less y x = false.

Class GoRuntime := {
  sort_Slice {A} : (A → A → bool) → list A → list A;
  map_range {A} : gmap string A → list (string * A);
}.

Class GoRuntimeLaws (G : GoRuntime) : Prop := {
  sort_Slice_Permutation {A} (less : A → A → bool) l : sort_Slice less l ≡ₚ l;
  sort_Slice_Sorted {A} (less : A → A → bool) `{!StrictWeakOrder less} l :
    StronglySorted (not_after less) (sort_Slice less l);
  map_range_Permutation {A} (m : gmap string A) : map_range m ≡ₚ map_to_list m;
}.

(** [sort.Strings] is [sort.Sort] with the byte-wise [<] on strings. *)
Definition sort_Strings `{GoRuntime} (l : list string) : list string :=
  sort_Slice String.ltb l.

(** * The order on strings *)

Lemma ltb_false_le (s t : string) : String.ltb s t = false ↔ String.le t s.
Proof.
  unfold String.ltb, String.le, String.leb.
  rewrite (String.compare_antisym t s). by destruct (String.compare s t).
Qed.

Lemma ltb_true_le (s t : string) : String.ltb s t = true ↔ String.le s t ∧ s ≠ t.
Proof.
  unfold String.ltb, String.le, String.leb. split.
  - destruct (String.compare s t) eqn:Hc; [done| |done]. intros _. split; [done|].
    intros ->. pose proof (String.compare_antisym t t) as Ha. by rewrite Hc in Ha.
  - intros [Hle Hne]. destruct (String.compare s t) eqn:Hc; [|done|done].
    by apply String.compare_eq_iff in Hc.
Qed.

#[export] Instance string_ltb_swo : StrictWeakOrder String.ltb.
Proof.
  split.
  - intros x y [Hle _]%ltb_true_le. by apply ltb_false_le.
  - intros x y z Hxy%ltb_false_le Hyz%ltb_false_le. apply ltb_false_le. by etrans.
Qed.

(** Sorting by a string key, ascending or descending. *)
#[export] Instance key_ltb_swo {A} (key : A → string) :
  StrictWeakOrder (λ x y, String.ltb (key x) (key y)).
Proof.
  split; intros *; [apply less_asym | apply less_negtrans].
Qed.

#[export] Instance key_gtb_swo {A} (key : A → string) :
  StrictWeakOrder (λ x y, String.ltb (key y) (key x)).
Proof.
  split; intros *; [apply less_asym|]. intros ??. by eapply less_negtrans.
Qed.

(** * The reference runtime *)

Section insertion_sort.
Context {A : Type} (less : A → A → bool).

(** The inner loop [for j := i; j > a && less(j, j-1); j-- { swap(j, j-1) }]:
    [x] sinks into the sorted prefix, kept in reverse. *)
Fixpoint sink (x : A) (rprefix : list A) : list A :=
  match rprefix with
  | [] => [x]
  | y :: rest => if less x y then y :: sink x rest else x :: rprefix
  end.

Definition insertion_sort (l : list A) : list A :=
  reverse (foldl (λ rp x, sink x rp) [] l).

Lemma sink_Permutation x rp : sink x rp ≡ₚ x :: rp.
Proof.
  induction rp as [|y rp IH]; simpl; [done|].
  destruct (less x y); [|done]. rewrite IH. apply Permutation_swap.
Qed.

Lemma foldl_sink_Permutation l rp : foldl (λ rp x, sink x rp) rp l ≡ₚ l ++ rp.
Proof.
  revert rp. induction l as [|x l IH]; intros rp; simpl; [done|].
  rewrite IH, sink_Permutation. symmetry. apply Permutation_middle.
Qed.

Lemma insertion_sort_Permutation l : insertion_sort l ≡ₚ l.
Proof.
  unfold insertion_sort. rewrite reverse_Permutation, foldl_sink_Permutation.
  by rewrite app_nil_r.
Qed.

Context `{!StrictWeakOrder less}.

Lemma sink_Sorted x rp :
  StronglySorted (λ y z, less y z = false) rp →
  StronglySorted (λ y z, less y z = false) (sink x rp).
Proof.
  induction 1 as [|y rp Hs IH Hy]; simpl; [repeat constructor|].
  destruct (less x y) eqn:Hxy.
  - constructor; [done|]. rewrite sink_Permutation. constructor; [|done].
    by apply less_asym.
  - constructor; [by constructor|]. constructor; [done|].
    eapply Forall_impl; [done|]. intros z Hz. by eapply less_negtrans.
Qed.

Lemma insertion_sort_Sorted l : StronglySorted (not_after less) (insertion_sort l).
Proof.
  unfold insertion_sort.
  assert (∀ rp, StronglySorted (λ y z, less y z = false) rp →
    StronglySorted (λ y z, less y z = false) (foldl (λ rp x, sink x rp) rp l)) as Hf.
  { induction l as [|x l IH]; intros rp Hrp; simpl; [done|]. by apply IH, sink_Sorted. }
  specialize (Hf [] (SSorted_nil _)).
  induction Hf as [|x rp Hs IH Hx]; [constructor|].
  rewrite reverse_cons. apply StronglySorted_app. split_and!; [|done|repeat constructor].
  intros y z Hy%elem_of_reverse ->%list_elem_of_singleton.
  rewrite reverse_involutive in Hy. rewrite Forall_forall in Hx. by apply Hx.
Qed.
End insertion_sort.

Definition go_reference : GoRuntime := {|
  sort_Slice A less l := insertion_sort less l;
  map_range A m := map_to_list m;
|}.

#[export] Instance go_reference_laws : GoRuntimeLaws go_reference.
Proof.
  split; intros; [apply insertion_sort_Permutation | by apply insertion_sort_Sorted | done].
Qed.
