(* ===== verification/Sha256.v ===== *)
(** [crypto/sha256] of the Go standard library, as far as
    src/routecontroller/resourcebuilders/virtual_service_builder.go uses it:
    [sha256.Sum256] (FIPS 180-4) on a string, and the [%x] formatting of the
    32-byte digest.  32-bit words are [Z] reduced modulo [2^32]; the digest is
    a list of byte values. *)
From S2P Require Import Prelude.
From Stdlib Require Import Ascii.
Local Open Scope Z_scope.

(** * 32-bit word operations *)

Definition add32 (x y : Z) : Z := (x + y) `mod` 2 ^ 32.
Definition not32 (x : Z) : Z := 2 ^ 32 - 1 - x.
Definition shr (n x : Z) : Z := Z.shiftr x n.
Definition rotr (n x : Z) : Z :=
  Z.lor (Z.shiftr x n) (Z.shiftl x (32 - n) `mod` 2 ^ 32).

Definition Ch (x y z : Z) : Z := Z.lxor (Z.land x y) (Z.land (not32 x) z).
Definition Maj (x y z : Z) : Z :=
  Z.lxor (Z.lxor (Z.land x y) (Z.land x z)) (Z.land y z).
Definition Sigma0 (x : Z) : Z := Z.lxor (Z.lxor (rotr 2 x) (rotr 13 x)) (rotr 22 x).
Definition Sigma1 (x : Z) : Z := Z.lxor (Z.lxor (rotr 6 x) (rotr 11 x)) (rotr 25 x).
Definition sigma0 (x : Z) : Z := Z.lxor (Z.lxor (rotr 7 x) (rotr 18 x)) (shr 3 x).
Definition sigma1 (x : Z) : Z := Z.lxor (Z.lxor (rotr 17 x) (rotr 19 x)) (shr 10 x).

(** The constants of the standard are the first 32 bits of the fractional parts
    of roots of primes; they are computed from that description. *)
Definition is_prime (n : nat) : bool :=
  forallb (λ d, negb (Nat.eqb (n mod d) 0)) (seq 2 (n - 2)).
Definition primes_upto (n : nat) : list Z := Z.of_nat <$> filter is_prime (seq 2 (n - 1)).

(** The largest [x < lo + 2 ^ bits] with [x ^ k <= n], bit by bit. *)
Fixpoint root_from (k n lo : Z) (bits : nat) : Z :=
  match bits with
  | O => lo
  | S b =>
      let x := lo + 2 ^ Z.of_nat b in
      root_from k n (if x ^ k <=? n then x else lo) b
  end.

Definition root_fraction (k p : Z) : Z := root_from k (p * 2 ^ (32 * k)) 0 40 `mod` 2 ^ 32.

(** Cube roots of the first 64 primes. *)
Definition round_constants : list Z :=
  Eval vm_compute in root_fraction 3 <$> primes_upto 311.

(** * The hash state and one block *)

Record state := State { ha : Z; hb : Z; hc : Z; hd : Z; he : Z; hf : Z; hg : Z; hh : Z }.

(** Square roots of the first 8 primes. *)
Definition initial_state : state :=
  Eval vm_compute in
    match root_fraction 2 <$> primes_upto 19 with
    | [a; b; c; d; e; f; g; h] => State a b c d e f g h
    | _ => State 0 0 0 0 0 0 0 0
    end.

(** Message schedule: [ws] holds the words computed so far, newest first. *)
Fixpoint schedule (n : nat) (ws : list Z) : list Z :=
  match n with
  | O => ws
  | S n' =>
      let w t := nth t ws 0 in
      let next := add32 (add32 (sigma1 (w 1%nat)) (w 6%nat))
                        (add32 (sigma0 (w 14%nat)) (w 15%nat)) in
      schedule n' (next :: ws)
  end.

Definition round (s : state) (kw : Z * Z) : state :=
  let t1 := add32 (add32 (hh s) (Sigma1 (he s)))
                  (add32 (Ch (he s) (hf s) (hg s)) (add32 kw.1 kw.2)) in
  let t2 := add32 (Sigma0 (ha s)) (Maj (ha s) (hb s) (hc s)) in
  State (add32 t1 t2) (ha s) (hb s) (hc s) (add32 (hd s) t1) (he s) (hf s) (hg s).

Definition block (s : state) (words : list Z) : state :=
  let ws := reverse (schedule 48 (reverse words)) in
  let r := foldl round s (combine round_constants ws) in
  State (add32 (ha s) (ha r)) (add32 (hb s) (hb r)) (add32 (hc s) (hc r))
        (add32 (hd s) (hd r)) (add32 (he s) (he r)) (add32 (hf s) (hf r))
        (add32 (hg s) (hg r)) (add32 (hh s) (hh r)).

(** * Padding, parsing and the digest *)

Definition bytes_of_string (s : string) : list Z :=
  (λ c, Z.of_N (N_of_ascii c)) <$> String.list_ascii_of_string s.

(** Big-endian encoding of [z] on [n] bytes. *)
Fixpoint be_bytes (n : nat) (z : Z) : list Z :=
  match n with
  | O => []
  | S n' => Z.shiftr z (8 * Z.of_nat n') `mod` 256 :: be_bytes n' z
  end.

Definition pad (m : list Z) : list Z :=
  let len := Z.of_nat (length m) in
  m ++ [128] ++ replicate (Z.to_nat ((55 - len) `mod` 64)) 0 ++ be_bytes 8 (8 * len).

Fixpoint words_of_bytes (l : list Z) : list Z :=
  match l with
  | a :: b :: c :: d :: l' =>
      (a * 2 ^ 24 + b * 2 ^ 16 + c * 2 ^ 8 + d) :: words_of_bytes l'
  | _ => []
  end.

(** Feed one word: a full block of 16 words is compressed into the state. *)
Definition feed (acc : state * list Z) (w : Z) : state * list Z :=
  let words := acc.2 ++ [w] in
  if Nat.eqb (length words) 16 then (block acc.1 words, []) else (acc.1, words).

Definition Sum256 (s : string) : list Z :=
  let st := (foldl feed (initial_state, []) (words_of_bytes (pad (bytes_of_string s)))).1 in
  concat (be_bytes 4 <$> [ha st; hb st; hc st; hd st; he st; hf st; hg st; hh st]).

(** * [%x] *)

Definition hex_digit (d : Z) : ascii :=
  ascii_of_N (Z.to_N (if Z.ltb d 10 then 48 + d else 87 + d)).

Fixpoint hex (bs : list Z) : string :=
  match bs with
  | [] => EmptyString
  | b :: bs' => String (hex_digit (b / 16)) (String (hex_digit (b `mod` 16)) (hex bs'))
  end.

(** The inverse of [%x], used to state that it loses nothing. *)
Definition unhex_digit (c : ascii) : Z :=
  let n := Z.of_N (N_of_ascii c) in if Z.ltb n 58 then n - 48 else n - 87.

Fixpoint unhex (s : string) : list Z :=
  match s with
  | String c (String d s') => (16 * unhex_digit c + unhex_digit d) :: unhex s'
  | _ => []
  end.

Definition is_byte (b : Z) : Prop := 0 <= b < 256.

(** The characters [%x] produces. *)
Definition is_hex_char (c : ascii) : bool :=
  let n := N_of_ascii c in
  ((48 <=? n) && (n <=? 57) || (97 <=? n) && (n <=? 102))%N.

Lemma be_bytes_length n z : length (be_bytes n z) = n.
Proof. induction n; simpl; congruence. Qed.

Lemma be_bytes_bytes n z : Forall is_byte (be_bytes n z).
Proof.
  induction n; cbn [be_bytes]; constructor; [|done].
  unfold is_byte. apply Z.mod_pos_bound. lia.
Qed.

Lemma Sum256_length s : length (Sum256 s) = 32%nat.
Proof. unfold Sum256. cbn [fmap list_fmap concat]. by rewrite !length_app, !be_bytes_length. Qed.

Lemma Sum256_bytes s : Forall is_byte (Sum256 s).
Proof.
  unfold Sum256. cbn [fmap list_fmap concat].
  repeat (apply Forall_app; split; [apply be_bytes_bytes|]). constructor.
Qed.

(** There are only 16 hexadecimal digits, so facts about them are decided by
    evaluating all of them. *)
Lemma hex_digit_cases (P : Z -> Prop) :
  Forall P (seqZ 0 16) -> forall d, 0 <= d < 16 -> P d.
Proof. intros HP d Hd. rewrite Forall_forall in HP. apply HP, elem_of_seqZ. lia. Qed.

Lemma unhex_hex_digit d : 0 <= d < 16 -> unhex_digit (hex_digit d) = d.
Proof.
  revert d. apply (hex_digit_cases (λ d, unhex_digit (hex_digit d) = d)).
  repeat (constructor; [reflexivity|]). constructor.
Qed.

Lemma hex_digit_hex_char d : 0 <= d < 16 -> is_hex_char (hex_digit d) = true.
Proof.
  revert d. apply (hex_digit_cases (λ d, is_hex_char (hex_digit d) = true)).
  repeat (constructor; [reflexivity|]). constructor.
Qed.

Lemma is_byte_nibbles b : is_byte b -> 0 <= b / 16 < 16 /\ 0 <= b `mod` 16 < 16.
Proof.
  intros Hb. unfold is_byte in Hb. split; [|apply Z.mod_pos_bound; lia].
  split; [apply Z.div_pos; lia | apply Z.div_lt_upper_bound; lia].
Qed.

Lemma unhex_hex bs : Forall is_byte bs -> unhex (hex bs) = bs.
Proof.
  induction 1 as [|b bs Hb _ IH]; cbn [hex unhex]; [done|].
  destruct (is_byte_nibbles b Hb) as [Hhi Hlo].
  rewrite !unhex_hex_digit, IH by done. f_equal.
  pose proof (Z_div_mod_eq_full b 16). lia.
Qed.

Lemma hex_inj bs bs' :
  Forall is_byte bs -> Forall is_byte bs' -> hex bs = hex bs' -> bs = bs'.
Proof. intros Hb Hb' He. by rewrite <- (unhex_hex bs), He, unhex_hex. Qed.

Lemma hex_chars bs :
  Forall is_byte bs -> Forall (λ c, is_hex_char c = true) (String.list_ascii_of_string (hex bs)).
Proof.
  induction 1 as [|b bs Hb _ IH]; cbn; [done|].
  destruct (is_byte_nibbles b Hb) as [Hhi Hlo].
  repeat (constructor; [by apply hex_digit_hex_char|]). done.
Qed.

Lemma hex_length bs : String.length (hex bs) = (2 * length bs)%nat.
Proof. induction bs as [|b bs IH]; cbn; [done|]. rewrite IH. lia. Qed.

(** FIPS 180-4 test vectors, and one that needs two blocks. *)
Example Sum256_abc :
  hex (Sum256 "abc") = "ba7816bf8f01cfea414140de5dae2223b00361a396177a9cb410ff61f20015ad".
Proof. vm_compute. reflexivity. Qed.

Example Sum256_empty :
  hex (Sum256 "") = "e3b0c44298fc1c149afbf4c8996fb92427ae41e4649b934ca495991b7852b855".
Proof. vm_compute. reflexivity. Qed.

Example Sum256_two_blocks :
  hex (Sum256 "abcdbcdecdefdefgefghfghighijhijkijkljklmklmnlmnomnopnopq")
  = "248d6a61d20638b8e5c026930c3e6039a33ce45964ff2167f6ecedd419db06c1".
Proof. vm_compute. reflexivity. Qed.
