(* ===== verification/Api.v ===== *)
(** The data the controller reads and writes: the Route custom resource
    (src/routecontroller/apis/networking/v1alpha1/route_types.go), the Istio
    VirtualService wrapper (src/routecontroller/apis/istio/networking/v1alpha3),
    the fields of the Kubernetes and Istio types the source touches, and the
    pure helpers of apimachinery and controller-runtime it calls, as the
    interface [K8s].

    Conventions: a Go pointer is an [option] ([None] is nil); a Go slice is a
    [list] and a Go map a [gmap] (the source never distinguishes nil from
    empty); integers are [Z], wrapped where the source can leave the width.
    Go field names are kept; a name two structs share carries the struct's
    name. *)
From S2P Require Import Prelude.

(** * Kubernetes metadata *)

(** metav1.Time, as the distance to Go's zero time. *)
Definition Time : Type := Z.

Record TypeMeta := mkTypeMeta { Kind : string; APIVersion : string }.

Record OwnerReference := mkOwnerReference {
  Owner_APIVersion : string;
  Owner_Kind : string;
  Owner_Name : string;
  Owner_UID : string;
}.

Record ObjectMeta := mkObjectMeta {
  Name : string;
  Namespace : string;
  UID : string;
  Labels : gmap string string;
  Annotations : gmap string string;
  OwnerReferences : list OwnerReference;
  Finalizers : list string;
  DeletionTimestamp : option Time;
}.

(** The zero value of the struct with a name and a namespace, which is how the
    source builds a key object: [metav1.ObjectMeta{Name: n, Namespace: ns}]. *)
Definition named_meta (ns n : string) : ObjectMeta :=
  mkObjectMeta n ns "" ∅ ∅ [] [] None.

(** types.NamespacedName *)
Record NamespacedName := mkNamespacedName { nn_Namespace : string; nn_Name : string }.

Definition key_of (m : ObjectMeta) : NamespacedName := mkNamespacedName (Namespace m) (Name m).

(** * v1alpha1: the Route resource *)

Record AppProcess := mkAppProcess { Process_Type : string }.
Record DestinationApp := mkDestinationApp { App_Guid : string; Process : AppProcess }.
Record DestinationSelector := mkDestinationSelector { MatchLabels : gmap string string }.

Record RouteDestination := mkRouteDestination {
  Guid : string;
  Weight : option Z;
  Port : option Z;
  App : DestinationApp;
  Selector : DestinationSelector;
}.

Record RouteDomain := mkRouteDomain { Domain_Name : string; Internal : bool }.

Record RouteSpec := mkRouteSpec {
  Host : string;
  Path : string;
  Url : string;
  Domain : RouteDomain;
  Destinations : list RouteDestination;
}.

Record Condition := mkCondition { Condition_Type : string; Condition_Status : bool }.
Record RouteStatus := mkRouteStatus { Conditions : list Condition }.

Record Route := mkRoute {
  Route_TypeMeta : TypeMeta;
  Route_ObjectMeta : ObjectMeta;
  Route_Spec : RouteSpec;
  Route_Status : RouteStatus;
}.

Record RouteList := mkRouteList { Items : list Route }.

(** [func (r Route) FQDN() string] *)
Definition FQDN (r : Route) : string :=
  if String.eqb (Host (Route_Spec r)) "" then Domain_Name (Domain (Route_Spec r))
  else Host (Route_Spec r) +:+ "." +:+ Domain_Name (Domain (Route_Spec r)).

(** [GroupVersion] of the two API groups. *)
Record GroupVersion := mkGroupVersion { Group : string; Version : string }.
Definition v1alpha1_GroupVersion : GroupVersion :=
  mkGroupVersion "networking.cloudfoundry.org" "v1alpha1".
Definition v1alpha3_GroupVersion : GroupVersion :=
  mkGroupVersion "networking.istio.io" "v1alpha3".

(** * v1alpha3: the VirtualService resource *)

(** The oneof [StringMatch.MatchType] of the Istio API. *)
Inductive StringMatch : Type :=
  | StringMatch_Exact (s : string)
  | StringMatch_Prefix (s : string)
  | StringMatch_Regex (s : string).

Record HTTPMatchRequest := mkHTTPMatchRequest { Uri : option StringMatch }.
Record HeaderOperations := mkHeaderOperations { Header_Set : gmap string string }.
Record Headers := mkHeaders { Request : option HeaderOperations }.
Record Destination := mkDestination { Destination_Host : string }.

Record HTTPRouteDestination := mkHTTPRouteDestination {
  HTTP_Destination : option Destination;
  HTTP_Weight : Z;
  HTTP_Headers : option Headers;
}.

Record HTTPRoute := mkHTTPRoute {
  Match : list HTTPMatchRequest;
  HTTP_Route : list HTTPRouteDestination;
}.

Record VirtualServiceSpec := mkVirtualServiceSpec {
  Hosts : list string;
  Gateways : list string;
  Http : list HTTPRoute;
}.

Record VirtualService := mkVirtualService {
  VS_ObjectMeta : ObjectMeta;
  VS_Spec : VirtualServiceSpec;
}.

(** The zero VirtualService with a name, as the controller builds it. *)
Definition named_VirtualService (ns n : string) : VirtualService :=
  mkVirtualService (named_meta ns n) (mkVirtualServiceSpec [] [] []).

(** * corev1: the Service resource *)

Record ServicePort := mkServicePort { ServicePort_Port : Z; ServicePort_Name : string }.

Record ServiceSpec := mkServiceSpec {
  Service_Selector : gmap string string;
  Ports : list ServicePort;
  ClusterIP : string;
}.

Record Service := mkService { Service_ObjectMeta : ObjectMeta; Service_Spec : ServiceSpec }.

Definition named_Service (ns n : string) : Service :=
  mkService (named_meta ns n) (mkServiceSpec ∅ [] "").

(** * Decidable equality *)

#[export] Instance NamespacedName_eq_dec : EqDecision NamespacedName.
Proof. solve_decision. Defined.
#[export] Instance NamespacedName_countable : Countable NamespacedName.
Proof.
  apply (inj_countable' (λ k, (nn_Namespace k, nn_Name k)) (λ p, mkNamespacedName p.1 p.2)).
  by intros [].
Defined.
#[export] Instance TypeMeta_eq_dec : EqDecision TypeMeta.
Proof. solve_decision. Defined.
#[export] Instance OwnerReference_eq_dec : EqDecision OwnerReference.
Proof. solve_decision. Defined.
#[export] Instance ObjectMeta_eq_dec : EqDecision ObjectMeta.
Proof. unfold Time. solve_decision. Defined.
#[export] Instance AppProcess_eq_dec : EqDecision AppProcess.
Proof. solve_decision. Defined.
#[export] Instance DestinationApp_eq_dec : EqDecision DestinationApp.
Proof. solve_decision. Defined.
#[export] Instance DestinationSelector_eq_dec : EqDecision DestinationSelector.
Proof. solve_decision. Defined.
#[export] Instance RouteDestination_eq_dec : EqDecision RouteDestination.
Proof. solve_decision. Defined.
#[export] Instance RouteDomain_eq_dec : EqDecision RouteDomain.
Proof. solve_decision. Defined.
#[export] Instance RouteSpec_eq_dec : EqDecision RouteSpec.
Proof. solve_decision. Defined.
#[export] Instance Condition_eq_dec : EqDecision Condition.
Proof. solve_decision. Defined.
#[export] Instance RouteStatus_eq_dec : EqDecision RouteStatus.
Proof. solve_decision. Defined.
#[export] Instance Route_eq_dec : EqDecision Route.
Proof. solve_decision. Defined.
#[export] Instance StringMatch_eq_dec : EqDecision StringMatch.
Proof. solve_decision. Defined.
#[export] Instance HTTPMatchRequest_eq_dec : EqDecision HTTPMatchRequest.
Proof. solve_decision. Defined.
#[export] Instance HeaderOperations_eq_dec : EqDecision HeaderOperations.
Proof. solve_decision. Defined.
#[export] Instance Headers_eq_dec : EqDecision Headers.
Proof. solve_decision. Defined.
#[export] Instance Destination_eq_dec : EqDecision Destination.
Proof. solve_decision. Defined.
#[export] Instance HTTPRouteDestination_eq_dec : EqDecision HTTPRouteDestination.
Proof. solve_decision. Defined.
#[export] Instance HTTPRoute_eq_dec : EqDecision HTTPRoute.
Proof. solve_decision. Defined.
#[export] Instance VirtualServiceSpec_eq_dec : EqDecision VirtualServiceSpec.
Proof. solve_decision. Defined.
#[export] Instance VirtualService_eq_dec : EqDecision VirtualService.
Proof. solve_decision. Defined.
#[export] Instance ServicePort_eq_dec : EqDecision ServicePort.
Proof. solve_decision. Defined.
#[export] Instance ServiceSpec_eq_dec : EqDecision ServiceSpec.
Proof. solve_decision. Defined.
#[export] Instance Service_eq_dec : EqDecision Service.
Proof. solve_decision. Defined.

(** * The helpers of apimachinery and controller-runtime

    They are not part of the repository: the model takes them as parameters,
    and [K8sLaws] states what their documentation says. *)

Class K8s := {
  (** controllerutil.AddFinalizer / RemoveFinalizer, on the finalizers of the
      object they are given *)
  AddFinalizer : list string → string → list string;
  RemoveFinalizer : list string → string → list string;
  (** ( *metav1.Time).IsZero *)
  IsZero : option Time → bool;
  (** apierrors.IsNotFound and client.IgnoreNotFound *)
  IsNotFound : error → bool;
  IgnoreNotFound : error → option error;
  (** schema.GroupVersion.String *)
  GroupVersion_String : GroupVersion → string;
}.

Class K8sLaws (K : K8s) : Prop := {
  AddFinalizer_elem fs f g : g ∈ AddFinalizer fs f ↔ g ∈ fs ∨ g = f;
  RemoveFinalizer_elem fs f g : g ∈ RemoveFinalizer fs f ↔ g ∈ fs ∧ g ≠ f;
  IsZero_nil : IsZero None = true;
  IgnoreNotFound_spec e : IgnoreNotFound e = if IsNotFound e then None else Some e;
}.

(** A concrete instance, for evaluation and for witnesses. *)
Definition k8s_reference : K8s := {|
  AddFinalizer fs f := if decide (f ∈ fs) then fs else fs ++ [f];
  RemoveFinalizer fs f := filter (λ g, g ≠ f) fs;
  IsZero t := match t with None => true | Some t => Z.eqb t 0 end;
  IsNotFound e :=
    match e with StatusError reason _ => String.eqb reason "NotFound" | _ => false end;
  IgnoreNotFound e :=
    match e with
    | StatusError reason _ => if String.eqb reason "NotFound" then None else Some e
    | _ => Some e
    end;
  GroupVersion_String gv := Group gv +:+ "/" +:+ Version gv;
|}.

#[export] Instance k8s_reference_laws : K8sLaws k8s_reference.
Proof.
  split; simpl.
  - intros fs f g. case_decide; [|rewrite elem_of_app, list_elem_of_singleton];
      intuition (subst; auto).
  - intros fs f g. rewrite list_elem_of_filter. tauto.
  - done.
  - by intros [|reason msg]; simpl; [|destruct (String.eqb reason "NotFound")].
Qed.
