(* ===== verification/ResourceNames.v ===== *)
(** What the two builders of package [resourcebuilders] share: the names of
    the resources they generate, owner references, and the small helpers and
    constants of virtual_service_builder.go and service_builder.go. *)
From S2P Require Import Prelude Sha256 Api.
From Stdlib Require Import Ascii.

Definition MeshInternalGateway : string := "mesh".
Definition IstioExpectedWeight : Z := 100.
Definition PLACEHOLDER_NON_EXISTING_DESTINATION : string := "no-destinations".

(** [fmt.Sprintf("vs-%x", sha256.Sum256([]byte(fqdn)))] *)
Definition VirtualServiceName (fqdn : string) : string :=
  let sum := Sum256 fqdn in "vs-" +:+ hex sum.

(** [fmt.Sprintf("s-%s", dest.Guid)] *)
Definition serviceName (dest : RouteDestination) : string := "s-" +:+ Guid dest.

Definition routeToOwnerRef `{K8s} (r : Route) : OwnerReference := {|
  Owner_APIVersion := GroupVersion_String v1alpha1_GroupVersion;
  Owner_Kind := Kind (Route_TypeMeta r);
  Owner_Name := Name (Route_ObjectMeta r);
  Owner_UID := UID (Route_ObjectMeta r);
|}.

(** Taking the address of a copy: a fresh non-nil pointer. *)
Definition intPtr (x : Z) : option Z := Some x.
Definition boolPtr (x : bool) : option bool := Some x.

(** * Kubernetes object names

    A DNS-1123 subdomain made of one label: lower case letters, digits and
    [-], starting and ending with a letter or digit, at most 253 long. *)

Definition dns1123_alnum (c : ascii) : bool :=
  let n := N_of_ascii c in
  ((48 <=? n) && (n <=? 57) || (97 <=? n) && (n <=? 122))%N.
Definition dns1123_char (c : ascii) : bool :=
  dns1123_alnum c || Ascii.eqb c "-"%char.

Definition dns1123_subdomain (s : string) : Prop :=
  let cs := String.list_ascii_of_string s in
  Forall (λ c, dns1123_char c = true) cs ∧
  (∃ c, head cs = Some c ∧ dns1123_alnum c = true) ∧
  (∃ c, last cs = Some c ∧ dns1123_alnum c = true) ∧
  length cs ≤ 253.

Lemma list_ascii_app s t :
  String.list_ascii_of_string (s +:+ t) =
  String.list_ascii_of_string s ++ String.list_ascii_of_string t.
Proof.
  induction s as [|c s IH]; [done|].
  change (String c s +:+ t) with (String c (s +:+ t)). cbn. by rewrite IH.
Qed.

Lemma list_ascii_length s : length (String.list_ascii_of_string s) = String.length s.
Proof. induction s; simpl; congruence. Qed.

Lemma hex_char_alnum c : is_hex_char c = true → dns1123_alnum c = true.
Proof.
  unfold is_hex_char, dns1123_alnum. intros Hc.
  apply orb_true_iff in Hc as [Hc | Hc]; [by rewrite Hc|].
  apply andb_true_iff in Hc as [Hlo Hhi]. rewrite Hlo. apply orb_true_iff. right.
  apply N.leb_le in Hhi. apply N.leb_le. lia.
Qed.

(** The characters of the digest part of the name. *)
Lemma VirtualServiceName_digest fqdn :
  ∃ cs, String.list_ascii_of_string (VirtualServiceName fqdn)
          = ["v"; "s"; "-"]%char ++ cs ∧
        length cs = 64 ∧ Forall (λ c, dns1123_alnum c = true) cs.
Proof.
  exists (String.list_ascii_of_string (hex (Sum256 fqdn))). split_and!.
  - unfold VirtualServiceName. by rewrite list_ascii_app.
  - by rewrite list_ascii_length, hex_length, Sum256_length.
  - eapply Forall_impl; [apply hex_chars, Sum256_bytes|]. apply hex_char_alnum.
Qed.

(** C32: the name of a generated VirtualService is a valid Kubernetes object
    name whatever bytes the FQDN holds ([*], upper case, unicode, any
    length). *)
Theorem VirtualServiceName_valid fqdn :
  dns1123_subdomain (VirtualServiceName fqdn) ∧
  String.length (VirtualServiceName fqdn) = 67.
Proof.
  destruct (VirtualServiceName_digest fqdn) as (cs & Hcs & Hlen & Hall).
  rewrite <- list_ascii_length. unfold dns1123_subdomain. rewrite Hcs.
  split; [split_and!|].
  - repeat (constructor; [done|]). eapply Forall_impl; [done|].
    intros c Hc. unfold dns1123_char. by rewrite Hc.
  - by exists "v"%char.
  - destruct cs as [|c cs] using rev_ind; [done|].
    exists c. apply Forall_app in Hall as [_ Hc].
    rewrite last_app, last_snoc. by inversion Hc.
  - rewrite length_app, Hlen. simpl. lia.
  - rewrite length_app, Hlen. done.
Qed.

(** The name loses nothing of the digest: two FQDNs get the same
    VirtualService name exactly when their SHA-256 digests collide. *)
Theorem VirtualServiceName_digest_inj fqdn fqdn' :
  VirtualServiceName fqdn = VirtualServiceName fqdn' ↔ Sum256 fqdn = Sum256 fqdn'.
Proof.
  unfold VirtualServiceName. split; [|by intros ->].
  intros Heq%(inj (String.app "vs-")).
  by apply hex_inj; [apply Sum256_bytes..|].
Qed.

(** The names virtual_service_builder_test.go expects. *)
Example VirtualServiceName_domain0 :
  VirtualServiceName "domain0.example.com"
  = "vs-674da971dcc8ee9403167e2a3e77e7a95f609d2825b838fc29a50e48c8dfeaea".
Proof. vm_compute. reflexivity. Qed.

Example VirtualServiceName_wildcard :
  VirtualServiceName "*.wildcard-host.example.com"
  = "vs-216d6f90aff241b01b456c94351f77221d9c238057fd4e4394ca5deadc1aae24".
Proof. vm_compute. reflexivity. Qed.

Example VirtualServiceName_unicode :
  VirtualServiceName "🙂.unicode-host.example.com"
  = "vs-3b0a745e60e76cc7f14e5e22d37fc7af2c2b529c5be43e99551d9fa892ca3573".
Proof. vm_compute. reflexivity. Qed.
