(* ===== verification/VirtualServiceBuilder.v ===== *)
(** src/routecontroller/resourcebuilders/virtual_service_builder.go: from the
    Routes of a namespace to the Istio VirtualServices they need, one per
    FQDN.  Definitions only, in the order of the source; the theorems are
    in the Builder* files. *)
From S2P Require Import Prelude Runtime Api ResourceNames.

(** The builder: [IstioGateways] is its only field. *)
Record VirtualServiceBuilder := mkVirtualServiceBuilder { IstioGateways : list string }.

Section definitions.
Context `{GoRuntime} `{K8s}.

(** The closure only assigns fields of [*actualVirtualService]; it is the
    new value of the object and the closure's error. *)
Definition BuildMutateFunction (desired : VirtualService)
    (actual : VirtualService) : VirtualService * option error :=
  let m := VS_ObjectMeta actual in
  let d := VS_ObjectMeta desired in
  (mkVirtualService
     (mkObjectMeta (Name m) (Namespace m) (UID m) (Labels d) (Annotations d)
        (OwnerReferences d) (Finalizers m) (DeletionTimestamp m))
     (VS_Spec desired),
   None).

Definition groupByFQDN (routes : RouteList) : gmap string (list Route) :=
  foldl (λ fqdns route,
    let n := FQDN route in <[n := default [] (fqdns !! n) ++ [route]]> fqdns)
    ∅ (Items routes).

Definition sortFQDNs (fqdns : gmap string (list Route)) : list string :=
  sort_Strings ((map_range fqdns).*1).

(** [sort.Slice] on the URLs, greatest first. *)
Definition sortRoutes (routes : list Route) : list Route :=
  sort_Slice (λ r1 r2, String.ltb (Url (Route_Spec r2)) (Url (Route_Spec r1))) routes.

Definition cloneLabels (template : gmap string string) : gmap string string :=
  foldl (λ labels kv, <[kv.1 := kv.2]> labels) ∅ (map_range template).

Definition destinationsForFQDN (fqdn : string)
    (routesByFQDN : gmap string (list Route)) : list RouteDestination :=
  foldl (λ destinations route, destinations ++ Destinations (Route_Spec route))
    [] (default [] (routesByFQDN !! fqdn)).

Definition validateRoutesForFQDN (routes : list Route) : outcome unit :=
  foldM (λ _ route,
    r0 ← index routes 0;
    if negb (Bool.eqb (Internal (Domain (Route_Spec r0)))
                      (Internal (Domain (Route_Spec route)))) then
      Err (errors_New
        ("route guid " +:+ Name (Route_ObjectMeta r0) +:+ " and route guid " +:+
         Name (Route_ObjectMeta route) +:+
         " disagree on whether or not the domain is internal"))
    else if negb (String.eqb (Namespace (Route_ObjectMeta r0))
                             (Namespace (Route_ObjectMeta route))) then
      Err (errors_New
        ("route guid " +:+ Name (Route_ObjectMeta r0) +:+ " and route guid " +:+
         Name (Route_ObjectMeta route) +:+
         " share the same FQDN but have different namespaces"))
    else Ok tt) tt routes.

Definition httpRouteDestinationPlaceholder : list HTTPRouteDestination :=
  [mkHTTPRouteDestination (Some (mkDestination PLACEHOLDER_NON_EXISTING_DESTINATION))
     0 None].

(** [weightSum] is a Go [int]: the additions wrap at 64 bits. *)
Definition validateWeights (route : Route) (destinations : list RouteDestination)
    : outcome unit :=
  weightSum ← foldM (λ weightSum d,
    d0 ← index destinations 0;
    if negb (Bool.eqb (isNil (Weight d)) (isNil (Weight d0))) then
      Err (errors_New
        ("invalid destinations for route " +:+ Name (Route_ObjectMeta route) +:+
         ": weights must be set on all or none"))
    else Ok (match Weight d with
             | Some w => int64 (weightSum + w)
             | None => weightSum
             end)) 0%Z destinations;
  d0 ← index destinations 0;
  let weightsHaveBeenSet := negb (isNil (Weight d0)) in
  if weightsHaveBeenSet && negb (Z.eqb weightSum IstioExpectedWeight) then
    Err (errors_New
      ("invalid destinations for route " +:+ Name (Route_ObjectMeta route) +:+
       ": weights must sum up to 100"))
  else Ok tt.

Definition set_HTTP_Weight (d : HTTPRouteDestination) (w : Z) : HTTPRouteDestination :=
  mkHTTPRouteDestination (HTTP_Destination d) w (HTTP_Headers d).

(** The body of the loop over the destinations. *)
Definition httpDestination (route : Route) (destination : RouteDestination)
    : HTTPRouteDestination :=
  let labels := Labels (Route_ObjectMeta route) in
  let d := {|
    HTTP_Destination := Some (mkDestination (serviceName destination));
    HTTP_Weight := 0;
    HTTP_Headers := Some (mkHeaders (Some (mkHeaderOperations
      (list_to_map [
        ("CF-App-Id", App_Guid (App destination));
        ("CF-App-Process-Type", Process_Type (Process (App destination)));
        ("CF-Space-Id", map_get labels "cloudfoundry.org/space_guid");
        ("CF-Organization-Id", map_get labels "cloudfoundry.org/org_guid")]))));
  |} in
  match Weight destination with
  | Some w => set_HTTP_Weight d (int32 w)
  | None => d
  end.

(** The weight the [i]-th of [n] destinations gets when none has one. *)
Definition inferredWeight (n : Z) (i : nat) : Z :=
  let weight := Z.quot IstioExpectedWeight n in
  let weight :=
    if Nat.eqb i 0 then
      let remainder := (IstioExpectedWeight - n * weight)%Z in (weight + remainder)%Z
    else weight in
  int32 weight.

Definition destinationsToHttpRouteDestinations (route : Route)
    (destinations : list RouteDestination) : outcome (list HTTPRouteDestination) :=
  _ ← validateWeights route destinations;
  let httpDestinations := httpDestination route <$> destinations in
  d0 ← index destinations 0;
  if isNil (Weight d0) then
    let n := Z.of_nat (length destinations) in
    Ok (imap (λ i d, set_HTTP_Weight d (inferredWeight n i)) httpDestinations)
  else Ok httpDestinations.

Definition append_OwnerReference (vs : VirtualService) (o : OwnerReference)
    : VirtualService :=
  let m := VS_ObjectMeta vs in
  mkVirtualService
    (mkObjectMeta (Name m) (Namespace m) (UID m) (Labels m) (Annotations m)
       (OwnerReferences m ++ [o]) (Finalizers m) (DeletionTimestamp m))
    (VS_Spec vs).

Definition append_Http (vs : VirtualService) (h : HTTPRoute) : VirtualService :=
  let s := VS_Spec vs in
  mkVirtualService (VS_ObjectMeta vs)
    (mkVirtualServiceSpec (Hosts s) (Gateways s) (Http s ++ [h])).

(** One iteration of the loop over the sorted routes; [n] is [len(routes)]. *)
Definition addRoute (n : nat) (vs : VirtualService) (route : Route)
    : outcome VirtualService :=
  let vs := append_OwnerReference vs (routeToOwnerRef route) in
  let match_ :=
    if negb (String.eqb (Path (Route_Spec route)) "") then
      [mkHTTPMatchRequest (Some (StringMatch_Prefix (Path (Route_Spec route))))]
    else [] in
  if negb (Nat.eqb (length (Destinations (Route_Spec route))) 0) then
    istioDestinations ←
      destinationsToHttpRouteDestinations route (Destinations (Route_Spec route));
    Ok (append_Http vs (mkHTTPRoute match_ istioDestinations))
  else if Nat.ltb 1 n then Ok vs
  else Ok (append_Http vs (mkHTTPRoute match_ httpRouteDestinationPlaceholder)).

Definition fqdnToVirtualService (b : VirtualServiceBuilder) (fqdn : string)
    (routes : list Route) : outcome VirtualService :=
  r0 ← index routes 0;
  let meta := {|
    Name := VirtualServiceName fqdn;
    Namespace := Namespace (Route_ObjectMeta r0);
    UID := "";
    Labels := ∅;
    Annotations := {[ "cloudfoundry.org/fqdn" := fqdn ]};
    OwnerReferences := [];
    Finalizers := [];
    DeletionTimestamp := None;
  |} in
  _ ← validateRoutesForFQDN routes;
  let gateways :=
    if Internal (Domain (Route_Spec r0)) then [MeshInternalGateway]
    else IstioGateways b in
  let vs := mkVirtualService meta (mkVirtualServiceSpec [fqdn] gateways []) in
  let routes := sortRoutes routes in
  foldM (addRoute (length routes)) vs routes.

Definition Build (b : VirtualServiceBuilder) (routes : RouteList)
    : outcome (list VirtualService) :=
  let routesForFQDN := groupByFQDN routes in
  let sortedFQDNs := sortFQDNs routesForFQDN in
  foldM (λ resources fqdn,
    virtualService ← fqdnToVirtualService b fqdn (default [] (routesForFQDN !! fqdn));
    Ok (resources ++ [virtualService])) [] sortedFQDNs.
End definitions.
