(* ===== verification/BuilderWeights.v ===== *)
(** The weights of the destinations of a VirtualService:
    [validateWeights], [inferredWeight] and
    [destinationsToHttpRouteDestinations] of VirtualServiceBuilder. *)
From S2P Require Import Prelude Api ResourceNames VirtualServiceBuilder.
Local Open Scope Z_scope.

(** * Specification vocabulary *)

(** The sum of the weights that are set, as an unbounded integer. *)
Definition weightSum (ds : list RouteDestination) : Z :=
  foldr (λ d s, default 0 (Weight d) + s) 0 ds.

(** Every destination agrees with [d0] on whether it has a weight. *)
Definition uniformlySet (d0 : RouteDestination) (ds : list RouteDestination) : bool :=
  forallb (λ d, Bool.eqb (isNil (Weight d)) (isNil (Weight d0))) ds.

Definition all_or_none_error (route : Route) : error :=
  errors_New ("invalid destinations for route " +:+ Name (Route_ObjectMeta route) +:+
              ": weights must be set on all or none").

Definition sum_error (route : Route) : error :=
  errors_New ("invalid destinations for route " +:+ Name (Route_ObjectMeta route) +:+
              ": weights must sum up to 100").

Definition httpWeightSum (hs : list HTTPRouteDestination) : Z :=
  foldr (λ h s, HTTP_Weight h + s) 0 hs.

(** * Machine arithmetic *)

Lemma int32_mod z : int32 z `mod` 2 ^ 32 = z `mod` 2 ^ 32.
Proof. apply (wrap_signed_mod 32). lia. Qed.

(** The 64-bit check implies the congruence modulo [2^32] that survives the
    truncation to [int32]. *)
Lemma int64_eq_mod32 z w : int64 z = w → z `mod` 2 ^ 32 = w `mod` 2 ^ 32.
Proof.
  intros <-. unfold int64, wrap_signed.
  rewrite (Zmod_eq (z + 2 ^ (64 - 1)) (2 ^ 64)) by lia.
  replace (z + 2 ^ (64 - 1) - (z + 2 ^ (64 - 1)) `div` 2 ^ 64 * 2 ^ 64 - 2 ^ (64 - 1))
    with (z + (- ((z + 2 ^ (64 - 1)) `div` 2 ^ 64) * 2 ^ 32) * 2 ^ 32) by lia.
  by rewrite Z_mod_plus_full.
Qed.

(** * Example inputs *)

Definition example_destination (guid : string) (w : option Z) : RouteDestination :=
  mkRouteDestination guid w (Some 8080) (mkDestinationApp "app-guid" (mkAppProcess "web"))
    (mkDestinationSelector {[ "app" := "app-guid" ]}).

Definition example_route : Route :=
  mkRoute (mkTypeMeta "Route" "networking.cloudfoundry.org/v1alpha1")
    (mkObjectMeta "route-guid-0" "workload-namespace" "route-uid-0"
       {[ "cloudfoundry.org/space_guid" := "space-guid-0" ]} ∅ [] [] None)
    (mkRouteSpec "test0" "/path0" "test0.domain0.example.com/path0"
       (mkRouteDomain "domain0.example.com" false) [])
    (mkRouteStatus []).

Definition example_two : list RouteDestination :=
  [example_destination "d0" (Some 70); example_destination "d1" (Some 30)].
Definition example_three : list RouteDestination :=
  [example_destination "d0" None; example_destination "d1" None; example_destination "d2" None].

(** * validateWeights *)

(** The loop of [validateWeights], from any prefix sum. *)
Lemma validateWeights_loop route d0 ds all acc :
  all !! 0%nat = Some d0 →
  foldM (λ weightSum d,
      d0 ← index all 0;
      if negb (Bool.eqb (isNil (Weight d)) (isNil (Weight d0))) then
        Err (all_or_none_error route)
      else Ok (match Weight d with
               | Some w => int64 (weightSum + w)
               | None => weightSum
               end)) (int64 acc) ds =
  if uniformlySet d0 ds then Ok (int64 (acc + weightSum ds)) else Err (all_or_none_error route).
Proof.
  intros Hall. unfold index. rewrite Hall. revert acc.
  induction ds as [|d ds IH]; intros acc; cbn -[int64].
  { by rewrite Z.add_0_r. }
  destruct (Bool.eqb (isNil (Weight d)) (isNil (Weight d0))) eqn:Heq; cbn -[int64]; [|done].
  destruct (Weight d) as [w|] eqn:Hw; cbn -[int64].
  - rewrite int64_add_l, IH. by rewrite Z.add_assoc.
  - apply IH.
Qed.

Lemma validateWeights_eq route ds :
  validateWeights route ds =
  match ds with
  | [] => Panic "index out of range"
  | d0 :: _ =>
      if uniformlySet d0 ds then
        if isNil (Weight d0) || (int64 (weightSum ds) =? IstioExpectedWeight)
        then Ok tt else Err (sum_error route)
      else Err (all_or_none_error route)
  end.
Proof.
  destruct ds as [|d0 ds]; [done|]. unfold validateWeights.
  change 0 with (int64 0) at 1.
  pose proof (validateWeights_loop route d0 (d0 :: ds) (d0 :: ds) 0 eq_refl) as Hloop.
  unfold all_or_none_error in *. rewrite Hloop, Z.add_0_l.
  destruct (uniformlySet d0 (d0 :: ds)); [|done].
  set (s := int64 (weightSum (d0 :: ds))). cbn.
  by destruct (isNil (Weight d0)), (s =? IstioExpectedWeight).
Qed.

Lemma uniformlySet_true d0 ds :
  uniformlySet d0 (d0 :: ds) = true ↔
  Forall (λ d, Weight d = None) (d0 :: ds) ∨ Forall (λ d, is_Some (Weight d)) (d0 :: ds).
Proof.
  unfold uniformlySet. rewrite forallb_forall, !Forall_forall. setoid_rewrite eqb_true_iff.
  setoid_rewrite <- list_elem_of_In. split.
  - intros Hall. destruct (Weight d0) as [w|] eqn:Hw.
    + right. intros d Hd. specialize (Hall d Hd). by destruct (Weight d).
    + left. intros d Hd. specialize (Hall d Hd). by destruct (Weight d).
  - intros [Hall|Hall] d Hd.
    + by rewrite (Hall d Hd), (Hall d0) by by left.
    + destruct (Hall d Hd) as [? ->], (Hall d0) as [? ->]; [by left|done].
Qed.

Lemma errors_distinct route : all_or_none_error route ≠ sum_error route.
Proof. unfold all_or_none_error, sum_error. intros [= Heq]. by simplify_eq. Qed.

Lemma none_or_all_set ds :
  ds ≠ [] → Forall (λ d, Weight d = None) ds → ¬ Forall (λ d, is_Some (Weight d)) ds.
Proof.
  destruct ds as [|d ds]; [done|]. intros _ [Hd _]%Forall_cons [[w Hw] _]%Forall_cons. congruence.
Qed.

(** The four cases, exclusive of each other. *)
Lemma validateWeights_cases route ds :
  (ds = [] ∧ validateWeights route ds = Panic "index out of range") ∨
  (ds ≠ [] ∧ Forall (λ d, Weight d = None) ds ∧ validateWeights route ds = Ok tt) ∨
  (ds ≠ [] ∧ Forall (λ d, is_Some (Weight d)) ds ∧
   validateWeights route ds =
     if int64 (weightSum ds) =? IstioExpectedWeight then Ok tt else Err (sum_error route)) ∨
  (¬ Forall (λ d, Weight d = None) ds ∧ ¬ Forall (λ d, is_Some (Weight d)) ds ∧
   validateWeights route ds = Err (all_or_none_error route)).
Proof.
  rewrite validateWeights_eq. destruct ds as [|d0 ds]; [by left|]. right.
  destruct (uniformlySet d0 (d0 :: ds)) eqn:Hu.
  - apply uniformlySet_true in Hu as [Hall|Hall]; [left | right; left];
      (split_and!; [done..|]); apply Forall_cons in Hall as [Hd _].
    + by rewrite Hd.
    + by destruct Hd as [w ->].
  - right. right. rewrite <- not_true_iff_false, uniformlySet_true in Hu. tauto.
Qed.

(** [validateWeights] on every branch.  It accepts a non-empty list exactly
    when no destination has a weight, or all have one and their sum, computed
    in 64-bit arithmetic, is 100; a mix is reported before a wrong sum is; and
    only on the empty list, where it would index out of range, does it
    panic. *)
Theorem validateWeights_spec route ds :
  (validateWeights route ds = Ok tt ↔
   ds ≠ [] ∧ (Forall (λ d, Weight d = None) ds ∨
     Forall (λ d, is_Some (Weight d)) ds ∧ int64 (weightSum ds) = 100)) ∧
  (validateWeights route ds = Err (all_or_none_error route) ↔
   ¬ Forall (λ d, Weight d = None) ds ∧ ¬ Forall (λ d, is_Some (Weight d)) ds) ∧
  (validateWeights route ds = Err (sum_error route) ↔
   ds ≠ [] ∧ Forall (λ d, is_Some (Weight d)) ds ∧ int64 (weightSum ds) ≠ 100) ∧
  (panics (validateWeights route ds) ↔ ds = []).
Proof.
  assert (∀ o : outcome unit, o = Ok tt → ¬ panics o) as Hok by (intros ? -> [? [=]]).
  assert (∀ (o : outcome unit) e, o = Err e → ¬ panics o) as Herr by (intros ? ? -> [? [=]]).
  pose proof (errors_distinct route) as Hdist. pose proof (none_or_all_set ds) as Hex.
  destruct (validateWeights_cases route ds) as
    [(-> & Hv) | [(Hne & Hnone & Hv) | [(Hne & Hsome & Hv) | (Hn & Hs & Hv)]]].
  - rewrite Hv. assert (panics (@Panic unit "index out of range")) by by eexists.
    split_and!; (split; [try done|]); try tauto.
    intros [Hn _]. by destruct Hn.
  - pose proof (Hok _ Hv). rewrite Hv in *. split_and!; (split; [try done|]); tauto.
  - unfold IstioExpectedWeight in Hv.
    destruct (Z.eqb_spec (int64 (weightSum ds)) 100) as [Hsum|Hsum];
      [pose proof (Hok _ Hv) | pose proof (Herr _ _ Hv)]; rewrite Hv in *;
      split_and!; (split; [try done|]); try tauto.
    intros He. destruct Hdist. congruence.
  - pose proof (Herr _ _ Hv). rewrite Hv in *.
    assert (ds ≠ []) by (intros ->; by apply Hn). split_and!; (split; [try done|]); try tauto.
    intros He. destruct Hdist. congruence.
Qed.

(** * Inferred weights *)

Lemma inferredWeight_first n : 0 < n → inferredWeight n 0 = 100 - (n - 1) * (100 `div` n).
Proof.
  intros Hn. unfold inferredWeight, IstioExpectedWeight. cbn [Nat.eqb].
  rewrite Z.quot_div_nonneg by lia.
  pose proof (Z.mul_div_le 100 n Hn). pose proof (Z.div_pos 100 n ltac:(lia) Hn).
  rewrite int32_id; [lia|]. unfold in_int32.
  assert (100 `div` n <= 100) by (apply Z.div_le_upper_bound; nia). lia.
Qed.

Lemma inferredWeight_rest n i : 0 < n → inferredWeight n (S i) = 100 `div` n.
Proof.
  intros Hn. unfold inferredWeight, IstioExpectedWeight. cbn [Nat.eqb].
  rewrite Z.quot_div_nonneg by lia. pose proof (Z.div_pos 100 n ltac:(lia) Hn).
  rewrite int32_id; [done|]. unfold in_int32.
  assert (100 `div` n <= 100) by (apply Z.div_le_upper_bound; nia). lia.
Qed.

(** The loop that overwrites the weights. *)
Definition inferAll (hs : list HTTPRouteDestination) : list HTTPRouteDestination :=
  imap (λ i d, set_HTTP_Weight d (inferredWeight (Z.of_nat (length hs)) i)) hs.

Lemma inferAll_cons h hs :
  let n := Z.of_nat (S (length hs)) in
  inferAll (h :: hs) =
  set_HTTP_Weight h (100 - (n - 1) * (100 `div` n)) ::
  ((λ d, set_HTTP_Weight d (100 `div` n)) <$> hs).
Proof.
  intros n. unfold inferAll. rewrite imap_cons. cbn [length]. fold n.
  rewrite inferredWeight_first by lia. f_equal.
  rewrite <- (imap_const (λ d, set_HTTP_Weight d (100 `div` n))).
  apply imap_ext. intros i d _. cbn. by rewrite inferredWeight_rest by lia.
Qed.

Lemma httpWeightSum_const w hs :
  httpWeightSum ((λ d, set_HTTP_Weight d w) <$> hs) = Z.of_nat (length hs) * w.
Proof.
  induction hs as [|h hs IH]; [done|].
  rewrite fmap_cons. cbn [httpWeightSum foldr set_HTTP_Weight HTTP_Weight length].
  unfold httpWeightSum in IH. rewrite IH. lia.
Qed.

Lemma inferAll_sum h hs : httpWeightSum (inferAll (h :: hs)) = 100.
Proof.
  rewrite inferAll_cons. cbn [httpWeightSum foldr set_HTTP_Weight HTTP_Weight].
  pose proof (httpWeightSum_const (100 `div` Z.of_nat (S (length hs))) hs) as Hs.
  unfold httpWeightSum in Hs. rewrite Hs. lia.
Qed.

Lemma HTTP_Weight_const w hs :
  HTTP_Weight <$> ((λ d, set_HTTP_Weight d w) <$> hs) = replicate (length hs) w.
Proof. induction hs as [|h hs IH]; [done|]. cbn in *. by rewrite IH. Qed.

(** * destinationsToHttpRouteDestinations *)

Section http_destinations.
Implicit Types (route : Route) (ds : list RouteDestination).

Lemma httpDestination_weight route d :
  HTTP_Weight (httpDestination route d) = default 0 (int32 <$> Weight d).
Proof. unfold httpDestination. by destruct (Weight d). Qed.

(** The function behind [validateWeights]. *)
Lemma destinationsToHttp_unfold route d0 ds :
  destinationsToHttpRouteDestinations route (d0 :: ds) =
  (_ ← validateWeights route (d0 :: ds);
   let hs := httpDestination route <$> d0 :: ds in
   Ok (if isNil (Weight d0) then inferAll hs else hs)).
Proof.
  unfold destinationsToHttpRouteDestinations, inferAll.
  destruct (validateWeights route (d0 :: ds)); [|done|done].
  cbn [mbind outcome_bind index lookup list_lookup]. rewrite length_fmap.
  by destruct (isNil (Weight d0)).
Qed.

Lemma destinationsToHttp_Ok route ds hs :
  destinationsToHttpRouteDestinations route ds = Ok hs →
  ∃ d0 ds', ds = d0 :: ds' ∧ uniformlySet d0 ds = true ∧
    let raw := httpDestination route <$> ds in
    (Weight d0 = None ∧ hs = inferAll raw ∨
     is_Some (Weight d0) ∧ int64 (weightSum ds) = 100 ∧ hs = raw).
Proof.
  destruct ds as [|d0 ds]; [done|]. rewrite destinationsToHttp_unfold, validateWeights_eq.
  destruct (uniformlySet d0 (d0 :: ds)) eqn:Hu; [|done].
  destruct (Weight d0) as [w|] eqn:Hw; cbn [isNil orb].
  - destruct (Z.eqb_spec (int64 (weightSum (d0 :: ds))) IstioExpectedWeight) as [Hs|];
      [|done]. intros [= <-]. exists d0, ds. rewrite Hw. eauto 10.
  - intros [= <-]. exists d0, ds. rewrite Hw. auto.
Qed.

Lemma uniformlySet_all d0 ds d :
  uniformlySet d0 ds = true → d ∈ ds → isNil (Weight d) = isNil (Weight d0).
Proof.
  intros Hu%Is_true_true%forallb_True Hd. rewrite Forall_forall in Hu.
  specialize (Hu d Hd). by apply eqb_prop, Is_true_true.
Qed.

(** The truncated weights keep the sum modulo [2^32]. *)
Lemma httpWeightSum_mod route ds :
  httpWeightSum (httpDestination route <$> ds) `mod` 2 ^ 32 = weightSum ds `mod` 2 ^ 32.
Proof.
  induction ds as [|d ds IH]; [done|].
  rewrite fmap_cons. cbn [httpWeightSum weightSum foldr]. fold (httpWeightSum (httpDestination route <$> ds)).
  fold (weightSum ds). rewrite httpDestination_weight.
  rewrite Z.add_mod, IH, (Z.add_mod (default 0 (Weight d))) by done.
  destruct (Weight d) as [w|]; cbn [fmap option_fmap option_map default from_option id];
    [by rewrite int32_mod | done].
Qed.

Definition in_percent (w : Z) : Prop := 0 <= w <= 100.

Lemma weights_in_percent_kept route ds :
  (∀ d w, d ∈ ds → Weight d = Some w → in_percent w) →
  HTTP_Weight <$> (httpDestination route <$> ds) = default 0 ∘ Weight <$> ds.
Proof.
  intros Hp. rewrite <- list_fmap_compose. apply list_fmap_ext.
  intros i d Hd%list_elem_of_lookup_2. cbn. rewrite httpDestination_weight.
  destruct (Weight d) as [w|] eqn:Hw; [|done]. cbn. apply int32_id.
  pose proof (Hp d w Hd Hw) as Hw'. unfold in_percent, in_int32 in *. lia.
Qed.

Lemma httpWeightSum_fmap hs : httpWeightSum hs = foldr Z.add 0 (HTTP_Weight <$> hs).
Proof. induction hs as [|h hs IH]; [done|]. cbn. unfold httpWeightSum in IH. by rewrite IH. Qed.

Lemma weightSum_fmap ds : weightSum ds = foldr Z.add 0 (default 0 ∘ Weight <$> ds).
Proof. induction ds as [|d ds IH]; [done|]. cbn. unfold weightSum in IH. by rewrite IH. Qed.
End http_destinations.

(** Whatever the weights are, the [int32] weights of the generated route
    destinations sum to 100 modulo [2^32], one per destination. *)
Theorem destinations_weights_sum_mod route ds hs :
  destinationsToHttpRouteDestinations route ds = Ok hs →
  length hs = length ds ∧ httpWeightSum hs `mod` 2 ^ 32 = 100.
Proof.
  intros (d0 & ds' & -> & _ & Hhs)%destinationsToHttp_Ok.
  destruct Hhs as [[_ ->] | (_ & Hsum & ->)].
  - split; [unfold inferAll; by rewrite length_imap, length_fmap|].
    rewrite fmap_cons. by rewrite inferAll_sum.
  - split; [by rewrite length_fmap|]. rewrite httpWeightSum_mod.
    by rewrite (int64_eq_mod32 _ 100).
Qed.

Lemma destinations_weights_sum_mod_witness :
  ∃ hs, destinationsToHttpRouteDestinations example_route example_two = Ok hs ∧
    (length hs = length example_two ∧ httpWeightSum hs `mod` 2 ^ 32 = 100).
Proof.
  eexists. split; [vm_compute; reflexivity|].
  apply (destinations_weights_sum_mod example_route). vm_compute. reflexivity.
Defined.

(** * Weights that are percentages *)

Lemma weightSum_bound ds :
  (∀ d w, d ∈ ds → Weight d = Some w → in_percent w) →
  0 <= weightSum ds <= 100 * Z.of_nat (length ds).
Proof.
  induction ds as [|d ds IH]; intros Hp; [done|].
  cbn [weightSum foldr length]. fold (weightSum ds).
  assert (0 <= weightSum ds <= 100 * Z.of_nat (length ds)).
  { apply IH. intros d' w Hd'. apply Hp. by right. }
  assert (in_percent (default 0 (Weight d))).
  { destruct (Weight d) as [w|] eqn:Hw; cbn; [|by unfold in_percent].
    apply (Hp d); [by left | done]. }
  unfold in_percent in *. lia.
Qed.

Lemma inferAll_percent hs : Forall (λ h, in_percent (HTTP_Weight h)) (inferAll hs).
Proof.
  destruct hs as [|h hs]; [constructor|]. rewrite inferAll_cons.
  set (n := Z.of_nat (S (length hs))).
  assert (0 < n) as Hn by (unfold n; lia).
  pose proof (Z.mul_div_le 100 n Hn). pose proof (Z.div_pos 100 n ltac:(lia) Hn).
  constructor.
  - cbn. unfold in_percent. nia.
  - apply Forall_fmap, Forall_true. intros d. cbn. unfold in_percent. nia.
Qed.

(** C28: weights that are percentages, or no weights at all, always come out as
    what Istio asks for: percentages that sum to exactly 100. *)
Theorem destinations_weights_percent route ds hs
    (Hpercent : ∀ d w, d ∈ ds → Weight d = Some w → in_percent w)
    (Hlen : Z.of_nat (length ds) < 2 ^ 48)
    (Hok : destinationsToHttpRouteDestinations route ds = Ok hs) :
  httpWeightSum hs = 100 ∧ Forall (λ h, in_percent (HTTP_Weight h)) hs.
Proof.
  destruct (destinationsToHttp_Ok _ _ _ Hok) as (d0 & ds' & -> & _ & Hhs).
  destruct Hhs as [[_ ->] | (_ & Hsum & ->)].
  { split; [by rewrite fmap_cons, inferAll_sum | apply inferAll_percent]. }
  set (ds := d0 :: ds') in *. pose proof (weightSum_bound ds Hpercent).
  rewrite int64_id in Hsum by (unfold in_int64; lia).
  split.
  - by rewrite httpWeightSum_fmap, weights_in_percent_kept, <- weightSum_fmap.
  - assert (Forall in_percent (HTTP_Weight <$> (httpDestination route <$> ds))) as Hf;
      [|by rewrite Forall_fmap in Hf].
    rewrite weights_in_percent_kept by done.
    apply Forall_fmap, Forall_forall. intros d Hd. cbn.
    destruct (Weight d) as [w|] eqn:Hw; [by eapply Hpercent | by unfold in_percent].
Qed.

Lemma destinations_weights_percent_witness :
  ∃ hs, destinationsToHttpRouteDestinations example_route example_two = Ok hs ∧
    (httpWeightSum hs = 100 ∧ Forall (λ h, in_percent (HTTP_Weight h)) hs).
Proof.
  eexists. split; [vm_compute; reflexivity|].
  apply (destinations_weights_percent example_route example_two).
  - intros d w Hd Hw. unfold example_two in Hd.
    rewrite !elem_of_cons in Hd. destruct Hd as [-> | [-> | Hd]].
    + injection Hw as <-. unfold in_percent. lia.
    + injection Hw as <-. unfold in_percent. lia.
    + by apply not_elem_of_nil in Hd.
  - vm_compute. reflexivity.
  - vm_compute. reflexivity.
Defined.

(** * The destinations one by one *)

(** C29: when no destination has a weight, the [n] of them get [100 / n] each
    and the first one also gets the remainder of the division. *)
Theorem destinations_inferred_weights route ds
    (Hne : ds ≠ []) (Hunset : ∀ d, d ∈ ds → Weight d = None) :
  ∃ hs, destinationsToHttpRouteDestinations route ds = Ok hs ∧
    HTTP_Weight <$> hs =
      (100 `div` Z.of_nat (length ds) + 100 `mod` Z.of_nat (length ds)) ::
      replicate (length ds - 1) (100 `div` Z.of_nat (length ds)).
Proof.
  destruct ds as [|d0 ds]; [done|].
  rewrite destinationsToHttp_unfold, validateWeights_eq.
  rewrite (Hunset d0) by by left.
  assert (uniformlySet d0 (d0 :: ds) = true) as ->.
  { apply Is_true_true, forallb_True, Forall_forall. intros d Hd.
    by rewrite (Hunset d Hd), (Hunset d0) by by left. }
  cbn [isNil orb mbind outcome_bind]. eexists. split; [done|].
  rewrite fmap_cons, inferAll_cons, fmap_cons, length_fmap.
  cbn [length Nat.sub]. rewrite Nat.sub_0_r. f_equal.
  - cbn. pose proof (Z_div_mod_eq_full 100 (Z.of_nat (S (length ds)))). lia.
  - by rewrite HTTP_Weight_const, length_fmap.
Qed.

Lemma destinations_inferred_weights_witness :
  example_three ≠ [] ∧
  ∃ hs, destinationsToHttpRouteDestinations example_route example_three = Ok hs ∧
    HTTP_Weight <$> hs = [34; 33; 33].
Proof.
  split; [done|].
  apply (destinations_inferred_weights example_route example_three); [done|].
  intros d Hd. unfold example_three in Hd. rewrite !elem_of_cons in Hd.
  destruct Hd as [-> | [-> | [-> | Hd]]]; [done..|]. by apply not_elem_of_nil in Hd.
Defined.

(** Explicit weights that are percentages and sum to 100 are left alone. *)
Theorem destinations_explicit_weights route ds ws
    (Hws : Weight <$> ds = Some <$> ws)
    (Hpercent : Forall in_percent ws) (Hsum : foldr Z.add 0 ws = 100) :
  ∃ hs, destinationsToHttpRouteDestinations route ds = Ok hs ∧ HTTP_Weight <$> hs = ws.
Proof.
  assert (∀ d w, d ∈ ds → Weight d = Some w → in_percent w) as Hp.
  { intros d w Hd Hw. rewrite Forall_forall in Hpercent. apply Hpercent.
    apply (list_elem_of_fmap_2 Weight) in Hd. rewrite Hws, Hw in Hd.
    by apply list_elem_of_fmap in Hd as (w' & [= ->] & ?). }
  assert (default 0 ∘ Weight <$> ds = ws) as Hd.
  { rewrite list_fmap_compose, Hws, <- list_fmap_compose. apply list_fmap_id. }
  assert (weightSum ds = 100) as Hs by by rewrite weightSum_fmap, Hd.
  destruct ds as [|d0 ds]; [done|]. destruct ws as [|w0 ws]; [done|].
  rewrite destinationsToHttp_unfold, validateWeights_eq.
  assert (uniformlySet d0 (d0 :: ds) = true) as ->.
  { apply Is_true_true, forallb_True, Forall_forall. intros d Hin.
    apply (list_elem_of_fmap_2 Weight) in Hin. rewrite Hws in Hin.
    apply list_elem_of_fmap in Hin as (w & -> & _).
    injection Hws as -> _. done. }
  rewrite Hs. pose proof Hws as Hws'. injection Hws' as Hw0 _. rewrite Hw0.
  cbn [isNil orb mbind outcome_bind]. eexists. split; [done|].
  by rewrite weights_in_percent_kept, Hd.
Qed.

Lemma destinations_explicit_weights_witness :
  (foldr Z.add 0 [70; 30] = 100) ∧
  ∃ hs, destinationsToHttpRouteDestinations example_route example_two = Ok hs ∧
    HTTP_Weight <$> hs = [70; 30].
Proof.
  split; [done|]. apply (destinations_explicit_weights example_route example_two [70; 30]).
  - done.
  - repeat constructor; unfold in_percent; lia.
  - done.
Defined.

(** The check is on the sum only: a negative weight, or one the truncation to
    [int32] changes, goes through to the VirtualService. *)
Example destinations_negative_weight :
  ∃ hs, destinationsToHttpRouteDestinations example_route
    [example_destination "d0" (Some 150); example_destination "d1" (Some (-50))] = Ok hs ∧
    HTTP_Weight <$> hs = [150; -50].
Proof. eexists. split; vm_compute; reflexivity. Qed.

Example destinations_truncated_weight :
  ∃ hs, destinationsToHttpRouteDestinations example_route
    [example_destination "d0" (Some (2 ^ 32 + 40)); example_destination "d1" (Some (60 - 2 ^ 32))]
    = Ok hs ∧ HTTP_Weight <$> hs = [40; 60].
Proof. eexists. split; vm_compute; reflexivity. Qed.

(** * The rest of a destination *)

Lemma lookup_lt_fmap {A B} (f : A → B) (l : list A) i x :
  l !! i = Some x → (f <$> l) !! i = Some (f x).
Proof. intros Hi. by rewrite list_lookup_fmap, Hi. Qed.

Definition request_headers (h : HTTPRouteDestination) : gmap string string :=
  default ∅ (HTTP_Headers h ≫= λ hd, Header_Set <$> Request hd).

(** The lengths, and the host alone: the two facts other files use. *)
Lemma destinations_weights_length route ds hs :
  destinationsToHttpRouteDestinations route ds = Ok hs → length hs = length ds.
Proof.
  intros (d0 & ds' & _ & _ & [[_ ->] | (_ & _ & ->)])%destinationsToHttp_Ok.
  - unfold inferAll. by rewrite length_imap, length_fmap.
  - by rewrite length_fmap.
Qed.

Lemma destinations_fields route ds hs i d :
  destinationsToHttpRouteDestinations route ds = Ok hs → ds !! i = Some d →
  ∃ h, hs !! i = Some h ∧
    HTTP_Destination h = HTTP_Destination (httpDestination route d) ∧
    HTTP_Headers h = HTTP_Headers (httpDestination route d).
Proof.
  intros Hok Hd. destruct (destinationsToHttp_Ok _ _ _ Hok) as (d0 & ds' & _ & _ & Hhs).
  apply (lookup_lt_fmap (httpDestination route)) in Hd.
  destruct Hhs as [[_ ->] | (_ & _ & ->)]; [|by eexists].
  unfold inferAll. rewrite list_lookup_imap, Hd. by eexists.
Qed.

Lemma destinations_host route ds hs i d :
  destinationsToHttpRouteDestinations route ds = Ok hs → ds !! i = Some d →
  ∃ h, hs !! i = Some h ∧ HTTP_Destination h = Some (mkDestination (serviceName d)).
Proof.
  intros Hok Hd. destruct (destinations_fields _ _ _ _ _ Hok Hd) as (h & Hh & Hdest & _).
  exists h. split; [done|]. rewrite Hdest. unfold httpDestination. by destruct (Weight d).
Qed.

(** The [i]-th route destination points at the Service of the [i]-th
    destination and adds the four CF headers of the app and of the route's
    space and organization. *)
Theorem destinations_target route ds hs i d
    (Hok : destinationsToHttpRouteDestinations route ds = Ok hs) (Hd : ds !! i = Some d) :
  ∃ h, hs !! i = Some h ∧
    HTTP_Destination h = Some (mkDestination (serviceName d)) ∧
    request_headers h !! "CF-App-Id" = Some (App_Guid (App d)) ∧
    request_headers h !! "CF-App-Process-Type" = Some (Process_Type (Process (App d))) ∧
    request_headers h !! "CF-Space-Id"
      = Some (map_get (Labels (Route_ObjectMeta route)) "cloudfoundry.org/space_guid") ∧
    request_headers h !! "CF-Organization-Id"
      = Some (map_get (Labels (Route_ObjectMeta route)) "cloudfoundry.org/org_guid") ∧
    size (request_headers h) = 4%nat.
Proof.
  destruct (destinations_fields _ _ _ _ _ Hok Hd) as (h & Hh & Hdest & Hheaders).
  exists h. unfold request_headers. rewrite Hdest, Hheaders.
  unfold httpDestination. destruct (Weight d); cbn; split_and!; done.
Qed.

Lemma destinations_target_witness :
  ∃ hs d, destinationsToHttpRouteDestinations example_route example_two = Ok hs ∧
    example_two !! 1%nat = Some d ∧
    ∃ h, hs !! 1%nat = Some h ∧ HTTP_Destination h = Some (mkDestination "s-d1").
Proof.
  eexists _, _. split; [vm_compute; reflexivity|]. split; [reflexivity|].
  destruct (destinations_target example_route example_two _ 1%nat
    (example_destination "d1" (Some 30)) ltac:(vm_compute; reflexivity) eq_refl)
    as (h & Hh & Hdest & _).
  exists h. split; [exact Hh | exact Hdest].
Defined.
