(* ===== verification/BuilderStructure.v ===== *)
(** The shape of what VirtualServiceBuilder.Build produces: grouping by FQDN,
    the order of the FQDNs, validation of a group, one VirtualService per
    FQDN, and the independence of the result from everything Go leaves
    unspecified. *)
From S2P Require Import Prelude Runtime Api ResourceNames VirtualServiceBuilder.
From S2P Require Import BuilderWeights.

(** * Grouping *)

Definition routesOf (fqdn : string) (items : list Route) : list Route :=
  filter (λ r, FQDN r = fqdn) items.

Lemma elem_of_routesOf r fqdn items : r ∈ routesOf fqdn items ↔ FQDN r = fqdn ∧ r ∈ items.
Proof. unfold routesOf. by rewrite list_elem_of_filter. Qed.

Lemma groupByFQDN_default rl f : default [] (groupByFQDN rl !! f) = routesOf f (Items rl).
Proof.
  destruct rl as [items]. unfold groupByFQDN. cbn [Items].
  induction items as [|r items IH] using rev_ind; [done|].
  rewrite foldl_snoc. unfold routesOf. rewrite filter_app. fold (routesOf f items).
  rewrite <- IH. destruct (decide (FQDN r = f)) as [<- | Hne].
  - rewrite lookup_insert_eq, filter_cons_True, filter_nil by done. done.
  - rewrite lookup_insert_ne, filter_cons_False, filter_nil, app_nil_r by done. done.
Qed.

Lemma groupByFQDN_None rl f : groupByFQDN rl !! f = None ↔ f ∉ FQDN <$> Items rl.
Proof.
  destruct rl as [items]. unfold groupByFQDN. cbn [Items].
  induction items as [|r items IH] using rev_ind; [by split; [intros _ ?%not_elem_of_nil|]|].
  rewrite foldl_snoc, fmap_app, not_elem_of_app, <- IH. cbn [fmap list_fmap].
  rewrite not_elem_of_cons. destruct (decide (FQDN r = f)) as [<- | Hne].
  - rewrite lookup_insert_eq. split; [done|]. by intros (_ & ? & _).
  - rewrite lookup_insert_ne by done. split; [|tauto]. intros Hn.
    split; [done|]. split; [congruence | apply not_elem_of_nil].
Qed.

Lemma routesOf_nil f items : routesOf f items = [] ↔ f ∉ FQDN <$> items.
Proof.
  rewrite list_elem_of_fmap. split.
  - intros Hnil (r & -> & Hr). apply (not_elem_of_nil r). rewrite <- Hnil.
    by apply elem_of_routesOf.
  - intros Hn. apply elem_of_nil_inv. intros r (Hf & Hr)%elem_of_routesOf.
    apply Hn. eauto.
Qed.

(** [groupByFQDN] partitions the routes: the group of an FQDN is the
    non-empty sublist of the routes that have it, in their order, and an FQDN
    nobody has is absent from the map. *)
Theorem groupByFQDN_lookup rl f :
  groupByFQDN rl !! f =
  match routesOf f (Items rl) with [] => None | g => Some g end.
Proof.
  destruct (groupByFQDN rl !! f) as [g|] eqn:Hg.
  - pose proof (groupByFQDN_default rl f) as Hd. rewrite Hg in Hd. cbn in Hd. subst g.
    destruct (routesOf f (Items rl)) eqn:Hr; [|done].
    apply routesOf_nil in Hr. apply groupByFQDN_None in Hr. congruence.
  - apply groupByFQDN_None, routesOf_nil in Hg. by rewrite Hg.
Qed.

(** * The order of the FQDNs *)

(** The FQDNs of a route list, each once, in increasing order. *)
Definition distinctFQDNs (items : list Route) : list string :=
  merge_sort String.le (remove_dups (FQDN <$> items)).

Lemma elem_of_distinctFQDNs f items : f ∈ distinctFQDNs items ↔ f ∈ FQDN <$> items.
Proof.
  unfold distinctFQDNs. by rewrite merge_sort_Permutation, elem_of_remove_dups.
Qed.

Lemma NoDup_distinctFQDNs items : NoDup (distinctFQDNs items).
Proof. unfold distinctFQDNs. rewrite merge_sort_Permutation. apply NoDup_remove_dups. Qed.

Lemma distinctFQDNs_Permutation items items' :
  items ≡ₚ items' → distinctFQDNs items = distinctFQDNs items'.
Proof.
  intros Hp. apply (StronglySorted_unique String.le);
    [apply StronglySorted_merge_sort; apply _..|].
  apply NoDup_Permutation; [apply NoDup_distinctFQDNs..|].
  intros f. by rewrite !elem_of_distinctFQDNs, Hp.
Qed.

Section structure.
Context {G : GoRuntime} {GL : GoRuntimeLaws G} {K : K8s}.

Lemma map_range_dom {A} (m : gmap string A) f :
  f ∈ (map_range m).*1 ↔ is_Some (m !! f).
Proof.
  rewrite map_range_Permutation, list_elem_of_fmap. split.
  - intros ([k a] & -> & Hin%elem_of_map_to_list). by exists a.
  - intros [a Ha]. exists (f, a). by rewrite elem_of_map_to_list.
Qed.

(** Whatever order the map is ranged over, the slice is sorted. *)
Lemma sortFQDNs_groupByFQDN rl :
  sortFQDNs (groupByFQDN rl) = distinctFQDNs (Items rl).
Proof.
  unfold sortFQDNs, sort_Strings.
  assert (NoDup ((map_range (groupByFQDN rl)).*1)) as Hnd.
  { rewrite map_range_Permutation. apply NoDup_fst_map_to_list. }
  apply (StronglySorted_unique String.le).
  - eapply StronglySorted_weaken; [|apply sort_Slice_Sorted; apply _].
    intros x y. apply ltb_false_le.
  - apply StronglySorted_merge_sort; apply _.
  - rewrite sort_Slice_Permutation.
    apply NoDup_Permutation; [done | apply NoDup_distinctFQDNs|].
    intros f. rewrite map_range_dom, elem_of_distinctFQDNs.
    destruct (groupByFQDN rl !! f) eqn:Hf.
    + split; [intros _ | by eauto].
      destruct (decide (f ∈ FQDN <$> Items rl)) as [|Hn]; [done|].
      apply groupByFQDN_None in Hn. congruence.
    + apply groupByFQDN_None in Hf. split; [by intros [] | done].
Qed.

Lemma cloneLabels_id (template : gmap string string) : cloneLabels template = template.
Proof.
  unfold cloneLabels.
  assert (∀ l : list (string * string), NoDup l.*1 →
    foldl (λ labels kv, <[kv.1 := kv.2]> labels) ∅ l = (list_to_map l : gmap string string)) as Hf.
  { intros l. induction l as [|[k v] l IH] using rev_ind; [done|].
    rewrite fmap_app, NoDup_app. intros (Hl & Hk & _).
    rewrite foldl_snoc, IH by done. cbn. rewrite list_to_map_snoc; [done|].
    intros Hin. apply (Hk k Hin). by left. }
  rewrite Hf.
  - rewrite <- (list_to_map_to_list template).
    apply list_to_map_proper; [|by rewrite list_to_map_to_list, map_range_Permutation].
    rewrite map_range_Permutation. apply NoDup_fst_map_to_list.
  - rewrite map_range_Permutation. apply NoDup_fst_map_to_list.
Qed.

(** * Build as a map over the sorted FQDNs *)

Lemma Build_mapO b rl :
  Build b rl =
  mapO (λ f, fqdnToVirtualService b f (routesOf f (Items rl))) (distinctFQDNs (Items rl)).
Proof.
  unfold Build. rewrite sortFQDNs_groupByFQDN.
  rewrite (foldM_append (λ f, fqdnToVirtualService b f (default [] (groupByFQDN rl !! f)))).
  cbn [app]. rewrite (mapO_ext _ (λ f, fqdnToVirtualService b f (routesOf f (Items rl)))).
  - by destruct (mapO _ _).
  - intros f _. by rewrite groupByFQDN_default.
Qed.
End structure.

(** * Validation of a group *)

(** What [validateRoutesForFQDN] says about one route against the first. *)
Definition routeConflict (r0 r : Route) : option error :=
  if Bool.eqb (Internal (Domain (Route_Spec r0))) (Internal (Domain (Route_Spec r))) then
    if String.eqb (Namespace (Route_ObjectMeta r0)) (Namespace (Route_ObjectMeta r)) then None
    else Some (errors_New
      ("route guid " +:+ Name (Route_ObjectMeta r0) +:+ " and route guid " +:+
       Name (Route_ObjectMeta r) +:+ " share the same FQDN but have different namespaces"))
  else Some (errors_New
      ("route guid " +:+ Name (Route_ObjectMeta r0) +:+ " and route guid " +:+
       Name (Route_ObjectMeta r) +:+
       " disagree on whether or not the domain is internal")).

(** Two routes that can share a VirtualService. *)
Definition compatible (r0 r : Route) : Prop :=
  Internal (Domain (Route_Spec r0)) = Internal (Domain (Route_Spec r)) ∧
  Namespace (Route_ObjectMeta r0) = Namespace (Route_ObjectMeta r).

Lemma routeConflict_None r0 r : routeConflict r0 r = None ↔ compatible r0 r.
Proof.
  unfold routeConflict, compatible.
  destruct (Bool.eqb _ _) eqn:Hi.
  - apply eqb_prop in Hi. destruct (String.eqb_spec (Namespace (Route_ObjectMeta r0))
      (Namespace (Route_ObjectMeta r))); [done|]. split; [done|]. by intros [_ ?].
  - split; [done|]. intros [Heq _]. by rewrite Heq, eqb_reflx in Hi.
Qed.

Lemma validateRoutesForFQDN_eq routes :
  validateRoutesForFQDN routes =
  match routes with
  | [] => Ok tt
  | r0 :: _ =>
      match list_find (λ r, is_Some (routeConflict r0 r)) routes with
      | Some (_, r) => checked (routeConflict r0 r)
      | None => Ok tt
      end
  end.
Proof.
  destruct routes as [|r0 rs]; [done|]. rewrite <- foldM_check.
  apply foldM_ext. intros _ r _. unfold routeConflict. cbn [index lookup list_lookup mbind outcome_bind].
  by destruct (Bool.eqb _ _), (String.eqb _ _).
Qed.

Lemma validateRoutesForFQDN_Ok r0 rs :
  validateRoutesForFQDN (r0 :: rs) = Ok tt ↔ Forall (compatible r0) (r0 :: rs).
Proof.
  rewrite validateRoutesForFQDN_eq.
  destruct (list_find _ (r0 :: rs)) as [[i r]|] eqn:Hf.
  - apply list_find_Some in Hf as (Hi & [e He] & _). rewrite He. split; [done|].
    intros Hall. rewrite Forall_forall in Hall.
    apply list_elem_of_lookup_2, Hall, routeConflict_None in Hi. congruence.
  - apply list_find_None in Hf. split; [intros _|done].
    eapply Forall_impl; [done|]. intros r Hr. apply routeConflict_None.
    by apply eq_None_not_Some.
Qed.

Lemma validateRoutesForFQDN_not_panics routes : ¬ panics (validateRoutesForFQDN routes).
Proof.
  rewrite validateRoutesForFQDN_eq. destruct routes as [|r0 rs]; [by intros []|].
  destruct (list_find _ _) as [[i r]|]; [|by intros []].
  destruct (routeConflict r0 r); by intros [].
Qed.

(** [validateRoutesForFQDN] accepts a group exactly when any two of its
    routes agree on the domain being internal and on the namespace; otherwise
    it returns the error about the first route that disagrees with the head of
    the group; it never panics, the empty group included. *)
Theorem validateRoutesForFQDN_spec routes :
  (validateRoutesForFQDN routes = Ok tt ↔
   ∀ r r', r ∈ routes → r' ∈ routes → compatible r r') ∧
  (∀ e, validateRoutesForFQDN routes = Err e ↔
   ∃ r0 pre r post, head routes = Some r0 ∧ routes = pre ++ r :: post ∧
     Forall (compatible r0) pre ∧ routeConflict r0 r = Some e) ∧
  ¬ panics (validateRoutesForFQDN routes).
Proof.
  split_and!; [| |apply validateRoutesForFQDN_not_panics].
  - destruct routes as [|r0 rs]; [split; [by intros _ ? ? ?%not_elem_of_nil | done]|].
    rewrite validateRoutesForFQDN_Ok, Forall_forall. split.
    + intros Hall r r' [Hi Hn]%Hall [Hi' Hn']%Hall. split; congruence.
    + intros Hall r Hr. apply Hall; [by left | done].
  - intros e. rewrite validateRoutesForFQDN_eq. destruct routes as [|r0 rs].
    { split; [done|]. by intros (? & ? & ? & ? & ? & _). }
    destruct (list_find _ (r0 :: rs)) as [[i r]|] eqn:Hf.
    + apply list_find_Some in Hf as (Hi & [e' He] & Hpre). rewrite He. cbn [checked].
      split.
      * intros [= <-]. exists r0, (take i (r0 :: rs)), r, (drop (S i) (r0 :: rs)).
        split_and!; [done | by rewrite take_drop_middle | | done].
        apply Forall_forall. intros x [j Hj]%list_elem_of_lookup.
        apply lookup_take_Some in Hj as [Hj Hlt]. apply routeConflict_None, eq_None_not_Some.
        by eapply Hpre.
      * intros (r1 & pre & x & post & [= <-] & Hl & Hcomp & Hc). rewrite Hl in *.
        assert (i = length pre) as ->.
        { destruct (lt_eq_lt_dec i (length pre)) as [[Hlt| ->]|Hgt]; [|done|]; exfalso.
          - rewrite lookup_app_l in Hi by done. rewrite Forall_forall in Hcomp.
            apply list_elem_of_lookup_2, Hcomp, routeConflict_None in Hi. congruence.
          - apply (Hpre (length pre) x); [by rewrite list_lookup_middle | done | by rewrite Hc]. }
        rewrite list_lookup_middle in Hi by done. injection Hi as ->. congruence.
    + apply list_find_None in Hf. split; [done|]. intros (r & pre & x & post & [= <-] & Hl & _ & Hc).
      rewrite Forall_forall in Hf. exfalso. apply (Hf x); [|by rewrite Hc].
      rewrite Hl, elem_of_app, elem_of_cons. auto.
Qed.

(** * One group *)

Definition routeMatch (route : Route) : list HTTPMatchRequest :=
  if String.eqb (Path (Route_Spec route)) "" then []
  else [mkHTTPMatchRequest (Some (StringMatch_Prefix (Path (Route_Spec route))))].

(** The HTTP entries one route contributes in a group of [n]. *)
Definition routeEntries (n : nat) (route : Route) : outcome (list HTTPRoute) :=
  match Destinations (Route_Spec route) with
  | [] =>
      if Nat.ltb 1 n then Ok []
      else Ok [mkHTTPRoute (routeMatch route) httpRouteDestinationPlaceholder]
  | ds =>
      hs ← destinationsToHttpRouteDestinations route ds;
      Ok [mkHTTPRoute (routeMatch route) hs]
  end.

(** The VirtualService of a group whose routes are visited in [order]. *)
Definition virtualServiceFor `{K8s} (b : VirtualServiceBuilder) (fqdn : string)
    (r0 : Route) (order : list Route) (entries : list HTTPRoute) : VirtualService :=
  mkVirtualService
    (mkObjectMeta (VirtualServiceName fqdn) (Namespace (Route_ObjectMeta r0)) "" ∅
       {[ "cloudfoundry.org/fqdn" := fqdn ]} (routeToOwnerRef <$> order) [] None)
    (mkVirtualServiceSpec [fqdn]
       (if Internal (Domain (Route_Spec r0)) then [MeshInternalGateway] else IstioGateways b)
       entries).

Section one_group.
Context {G : GoRuntime} {GL : GoRuntimeLaws G} {K : K8s}.

(** [vs] after the loop appended owners [os] and entries [hs]. *)
Definition extend (vs : VirtualService) (os : list OwnerReference) (hs : list HTTPRoute)
    : VirtualService :=
  let m := VS_ObjectMeta vs in
  let s := VS_Spec vs in
  mkVirtualService
    (mkObjectMeta (Name m) (Namespace m) (UID m) (Labels m) (Annotations m)
       (OwnerReferences m ++ os) (Finalizers m) (DeletionTimestamp m))
    (mkVirtualServiceSpec (Hosts s) (Gateways s) (Http s ++ hs)).

Lemma extend_nil vs : extend vs [] [] = vs.
Proof. destruct vs as [[] []]. unfold extend. cbn. by rewrite !app_nil_r. Qed.

Lemma extend_extend vs os hs os' hs' :
  extend (extend vs os hs) os' hs' = extend vs (os ++ os') (hs ++ hs').
Proof. unfold extend. cbn. by rewrite !app_assoc. Qed.

Lemma addRoute_entries n vs r :
  addRoute n vs r =
  (es ← routeEntries n r; Ok (extend vs [routeToOwnerRef r] es)).
Proof.
  unfold addRoute, routeEntries, routeMatch.
  destruct (Destinations (Route_Spec r)) as [|d ds]; cbn [length Nat.eqb negb].
  - destruct vs as [[] []], (String.eqb (Path (Route_Spec r)) ""), (Nat.ltb 1 n);
      unfold extend; cbn; by rewrite ?app_nil_r.
  - destruct (destinationsToHttpRouteDestinations r (d :: ds)); [|done|done].
    by destruct (String.eqb (Path (Route_Spec r)) "").
Qed.

Lemma foldM_addRoute n vs rs :
  foldM (addRoute n) vs rs =
  (ess ← mapO (routeEntries n) rs; Ok (extend vs (routeToOwnerRef <$> rs) (concat ess))).
Proof.
  revert vs. induction rs as [|r rs IH]; intros vs; cbn [foldM mapO].
  { cbn. by rewrite extend_nil. }
  rewrite addRoute_entries. destruct (routeEntries n r) as [es| |]; cbn [mbind outcome_bind];
    [|done|done].
  rewrite IH. destruct (mapO (routeEntries n) rs) as [ess| |]; cbn [mbind outcome_bind];
    [|done|done].
  by rewrite extend_extend.
Qed.

Lemma sortRoutes_Permutation rs : sortRoutes rs ≡ₚ rs.
Proof. apply sort_Slice_Permutation. Qed.

Lemma sortRoutes_Sorted rs :
  StronglySorted (λ r1 r2, String.le (Url (Route_Spec r2)) (Url (Route_Spec r1)))
    (sortRoutes rs).
Proof.
  eapply StronglySorted_weaken; [|apply sort_Slice_Sorted; apply key_gtb_swo].
  intros x y. apply ltb_false_le.
Qed.

Lemma fqdnToVirtualService_unfold b fqdn r0 rs :
  fqdnToVirtualService b fqdn (r0 :: rs) =
  (_ ← validateRoutesForFQDN (r0 :: rs);
   ess ← mapO (routeEntries (S (length rs))) (sortRoutes (r0 :: rs));
   Ok (virtualServiceFor b fqdn r0 (sortRoutes (r0 :: rs)) (concat ess))).
Proof.
  unfold fqdnToVirtualService. cbn [index lookup list_lookup mbind outcome_bind].
  destruct (validateRoutesForFQDN (r0 :: rs)); [|done|done]. cbn [mbind outcome_bind].
  rewrite foldM_addRoute.
  by rewrite (Permutation_length (sortRoutes_Permutation (r0 :: rs))).
Qed.
End one_group.

(** * Valid groups *)

(** Destinations [validateWeights] accepts (a route may have none). *)
Definition valid_destinations (ds : list RouteDestination) : Prop :=
  match ds with
  | [] => True
  | d0 :: _ =>
      uniformlySet d0 ds = true ∧ (Weight d0 = None ∨ int64 (weightSum ds) = 100%Z)
  end.

Definition valid_group (g : list Route) : Prop :=
  match g with
  | [] => False
  | r0 :: _ =>
      Forall (compatible r0) g ∧
      Forall (λ r, valid_destinations (Destinations (Route_Spec r))) g
  end.

Lemma destinationsToHttp_is_ok route d0 ds :
  is_ok (destinationsToHttpRouteDestinations route (d0 :: ds)) ↔ valid_destinations (d0 :: ds).
Proof.
  unfold is_ok, valid_destinations. split.
  - intros [hs (d0' & ds' & [= <- <-] & Hu & Hhs)%destinationsToHttp_Ok].
    split; [done|]. destruct Hhs as [[? _] | (_ & ? & _)]; auto.
  - intros [Hu Hw]. rewrite destinationsToHttp_unfold, validateWeights_eq, Hu.
    destruct (Weight d0) as [w|]; cbn [isNil orb]; [|by eexists].
    destruct Hw as [?|Hw]; [done|]. rewrite Hw. by eexists.
Qed.

Lemma destinationsToHttp_not_panics route d0 ds :
  ¬ panics (destinationsToHttpRouteDestinations route (d0 :: ds)).
Proof.
  rewrite destinationsToHttp_unfold, validateWeights_eq.
  destruct (uniformlySet d0 (d0 :: ds)); [|by intros []].
  destruct (isNil (Weight d0) || _); by intros [].
Qed.

Lemma routeEntries_is_ok n r :
  is_ok (routeEntries n r) ↔ valid_destinations (Destinations (Route_Spec r)).
Proof.
  unfold routeEntries. destruct (Destinations (Route_Spec r)) as [|d0 ds] eqn:Hd.
  { split; [done|]. intros _. destruct (Nat.ltb 1 n); by eexists. }
  rewrite <- (destinationsToHttp_is_ok r d0 ds). unfold is_ok. split.
  - intros [es (hs & Hhs & _)%bind_Ok]. by exists hs.
  - intros [hs Hhs]. rewrite Hhs. by eexists.
Qed.

Lemma routeEntries_not_panics n r : ¬ panics (routeEntries n r).
Proof.
  unfold routeEntries. destruct (Destinations (Route_Spec r)) as [|d0 ds].
  { destruct (Nat.ltb 1 n); by intros []. }
  intros [w [Hw | (hs & _ & [=])]%bind_Panic].
  by apply (destinationsToHttp_not_panics r d0 ds); exists w.
Qed.

Section group_validity.
Context {G : GoRuntime} {GL : GoRuntimeLaws G} {K : K8s}.

Lemma fqdnToVirtualService_is_ok b fqdn g :
  is_ok (fqdnToVirtualService b fqdn g) ↔ valid_group g.
Proof.
  destruct g as [|r0 rs]; [by split; [intros [? [=]]|]|].
  rewrite fqdnToVirtualService_unfold. unfold is_ok, valid_group.
  rewrite <- validateRoutesForFQDN_Ok.
  assert (Forall (λ r, valid_destinations (Destinations (Route_Spec r))) (r0 :: rs) ↔
          is_ok (mapO (routeEntries (S (length rs))) (sortRoutes (r0 :: rs)))) as ->.
  { rewrite <- sortRoutes_Permutation at 1. rewrite mapO_is_ok. apply Forall_proper; [|done].
    intros r. by rewrite routeEntries_is_ok. }
  split.
  - intros [vs ([] & Hv & (ess & Hess & _)%bind_Ok)%bind_Ok]. split; [done|]. by exists ess.
  - intros [Hv [ess Hess]]. rewrite Hv. cbn [mbind outcome_bind]. rewrite Hess. by eexists.
Qed.

Lemma fqdnToVirtualService_not_panics b fqdn g :
  g ≠ [] → ¬ panics (fqdnToVirtualService b fqdn g).
Proof.
  destruct g as [|r0 rs]; [done|]. intros _ [w Hw].
  rewrite fqdnToVirtualService_unfold in Hw.
  apply bind_Panic in Hw as [Hw | (_ & _ & Hw)].
  { by apply (validateRoutesForFQDN_not_panics (r0 :: rs)); exists w. }
  apply bind_Panic in Hw as [Hw | (? & _ & [=])].
  apply (mapO_not_panics (routeEntries (S (length rs))) (sortRoutes (r0 :: rs)));
    [|by exists w].
  intros r _. apply routeEntries_not_panics.
Qed.
End group_validity.
