(* ===== verification/BuilderTheorems.v ===== *)
(** What VirtualServiceBuilder.Build promises, stated on its whole input: it
    never panics, it succeeds exactly on valid groups, it reports the error of
    the least invalid FQDN, it returns one VirtualService per FQDN as the
    specification [describes] says, and its result does not depend on map
    order, on the sorting algorithm or on the order of the input. *)
From S2P Require Import Prelude Runtime Api ResourceNames VirtualServiceBuilder.
From S2P Require Import BuilderWeights BuilderStructure.

(** The specification of one VirtualService of the result. *)
Definition describes `{K8s} (b : VirtualServiceBuilder) (items : list Route)
    (fqdn : string) (vs : VirtualService) : Prop :=
  ∃ r0 rest order ess,
    routesOf fqdn items = r0 :: rest ∧
    Forall (compatible r0) (r0 :: rest) ∧
    order ≡ₚ r0 :: rest ∧
    StronglySorted (λ r1 r2, String.le (Url (Route_Spec r2)) (Url (Route_Spec r1))) order ∧
    mapO (routeEntries (S (length rest))) order = Ok ess ∧
    vs = virtualServiceFor b fqdn r0 order (concat ess).

(** No two routes of one FQDN share a URL. *)
Definition distinctUrls (items : list Route) : Prop :=
  ∀ f, NoDup ((λ r, Url (Route_Spec r)) <$> routesOf f items).

#[export] Instance compatible_equiv : Equivalence compatible.
Proof.
  unfold compatible. split.
  - by intros r.
  - by intros r1 r2 [-> ->].
  - by intros r1 r2 r3 [-> ->] [-> ->].
Qed.

Lemma routesOf_Permutation f items items' :
  items ≡ₚ items' → routesOf f items ≡ₚ routesOf f items'.
Proof. intros Hp. unfold routesOf. by rewrite Hp. Qed.

Lemma Forall_compatible_Permutation r0 rs r0' rs' :
  Forall (compatible r0) (r0 :: rs) → r0 :: rs ≡ₚ r0' :: rs' →
  Forall (compatible r0') (r0' :: rs').
Proof.
  intros Hall Hp. rewrite Hp in Hall. inversion Hall as [|? ? H0 Hrest]; subst.
  constructor; [done|]. eapply Forall_impl; [done|]. intros r Hr. by etrans; [symmetry|].
Qed.

Section build.
Context {G : GoRuntime} {GL : GoRuntimeLaws G} {K : K8s}.
Implicit Types (b : VirtualServiceBuilder) (rl : RouteList).

Lemma routesOf_distinct_nonempty f rl :
  f ∈ distinctFQDNs (Items rl) → routesOf f (Items rl) ≠ [].
Proof. rewrite elem_of_distinctFQDNs. by intros Hf Hn%routesOf_nil. Qed.

Lemma fqdnToVirtualService_describes b rl f vs :
  fqdnToVirtualService b f (routesOf f (Items rl)) = Ok vs →
  describes b (Items rl) f vs.
Proof.
  destruct (routesOf f (Items rl)) as [|r0 rest] eqn:Hg; [done|].
  rewrite fqdnToVirtualService_unfold.
  intros ([] & Hv%validateRoutesForFQDN_Ok & (ess & Hess & [= <-])%bind_Ok)%bind_Ok.
  exists r0, rest, (sortRoutes (r0 :: rest)), ess.
  split_and!; [done..| apply sortRoutes_Permutation | apply sortRoutes_Sorted | done | done].
Qed.

Lemma Build_describes b rl vss :
  Build b rl = Ok vss →
  Forall2 (describes b (Items rl)) (distinctFQDNs (Items rl)) vss.
Proof.
  rewrite Build_mapO. intros Hvss%mapO_Ok. eapply Forall2_impl; [done|].
  intros f vs. apply fqdnToVirtualService_describes.
Qed.

Lemma Build_panic_free b rl : ¬ panics (Build b rl).
Proof.
  rewrite Build_mapO. apply mapO_not_panics.
  intros f Hf. by apply fqdnToVirtualService_not_panics, routesOf_distinct_nonempty.
Qed.

(** [Build] succeeds exactly when every FQDN's group is valid: its
    routes agree on internal/external and on the namespace, and each of
    their destination lists passes the weight rules. *)
Theorem Build_succeeds_iff b rl :
  is_ok (Build b rl) ↔
  ∀ f, f ∈ FQDN <$> Items rl → valid_group (routesOf f (Items rl)).
Proof.
  rewrite Build_mapO, mapO_is_ok, Forall_forall.
  setoid_rewrite elem_of_distinctFQDNs. by setoid_rewrite fqdnToVirtualService_is_ok.
Qed.

(** C27: on failure [Build] returns no partial result, but the error of the
    least FQDN (byte-wise) whose group is invalid; and it never panics: the
    indexing [routes[0]] and [destinations[0]] is always in range. *)
Theorem Build_error_iff b rl :
  (∀ e, Build b rl = Err e ↔
   ∃ pre f post, distinctFQDNs (Items rl) = pre ++ f :: post ∧
     Forall (λ f', valid_group (routesOf f' (Items rl))) pre ∧
     ¬ valid_group (routesOf f (Items rl)) ∧
     fqdnToVirtualService b f (routesOf f (Items rl)) = Err e) ∧
  ¬ panics (Build b rl).
Proof.
  split; [|apply Build_panic_free]. intros e. rewrite Build_mapO, mapO_Err. split.
  - intros (pre & f & post & Hl & Hpre & Hf). exists pre, f, post. split_and!; [done| | |done].
    + eapply Forall_impl; [done|]. intros f'. by rewrite fqdnToVirtualService_is_ok.
    + rewrite <- (fqdnToVirtualService_is_ok b f), Hf. by intros [].
  - intros (pre & f & post & Hl & Hpre & _ & Hf). exists pre, f, post. split_and!; [done| |done].
    eapply Forall_impl; [done|]. intros f'. by rewrite fqdnToVirtualService_is_ok.
Qed.

(** C12: refinement: the result lists, in increasing order of FQDN and with
    no duplicates, the VirtualService the specification describes for every
    FQDN of the input. *)
Theorem Build_refines b rl vss (Hok : Build b rl = Ok vss) :
  Forall2 (describes b (Items rl)) (distinctFQDNs (Items rl)) vss.
Proof. by apply Build_describes. Qed.
End build.

(** * Independence of what Go leaves open *)

Lemma sorted_by_url_unique (l l' : list Route) :
  let R := λ r1 r2, String.le (Url (Route_Spec r2)) (Url (Route_Spec r1)) in
  NoDup ((λ r, Url (Route_Spec r)) <$> l) →
  StronglySorted R l → StronglySorted R l' → l ≡ₚ l' → l = l'.
Proof.
  intros R Hnd Hl Hl' Hp. apply (StronglySorted_unique_strong R); [|done..].
  intros r1 r2 H1 H2 H12 H21. apply (NoDup_fmap_inj_in _ l _ _ Hnd); [done| |].
  - by rewrite Hp.
  - by apply (anti_symm String.le).
Qed.

Lemma fqdnToVirtualService_independent (G1 G2 : GoRuntime) {L1 : GoRuntimeLaws G1}
    {L2 : GoRuntimeLaws G2} {K : K8s} b f g g' vs :
  g ≡ₚ g' → NoDup ((λ r, Url (Route_Spec r)) <$> g) →
  @fqdnToVirtualService G1 K b f g = Ok vs → @fqdnToVirtualService G2 K b f g' = Ok vs.
Proof.
  destruct g as [|r0 rs]; [done|]. intros Hp Hnd.
  destruct g' as [|r0' rs']; [by apply Permutation_length in Hp|].
  rewrite !fqdnToVirtualService_unfold.
  intros ([] & Hv%validateRoutesForFQDN_Ok & (ess & Hess & [= <-])%bind_Ok)%bind_Ok.
  pose proof (Forall_compatible_Permutation _ _ _ _ Hv Hp) as Hv'.
  rewrite (proj2 (validateRoutesForFQDN_Ok r0' rs') Hv'). cbn [mbind outcome_bind].
  assert (@sortRoutes G1 (r0 :: rs) = @sortRoutes G2 (r0' :: rs')) as Hsort.
  { apply sorted_by_url_unique; [|apply sortRoutes_Sorted..|].
    - by rewrite sortRoutes_Permutation.
    - by rewrite !sortRoutes_Permutation. }
  assert (length rs = length rs') as Hlen.
  { apply Permutation_length in Hp. cbn in Hp. lia. }
  rewrite <- Hsort, <- Hlen, Hess. cbn [mbind outcome_bind].
  assert (compatible r0' r0) as [Hi Hn].
  { rewrite Forall_forall in Hv'. apply Hv'. rewrite <- Hp. by left. }
  unfold virtualServiceFor. by rewrite Hi, Hn.
Qed.

Lemma Build_independent (G1 G2 : GoRuntime) (L1 : GoRuntimeLaws G1)
    (L2 : GoRuntimeLaws G2) (K : K8s) b rl rl' vss :
  Items rl ≡ₚ Items rl' → distinctUrls (Items rl) →
  @Build G1 K b rl = Ok vss → @Build G2 K b rl' = Ok vss.
Proof.
  intros Hp Hurls. rewrite (Build_mapO (G:=G1)), (Build_mapO (G:=G2)).
  rewrite <- (distinctFQDNs_Permutation _ _ Hp), !mapO_Ok. intros Hok.
  eapply Forall2_impl; [done|]. intros f vs. apply (fqdnToVirtualService_independent G1 G2);
    [by apply routesOf_Permutation | apply Hurls].
Qed.

Lemma distinctUrls_Permutation items items' :
  items ≡ₚ items' → distinctUrls items → distinctUrls items'.
Proof.
  intros Hp Hd f. specialize (Hd f). rewrite (routesOf_Permutation f _ _ Hp) in Hd. done.
Qed.

(** C13: with distinct URLs per FQDN the result of [Build] is a function of the
    set of routes alone: with another Go runtime (map order, sorting
    algorithm) and another order of the same routes it succeeds just as well,
    with the same VirtualServices. *)
Theorem Build_deterministic (G1 G2 : GoRuntime) (L1 : GoRuntimeLaws G1)
    (L2 : GoRuntimeLaws G2) (K : K8s) b rl rl' vss
    (Hp : Items rl ≡ₚ Items rl') (Hurls : distinctUrls (Items rl)) :
  @Build G1 K b rl = Ok vss ↔ @Build G2 K b rl' = Ok vss.
Proof.
  split; apply Build_independent; [done..| by symmetry | by eapply distinctUrls_Permutation].
Qed.
