(* ===== verification/BuilderRouting.v ===== *)
(** How the HTTP entries of a generated VirtualService route requests: Istio
    takes the first entry that matches, so the order [sortRoutes] gives them
    (greatest URL first) has to put the longest path prefix first; and which
    entries a group of routes produces. *)
From S2P Require Import Prelude Runtime Api ResourceNames VirtualServiceBuilder.
From S2P Require Import BuilderWeights BuilderStructure BuilderTheorems.
From Stdlib Require Import Ascii.

(** * Prefixes and the byte order *)

Lemma ltb_app_l (f p q : string) : String.ltb (f +:+ p) (f +:+ q) = String.ltb p q.
Proof.
  induction f as [|c f IH]; [done|].
  change (String c f +:+ p) with (String c (f +:+ p)).
  change (String c f +:+ q) with (String c (f +:+ q)).
  unfold String.ltb in *. cbn [String.compare]. unfold Ascii.compare.
  by rewrite N.compare_refl.
Qed.

Lemma le_app_l (f p q : string) : String.le (f +:+ p) (f +:+ q) ↔ String.le p q.
Proof. by rewrite <- !ltb_false_le, ltb_app_l. Qed.

(** Of two prefixes of one string the shorter is smaller in the byte order. *)
Lemma shorter_prefix_ltb (s p q : string) :
  String.prefix p s = true → String.prefix q s = true →
  String.length p < String.length q → String.ltb p q = true.
Proof.
  revert p q. induction s as [|c s IH]; intros [|a p] [|b q]; simpl; try done; try lia.
  destruct (ascii_dec a c) as [->|]; [|done]. destruct (ascii_dec b c) as [->|]; [|done].
  intros Hp Hq Hlt. unfold String.ltb. cbn [String.compare]. unfold Ascii.compare.
  rewrite N.compare_refl. apply IH; [done..|lia].
Qed.

Lemma greater_prefix_longer (s p q : string) :
  String.prefix p s = true → String.prefix q s = true →
  String.le q p → String.length q ≤ String.length p.
Proof.
  intros Hp Hq Hle. destruct (decide (String.length p < String.length q)) as [Hlt|]; [|lia].
  pose proof (shorter_prefix_ltb s p q Hp Hq Hlt) as Hltb.
  apply ltb_false_le in Hle. congruence.
Qed.

(** * Which requests an entry matches *)

(** The URI prefix of an entry; an entry with no match condition matches every
    path, as the empty prefix does. *)
Definition entry_prefix (h : HTTPRoute) : string :=
  match Match h with
  | mkHTTPMatchRequest (Some (StringMatch_Prefix p)) :: _ => p
  | _ => ""
  end.

Definition entry_matches (path : string) (h : HTTPRoute) : bool :=
  String.prefix (entry_prefix h) path.

(** The entry a request is routed by: the first that matches. *)
Definition first_match (path : string) (hs : list HTTPRoute) : option HTTPRoute :=
  snd <$> list_find (λ h, entry_matches path h = true) hs.

Lemma entry_prefix_routeMatch r hs : entry_prefix (mkHTTPRoute (routeMatch r) hs) = Path (Route_Spec r).
Proof.
  unfold entry_prefix, routeMatch. cbn [Match].
  by destruct (String.eqb_spec (Path (Route_Spec r)) "") as [->|].
Qed.

(** * The entries of a group *)

(** The routes of a group that get an entry: those with destinations, or the
    only route there is. *)
Definition has_entry (n : nat) (r : Route) : bool :=
  negb (Nat.eqb (length (Destinations (Route_Spec r))) 0) || negb (Nat.ltb 1 n).

(** The entry of a route that gets one. *)
Definition is_entry_of (r : Route) (h : HTTPRoute) : Prop :=
  Match h = routeMatch r ∧
  match Destinations (Route_Spec r) with
  | [] => HTTP_Route h = httpRouteDestinationPlaceholder
  | ds => destinationsToHttpRouteDestinations r ds = Ok (HTTP_Route h)
  end.

Lemma routeEntries_Ok n r es :
  routeEntries n r = Ok es →
  if has_entry n r then ∃ h, es = [h] ∧ is_entry_of r h else es = [].
Proof.
  unfold routeEntries, has_entry, is_entry_of.
  destruct (Destinations (Route_Spec r)) as [|d ds] eqn:Hd; cbn [length Nat.eqb negb orb].
  - destruct (Nat.ltb 1 n); intros [= <-]; cbn [negb]; [done|]. by eexists.
  - intros (hs & Hhs & [= <-])%bind_Ok. by eexists.
Qed.

Lemma entries_of_order n order ess :
  mapO (routeEntries n) order = Ok ess →
  Forall2 is_entry_of (filter (λ r, has_entry n r = true) order) (concat ess).
Proof.
  rewrite mapO_Ok. induction 1 as [|r es order ess Hr _ IH]; [constructor|].
  cbn [concat]. apply routeEntries_Ok in Hr. destruct (has_entry n r) eqn:He.
  - destruct Hr as (h & -> & Hh). rewrite filter_cons_True by done. by constructor.
  - rewrite Hr, filter_cons_False by congruence. done.
Qed.

Lemma is_entry_of_prefix r h : is_entry_of r h → entry_prefix h = Path (Route_Spec r).
Proof.
  intros [Hm _]. destruct h as [m hs]. cbn in Hm. subst m. apply entry_prefix_routeMatch.
Qed.

(** * Longest prefix first *)

(** Cloud Controller sets the URL of a route to its FQDN and path. *)
Definition url_consistent (r : Route) : Prop :=
  Url (Route_Spec r) = FQDN r +:+ Path (Route_Spec r).

Lemma StronglySorted_filter {A} (R : relation A) (P : A → Prop) `{∀ x, Decision (P x)} l :
  StronglySorted R l → StronglySorted R (filter P l).
Proof.
  induction 1 as [|x l Hs IH Hx]; [constructor|].
  destruct (decide (P x)); [rewrite filter_cons_True | rewrite filter_cons_False]; [|done..].
  constructor; [done|]. rewrite Forall_forall in *.
  intros y [_ Hy]%list_elem_of_filter. auto.
Qed.

Lemma first_match_Some path hs h :
  first_match path hs = Some h →
  ∃ i, hs !! i = Some h ∧ entry_matches path h = true ∧
    ∀ j h', hs !! j = Some h' → entry_matches path h' = true → i ≤ j.
Proof.
  unfold first_match. destruct (list_find _ hs) as [[i h0]|] eqn:Hf; [|done].
  intros [= <-]. apply list_find_Some in Hf as (Hi & Hm & Hlt). exists i. split_and!; [done..|].
  intros j h' Hj Hm'. destruct (decide (i ≤ j)); [done|].
  by destruct (Hlt j h' Hj ltac:(lia)).
Qed.

Section routing.
Context {G : GoRuntime} {GL : GoRuntimeLaws G} {K : K8s}.

(** The entries of a described VirtualService are sorted by prefix. *)
Lemma describes_sorted_prefixes b items f vs i j hi hj :
  describes b items f vs → Forall url_consistent items →
  Http (VS_Spec vs) !! i = Some hi → Http (VS_Spec vs) !! j = Some hj → i < j →
  String.le (entry_prefix hj) (entry_prefix hi).
Proof.
  intros (r0 & rest & order & ess & Hg & _ & Hp & Hs & Hess & ->) Hurl Hi Hj Hij.
  cbn [VS_Spec virtualServiceFor Http] in Hi, Hj.
  apply entries_of_order in Hess.
  apply (StronglySorted_filter _ (λ r, has_entry (S (length rest)) r = true)) in Hs.
  destruct (Forall2_lookup_r _ _ _ _ _ Hess Hi) as (ri & Hri & Hei).
  destruct (Forall2_lookup_r _ _ _ _ _ Hess Hj) as (rj & Hrj & Hej).
  rewrite (is_entry_of_prefix ri hi), (is_entry_of_prefix rj hj) by done.
  pose proof (StronglySorted_lookup _ _ i j ri rj Hs Hri Hrj Hij) as Hle.
  assert (∀ k r, filter (λ r, has_entry (S (length rest)) r = true) order !! k = Some r →
    Url (Route_Spec r) = f +:+ Path (Route_Spec r)) as Hu.
  { intros k r Hr%list_elem_of_lookup_2. apply list_elem_of_filter in Hr as [_ Hr].
    rewrite Hp, <- Hg in Hr. apply elem_of_routesOf in Hr as [<- Hr].
    rewrite Forall_forall in Hurl. by apply Hurl. }
  cbn in Hle. rewrite (Hu i ri Hri), (Hu j rj Hrj) in Hle. by apply le_app_l in Hle.
Qed.

(** C15: longest prefix wins: when every route's URL is its FQDN and path, the
    entry Istio picks for a request (the first that matches) has the longest
    path prefix among all the entries that match. *)
Theorem first_match_longest_prefix b rl vss vs path h h'
    (Hurl : Forall url_consistent (Items rl)) (Hok : Build b rl = Ok vss)
    (Hvs : vs ∈ vss) (Hfirst : first_match path (Http (VS_Spec vs)) = Some h)
    (Hin : h' ∈ Http (VS_Spec vs)) (Hm : entry_matches path h' = true) :
  entry_matches path h = true ∧
  String.length (entry_prefix h') ≤ String.length (entry_prefix h).
Proof.
  apply Build_describes in Hok. apply list_elem_of_lookup in Hvs as [k Hvs].
  destruct (Forall2_lookup_r _ _ _ _ _ Hok Hvs) as (f & _ & Hdesc).
  apply first_match_Some in Hfirst as (i & Hi & Hmi & Hmin). split; [done|].
  apply list_elem_of_lookup in Hin as [j Hj]. pose proof (Hmin j h' Hj Hm) as Hij.
  destruct (decide (i = j)) as [->|Hne]; [by simplify_eq|].
  apply (greater_prefix_longer path); [done..|].
  eapply describes_sorted_prefixes; [done|done|done|done|lia].
Qed.

(** * What else a VirtualService of the result holds *)

Lemma Build_lookup b rl vss k vs :
  Build b rl = Ok vss → vss !! k = Some vs →
  ∃ f, distinctFQDNs (Items rl) !! k = Some f ∧ describes b (Items rl) f vs.
Proof.
  intros Hok%Build_describes Hvs.
  destruct (Forall2_lookup_r _ _ _ _ _ Hok Hvs) as (f & Hf & Hd). eauto.
Qed.

(** C14: the [k]-th VirtualService belongs to the [k]-th FQDN: it is named
    after it, serves exactly that host, lives in the namespace and on the
    gateways of its routes, is owned by every route of the FQDN and nobody
    else, and has one HTTP entry per route that has destinations (or for
    the only route). *)
Theorem Build_virtualservice b rl vss k vs f r
    (Hok : Build b rl = Ok vss) (Hvs : vss !! k = Some vs)
    (Hf : distinctFQDNs (Items rl) !! k = Some f) (Hr : r ∈ routesOf f (Items rl)) :
  let g := routesOf f (Items rl) in
  Name (VS_ObjectMeta vs) = VirtualServiceName f ∧
  Namespace (VS_ObjectMeta vs) = Namespace (Route_ObjectMeta r) ∧
  Annotations (VS_ObjectMeta vs) = {[ "cloudfoundry.org/fqdn" := f ]} ∧
  Hosts (VS_Spec vs) = [f] ∧
  Gateways (VS_Spec vs) =
    (if Internal (Domain (Route_Spec r)) then [MeshInternalGateway] else IstioGateways b) ∧
  OwnerReferences (VS_ObjectMeta vs) ≡ₚ routeToOwnerRef <$> g ∧
  length (Http (VS_Spec vs)) = length (filter (λ r, has_entry (length g) r = true) g).
Proof.
  intros g. destruct (Build_lookup _ _ _ _ _ Hok Hvs)
    as (f' & Hf' & r0 & rest & order & ess & Hg & Hc & Hp & _ & Hess & ->).
  simplify_eq. fold g in Hg. rewrite Forall_forall in Hc.
  assert (compatible r0 r) as [Hi Hn] by (apply Hc; by rewrite <- Hg).
  unfold virtualServiceFor. cbn [VS_ObjectMeta VS_Spec Name Namespace Annotations
    OwnerReferences Hosts Gateways Http].
  rewrite <- Hi, <- Hn. split_and!; [done..| |].
  - by rewrite Hp, Hg.
  - apply entries_of_order, Forall2_length in Hess. rewrite <- Hess.
    apply Permutation_length. rewrite Hg. cbn [length]. by rewrite Hp.
Qed.

(** A route without destinations: alone on its FQDN it gets an entry with
    the placeholder destination; several of them get a VirtualService with
    no HTTP entry at all. *)
Theorem destinationless_group b f r0 rest vs
    (Hnone : ∀ r, r ∈ r0 :: rest → Destinations (Route_Spec r) = [])
    (Hok : fqdnToVirtualService b f (r0 :: rest) = Ok vs) :
  Http (VS_Spec vs) =
    match rest with
    | [] => [mkHTTPRoute (routeMatch r0) httpRouteDestinationPlaceholder]
    | _ => []
    end.
Proof.
  rewrite fqdnToVirtualService_unfold in Hok.
  apply bind_Ok in Hok as ([] & _ & (ess & Hess & [= <-])%bind_Ok). cbn.
  destruct rest as [|r1 rest].
  - assert (sortRoutes [r0] = [r0]) as Hsort.
    { apply Permutation_singleton_r, sortRoutes_Permutation. }
    rewrite Hsort in Hess. cbn [mapO length] in Hess. unfold routeEntries in Hess.
    rewrite (Hnone r0) in Hess by by left. by injection Hess as <-.
  - apply entries_of_order in Hess.
    assert (filter (λ r, has_entry (S (length (r1 :: rest))) r = true)
      (sortRoutes (r0 :: r1 :: rest)) = []) as Hnil.
    { apply elem_of_nil_inv. intros r [He Hr]%list_elem_of_filter.
      rewrite sortRoutes_Permutation in Hr. unfold has_entry in He.
      by rewrite (Hnone r Hr) in He. }
    rewrite Hnil in Hess. by inversion Hess.
Qed.
End routing.

(** * Witnesses *)

Definition example_meta (name uid : string) : ObjectMeta :=
  mkObjectMeta name "workload-namespace" uid
    {[ "cloudfoundry.org/space_guid" := "space-guid-0" ]} ∅ [] [] None.

Definition example_http_route (name path : string) (ds : list RouteDestination) : Route :=
  mkRoute (mkTypeMeta "Route" "networking.cloudfoundry.org/v1alpha1")
    (example_meta name (name +:+ "-uid"))
    (mkRouteSpec "test0" path ("test0.domain0.example.com" +:+ path)
       (mkRouteDomain "domain0.example.com" false) ds)
    (mkRouteStatus []).

Definition shallow_route : Route :=
  example_http_route "route-guid-0" "/path0" [example_destination "d0" (Some 100%Z)].
Definition deep_route : Route :=
  example_http_route "route-guid-1" "/path0/deeper" [example_destination "d1" None].
Definition example_routes : RouteList := mkRouteList [shallow_route; deep_route].
Definition example_builder : VirtualServiceBuilder :=
  mkVirtualServiceBuilder ["some-gateway0"].

#[local] Existing Instance go_reference.
#[local] Existing Instance k8s_reference.

(** The VirtualService of the example, by evaluation. *)
Definition example_built : list VirtualService :=
  match Build example_builder example_routes with Ok vss => vss | _ => [] end.

Lemma example_Build : Build example_builder example_routes = Ok example_built.
Proof. vm_compute. reflexivity. Qed.

Definition example_vs : VirtualService :=
  default (named_VirtualService "" "") (head example_built).

Lemma first_match_longest_prefix_witness :
  ∃ h h', first_match "/path0/deeper/x" (Http (VS_Spec example_vs)) = Some h ∧
    h' ∈ Http (VS_Spec example_vs) ∧ entry_prefix h' = "/path0" ∧
    entry_prefix h = "/path0/deeper" ∧
    (entry_matches "/path0/deeper/x" h = true ∧
     String.length (entry_prefix h') ≤ String.length (entry_prefix h)).
Proof.
  eexists _, (default (mkHTTPRoute [] []) (Http (VS_Spec example_vs) !! 1)).
  split; [vm_compute; reflexivity|]. split; [|split; [vm_compute; reflexivity|]].
  { apply (list_elem_of_lookup_2 _ 1). vm_compute. reflexivity. }
  split; [vm_compute; reflexivity|].
  apply (first_match_longest_prefix example_builder example_routes example_built example_vs).
  - repeat constructor.
  - exact example_Build.
  - apply (list_elem_of_lookup_2 _ 0). vm_compute. reflexivity.
  - vm_compute. reflexivity.
  - apply (list_elem_of_lookup_2 _ 1). vm_compute. reflexivity.
  - vm_compute. reflexivity.
Defined.

Lemma Build_virtualservice_witness :
  Name (VS_ObjectMeta example_vs) = VirtualServiceName "test0.domain0.example.com" ∧
  length (Http (VS_Spec example_vs)) = 2.
Proof.
  destruct (Build_virtualservice example_builder example_routes example_built 0 example_vs
    "test0.domain0.example.com" deep_route) as (Hname & _ & _ & _ & _ & _ & Hlen).
  - exact example_Build.
  - vm_compute. reflexivity.
  - vm_compute. reflexivity.
  - apply (list_elem_of_lookup_2 _ 1). vm_compute. reflexivity.
  - split; [exact Hname|]. rewrite Hlen. vm_compute. reflexivity.
Defined.

Lemma destinationless_group_witness :
  ∃ vs, fqdnToVirtualService example_builder "test0.domain0.example.com"
      [example_http_route "r0" "/a" []; example_http_route "r1" "/b" []] = Ok vs ∧
    Http (VS_Spec vs) = [].
Proof.
  eexists. split; [vm_compute; reflexivity|].
  apply (destinationless_group example_builder "test0.domain0.example.com"
    (example_http_route "r0" "/a" []) [example_http_route "r1" "/b" []]).
  - intros r Hr. rewrite !elem_of_cons in Hr. destruct Hr as [-> | [-> | Hr]]; [done..|].
    by apply not_elem_of_nil in Hr.
  - vm_compute. reflexivity.
Defined.

Lemma Build_refines_witness :
  Forall2 (describes example_builder (Items example_routes))
    (distinctFQDNs (Items example_routes)) example_built.
Proof. apply (Build_refines example_builder example_routes example_built example_Build). Defined.

Lemma Build_deterministic_witness :
  Build example_builder (mkRouteList [deep_route; shallow_route]) = Ok example_built.
Proof.
  apply (Build_deterministic go_reference go_reference _ _ _ example_builder example_routes
    (mkRouteList [deep_route; shallow_route]) example_built).
  - apply Permutation_swap.
  - intros f. apply NoDup_fmap_2_strong.
    + intros r r' [_ Hr]%list_elem_of_filter [_ Hr']%list_elem_of_filter.
      cbn [Items example_routes] in Hr, Hr'. rewrite !elem_of_cons in Hr, Hr'.
      by destruct Hr as [-> | [-> | ?%not_elem_of_nil]], Hr' as [-> | [-> | ?%not_elem_of_nil]].
    + apply NoDup_filter. apply (bool_decide_unpack _). vm_compute. exact I.
  - exact example_Build.
Defined.

Lemma Build_succeeds_iff_witness :
  valid_group (routesOf "test0.domain0.example.com" (Items example_routes)).
Proof.
  apply (Build_succeeds_iff example_builder example_routes); [eexists; exact example_Build|].
  apply (list_elem_of_lookup_2 _ 0). vm_compute. reflexivity.
Defined.

(** Two routes of one FQDN that disagree on the namespace. *)
Definition stray_route : Route :=
  mkRoute (Route_TypeMeta deep_route) (named_meta "other-namespace" "route-guid-2")
    (Route_Spec deep_route) (Route_Status deep_route).
Definition stray_error : error :=
  errors_New "route guid route-guid-0 and route guid route-guid-2 share the same FQDN but have different namespaces".

Lemma Build_error_iff_witness :
  let rl := mkRouteList [shallow_route; stray_route] in
  ∃ pre f post, distinctFQDNs (Items rl) = pre ++ f :: post ∧
    Forall (λ f', valid_group (routesOf f' (Items rl))) pre ∧
    ¬ valid_group (routesOf f (Items rl)) ∧
    fqdnToVirtualService example_builder f (routesOf f (Items rl)) = Err stray_error.
Proof.
  apply (Build_error_iff example_builder (mkRouteList [shallow_route; stray_route])).
  vm_compute. reflexivity.
Defined.
