(* ===== verification/ServiceBuilder.v ===== *)
(** src/routecontroller/resourcebuilders/service_builder.go: one Kubernetes
    Service per destination of a Route, and its contract with the
    VirtualServices of the same Route. *)
From S2P Require Import Prelude Runtime Api ResourceNames.

Section definitions.
Context `{K8s}.

(** The closure assigns the three metadata maps and lists, the selector and
    the ports of [*actualService], and nothing else. *)
Definition BuildMutateFunction (desired : Service) (actual : Service)
    : Service * option error :=
  let m := Service_ObjectMeta actual in
  let d := Service_ObjectMeta desired in
  (mkService
     (mkObjectMeta (Name m) (Namespace m) (UID m) (Labels d) (Annotations d)
        (OwnerReferences d) (Finalizers m) (DeletionTimestamp m))
     (mkServiceSpec (Service_Selector (Service_Spec desired))
        (Ports (Service_Spec desired)) (ClusterIP (Service_Spec actual))),
   None).

Definition httpPortName : string := "http".

(** The body of the loop: [*dest.Port] panics on a nil port. *)
Definition buildService (route : Route) (dest : RouteDestination) : outcome Service :=
  let m := Route_ObjectMeta route in
  port ← deref (Port dest);
  let labels : gmap string string := ∅ in
  let labels := <["cloudfoundry.org/app_guid" := App_Guid (App dest)]> labels in
  let labels :=
    <["cloudfoundry.org/process_type" := Process_Type (Process (App dest))]> labels in
  let labels := <["cloudfoundry.org/route_guid" := Name m]> labels in
  let annotations : gmap string string :=
    <["cloudfoundry.org/route-fqdn" := FQDN route]> ∅ in
  Ok (mkService
    (mkObjectMeta (serviceName dest) (Namespace m) "" labels annotations
       [routeToOwnerRef route] [] None)
    (mkServiceSpec (MatchLabels (Selector dest))
       [mkServicePort (int32 port) httpPortName] "")).

Definition Build (route : Route) : outcome (list Service) :=
  foldM (λ services dest,
    service ← buildService route dest; Ok (services ++ [service]))
    [] (Destinations (Route_Spec route)).
End definitions.

(** * Specification *)

(** The Service a destination with port [p] needs. *)
Definition serviceFor `{K8s} (route : Route) (dest : RouteDestination) (p : Z) : Service :=
  mkService
    (mkObjectMeta (serviceName dest) (Namespace (Route_ObjectMeta route)) ""
       (list_to_map
          [("cloudfoundry.org/route_guid", Name (Route_ObjectMeta route));
           ("cloudfoundry.org/process_type", Process_Type (Process (App dest)));
           ("cloudfoundry.org/app_guid", App_Guid (App dest))])
       {[ "cloudfoundry.org/route-fqdn" := FQDN route ]} [routeToOwnerRef route] [] None)
    (mkServiceSpec (MatchLabels (Selector dest)) [mkServicePort (int32 p) "http"] "").

Section build.
Context {K : K8s}.
Implicit Types (route : Route) (dest : RouteDestination).

Lemma buildService_spec route dest :
  buildService route dest =
  match Port dest with
  | Some p => Ok (serviceFor route dest p)
  | None => Panic "nil pointer dereference"
  end.
Proof. unfold buildService. by destruct (Port dest). Qed.

Lemma Services_mapO route :
  Build route = mapO (buildService route) (Destinations (Route_Spec route)).
Proof.
  unfold Build. rewrite (foldM_append (buildService route)).
  by destruct (mapO _ _).
Qed.

Lemma Services_Ok route services :
  Build route = Ok services ↔
  Forall2 (λ dest service, ∃ p, Port dest = Some p ∧ service = serviceFor route dest p)
    (Destinations (Route_Spec route)) services.
Proof.
  rewrite Services_mapO, mapO_Ok.
  assert (∀ dest service, buildService route dest = Ok service ↔
    ∃ p, Port dest = Some p ∧ service = serviceFor route dest p) as Hone.
  { intros dest service. rewrite buildService_spec. destruct (Port dest) as [p|].
    - split; [intros [= <-]; eauto | by intros (? & [= <-] & ->)].
    - split; [done | by intros (? & ? & ?)]. }
  split; intros Hall; (eapply Forall2_impl; [exact Hall|]); intros dest service; apply Hone.
Qed.

Lemma Services_cases route :
  is_ok (Build route) ∨
  panics (Build route) ∧ Exists (λ dest, Port dest = None) (Destinations (Route_Spec route)).
Proof.
  destruct (decide (Forall (λ dest, is_Some (Port dest)) (Destinations (Route_Spec route))))
    as [Hall|Hnot].
  - left. rewrite Services_mapO, mapO_is_ok. eapply Forall_impl; [done|].
    intros dest [p Hp]. rewrite buildService_spec, Hp. by eexists.
  - right. apply not_Forall_Exists in Hnot; [|apply _].
    assert (Exists (λ dest, Port dest = None) (Destinations (Route_Spec route))) as Hex.
    { eapply Exists_impl; [done|]. intros dest Hn. by apply eq_None_not_Some. }
    split; [|done]. destruct (Build route) as [services|e|w] eqn:Hb; [| |by exists w].
    + apply Services_Ok in Hb. apply Exists_exists in Hex as (dest & Hin & Hnone).
      apply list_elem_of_lookup in Hin as [i Hi].
      destruct (Forall2_lookup_l _ _ _ _ _ Hb Hi) as (? & _ & p & Hp & _). congruence.
    + rewrite Services_mapO in Hb. apply mapO_Err in Hb as (? & dest & ? & _ & _ & He).
      rewrite buildService_spec in He. by destruct (Port dest).
Qed.

(** C30: the builder either returns exactly one Service per destination, in
    order, each as specified, or panics, and it panics exactly when some
    destination has no port; it never returns an error. *)
Theorem Services_spec route :
  (∃ services, Build route = Ok services ∧
    Forall2 (λ dest service, ∃ p, Port dest = Some p ∧ service = serviceFor route dest p)
      (Destinations (Route_Spec route)) services ∧
    Forall (λ dest, is_Some (Port dest)) (Destinations (Route_Spec route)))
  ∨ panics (Build route) ∧
    Exists (λ dest, Port dest = None) (Destinations (Route_Spec route)).
Proof.
  destruct (Services_cases route) as [[services Hok]|?]; [left|by right].
  pose proof (proj1 (Services_Ok route services) Hok) as Hall. exists services.
  split_and!; [done..|]. apply Forall_forall. intros dest [i Hi]%list_elem_of_lookup.
  by destruct (Forall2_lookup_l _ _ _ _ _ Hall Hi) as (? & _ & p & -> & _).
Qed.

Lemma Services_names route services :
  Build route = Ok services →
  (λ s, Name (Service_ObjectMeta s)) <$> services
  = serviceName <$> Destinations (Route_Spec route).
Proof.
  rewrite Services_Ok. induction 1 as [|dest s ds ss (p & _ & ->) _ IH]; [done|].
  rewrite !fmap_cons. by rewrite IH.
Qed.

Lemma Services_elem route services s :
  Build route = Ok services → s ∈ services →
  ∃ dest p, dest ∈ Destinations (Route_Spec route) ∧ Port dest = Some p ∧
    s = serviceFor route dest p.
Proof.
  rewrite Services_Ok. intros Hall [i Hi]%list_elem_of_lookup.
  destruct (Forall2_lookup_r _ _ _ _ _ Hall Hi) as (dest & Hd%list_elem_of_lookup_2 & p & ? & ->).
  by exists dest, p.
Qed.
End build.
