(* ===== verification/BuilderAgreement.v ===== *)
(** The two builders agree: the hosts a generated VirtualService routes to are
    the names of the Services the ServiceBuilder makes for the same Routes, in
    the same namespace.  And [BuildMutateFunction] of both builders: what an
    update changes and what it leaves alone. *)
From S2P Require Import Prelude Runtime Api ResourceNames VirtualServiceBuilder.
From S2P Require Import BuilderWeights BuilderStructure BuilderTheorems BuilderRouting.
From S2P Require Import ServiceBuilder.

Section agreement.
Context {G : GoRuntime} {GL : GoRuntimeLaws G} {K : K8s}.

(** Every target of an entry comes from a destination of its route. *)
Lemma is_entry_of_targets r h d :
  is_entry_of r h → d ∈ HTTP_Route h →
  HTTP_Destination d = Some (mkDestination PLACEHOLDER_NON_EXISTING_DESTINATION) ∨
  ∃ dest, dest ∈ Destinations (Route_Spec r) ∧
    HTTP_Destination d = Some (mkDestination (serviceName dest)).
Proof.
  intros [_ He] Hd. destruct (Destinations (Route_Spec r)) as [|d0 ds] eqn:Hds.
  - rewrite He in Hd. left. by apply list_elem_of_singleton in Hd as ->.
  - right. apply list_elem_of_lookup in Hd as [i Hi].
    pose proof (destinations_weights_length _ _ _ He) as Hlen.
    destruct (lookup_lt_is_Some_2 (d0 :: ds) i) as [dest Hdest].
    { rewrite <- Hlen. by eapply lookup_lt_Some. }
    destruct (destinations_host _ _ _ _ _ He Hdest) as (h' & Hh' & Hhost).
    simplify_eq. exists dest. split; [by eapply list_elem_of_lookup_2 | done].
Qed.

(** C16: every destination of every generated VirtualService is the
    placeholder or the name of a Service that the ServiceBuilder produces
    for a route of the VirtualService's own FQDN, in its own namespace, and
    annotated with that FQDN. *)
Theorem destinations_resolve b rl vss vs h d host
    (Hok : VirtualServiceBuilder.Build b rl = Ok vss) (Hvs : vs ∈ vss)
    (Hh : h ∈ Http (VS_Spec vs)) (Hd : d ∈ HTTP_Route h)
    (Hhost : HTTP_Destination d = Some (mkDestination host)) :
  host = PLACEHOLDER_NON_EXISTING_DESTINATION ∨
  ∃ r, r ∈ Items rl ∧ Hosts (VS_Spec vs) = [FQDN r] ∧
    ∀ services, ServiceBuilder.Build r = Ok services →
      ∃ s, s ∈ services ∧ Name (Service_ObjectMeta s) = host ∧
        Namespace (Service_ObjectMeta s) = Namespace (VS_ObjectMeta vs) ∧
        Annotations (Service_ObjectMeta s) !! "cloudfoundry.org/route-fqdn" = Some (FQDN r).
Proof.
  apply list_elem_of_lookup in Hvs as [k Hvs].
  destruct (Build_lookup _ _ _ _ _ Hok Hvs)
    as (f & _ & r0 & rest & order & ess & Hg & Hc & Hp & _ & Hess & ->).
  cbn [VS_Spec VS_ObjectMeta virtualServiceFor Http Hosts Namespace] in *.
  apply entries_of_order in Hess. apply list_elem_of_lookup in Hh as [i Hi].
  destruct (Forall2_lookup_r _ _ _ _ _ Hess Hi) as (r & Hr & He).
  apply list_elem_of_lookup_2, list_elem_of_filter in Hr as [_ Hr].
  rewrite Hp in Hr. rewrite Forall_forall in Hc. destruct (Hc r Hr) as [_ Hns].
  rewrite <- Hg in Hr. apply elem_of_routesOf in Hr as [Hf Hr].
  destruct (is_entry_of_targets r h d He Hd) as [Htarget | (dest & Hdest & Htarget)].
  { left. congruence. }
  right. exists r. split_and!; [done | by rewrite Hf|]. intros services Hs%Services_Ok.
  apply list_elem_of_lookup in Hdest as [j Hj].
  destruct (Forall2_lookup_l _ _ _ _ _ Hs Hj) as (s & Hsj & p & _ & ->).
  exists (serviceFor r dest p). split_and!.
  - by eapply list_elem_of_lookup_2.
  - cbn. congruence.
  - cbn. congruence.
  - apply lookup_singleton_eq.
Qed.
End agreement.

(** The mutate functions make the managed fields of the object those of
    the desired one, never fail, and keep the identity of the object (name,
    namespace, UID, finalizers, deletion mark) and, for a Service, the cluster
    IP the API server assigned; applying one twice is applying it once. *)
Theorem BuildMutateFunction_spec (ds as_ : Service) (dv av : VirtualService) :
  let '(s, es) := ServiceBuilder.BuildMutateFunction ds as_ in
  let '(v, ev) := VirtualServiceBuilder.BuildMutateFunction dv av in
  es = None ∧ ev = None ∧
  (Labels (Service_ObjectMeta s) = Labels (Service_ObjectMeta ds) ∧
   Annotations (Service_ObjectMeta s) = Annotations (Service_ObjectMeta ds) ∧
   OwnerReferences (Service_ObjectMeta s) = OwnerReferences (Service_ObjectMeta ds) ∧
   Service_Selector (Service_Spec s) = Service_Selector (Service_Spec ds) ∧
   Ports (Service_Spec s) = Ports (Service_Spec ds)) ∧
  (key_of (Service_ObjectMeta s) = key_of (Service_ObjectMeta as_) ∧
   UID (Service_ObjectMeta s) = UID (Service_ObjectMeta as_) ∧
   Finalizers (Service_ObjectMeta s) = Finalizers (Service_ObjectMeta as_) ∧
   DeletionTimestamp (Service_ObjectMeta s) = DeletionTimestamp (Service_ObjectMeta as_) ∧
   ClusterIP (Service_Spec s) = ClusterIP (Service_Spec as_)) ∧
  (VS_Spec v = VS_Spec dv ∧
   OwnerReferences (VS_ObjectMeta v) = OwnerReferences (VS_ObjectMeta dv) ∧
   Annotations (VS_ObjectMeta v) = Annotations (VS_ObjectMeta dv) ∧
   Labels (VS_ObjectMeta v) = Labels (VS_ObjectMeta dv) ∧
   key_of (VS_ObjectMeta v) = key_of (VS_ObjectMeta av) ∧
   UID (VS_ObjectMeta v) = UID (VS_ObjectMeta av)) ∧
  ServiceBuilder.BuildMutateFunction ds s = (s, None) ∧
  VirtualServiceBuilder.BuildMutateFunction dv v = (v, None).
Proof. destruct ds as [[] []], as_ as [[] []], dv as [[] ?], av as [[] ?]. cbn. split_and!; done. Qed.

(** * Witness *)

#[local] Existing Instance go_reference.
#[local] Existing Instance k8s_reference.

Lemma destinations_resolve_witness :
  ∃ h d, h ∈ Http (VS_Spec example_vs) ∧ d ∈ HTTP_Route h ∧
    HTTP_Destination d = Some (mkDestination "s-d1") ∧
    ("s-d1" = PLACEHOLDER_NON_EXISTING_DESTINATION ∨
     ∃ r, r ∈ Items example_routes ∧ Hosts (VS_Spec example_vs) = [FQDN r] ∧
       ∀ services, ServiceBuilder.Build r = Ok services →
         ∃ s, s ∈ services ∧ Name (Service_ObjectMeta s) = "s-d1" ∧
           Namespace (Service_ObjectMeta s) = Namespace (VS_ObjectMeta example_vs) ∧
           Annotations (Service_ObjectMeta s) !! "cloudfoundry.org/route-fqdn" = Some (FQDN r)).
Proof.
  set (h := default (mkHTTPRoute [] []) (Http (VS_Spec example_vs) !! 0)).
  set (d := default (mkHTTPRouteDestination None 0 None) (HTTP_Route h !! 0)).
  assert (h ∈ Http (VS_Spec example_vs)) as Hh.
  { apply (list_elem_of_lookup_2 _ 0). vm_compute. reflexivity. }
  assert (d ∈ HTTP_Route h) as Hd.
  { apply (list_elem_of_lookup_2 _ 0). vm_compute. reflexivity. }
  assert (HTTP_Destination d = Some (mkDestination "s-d1")) as Hdest.
  { vm_compute. reflexivity. }
  exists h, d. split_and!; [exact Hh | exact Hd | exact Hdest|].
  apply (destinations_resolve example_builder example_routes example_built example_vs h d);
    [exact example_Build | | exact Hh | exact Hd | exact Hdest].
  apply (list_elem_of_lookup_2 _ 0). vm_compute. reflexivity.
Defined.
