(* ===== verification/Client.v ===== *)
(** The Kubernetes API client the controller is written against
    (sigs.k8s.io/controller-runtime), as an interface: the calls the source
    makes are the constructors of [action], a controller is a program over
    them ([prog], a free monad whose leaves are Go results), and an API server
    is any transition relation.  The file gives the execution relation, a
    weakest-precondition calculus for it, the traces of a program with the
    lemmas that take them apart, and the running of a program on an executable
    server. *)
From S2P Require Import Prelude Api.

(** * Calls *)

(** The second argument of controllerutil.CreateOrUpdate: a closure that
    updates the object in place and may fail. *)
Definition MutateFn (O : Type) : Type := O → O * option error.

Inductive action : Type :=
  | Get_Route (key : NamespacedName)
  | List_Routes (namespace fqdn : string)
  | Update_Route (route : Route)
  | List_Services (namespace owner : string)
  | CreateOrUpdate_Service (obj : Service) (mutate : MutateFn Service)
  | Delete_Service (service : Service)
  | Get_VirtualService (key : NamespacedName)
  | CreateOrUpdate_VirtualService (obj : VirtualService) (mutate : MutateFn VirtualService)
  | Delete_VirtualService (vs : VirtualService).

(** What a call writes into its out parameters when its error is nil. *)
Definition value (a : action) : Type :=
  match a with
  | Get_Route _ | Update_Route _ => Route
  | List_Routes _ _ => RouteList
  | List_Services _ _ => list Service
  | CreateOrUpdate_Service _ _ => Service
  | Get_VirtualService _ | CreateOrUpdate_VirtualService _ _ => VirtualService
  | Delete_Service _ | Delete_VirtualService _ => unit
  end.

(** The reply: the value, or the error the client returned. *)
Definition reply (a : action) : Type := (value a + error)%type.

(** * Programs *)

Inductive prog (A : Type) : Type :=
  | Done (o : outcome A)
  | Act (a : action) (k : reply a → prog A).
Arguments Done {A} o.
Arguments Act {A} a k.

#[export] Instance prog_ret : MRet prog := λ A x, Done (Ok x).

Fixpoint prog_bind_def {A B} (f : A → prog B) (p : prog A) : prog B :=
  match p with
  | Done (Ok x) => f x
  | Done (Err e) => Done (Err e)
  | Done (Panic w) => Done (Panic w)
  | Act a k => Act a (λ r, prog_bind_def f (k r))
  end.
#[export] Instance prog_bind : MBind prog := @prog_bind_def.

(** A call whose error the caller inspects. *)
Definition request (a : action) : prog (reply a) := Act a (λ r, Done (Ok r)).

(** [if err := c.Call(...); err != nil { return err }]. *)
Definition call (a : action) : prog (value a) :=
  Act a (λ r, match r with inl v => Done (Ok v) | inr e => Done (Err e) end).

(** Pure code used inside a controller. *)
Definition lift {A} (o : outcome A) : prog A := Done o.

(** * Executions *)

Record event := Event { event_action : action; event_reply : reply event_action }.

Section exec.
Context {W : Type} (step : W → ∀ a, reply a → W → Prop).

Inductive exec {A} : W → prog A → list event → outcome A → W → Prop :=
  | exec_done w o : exec w (Done o) [] o w
  | exec_act w a k r w1 t o w2 :
      step w a r w1 → exec w1 (k r) t o w2 → exec w (Act a k) (Event a r :: t) o w2.

(** [Q] holds of the result and the final state of every execution. *)
Fixpoint wp {A} (p : prog A) (Q : outcome A → W → Prop) (w : W) : Prop :=
  match p with
  | Done o => Q o w
  | Act a k => ∀ r w', step w a r w' → wp (k r) Q w'
  end.

Lemma wp_sound {A} (p : prog A) Q w t o w' : wp p Q w → exec w p t o w' → Q o w'.
Proof. intros Hwp Hex. induction Hex as [|w a k r w1 t o w2 Hs _ IH]; [done|]. apply IH, Hwp, Hs. Qed.

Lemma wp_complete {A} (p : prog A) (Q : outcome A → W → Prop) w :
  (∀ t o w', exec w p t o w' → Q o w') → wp p Q w.
Proof.
  revert w. induction p as [o|a k IH]; intros w Hall; cbn [wp].
  - eapply Hall. constructor.
  - intros r w' Hs. apply IH. intros t o w'' Hex. eapply Hall. by econstructor.
Qed.

Lemma wp_mono {A} (p : prog A) (Q Q' : outcome A → W → Prop) w :
  (∀ o w', Q o w' → Q' o w') → wp p Q w → wp p Q' w.
Proof.
  intros HQ. revert w. induction p as [o|a k IH]; intros w; cbn [wp]; [apply HQ|].
  intros Hwp r w' Hs. by apply IH, Hwp.
Qed.

(** The continuation of a bind, error paths included. *)
Definition after {A B} (f : A → prog B) (Q : outcome B → W → Prop)
    : outcome A → W → Prop := λ o w,
  match o with
  | Ok x => wp (f x) Q w
  | Err e => Q (Err e) w
  | Panic why => Q (Panic why) w
  end.

Lemma wp_bind {A B} (p : prog A) (f : A → prog B) Q w :
  wp (p ≫= f) Q w ↔ wp p (after f Q) w.
Proof.
  revert w. unfold mbind, prog_bind.
  induction p as [[x|e|why]|a k IH]; intros w; cbn [prog_bind_def wp after]; [done..|].
  split; intros Hwp r w' Hs; by apply IH, Hwp.
Qed.

Lemma wp_call {A} (a : action) (f : value a → prog A) Q w :
  wp (call a ≫= f) Q w ↔
  ∀ r w', step w a r w' →
    match r with inl v => wp (f v) Q w' | inr e => Q (Err e) w' end.
Proof.
  rewrite wp_bind. unfold call. cbn [wp]. split; intros Hwp r w' Hs; specialize (Hwp r w' Hs);
    by destruct r.
Qed.

Lemma wp_request {A} (a : action) (f : reply a → prog A) Q w :
  wp (request a ≫= f) Q w ↔ ∀ r w', step w a r w' → wp (f r) Q w'.
Proof. rewrite wp_bind. done. Qed.

(** Loop rule: an invariant indexed by the elements already visited.  Failing
    iterations must establish [Q] themselves. *)
Lemma wp_foldM {A} (f : unit → A → prog unit) (I : list A → W → Prop) Q l w :
  I [] w →
  (∀ pre x post w, l = pre ++ x :: post → I pre w →
    wp (f tt x) (λ o w', match o with Ok _ => I (pre ++ [x]) w' | _ => Q o w' end) w) →
  (∀ w', I l w' → Q (Ok tt) w') →
  wp (foldM f tt l) Q w.
Proof.
  intros HI Hstep HQ.
  assert (∀ post pre w, l = pre ++ post → I pre w → wp (foldM f tt post) Q w) as Hgen.
  { induction post as [|x post IH]; intros pre w' Hl Hpre; cbn [foldM].
    - rewrite app_nil_r in Hl. subst. by apply HQ.
    - apply wp_bind. eapply wp_mono; [|by apply (Hstep pre x post)].
      intros [[]|e|why] w'' Ho; cbn [after]; [|done..].
      apply (IH (pre ++ [x])); [by rewrite <- app_assoc | done]. }
  by apply (Hgen l []).
Qed.

(** Every execution can be completed when the server always replies. *)
Lemma exec_total {A} (p : prog A) w :
  (∀ w a, ∃ r w', step w a r w') → ∃ t o w', exec w p t o w'.
Proof.
  intros Htotal. revert w. induction p as [o|a k IH]; intros w.
  - exists [], o, w. constructor.
  - destruct (Htotal w a) as (r & w1 & Hs). destruct (IH r w1) as (t & o & w2 & Hex).
    exists (Event a r :: t), o, w2. by econstructor.
Qed.
End exec.

#[export] Instance wp_proper {W} (step : W → ∀ a, reply a → W → Prop) {A} (p : prog A) :
  Proper (pointwise_relation _ (pointwise_relation _ iff) ==> eq ==> iff) (wp step p).
Proof.
  intros Q Q' HQ w _ <-. split; apply wp_mono; intros o w'; apply HQ.
Qed.

(** * Traces

    The calls of an execution with their replies, and its result, whatever the
    server: what holds of every trace of a program holds of its executions
    against every API server. *)

Inductive traces {A} : prog A → list event → outcome A → Prop :=
  | traces_done o : traces (Done o) [] o
  | traces_act a k r t o : traces (k r) t o → traces (Act a k) (Event a r :: t) o.

Lemma exec_traces {W} (step : W → ∀ a, reply a → W → Prop) {A} (p : prog A) w t o w' :
  exec step w p t o w' → traces p t o.
Proof. induction 1; by constructor. Qed.

(** The error of a call that failed. *)
Definition event_error (ev : event) : option error :=
  match event_reply ev with inl _ => None | inr e => Some e end.

(** The event of a call that succeeded, with some value. *)
Definition succeeded (a : action) (e : event) : Prop := ∃ v, e = Event a (inl v).

Lemma traces_Done {A} (o : outcome A) t o' : traces (Done o) t o' → t = [] ∧ o' = o.
Proof. by inversion 1. Qed.

Lemma traces_Act {A} a (k : reply a → prog A) t o :
  traces (Act a k) t o → ∃ r t', t = Event a r :: t' ∧ traces (k r) t' o.
Proof.
  intros Ht. refine (match Ht in traces p t o return
    match p with
    | Act a k => ∃ r t', t = Event a r :: t' ∧ traces (k r) t' o
    | Done _ => True
    end with traces_done _ => I | traces_act a k r t o Ht => _ end).
  by exists r, t.
Qed.

Section traces.
Context {A B : Type}.

Lemma traces_bind (p : prog A) (f : A → prog B) t o :
  traces (p ≫= f) t o ↔
  ∃ t1 o1 t2, t = t1 ++ t2 ∧ traces p t1 o1 ∧
    match o1 with
    | Ok x => traces (f x) t2 o
    | Err e => t2 = [] ∧ o = Err e
    | Panic w => t2 = [] ∧ o = Panic w
    end.
Proof.
  unfold mbind, prog_bind. split.
  - revert t. induction p as [[x|e|w]|a k IH]; intros t; cbn [prog_bind_def].
    + intros Ht. exists [], (Ok x), t. by repeat constructor.
    + intros [-> ->]%traces_Done. exists [], (Err e), []. by repeat constructor.
    + intros [-> ->]%traces_Done. exists [], (Panic w), []. by repeat constructor.
    + intros Ht. apply traces_Act in Ht as (r & t' & -> & Ht).
      apply IH in Ht as (t1 & o1 & t2 & -> & H1 & H2).
      exists (Event a r :: t1), o1, t2. split; [done|]. split; [by constructor | done].
  - intros (t1 & o1 & t2 & -> & H1 & H2). induction H1 as [o1|a k r t1 o1 _ IH]; cbn.
    + destruct o1; [done|..]; destruct H2 as [-> ->]; constructor.
    + constructor. by apply IH.
Qed.

Lemma traces_request (a : action) (f : reply a → prog B) t o :
  traces (request a ≫= f) t o ↔ ∃ r t', t = Event a r :: t' ∧ traces (f r) t' o.
Proof.
  split.
  - intros Ht. apply traces_Act in Ht as (r & t' & -> & Ht). eauto.
  - intros (r & t' & -> & Ht). by constructor.
Qed.

Lemma traces_call (a : action) (f : value a → prog B) t o :
  traces (call a ≫= f) t o ↔
  (∃ v t', t = Event a (inl v) :: t' ∧ traces (f v) t' o) ∨
  (∃ e, t = [Event a (inr e)] ∧ o = Err e).
Proof.
  split.
  - intros Ht. apply traces_Act in Ht as ([v|e] & t' & -> & Ht); [left; eauto|].
    apply traces_Done in Ht as [-> ->]. right. eauto.
  - intros [(v & t' & -> & Ht) | (e & -> & ->)]; constructor; [done | constructor].
Qed.
End traces.

(** A loop of calls: it makes them in order up to the first that fails. *)
Lemma traces_loop {X} (a : X → action) (l : list X) t o :
  traces (foldM (λ _ x, _ ← call (a x); mret tt) tt l) t o →
  (o = Ok tt ∧ Forall2 (λ x, succeeded (a x)) l t) ∨
  (∃ pre x post t' e, l = pre ++ x :: post ∧ t = t' ++ [Event (a x) (inr e)] ∧
     Forall2 (λ x, succeeded (a x)) pre t' ∧ o = Err e).
Proof.
  revert t. induction l as [|x l IH]; intros t; cbn [foldM].
  - intros [-> ->]%traces_Done. left. by split; [|constructor].
  - intros (t1 & o1 & t2 & -> & H1 & H2)%traces_bind.
    apply traces_call in H1 as [(v & t' & -> & [-> ->]%traces_Done) | (e & -> & ->)].
    + apply IH in H2 as [[-> Hl] | (pre & y & post & t' & e & -> & -> & Hpre & ->)].
      * left. split; [done|]. constructor; [by exists v | done].
      * right. exists (x :: pre), y, post, (Event (a x) (inl v) :: t'), e.
        split_and!; [done..| |done]. constructor; [by exists v | done].
    + destruct H2 as [-> ->]. right. exists [], x, l, [], e. by repeat constructor.
Qed.

(** ** Successful traces *)

Definition each {X} (a : X → action) (l : list X) (t : list event) : Prop :=
  Forall2 (λ x, succeeded (a x)) l t.

Lemma traces_lift_ok {A} (o : outcome A) t x : traces (lift o) t (Ok x) ↔ t = [] ∧ o = Ok x.
Proof.
  split; [intros [-> ?]%traces_Done; by split | intros [-> ->]; constructor].
Qed.

Lemma traces_mret_ok {A} (x : A) t y : traces (mret x) t (Ok y) ↔ t = [] ∧ x = y.
Proof.
  split; [intros [-> [= ->]]%traces_Done; by split | intros [-> ->]; constructor].
Qed.

Lemma traces_bind_ok {A B} (p : prog A) (f : A → prog B) t y :
  traces (p ≫= f) t (Ok y) ↔
  ∃ t1 x t2, t = t1 ++ t2 ∧ traces p t1 (Ok x) ∧ traces (f x) t2 (Ok y).
Proof.
  rewrite traces_bind. split.
  - intros (t1 & [x|e|w] & t2 & -> & H1 & H2); [by eauto 7 | by destruct H2..].
  - intros (t1 & x & t2 & -> & H1 & H2). by exists t1, (Ok x), t2.
Qed.

Lemma traces_call_ok {A} (a : action) (f : value a → prog A) t y :
  traces (call a ≫= f) t (Ok y) ↔ ∃ v t', t = Event a (inl v) :: t' ∧ traces (f v) t' (Ok y).
Proof.
  rewrite traces_call. split; [by intros [?|(e & _ & ?)] | by left].
Qed.

Lemma traces_call_last (a : action) t v : traces (call a) t (Ok v) ↔ t = [Event a (inl v)].
Proof.
  split.
  - intros ([v'|e] & t' & -> & Ht)%traces_Act; apply traces_Done in Ht as [-> [=]]. by subst.
  - intros ->. by repeat constructor.
Qed.

Lemma traces_loop_ok {X} (a : X → action) (l : list X) t u :
  traces (foldM (λ _ x, _ ← call (a x); mret tt) tt l) t (Ok u) ↔ each a l t.
Proof.
  unfold each. destruct u. split.
  - intros [[_ ?]|(? & ? & ? & ? & ? & _ & _ & _ & [=])]%traces_loop; done.
  - induction 1 as [|x ev l t [v ->] _ IH]; cbn [foldM]; [constructor|].
    apply traces_bind_ok. exists [Event (a x) (inl v)], tt, t. split_and!; [done| |done].
    apply traces_call_ok. exists v, []. by split; [|constructor].
Qed.

Lemma traces_loop_event {X} (a : X → action) (l : list X) t o ev :
  traces (foldM (λ _ x, _ ← call (a x); mret tt) tt l) t o → ev ∈ t →
  ∃ x, x ∈ l ∧ event_action ev = a x.
Proof.
  assert (∀ l t, each a l t → ev ∈ t → ∃ x, x ∈ l ∧ event_action ev = a x) as Heach.
  { induction 1 as [|x ev' l' t' [v ->] _ IH]; [by intros ?%not_elem_of_nil|].
    intros [->|?]%elem_of_cons; [exists x; by split; [left|] |].
    destruct IH as (y & ? & ?); [done|]. exists y. by split; [right|]. }
  intros [[_ Hl]|(pre & x & post & t' & e & -> & -> & Hpre & _)]%traces_loop Hev; [by eauto|].
  apply elem_of_app in Hev as [Hev|Hev]; [|apply list_elem_of_singleton in Hev as ->].
  - destruct (Heach pre t' Hpre Hev) as (y & ? & ?). exists y. rewrite elem_of_app. by split; [left|].
  - exists x. by rewrite elem_of_app, elem_of_cons; split; [right; left|].
Qed.

(** * Errors stop a program

    [strict exempt p]: whenever a call that is not exempt fails, the program
    returns that very error without another call. *)

Fixpoint strict (exempt : action → bool) {A} (p : prog A) : Prop :=
  match p with
  | Done _ => True
  | Act a k =>
      (exempt a = false → ∀ e, k (inr e) = Done (Err e)) ∧
      ∀ r, strict exempt (k r)
  end.

Section strict.
Context (exempt : action → bool).

Lemma strict_bind {A B} (p : prog A) (f : A → prog B) :
  strict exempt p → (∀ x, strict exempt (f x)) → strict exempt (p ≫= f).
Proof.
  unfold mbind, prog_bind. intros Hp Hf.
  induction p as [[x|e|w]|a k IH]; cbn [prog_bind_def strict]; [apply Hf | done | done|].
  destruct Hp as [He Hk]. split; [|by auto]. intros Hx e. by rewrite He.
Qed.

Lemma strict_call (a : action) : strict exempt (call a).
Proof. split; [done|]. by intros [v|e]. Qed.

Lemma strict_request (a : action) : exempt a = true → strict exempt (request a).
Proof. intros Ha. split; [by rewrite Ha | done]. Qed.

Lemma strict_foldM {A S} (f : S → A → prog S) s l :
  (∀ s x, strict exempt (f s x)) → strict exempt (foldM f s l).
Proof.
  intros Hf. revert s. induction l as [|x l IH]; intros s; cbn [foldM]; [done|].
  apply strict_bind; auto.
Qed.

Lemma strict_traces {A} (p : prog A) pre ev post o e :
  strict exempt p → exempt (event_action ev) = false → event_error ev = Some e →
  traces p (pre ++ ev :: post) o → post = [] ∧ o = Err e.
Proof.
  intros Hp Ha Hev Ht. remember (pre ++ ev :: post) as t eqn:Heq.
  revert pre Heq Hp. induction Ht as [o|a' k r t o Ht IH]; intros pre Heq Hp.
  - by destruct pre.
  - destruct Hp as [He Hk]. destruct pre as [|ev' pre]; injection Heq as <- ->.
    + destruct r as [v|e']; [done|]. injection Hev as ->.
      rewrite He in Ht by done. by apply traces_Done in Ht as [-> ->].
    + by eapply IH.
Qed.
End strict.

Create HintDb strict.
#[export] Hint Resolve strict_bind strict_call strict_foldM : strict.

(** * Which calls a program can make *)

Fixpoint calls (P : action → Prop) {A} (p : prog A) : Prop :=
  match p with
  | Done _ => True
  | Act a k => P a ∧ ∀ r, calls P (k r)
  end.

Section calls.
Context (P : action → Prop).

Lemma calls_bind {A B} (p : prog A) (f : A → prog B) :
  calls P p → (∀ x, calls P (f x)) → calls P (p ≫= f).
Proof.
  unfold mbind, prog_bind. intros Hp Hf.
  induction p as [[x|e|w]|a k IH]; cbn [prog_bind_def calls]; [apply Hf | done | done|].
  destruct Hp as [Ha Hk]. split; [done|]. by auto.
Qed.

Lemma calls_call (a : action) : P a → calls P (call a).
Proof. intros Ha. split; [done|]. by intros [v|e]. Qed.

Lemma calls_request (a : action) : P a → calls P (request a).
Proof. by split. Qed.

Lemma calls_foldM {A S} (f : S → A → prog S) s l :
  (∀ s x, x ∈ l → calls P (f s x)) → calls P (foldM f s l).
Proof.
  revert s. induction l as [|x l IH]; intros s Hf; cbn [foldM]; [done|].
  apply calls_bind; [apply Hf; by left|]. intros s'. apply IH. intros s'' y Hy.
  apply Hf. by right.
Qed.

Lemma calls_bind_lift {A B} (o : outcome A) (f : A → prog B) :
  (∀ x, o = Ok x → calls P (f x)) → calls P (lift o ≫= f).
Proof. destruct o; cbn; auto. Qed.

Lemma calls_mono (P' : action → Prop) {A} (p : prog A) :
  (∀ a, P a → P' a) → calls P p → calls P' p.
Proof. intros HP. induction p as [o|a k IH]; [done|]. intros [Ha Hk]. split; auto. Qed.

Lemma calls_traces {A} (p : prog A) t o :
  calls P p → traces p t o → Forall (λ ev, P (event_action ev)) t.
Proof. intros Hp. induction 1; [done|]. destruct Hp. constructor; auto. Qed.
End calls.

(** A program is its calls: the structure of the program is taken apart, and a
    call is looked at by itself. *)
Ltac calls_tac :=
  repeat lazymatch goal with
  | |- calls _ (_ ≫= _) => apply calls_bind; [|intros ?]
  | |- calls _ (foldM _ _ _) => apply calls_foldM; intros ? ? _
  | |- calls _ (call _) => apply calls_call; cbn; first [exact I | by eexists]
  | |- calls _ (lift _) => exact I
  | |- calls _ (mret _) => exact I
  | |- calls _ (Done _) => exact I
  | |- calls _ (request _) => apply calls_request; exact I
  | |- calls _ (if ?b then _ else _) => destruct b
  | |- calls _ (match ?x with inl _ => _ | inr _ => _ end) => destruct x
  | |- calls _ (match ?x with Some _ => _ | None => _ end) => destruct x
  end.

Lemma calls_no_event (P : action → Prop) {A} (p : prog A) pre ev post o :
  calls P p → ¬ P (event_action ev) → ¬ traces p (pre ++ ev :: post) o.
Proof.
  intros Hp Hev Ht. pose proof (calls_traces _ _ _ _ Hp Ht) as Hall.
  apply Forall_app in Hall as [_ [? _]%Forall_cons]. done.
Qed.

(** An event of [p ≫= f] is one of [p], or one of [f] after [p] succeeded. *)
Lemma traces_bind_event {A B} (p : prog A) (f : A → prog B) pre ev post o :
  traces (p ≫= f) (pre ++ ev :: post) o →
  (∃ post' o', traces p (pre ++ ev :: post') o') ∨
  (∃ t1 x pre', pre = t1 ++ pre' ∧ traces p t1 (Ok x) ∧ traces (f x) (pre' ++ ev :: post) o).
Proof.
  intros (t1 & o1 & t2 & Heq & H1 & H2)%traces_bind.
  apply app_eq_app in Heq as (l & [[H Heq]|[H Heq]]).
  - right. exists t1. subst pre t2. destruct o1 as [x|e|w]; [by exists x, l | ..];
      destruct H2 as [Hnil _]; by apply app_eq_nil in Hnil as [_ ?].
  - destruct l as [|ev' l]; cbn in Heq.
    + rewrite app_nil_r in H. subst t1 t2. destruct o1 as [x|e|w]; [|by destruct H2..].
      right. exists pre, x, []. by rewrite app_nil_r.
    + injection Heq as <- ->. subst t1. by left; eauto.
Qed.

Lemma traces_bind_skip (P : action → Prop) {A B} (p : prog A) (f : A → prog B) pre ev post o :
  calls P p → ¬ P (event_action ev) → traces (p ≫= f) (pre ++ ev :: post) o →
  ∃ t1 x pre', pre = t1 ++ pre' ∧ traces p t1 (Ok x) ∧ traces (f x) (pre' ++ ev :: post) o.
Proof.
  intros Hp Hev [(post' & o' & Ht)|?]%traces_bind_event; [|done].
  by apply (calls_no_event P) in Ht.
Qed.

Lemma traces_bind_pure {A B} (p : prog A) (f : A → outcome B) t o :
  traces (p ≫= λ x, Done (f x)) t o → ∃ o', traces p t o'.
Proof.
  intros (t1 & o1 & t2 & -> & H1 & H2)%traces_bind. exists o1.
  assert (t2 = []) as ->; [|by rewrite app_nil_r].
  destruct o1; [by apply traces_Done in H2 as [-> _] | by destruct H2..].
Qed.

Lemma app_cons_singleton {X} (pre post : list X) (x y : X) :
  pre ++ x :: post = [y] → pre = [] ∧ x = y ∧ post = [].
Proof.
  destruct pre as [|z pre]; [by intros [= -> ->]|]. intros [= _ Hnil].
  by apply app_eq_nil in Hnil as [_ ?].
Qed.

Lemma traces_request_skip (a : action) {B} (f : reply a → prog B) pre ev post o :
  event_action ev ≠ a → traces (request a ≫= f) (pre ++ ev :: post) o →
  ∃ r pre', pre = Event a r :: pre' ∧ traces (f r) (pre' ++ ev :: post) o.
Proof.
  intros Ha (r & t & Heq & Ht)%traces_request. destruct pre as [|ev' pre].
  - by injection Heq as -> _.
  - injection Heq as -> <-. eauto.
Qed.

Lemma traces_call_skip (a : action) {B} (f : value a → prog B) pre ev post o :
  event_action ev ≠ a → traces (call a ≫= f) (pre ++ ev :: post) o →
  ∃ v pre', pre = Event a (inl v) :: pre' ∧ traces (f v) (pre' ++ ev :: post) o.
Proof.
  intros Ha [(v & t & Heq & Ht)|(e & Heq & ->)]%traces_call; (destruct pre as [|ev' pre];
    [by injection Heq as -> ?|]); injection Heq as -> Heq.
  - subst t. eauto.
  - by apply app_eq_nil in Heq as [_ ?].
Qed.

(** * Running a program against an executable server *)

Section run.
Context {W : Type} (handle : ∀ a, W → reply a * W).

Fixpoint run {A} (p : prog A) (w : W) : outcome A * list event * W :=
  match p with
  | Done o => (o, [], w)
  | Act a k =>
      let '(r, w1) := handle a w in
      let '(o, t, w2) := run (k r) w1 in
      (o, Event a r :: t, w2)
  end.

Definition handle_step (w : W) (a : action) (r : reply a) (w' : W) : Prop :=
  handle a w = (r, w').

Lemma run_exec {A} (p : prog A) w o t w' :
  run p w = (o, t, w') → exec handle_step w p t o w'.
Proof.
  revert w o t w'. induction p as [o'|a k IH]; intros w o t w'; cbn [run].
  - intros [= <- <- <-]. constructor.
  - destruct (handle a w) as [r w1] eqn:Hh. destruct (run (k r) w1) as [[o1 t1] w2] eqn:Hr.
    intros [= <- <- <-]. econstructor; [exact Hh|]. by apply IH.
Qed.

Lemma run_ok {A} (p : prog A) w o :
  (run p w).1.1 = o → exec handle_step w p (run p w).1.2 o (run p w).2.
Proof. intros <-. apply run_exec. by destruct (run p w) as [[o t] w']. Qed.
End run.
