(* ===== verification/RouteController.v ===== *)
(** src/routecontroller/controllers/networking/route_controller.go: the
    reconciler, as programs over the API client of [Client].  A Go method that
    returns [error] is a [prog] whose leaf is [Err] when the error is not nil;
    log calls are left out.  Definitions only; the theorems are in
    the Controller* files. *)
From S2P Require Import Prelude Runtime Api ResourceNames Client.
From S2P Require Import VirtualServiceBuilder ServiceBuilder.

(** The fields of the reconciler that the logic reads. *)
Record RouteReconciler := mkRouteReconciler {
  IstioGateway : string;
  ResyncInterval : Z;
}.

(** ctrl.Result *)
Record Result := mkResult { RequeueAfter : Z }.
Definition empty_Result : Result := mkResult 0.

Definition fqdnFieldKey : string := "spec.fqdn".
Definition serviceOwnerKey : string := "spec.owner".
Definition finalizerName : string := "routes.networking.cloudfoundry.org".

(** The two index functions [SetupWithManager] registers: an object is found
    by a field query exactly under the keys its index function returns. *)
Definition fqdnIndex (route : Route) : list string := [FQDN route].

Definition serviceOwnerIndex (service : Service) : list string :=
  match OwnerReferences (Service_ObjectMeta service) with
  | [] => []
  | o :: _ => [Owner_UID o]
  end.

Fixpoint hasFinalizer (finalizers : list string) (name : string) : bool :=
  match finalizers with
  | [] => false
  | f :: fs => if String.eqb f name then true else hasFinalizer fs name
  end.

Definition route_hasFinalizer (route : Route) (name : string) : bool :=
  hasFinalizer (Finalizers (Route_ObjectMeta route)) name.

Definition with_Finalizers (route : Route) (fs : list string) : Route :=
  let m := Route_ObjectMeta route in
  mkRoute (Route_TypeMeta route)
    (mkObjectMeta (Name m) (Namespace m) (UID m) (Labels m) (Annotations m)
       (OwnerReferences m) fs (DeletionTimestamp m))
    (Route_Spec route) (Route_Status route).

(** [append(routes.Items[:idx], routes.Items[idx+1:]...)] at the first route
    of that name: the returned slice, and what the backing array of
    [routes.Items] holds afterwards. *)
Definition removeRouteFromRouteList (routeToRemove : Route) (routes : RouteList)
    : list Route * list Route :=
  match list_find (λ route, Name (Route_ObjectMeta route)
                            = Name (Route_ObjectMeta routeToRemove)) (Items routes) with
  | Some (idx, _) => append_shift (Items routes) idx
  | None => (Items routes, Items routes)
  end.

Definition findServicesForDeletion (actualServices desiredServices : list Service)
    : list Service :=
  foldl (λ servicesToDelete existingService,
    let foundInDesired :=
      foldl (λ found desiredService,
        if String.eqb (Name (Service_ObjectMeta desiredService))
                      (Name (Service_ObjectMeta existingService)) &&
           String.eqb (Namespace (Service_ObjectMeta desiredService))
                      (Namespace (Service_ObjectMeta existingService))
        then true else found) false desiredServices in
    if negb foundInDesired then servicesToDelete ++ [existingService]
    else servicesToDelete) [] actualServices.

Section reconciler.
Context `{GoRuntime} `{K8s}.

Definition deleteServiceList (services : list Service) : prog unit :=
  foldM (λ _ service, _ ← call (Delete_Service service); mret tt) tt services.

Definition reconcileServices (r : RouteReconciler) (req : NamespacedName)
    (route : Route) : prog unit :=
  desiredServices ← lift (ServiceBuilder.Build route);
  actualServicesForRoute ←
    call (List_Services (nn_Namespace req) (UID (Route_ObjectMeta route)));
  _ ← foldM (λ _ desiredService,
        let m := Service_ObjectMeta desiredService in
        let service := named_Service (Namespace m) (Name m) in
        _ ← call (CreateOrUpdate_Service service
                    (ServiceBuilder.BuildMutateFunction desiredService));
        mret tt) tt desiredServices;
  let servicesToDelete :=
    findServicesForDeletion actualServicesForRoute desiredServices in
  deleteServiceList servicesToDelete.

Definition reconcileVirtualServices (r : RouteReconciler) (req : NamespacedName)
    (routes : RouteList) : prog unit :=
  let vsb := VirtualServiceBuilder.mkVirtualServiceBuilder [IstioGateway r] in
  desiredVirtualServices ← lift (VirtualServiceBuilder.Build vsb routes);
  foldM (λ _ desiredVirtualService,
    let m := VS_ObjectMeta desiredVirtualService in
    let virtualService := named_VirtualService (Namespace m) (Name m) in
    _ ← call (CreateOrUpdate_VirtualService virtualService
                (VirtualServiceBuilder.BuildMutateFunction desiredVirtualService));
    mret tt) tt desiredVirtualServices.

(** The part of [finalizeRouteForDeletion] that removes or rewrites the
    VirtualService of the route; an error of [Get] is only logged. *)
Definition finalizeVirtualService (r : RouteReconciler) (req : NamespacedName)
    (route : Route) (routes : RouteList) : prog unit :=
  if Nat.eqb (length (Items routes)) 0 then
    let vsName := VirtualServiceName (FQDN route) in
    let namespacedVSName := mkNamespacedName (nn_Namespace req) vsName in
    got ← request (Get_VirtualService namespacedVSName);
    match got with
    | inr err => mret tt
    | inl vs => call (Delete_VirtualService vs)
    end
  else reconcileVirtualServices r req routes.

Definition finalizeRouteForDeletion (r : RouteReconciler) (req : NamespacedName)
    (route : Route) (routes : RouteList) : prog unit :=
  actualServicesForRoute ←
    call (List_Services (nn_Namespace req) (UID (Route_ObjectMeta route)));
  _ ← deleteServiceList actualServicesForRoute;
  let routes := mkRouteList (removeRouteFromRouteList route routes).1 in
  _ ← finalizeVirtualService r req route routes;
  let route :=
    with_Finalizers route
      (RemoveFinalizer (Finalizers (Route_ObjectMeta route)) finalizerName) in
  _ ← call (Update_Route route);
  mret tt.

(** [r.Update] overwrites [*route] with the object the server returns. *)
Definition ensureFinalizer (route : Route) : prog Route :=
  if negb (route_hasFinalizer route finalizerName) then
    let route :=
      with_Finalizers route
        (AddFinalizer (Finalizers (Route_ObjectMeta route)) finalizerName) in
    call (Update_Route route)
  else mret route.

Definition Reconcile (r : RouteReconciler) (req : NamespacedName) : prog Result :=
  got ← request (Get_Route req);
  match got with
  | inr err =>
      match IgnoreNotFound err with
      | None => mret empty_Result
      | Some e => Done (Err e)
      end
  | inl route =>
      routes ← call (List_Routes (nn_Namespace req) (FQDN route));
      if IsZero (DeletionTimestamp (Route_ObjectMeta route)) then
        route ← ensureFinalizer route;
        _ ← reconcileServices r req route;
        _ ← reconcileVirtualServices r req routes;
        mret (mkResult (ResyncInterval r))
      else if route_hasFinalizer route finalizerName then
        _ ← finalizeRouteForDeletion r req route routes;
        mret empty_Result
      else mret empty_Result
  end.
End reconciler.
