(* ===== verification/ControllerHelpers.v ===== *)
(** The pure helpers of the reconciler: hasFinalizer,
    removeRouteFromRouteList and findServicesForDeletion. *)
From S2P Require Import Prelude Runtime Api ResourceNames Client RouteController.

Lemma hasFinalizer_elem fs name : hasFinalizer fs name = true ↔ name ∈ fs.
Proof.
  induction fs as [|f fs IH]; cbn [hasFinalizer].
  - split; [done | by intros ?%not_elem_of_nil].
  - rewrite elem_of_cons. destruct (String.eqb_spec f name) as [->|Hne].
    + split; [by left | done].
    + rewrite IH. split; [by right|]. intros [->|?]; done.
Qed.

Lemma route_hasFinalizer_elem r name :
  route_hasFinalizer r name = true ↔ name ∈ Finalizers (Route_ObjectMeta r).
Proof. apply hasFinalizer_elem. Qed.

(** * findServicesForDeletion *)

(** The inner loop. *)
Lemma foundInDesired_spec (s : Service) (desired : list Service) b :
  foldl (λ found d,
    if String.eqb (Name (Service_ObjectMeta d)) (Name (Service_ObjectMeta s)) &&
       String.eqb (Namespace (Service_ObjectMeta d)) (Namespace (Service_ObjectMeta s))
    then true else found) b desired
  = b || bool_decide (key_of (Service_ObjectMeta s)
                       ∈ (λ d, key_of (Service_ObjectMeta d)) <$> desired).
Proof.
  revert b. induction desired as [|d desired IH]; intros b; cbn [foldl fmap list_fmap].
  { rewrite bool_decide_false by apply not_elem_of_nil. by rewrite orb_false_r. }
  rewrite IH. unfold key_of.
  destruct (String.eqb_spec (Name (Service_ObjectMeta d)) (Name (Service_ObjectMeta s))) as [Hn|Hn],
    (String.eqb_spec (Namespace (Service_ObjectMeta d)) (Namespace (Service_ObjectMeta s))) as [Hs|Hs];
    cbn [andb].
  { rewrite Hn, Hs, (bool_decide_true (_ ∈ _ :: _)) by by left. by rewrite orb_true_r. }
  all: f_equal; apply bool_decide_ext; rewrite elem_of_cons; split;
    [by right | by intros [[=]|?]].
Qed.

Lemma findServicesForDeletion_filter actual desired :
  findServicesForDeletion actual desired =
  filter (λ s, key_of (Service_ObjectMeta s)
               ∉ (λ d, key_of (Service_ObjectMeta d)) <$> desired) actual.
Proof.
  unfold findServicesForDeletion.
  induction actual as [|s actual IH] using rev_ind; [done|].
  rewrite foldl_snoc, IH, foundInDesired_spec, filter_app. cbn [orb].
  destruct (decide (key_of (Service_ObjectMeta s)
    ∈ (λ d, key_of (Service_ObjectMeta d)) <$> desired)) as [Hin|Hin].
  - rewrite bool_decide_true, filter_cons_False by auto. cbn. by rewrite app_nil_r.
  - rewrite bool_decide_false, filter_cons_True by auto. done.
Qed.

(** The Services to delete are exactly the actual ones whose name and
    namespace no desired Service has, in their order. *)
Theorem findServicesForDeletion_spec actual desired s :
  findServicesForDeletion actual desired `sublist_of` actual ∧
  (s ∈ findServicesForDeletion actual desired ↔
   s ∈ actual ∧ ∀ d, d ∈ desired →
     ¬ (Name (Service_ObjectMeta d) = Name (Service_ObjectMeta s) ∧
        Namespace (Service_ObjectMeta d) = Namespace (Service_ObjectMeta s))).
Proof.
  rewrite findServicesForDeletion_filter. split; [apply sublist_filter|].
  rewrite list_elem_of_filter, list_elem_of_fmap. unfold key_of. split.
  - intros [Hn Hs]. split; [done|]. intros d Hd [Hname Hns]. apply Hn.
    exists d. by rewrite Hname, Hns.
  - intros [Hs Hn]. split; [|done]. intros (d & [=] & Hd). by apply (Hn d Hd).
Qed.

(** * removeRouteFromRouteList *)

(** Dropping the first route of that name. *)
Fixpoint removeFirst (name : string) (l : list Route) : list Route :=
  match l with
  | [] => []
  | r :: l' => if String.eqb (Name (Route_ObjectMeta r)) name then l'
               else r :: removeFirst name l'
  end.

Lemma removeRoute_removeFirst r rl :
  (removeRouteFromRouteList r rl).1 = removeFirst (Name (Route_ObjectMeta r)) (Items rl).
Proof.
  destruct rl as [items]. unfold removeRouteFromRouteList. cbn [Items].
  induction items as [|x items IH]; [done|]. cbn [list_find removeFirst].
  destruct (decide (Name (Route_ObjectMeta x) = Name (Route_ObjectMeta r))) as [->|Hne].
  - by rewrite String.eqb_refl.
  - destruct (String.eqb_spec (Name (Route_ObjectMeta x)) (Name (Route_ObjectMeta r))); [done|].
    rewrite <- IH. by destruct (list_find _ items) as [[]|].
Qed.

Lemma removeFirst_none name l :
  Forall (λ r, Name (Route_ObjectMeta r) ≠ name) l → removeFirst name l = l.
Proof.
  induction 1 as [|r l Hr _ IH]; [done|]. cbn [removeFirst].
  destruct (String.eqb_spec (Name (Route_ObjectMeta r)) name); [done|]. by rewrite IH.
Qed.

Lemma removeFirst_split name pre r post :
  Forall (λ r, Name (Route_ObjectMeta r) ≠ name) pre → Name (Route_ObjectMeta r) = name →
  removeFirst name (pre ++ r :: post) = pre ++ post.
Proof.
  intros Hpre Hr. induction Hpre as [|x pre Hx _ IH]; cbn [app removeFirst].
  - by rewrite Hr, String.eqb_refl.
  - destruct (String.eqb_spec (Name (Route_ObjectMeta x)) name); [done|]. by rewrite IH.
Qed.

Lemma removeFirst_filter name l :
  NoDup ((λ r, Name (Route_ObjectMeta r)) <$> l) →
  removeFirst name l = filter (λ r, Name (Route_ObjectMeta r) ≠ name) l.
Proof.
  induction l as [|r l IH]; [done|]. rewrite fmap_cons, NoDup_cons. intros [Hr Hl].
  cbn [removeFirst]. destruct (String.eqb_spec (Name (Route_ObjectMeta r)) name) as [<-|Hne].
  - rewrite filter_cons_False by auto. symmetry. apply filter_all.
    intros x Hx Heq. apply Hr. apply list_elem_of_fmap. by exists x.
  - rewrite filter_cons_True by done. by rewrite IH.
Qed.

(** With distinct names (the routes of one namespace) exactly the route of
    that name is removed and the others keep their order; the removal works in
    place, so the backing array keeps its length. *)
Theorem removeRouteFromRouteList_spec r rl
    (Hnd : NoDup ((λ r, Name (Route_ObjectMeta r)) <$> Items rl)) :
  let '(result, backing) := removeRouteFromRouteList r rl in
  result = filter (λ x, Name (Route_ObjectMeta x) ≠ Name (Route_ObjectMeta r)) (Items rl) ∧
  length backing = length (Items rl) ∧
  result = take (length result) backing.
Proof.
  destruct (removeRouteFromRouteList r rl) as [result backing] eqn:Heq.
  assert (result = (removeRouteFromRouteList r rl).1) as Hres by by rewrite Heq.
  rewrite removeRoute_removeFirst, removeFirst_filter in Hres by done.
  split; [done|]. unfold removeRouteFromRouteList in Heq.
  destruct (list_find _ (Items rl)) as [[i x]|] eqn:Hf.
  - apply list_find_Some in Hf as (Hi & _ & _). apply lookup_lt_Some in Hi.
    pose proof (append_shift_backing (Items rl) i Hi) as Hlen. rewrite Heq in Hlen.
    split; [done|]. unfold append_shift in Heq. injection Heq as Hr <-.
    by rewrite Hr, take_app_length.
  - injection Heq as <- <-. split; [done|]. by rewrite firstn_all.
Qed.

Definition example_named_route (name : string) : Route :=
  mkRoute (mkTypeMeta "Route" "") (named_meta "ns" name)
    (mkRouteSpec "host" "" "" (mkRouteDomain "domain" false) []) (mkRouteStatus []).

Lemma removeRouteFromRouteList_witness :
  let rl := mkRouteList [example_named_route "a"; example_named_route "b"; example_named_route "c"] in
  let '(result, backing) := removeRouteFromRouteList (example_named_route "b") rl in
  result = [example_named_route "a"; example_named_route "c"] ∧
  backing = [example_named_route "a"; example_named_route "c"; example_named_route "c"] ∧
  length backing = 3.
Proof.
  pose proof (removeRouteFromRouteList_spec (example_named_route "b")
    (mkRouteList [example_named_route "a"; example_named_route "b"; example_named_route "c"])
    ltac:(apply (bool_decide_unpack _); vm_compute; exact I)) as H.
  destruct H as (H1 & H2 & _). split; [|split; [vm_compute; reflexivity | exact H2]].
  exact H1.
Defined.
