(* ===== verification/ControllerTraces.v ===== *)
(** The abstract specification of a reconciliation, as the sequences of calls a
    successful one may make ([reconciled]), and the refinement: the traces of
    [Reconcile] that end without an error are exactly those sequences,
    whatever the API server replies. *)
From S2P Require Import Prelude Runtime Api ResourceNames Client RouteController.
From S2P Require Import ControllerHelpers.
From S2P Require Import VirtualServiceBuilder ServiceBuilder.

Section spec.
Context {G : GoRuntime} {K : K8s}.

(** The two upserts of the controller. *)
Definition upsert_Service (desired : Service) : action :=
  CreateOrUpdate_Service
    (named_Service (Namespace (Service_ObjectMeta desired)) (Name (Service_ObjectMeta desired)))
    (ServiceBuilder.BuildMutateFunction desired).

Definition upsert_VirtualService (desired : VirtualService) : action :=
  CreateOrUpdate_VirtualService
    (named_VirtualService (Namespace (VS_ObjectMeta desired)) (Name (VS_ObjectMeta desired)))
    (VirtualServiceBuilder.BuildMutateFunction desired).

(** The route carries the finalizer, or is first given it; what follows works
    on the object the server stored. *)
Inductive route_claimed (route : Route) : list event → Route → Prop :=
  | claimed_already :
      finalizerName ∈ Finalizers (Route_ObjectMeta route) → route_claimed route [] route
  | claimed_now stored :
      finalizerName ∉ Finalizers (Route_ObjectMeta route) →
      route_claimed route
        [Event (Update_Route (with_Finalizers route
           (AddFinalizer (Finalizers (Route_ObjectMeta route)) finalizerName))) (inl stored)]
        stored.

(** The Services of the route: every desired one is upserted, then every
    owned one that is not desired is deleted. *)
Inductive services_synced (req : NamespacedName) (route : Route) : list event → Prop :=
  | services_synced_intro desired actual upserts deletes :
      ServiceBuilder.Build route = Ok desired →
      each upsert_Service desired upserts →
      each Delete_Service
        (filter (λ s, Forall (λ d, key_of (Service_ObjectMeta d) ≠ key_of (Service_ObjectMeta s)) desired) actual) deletes →
      services_synced req route
        (Event (List_Services (nn_Namespace req) (UID (Route_ObjectMeta route))) (inl actual)
           :: upserts ++ deletes).

(** The VirtualServices the builder computes for the routes are upserted. *)
Inductive virtual_services_synced (r : RouteReconciler) (routes : RouteList)
    : list event → Prop :=
  | virtual_services_synced_intro desired upserts :
      VirtualServiceBuilder.Build
        (VirtualServiceBuilder.mkVirtualServiceBuilder [IstioGateway r]) routes = Ok desired →
      each upsert_VirtualService desired upserts →
      virtual_services_synced r routes upserts.

(** A deleted route gives up its VirtualService: deleted with the last route
    of the FQDN (or found unreadable), rebuilt from the others otherwise. *)
Inductive virtual_service_released (r : RouteReconciler) (req : NamespacedName) (route : Route)
    : list Route → list event → Prop :=
  | released_unread err :
      virtual_service_released r req route []
        [Event (Get_VirtualService
           (mkNamespacedName (nn_Namespace req) (VirtualServiceName (FQDN route)))) (inr err)]
  | released_deleted vs :
      virtual_service_released r req route []
        [Event (Get_VirtualService
           (mkNamespacedName (nn_Namespace req) (VirtualServiceName (FQDN route)))) (inl vs);
         Event (Delete_VirtualService vs) (inl tt)]
  | released_rebuilt x others t :
      virtual_services_synced r (mkRouteList (x :: others)) t →
      virtual_service_released r req route (x :: others) t.

(** Finalization: all owned Services are deleted, the VirtualService is
    released, and the last call drops the finalizer. *)
Inductive route_finalized (r : RouteReconciler) (req : NamespacedName) (route : Route)
    (routes : RouteList) : list event → Prop :=
  | route_finalized_intro owned deletes released stored :
      each Delete_Service owned deletes →
      virtual_service_released r req route
        (removeFirst (Name (Route_ObjectMeta route)) (Items routes)) released →
      route_finalized r req route routes
        (Event (List_Services (nn_Namespace req) (UID (Route_ObjectMeta route))) (inl owned)
           :: deletes ++ released ++
           [Event (Update_Route (with_Finalizers route
              (RemoveFinalizer (Finalizers (Route_ObjectMeta route)) finalizerName)))
              (inl stored)]).

(** What a reconciliation of [req] may do, and its result. *)
Inductive reconciled (r : RouteReconciler) (req : NamespacedName)
    : list event → Result → Prop :=
  | reconciled_gone e :
      IsNotFound e = true →
      reconciled r req [Event (Get_Route req) (inr e)] (mkResult 0)
  | reconciled_live route routes claim stored services vss :
      IsZero (DeletionTimestamp (Route_ObjectMeta route)) = true →
      route_claimed route claim stored →
      services_synced req stored services →
      virtual_services_synced r routes vss →
      reconciled r req
        (Event (Get_Route req) (inl route)
           :: Event (List_Routes (nn_Namespace req) (FQDN route)) (inl routes)
           :: claim ++ services ++ vss)
        (mkResult (ResyncInterval r))
  | reconciled_deleted route routes cleanup :
      IsZero (DeletionTimestamp (Route_ObjectMeta route)) = false →
      finalizerName ∈ Finalizers (Route_ObjectMeta route) →
      route_finalized r req route routes cleanup →
      reconciled r req
        (Event (Get_Route req) (inl route)
           :: Event (List_Routes (nn_Namespace req) (FQDN route)) (inl routes) :: cleanup)
        (mkResult 0)
  | reconciled_released route routes :
      IsZero (DeletionTimestamp (Route_ObjectMeta route)) = false →
      finalizerName ∉ Finalizers (Route_ObjectMeta route) →
      reconciled r req
        [Event (Get_Route req) (inl route);
         Event (List_Routes (nn_Namespace req) (FQDN route)) (inl routes)]
        (mkResult 0).
End spec.

Section refinement.
Context {G : GoRuntime} {K : K8s} {KL : K8sLaws K}.
Implicit Types (r : RouteReconciler) (req : NamespacedName) (route : Route) (t : list event).

Lemma servicesForDeletion_filter actual desired :
  findServicesForDeletion actual desired =
  filter (λ s, Forall (λ d, key_of (Service_ObjectMeta d) ≠ key_of (Service_ObjectMeta s)) desired) actual.
Proof.
  rewrite findServicesForDeletion_filter. apply list_filter_iff. intros s.
  rewrite list_elem_of_fmap, Forall_forall. split.
  - intros Hn d Hd Heq. apply Hn. by exists d.
  - intros Hn (d & Heq & Hd). by apply (Hn d).
Qed.

Lemma ensureFinalizer_traces route t stored :
  traces (ensureFinalizer route) t (Ok stored) ↔ route_claimed route t stored.
Proof.
  unfold ensureFinalizer.
  destruct (route_hasFinalizer route finalizerName) eqn:Hf; cbn [negb].
  - apply route_hasFinalizer_elem in Hf. rewrite traces_mret_ok. split.
    + intros [-> ->]. by constructor.
    + by inversion 1.
  - assert (finalizerName ∉ Finalizers (Route_ObjectMeta route)) as Hn
      by by rewrite <- route_hasFinalizer_elem, Hf.
    etrans; [exact (traces_call_last (Update_Route _) t stored)|]. split.
    + intros ->. by constructor.
    + by intros [].
Qed.

Lemma reconcileServices_traces r req route t u :
  traces (reconcileServices r req route) t (Ok u) ↔ services_synced req route t.
Proof.
  unfold reconcileServices, deleteServiceList. rewrite traces_bind_ok. split.
  - intros (t1 & desired & t2 & -> & [-> Hb]%traces_lift_ok & H2).
    apply traces_call_ok in H2 as (actual & t' & -> & H2).
    apply traces_bind_ok in H2 as (t3 & [] & t4 & -> & H3 & H4).
    apply traces_loop_ok in H3. apply traces_loop_ok in H4.
    rewrite servicesForDeletion_filter in H4. cbn [app]. by econstructor.
  - intros [desired actual upserts deletes Hb Hu Hd].
    exists [], desired. eexists. split; [reflexivity|]. split; [by apply traces_lift_ok|].
    apply traces_call_ok. exists actual. eexists. split; [reflexivity|].
    apply traces_bind_ok. exists upserts, tt, deletes. split; [done|].
    split; [by apply traces_loop_ok|]. apply traces_loop_ok.
    by rewrite servicesForDeletion_filter.
Qed.

Lemma reconcileVirtualServices_traces r req routes t u :
  traces (reconcileVirtualServices r req routes) t (Ok u) ↔ virtual_services_synced r routes t.
Proof.
  unfold reconcileVirtualServices. rewrite traces_bind_ok. split.
  - intros (t1 & desired & t2 & -> & [-> Hb]%traces_lift_ok & H2).
    apply traces_loop_ok in H2. by econstructor.
  - intros [desired upserts Hb Hu]. exists [], desired, upserts.
    split; [done|]. split; [by apply traces_lift_ok | by apply traces_loop_ok].
Qed.

Lemma finalizeVirtualService_traces r req route rest t u :
  traces (finalizeVirtualService r req route (mkRouteList rest)) t (Ok u) ↔
  virtual_service_released r req route rest t.
Proof.
  unfold finalizeVirtualService. destruct rest as [|x others]; cbn [Items length Nat.eqb].
  - split.
    + intros ([vs|err] & t' & -> & Ht)%traces_request.
      * apply (traces_call_last (Delete_VirtualService vs)) in Ht as ->. destruct u. constructor.
      * apply traces_mret_ok in Ht as [-> _]. constructor.
    + destruct u. inversion 1; subst; apply traces_request; eexists _, _;
        (split; [reflexivity|]); [by apply traces_mret_ok | by apply (traces_call_last (Delete_VirtualService vs))].
  - rewrite reconcileVirtualServices_traces. split; [by constructor | by inversion 1].
Qed.

Lemma finalizeRouteForDeletion_traces r req route routes t u :
  traces (finalizeRouteForDeletion r req route routes) t (Ok u) ↔
  route_finalized r req route routes t.
Proof.
  unfold finalizeRouteForDeletion, deleteServiceList. split.
  - intros (owned & t' & -> & H1)%traces_call_ok.
    apply traces_bind_ok in H1 as (deletes & [] & t2 & -> & H1%traces_loop_ok & H2).
    apply traces_bind_ok in H2 as (released & [] & t3 & -> & H2 & H3).
    rewrite removeRoute_removeFirst in H2. apply finalizeVirtualService_traces in H2.
    apply traces_call_ok in H3 as (stored & t4 & -> & [-> _]%traces_mret_ok).
    by constructor.
  - intros [owned deletes released stored Hd Hv]. apply traces_call_ok. exists owned. eexists.
    split; [reflexivity|].
    apply traces_bind_ok. exists deletes, tt. eexists. split; [reflexivity|].
    split; [by apply traces_loop_ok|].
    apply traces_bind_ok. exists released, tt. eexists. split; [reflexivity|].
    split; [by rewrite removeRoute_removeFirst; apply finalizeVirtualService_traces|].
    apply traces_call_ok. exists stored, []. split; [done|]. destruct u. by apply traces_mret_ok.
Qed.

Lemma Reconcile_ok r req t res :
  traces (Reconcile r req) t (Ok res) ↔ reconciled r req t res.
Proof.
  unfold Reconcile. split.
  - intros ([route|e] & t' & -> & H1)%traces_request.
    + apply traces_call_ok in H1 as (routes & t2 & -> & H1).
      destruct (IsZero _) eqn:Hz; [|destruct (route_hasFinalizer route finalizerName) eqn:Hf].
      * apply traces_bind_ok in H1 as (claim & stored & t3 & -> & H1%ensureFinalizer_traces & H2).
        apply traces_bind_ok in H2 as (svcs & u & t4 & -> & H2%reconcileServices_traces & H3).
        apply traces_bind_ok in H3 as (vss & u' & t5 & -> & H3%reconcileVirtualServices_traces & H4).
        apply traces_mret_ok in H4 as [-> <-]. rewrite app_nil_r. by econstructor.
      * apply traces_bind_ok in H1 as (t3 & u & t4 & -> & H1%finalizeRouteForDeletion_traces & H2).
        apply traces_mret_ok in H2 as [-> <-]. rewrite app_nil_r.
        apply route_hasFinalizer_elem in Hf. by constructor.
      * apply traces_mret_ok in H1 as [-> <-]. constructor; [done|].
        by rewrite <- route_hasFinalizer_elem, Hf.
    + rewrite IgnoreNotFound_spec in H1. destruct (IsNotFound e) eqn:He.
      * apply traces_mret_ok in H1 as [-> <-]. by constructor.
      * by apply traces_Done in H1 as [_ ?].
  - intros Hr. destruct Hr as [e He|route routes claim stored svcs vss Hz Hc Hs Hv
      |route routes cleanup Hz Hf Hc|route routes Hz Hf].
    + apply traces_request. eexists _, _. split; [reflexivity|]. cbn. rewrite IgnoreNotFound_spec, He.
      by apply traces_mret_ok.
    + apply traces_request. eexists _, _. split; [reflexivity|]. cbn beta iota. apply traces_call_ok.
      eexists _, _. split; [reflexivity|]. rewrite Hz.
      apply traces_bind_ok. exists claim, stored. eexists. split; [reflexivity|].
      split; [by apply ensureFinalizer_traces|].
      apply traces_bind_ok. exists svcs, tt. eexists. split; [reflexivity|].
      split; [by apply reconcileServices_traces|].
      apply traces_bind_ok. exists vss, tt, []. split; [by rewrite app_nil_r|].
      split; [by apply reconcileVirtualServices_traces | by apply traces_mret_ok].
    + apply traces_request. eexists _, _. split; [reflexivity|]. cbn beta iota. apply traces_call_ok.
      eexists _, _. split; [reflexivity|]. rewrite Hz.
      apply route_hasFinalizer_elem in Hf. rewrite Hf.
      apply traces_bind_ok. exists cleanup, tt, []. split; [by rewrite app_nil_r|].
      split; [by apply finalizeRouteForDeletion_traces | by apply traces_mret_ok].
    + apply traces_request. eexists _, _. split; [reflexivity|]. cbn beta iota. apply traces_call_ok.
      eexists _, _. split; [reflexivity|]. rewrite Hz.
      rewrite <- route_hasFinalizer_elem, not_true_iff_false in Hf. rewrite Hf.
      by apply traces_mret_ok.
Qed.
End refinement.
