(* ===== verification/ControllerSafety.v ===== *)
(** What the reconciler does whatever the API server replies: theorems about
    every trace of [Reconcile].  Errors stop it, Services are deleted only if
    they were listed as the route's own, and the finalizer goes last, after
    the cleanup it guards. *)
From S2P Require Import Prelude Runtime Api ResourceNames Client RouteController.
From S2P Require Import ControllerHelpers ControllerTraces.
From S2P Require Import VirtualServiceBuilder ServiceBuilder.

(** The two calls whose error the reconciler looks at. *)
Definition inspected (a : action) : bool :=
  match a with Get_Route _ | Get_VirtualService _ => true | _ => false end.

Definition is_delete_service (a : action) : Prop :=
  match a with Delete_Service _ => True | _ => False end.
Definition is_update (a : action) : Prop :=
  match a with Update_Route _ => True | _ => False end.

Section safety.
Context {G : GoRuntime} {K : K8s} {KL : K8sLaws K}.
Implicit Types (r : RouteReconciler) (req : NamespacedName).

(** * Errors *)

Lemma strict_lift exempt {A} (o : outcome A) : strict exempt (lift o).
Proof. done. Qed.

Hint Resolve strict_lift : strict.

Ltac strict_tac :=
  repeat lazymatch goal with
  | |- strict _ (_ ≫= _) => apply strict_bind; [|intros ?]
  | |- strict _ (foldM _ _ _) => apply strict_foldM; intros ? ?
  | |- strict _ (call _) => apply strict_call
  | |- strict _ (lift _) => apply strict_lift
  | |- strict _ (mret _) => exact I
  | |- strict _ (request _) => apply strict_request; reflexivity
  end.

Tactic Notation "destruct_reply" "as" simple_intropattern(p) :=
  match goal with |- strict _ (match ?x with _ => _ end) => destruct x as p end.

Lemma reconcileServices_strict r req route : strict inspected (reconcileServices r req route).
Proof. unfold reconcileServices, deleteServiceList. strict_tac. Qed.

Lemma reconcileVirtualServices_strict r req routes :
  strict inspected (reconcileVirtualServices r req routes).
Proof. unfold reconcileVirtualServices. strict_tac. Qed.

Lemma finalizeVirtualService_strict r req route routes :
  strict inspected (finalizeVirtualService r req route routes).
Proof.
  unfold finalizeVirtualService. destruct (Nat.eqb _ 0).
  - strict_tac. destruct_reply as [vs|e]; strict_tac.
  - apply reconcileVirtualServices_strict.
Qed.

Lemma finalizeRouteForDeletion_strict r req route routes :
  strict inspected (finalizeRouteForDeletion r req route routes).
Proof.
  unfold finalizeRouteForDeletion, deleteServiceList. strict_tac.
  apply finalizeVirtualService_strict.
Qed.

Lemma ensureFinalizer_strict route : strict inspected (ensureFinalizer route).
Proof.
  unfold ensureFinalizer. destruct (route_hasFinalizer route finalizerName); cbn [negb]; strict_tac.
Qed.

Lemma Reconcile_strict r req : strict inspected (Reconcile r req).
Proof.
  unfold Reconcile. strict_tac. destruct_reply as [route|e]; [|by destruct (IgnoreNotFound e)].
  strict_tac. destruct (IsZero _); [|destruct (route_hasFinalizer _ _)]; strict_tac.
  - apply ensureFinalizer_strict.
  - apply reconcileServices_strict.
  - apply reconcileVirtualServices_strict.
  - apply finalizeRouteForDeletion_strict.
Qed.

(** Whatever the API server replies, the first call that fails is the
    last one of the reconciliation and its error is what [Reconcile]
    returns, so that the request is retried; the only exceptions are the
    two calls whose error it looks at. *)
Theorem Reconcile_errors r req pre ev post o e
    (Ht : traces (Reconcile r req) (pre ++ ev :: post) o)
    (Hev : event_error ev = Some e) (Ha : inspected (event_action ev) = false) :
  post = [] ∧ o = Err e.
Proof. by eapply strict_traces, Ht; [apply Reconcile_strict|..]. Qed.

(** An error of the first [Get] ends the reconciliation at once: without
    an error when the route is gone, with it otherwise. *)
Theorem Reconcile_get_error r req t o :
  traces (Reconcile r req) t o →
  (∃ e, t = [Event (Get_Route req) (inr e)] ∧
    o = if IsNotFound e then Ok empty_Result else Err e) ∨
  (∃ route t', t = Event (Get_Route req) (inl route) :: t').
Proof.
  intros ([route|e] & t' & -> & Ht)%traces_request; [by right; eauto|].
  left. exists e. rewrite IgnoreNotFound_spec in Ht.
  destruct (IsNotFound e); apply traces_Done in Ht as [-> ->]; done.
Qed.

(** * The calls of the parts *)

Definition upserts_or_deletes_service (a : action) : Prop :=
  match a with
  | List_Services _ _ | CreateOrUpdate_Service _ _ | Delete_Service _ => True
  | _ => False
  end.

Definition on_virtual_service (a : action) : Prop :=
  match a with
  | Get_VirtualService _ | CreateOrUpdate_VirtualService _ _ | Delete_VirtualService _ => True
  | _ => False
  end.

Lemma deleteServiceList_calls services : calls is_delete_service (deleteServiceList services).
Proof.
  unfold deleteServiceList. apply calls_foldM. intros _ s _. by repeat constructor; destruct r.
Qed.

Lemma upsert_loop_calls {A} (P : action → Prop) (a : A → action) l :
  (∀ x, P (a x)) → calls P (foldM (λ _ x, _ ← call (a x); mret tt) tt l).
Proof.
  intros Ha. apply calls_foldM. intros _ x _. apply calls_bind; [by apply calls_call | done].
Qed.

Lemma reconcileServices_calls r req route :
  calls upserts_or_deletes_service (reconcileServices r req route).
Proof.
  unfold reconcileServices, deleteServiceList.
  apply calls_bind; [done|]. intros desired. apply calls_bind; [by apply calls_call|].
  intros actual. apply calls_bind; [|intros _]; by apply upsert_loop_calls.
Qed.

Lemma reconcileVirtualServices_calls r req routes :
  calls on_virtual_service (reconcileVirtualServices r req routes).
Proof.
  unfold reconcileVirtualServices. apply calls_bind; [done|]. intros vss.
  by apply upsert_loop_calls.
Qed.

Lemma finalizeVirtualService_calls r req route routes :
  calls on_virtual_service (finalizeVirtualService r req route routes).
Proof.
  unfold finalizeVirtualService. destruct (Nat.eqb _ 0).
  - apply calls_bind; [by apply calls_request|]. intros [vs|e]; [by apply calls_call | done].
  - apply reconcileVirtualServices_calls.
Qed.

Lemma ensureFinalizer_calls route :
  calls (λ a, ∃ rt, a = Update_Route rt ∧ finalizerName ∈ Finalizers (Route_ObjectMeta rt))
    (ensureFinalizer route).
Proof.
  unfold ensureFinalizer. destruct (negb _); [|done]. apply calls_call. eexists.
  split; [done|]. cbn. apply AddFinalizer_elem. by right.
Qed.

(** * Deleting Services *)

Lemma each_elem {X} (a : X → action) l t x : each a l t → x ∈ l → ∃ v, Event (a x) (inl v) ∈ t.
Proof.
  induction 1 as [|y ev l t [v ->] _ IH]; [by intros ?%not_elem_of_nil|].
  intros [->|Hx]%elem_of_cons; [exists v; by left|].
  destruct (IH Hx) as [v' ?]. exists v'. by right.
Qed.

Lemma deleteServiceList_event services pre ev post o s :
  traces (deleteServiceList services) (pre ++ ev :: post) o →
  event_action ev = Delete_Service s → s ∈ services.
Proof.
  intros Ht Ha. eapply traces_loop_event in Ht as (x & Hx & Heq);
    [|apply elem_of_app; right; by left].
  rewrite Ha in Heq. by injection Heq as ->.
Qed.

Lemma reconcileServices_deletes r req route pre ev post o s :
  traces (reconcileServices r req route) (pre ++ ev :: post) o →
  event_action ev = Delete_Service s →
  ∃ desired actual,
    ServiceBuilder.Build route = Ok desired ∧
    Event (List_Services (nn_Namespace req) (UID (Route_ObjectMeta route))) (inl actual) ∈ pre ∧
    s ∈ actual ∧
    ∀ d, d ∈ desired →
      key_of (Service_ObjectMeta d) ≠ key_of (Service_ObjectMeta s) ∧
      ∃ v, Event (upsert_Service d) (inl v) ∈ pre.
Proof.
  unfold reconcileServices. intros Ht Ha.
  apply (traces_bind_skip (λ _, False)) in Ht as (t0 & desired & pre1 & -> & Hb & Ht); [|done|auto].
  apply traces_lift_ok in Hb as [-> Hb].
  apply traces_call_skip in Ht as (actual & pre2 & -> & Ht); [|by rewrite Ha].
  apply (traces_bind_skip (λ a, ¬ is_delete_service a)) in Ht
    as (t1 & [] & pre3 & -> & Hu & Ht); [|by apply upsert_loop_calls; auto|by rewrite Ha; intros Hn; apply Hn].
  apply deleteServiceList_event with (s := s) in Ht; [|done].
  apply traces_loop_ok in Hu. rewrite servicesForDeletion_filter in Ht.
  apply list_elem_of_filter in Ht as [Hn Hin]. rewrite Forall_forall in Hn.
  exists desired, actual. split_and!; [done|by left|done|]. intros d Hd. split; [by apply Hn|].
  destruct (each_elem _ _ _ _ Hu Hd) as [v Hv]. exists v. cbn. right. apply elem_of_app. by left.
Qed.

(** C10: a Service is deleted only if the server listed it as owned by the
    route it returned for this request, and only when that route is being
    deleted or after every Service the route still wants has been upserted,
    and none of them has the key of the deleted one. *)
Theorem Reconcile_deletes_owned r req pre ev post o s
    (Ht : traces (Reconcile r req) (pre ++ ev :: post) o)
    (Ha : event_action ev = Delete_Service s) :
  ∃ route actual,
    (Event (Get_Route req) (inl route) ∈ pre ∨
     ∃ rt, Event (Update_Route rt) (inl route) ∈ pre) ∧
    Event (List_Services (nn_Namespace req) (UID (Route_ObjectMeta route))) (inl actual) ∈ pre ∧
    s ∈ actual ∧
    (IsZero (DeletionTimestamp (Route_ObjectMeta route)) = false ∨
     ∃ desired, ServiceBuilder.Build route = Ok desired ∧
       ∀ d, d ∈ desired →
         key_of (Service_ObjectMeta d) ≠ key_of (Service_ObjectMeta s) ∧
         ∃ v, Event (upsert_Service d) (inl v) ∈ pre).
Proof.
  unfold Reconcile in Ht.
  apply traces_request_skip in Ht as ([route|e] & pre1 & -> & Ht); [..|by rewrite Ha]; cycle 1.
  { apply (calls_no_event (λ _, False)) in Ht; [done | by destruct (IgnoreNotFound e) | auto]. }
  apply traces_call_skip in Ht as (routes & pre2 & -> & Ht); [|by rewrite Ha].
  destruct (IsZero _) eqn:Hz; [|destruct (route_hasFinalizer _ _)].
  - eapply traces_bind_skip in Ht as (claim & stored & pre3 & -> & Hc & Ht);
      [|apply ensureFinalizer_calls | rewrite Ha; by intros (? & ? & _)].
    apply traces_bind_event in Ht as [(post' & o' & Ht) | (t1 & u & pre4 & -> & _ & Ht)]; cycle 1.
    { apply (calls_no_event on_virtual_service) in Ht; [done | | by rewrite Ha; auto].
      by apply calls_bind; [apply reconcileVirtualServices_calls|]. }
    apply reconcileServices_deletes with (s := s) in Ht as (desired & actual & Hb & Hl & Hs & Hd);
      [|done].
    exists stored, actual. split_and!; [..|done|right; exists desired; split; [done|]].
    + apply ensureFinalizer_traces in Hc as [?|stored' _]; [by left; left|].
      right. eexists. do 2 right. by left.
    + do 2 right. apply elem_of_app. by right.
    + intros d Hin. destruct (Hd d Hin) as [? [v ?]]. split; [done|]. exists v.
      do 2 right. apply elem_of_app. by right.
  - apply (traces_bind_pure _ (λ _, Ok empty_Result)) in Ht as [o' Ht].
    unfold finalizeRouteForDeletion in Ht.
    apply traces_call_skip in Ht as (actual & pre3 & -> & Ht); [|by rewrite Ha].
    apply traces_bind_event in Ht as [(post1 & o1 & Ht) | (t1 & u & pre4 & -> & _ & Ht)].
    + apply deleteServiceList_event with (s := s) in Ht; [|done].
      exists route, actual. split_and!; [by left; left | do 2 right; by left | done | by left].
    + apply (calls_no_event (λ a, ¬ is_delete_service a)) in Ht; [done | | by rewrite Ha; intros Hn; apply Hn].
      apply calls_bind.
      { eapply calls_mono, finalizeVirtualService_calls. intros [] ?; auto. }
      intros _. apply calls_bind; [apply calls_call; auto | done].
  - apply (calls_no_event (λ _, False)) in Ht; [done|done|auto].
Qed.

(** * The finalizer *)

(** An update that keeps the finalizer. *)
Definition keeps_finalizer (a : action) : Prop :=
  match a with
  | Update_Route rt => finalizerName ∈ Finalizers (Route_ObjectMeta rt)
  | _ => True
  end.

Lemma ensureFinalizer_keeps route : calls keeps_finalizer (ensureFinalizer route).
Proof. eapply calls_mono, ensureFinalizer_calls. by intros a (rt & -> & ?). Qed.

Lemma live_keeps r req route routes :
  calls keeps_finalizer
    (stored ← ensureFinalizer route;
     _ ← reconcileServices r req stored;
     _ ← reconcileVirtualServices r req routes;
     mret (mkResult (ResyncInterval r))).
Proof.
  apply calls_bind; [apply ensureFinalizer_keeps|]. intros stored.
  apply calls_bind; [eapply calls_mono, reconcileServices_calls; by intros []|]. intros _.
  apply calls_bind; [eapply calls_mono, reconcileVirtualServices_calls; by intros []|]. done.
Qed.

Lemma finalizeRouteForDeletion_release r req route routes pre ev post o rt :
  traces (finalizeRouteForDeletion r req route routes) (pre ++ ev :: post) o →
  event_action ev = Update_Route rt →
  post = [] ∧
  rt = with_Finalizers route
         (RemoveFinalizer (Finalizers (Route_ObjectMeta route)) finalizerName) ∧
  ∃ owned deletes released,
    pre = Event (List_Services (nn_Namespace req) (UID (Route_ObjectMeta route))) (inl owned)
            :: deletes ++ released ∧
    each Delete_Service owned deletes ∧
    virtual_service_released r req route
      (removeFirst (Name (Route_ObjectMeta route)) (Items routes)) released.
Proof.
  unfold finalizeRouteForDeletion. intros Ht Ha.
  apply traces_call_skip in Ht as (owned & pre1 & -> & Ht); [|by rewrite Ha].
  eapply traces_bind_skip in Ht as (deletes & [] & pre2 & -> & Hd & Ht);
    [|apply deleteServiceList_calls | rewrite Ha; auto].
  eapply traces_bind_skip in Ht as (released & [] & pre3 & -> & Hr & Ht);
    [|apply finalizeVirtualService_calls | rewrite Ha; auto].
  apply traces_loop_ok in Hd. rewrite removeRoute_removeFirst in Hr.
  apply finalizeVirtualService_traces in Hr.
  assert (pre3 = [] ∧ (∃ rep, ev = Event (Update_Route (with_Finalizers route
    (RemoveFinalizer (Finalizers (Route_ObjectMeta route)) finalizerName))) rep) ∧ post = [])
    as (-> & [rep ->] & ->).
  { apply traces_call in Ht as [(v & t' & Heq & [-> _]%traces_Done) | (e & Heq & _)];
      apply app_cons_singleton in Heq as (-> & -> & ->); eauto. }
  injection Ha as <-. split; [done|]. split; [done|].
  exists owned, deletes, released. by rewrite app_nil_r.
Qed.

(** C9: the update that drops the finalizer is the last call, it is made
    only for a route that is being deleted, and only after all Services
    listed as the route's own have been deleted and its VirtualService has
    been released. *)
Theorem Reconcile_finalizer_last r req pre ev post o rt
    (Ht : traces (Reconcile r req) (pre ++ ev :: post) o)
    (Ha : event_action ev = Update_Route rt)
    (Hf : finalizerName ∉ Finalizers (Route_ObjectMeta rt)) :
  post = [] ∧
  ∃ route routes owned deletes released,
    IsZero (DeletionTimestamp (Route_ObjectMeta route)) = false ∧
    (∀ f, f ∈ Finalizers (Route_ObjectMeta rt) ↔
          f ∈ Finalizers (Route_ObjectMeta route) ∧ f ≠ finalizerName) ∧
    pre = Event (Get_Route req) (inl route)
            :: Event (List_Routes (nn_Namespace req) (FQDN route)) (inl routes)
            :: Event (List_Services (nn_Namespace req) (UID (Route_ObjectMeta route))) (inl owned)
            :: deletes ++ released ∧
    each Delete_Service owned deletes ∧
    virtual_service_released r req route
      (removeFirst (Name (Route_ObjectMeta route)) (Items routes)) released.
Proof.
  assert (¬ keeps_finalizer (event_action ev)) as Hk by by rewrite Ha.
  unfold Reconcile in Ht.
  apply traces_request_skip in Ht as ([route|e] & pre1 & -> & Ht); [..|by rewrite Ha]; cycle 1.
  { apply (calls_no_event (λ _, False)) in Ht; [done | by destruct (IgnoreNotFound e) | auto]. }
  apply traces_call_skip in Ht as (routes & pre2 & -> & Ht); [|by rewrite Ha].
  destruct (IsZero _) eqn:Hz; [|destruct (route_hasFinalizer _ _)].
  - apply (calls_no_event keeps_finalizer) in Ht; [done | apply live_keeps | exact Hk].
  - apply (traces_bind_pure _ (λ _, Ok empty_Result)) in Ht as [o' Ht].
    apply finalizeRouteForDeletion_release with (rt := rt) in Ht
      as (-> & -> & owned & deletes & released & -> & Hd & Hr); [|done].
    split; [done|]. exists route, routes, owned, deletes, released.
    split_and!; try done. intros f. apply RemoveFinalizer_elem.
  - apply (calls_no_event (λ _, False)) in Ht; [done|done|auto].
Qed.

(** * Refinement *)

(** C1: a trace of [Reconcile] ends without an error exactly when it is one
    of the call sequences of the abstract specification [reconciled], with
    the result the specification gives. *)
Theorem Reconcile_refines r req t res :
  traces (Reconcile r req) t (Ok res) ↔ reconciled r req t res.
Proof. apply Reconcile_ok. Qed.

(** C31: finalization succeeds even when the VirtualService could not be read
    for any reason at all: it is not deleted, yet the finalizer goes. *)
Theorem finalization_ignores_get_error r req route routes stored err
    (Hz : IsZero (DeletionTimestamp (Route_ObjectMeta route)) = false)
    (Hf : finalizerName ∈ Finalizers (Route_ObjectMeta route))
    (Hlast : Items routes = [route]) :
  traces (Reconcile r req)
    [Event (Get_Route req) (inl route);
     Event (List_Routes (nn_Namespace req) (FQDN route)) (inl routes);
     Event (List_Services (nn_Namespace req) (UID (Route_ObjectMeta route))) (inl []);
     Event (Get_VirtualService
       (mkNamespacedName (nn_Namespace req) (VirtualServiceName (FQDN route)))) (inr err);
     Event (Update_Route (with_Finalizers route
       (RemoveFinalizer (Finalizers (Route_ObjectMeta route)) finalizerName))) (inl stored)]
    (Ok empty_Result).
Proof.
  apply Reconcile_ok, reconciled_deleted; [done..|].
  apply (route_finalized_intro _ _ _ _ [] [] [_] stored); [constructor|].
  rewrite Hlast. cbn [removeFirst]. rewrite String.eqb_refl. constructor.
Qed.
End safety.
