(* ===== verification/ControllerFailures.v ===== *)
(** Why a reconciliation can fail: every trace of [Reconcile] that does not end
    in success has one of three causes, and without them it succeeds. *)
From S2P Require Import Prelude Runtime Api ResourceNames BuilderStructure.
From S2P Require Import BuilderTheorems Client RouteController ControllerHelpers.
From S2P Require Import ControllerTraces VirtualServiceBuilder ServiceBuilder.

Section failures.
Context {G : GoRuntime} {GL : GoRuntimeLaws G} {K : K8s} {KL : K8sLaws K}.
Implicit Types (r : RouteReconciler) (req : NamespacedName) (route : Route) (t : list event).

(** The causes: the last call failed; the Routes of the FQDN do not form a
    valid group; a destination of the route has no port.  [P] and [R] say
    which routes and lists are in question. *)
Inductive cause (r : RouteReconciler) (P : Route → Prop) (R : RouteList → Prop) {A}
    : list event → outcome A → Prop :=
  | cause_call pre ev e : event_error ev = Some e → cause r P R (pre ++ [ev]) (Err e)
  | cause_group rl e t :
      R rl →
      VirtualServiceBuilder.Build (mkVirtualServiceBuilder [IstioGateway r]) rl = Err e →
      cause r P R t (Err e)
  | cause_port route w t :
      P route → Exists (λ dest, Port dest = None) (Destinations (Route_Spec route)) →
      cause r P R t (Panic w).

Definition explained r (P : Route → Prop) (R : RouteList → Prop) {A} t (o : outcome A) : Prop :=
  is_ok o ∨ cause r P R t o.

Lemma cause_weaken r (P P' : Route → Prop) (R R' : RouteList → Prop) {A} t0 t (o : outcome A) :
  (∀ x, P x → P' x) → (∀ x, R x → R' x) → cause r P R t o → cause r P' R' (t0 ++ t) o.
Proof.
  intros HP HR [pre ev e He | rl e t' Hrl Hb | route w t' Hr Hp].
  - rewrite app_assoc. by constructor.
  - by eapply cause_group; eauto.
  - by eapply cause_port; eauto.
Qed.

Lemma cause_panic r (P : Route → Prop) R {A} t (o : outcome A) :
  panics o → cause r P R t o →
  ∃ route, P route ∧ Exists (λ dest, Port dest = None) (Destinations (Route_Spec route)).
Proof. intros [w ->]. inversion 1. by eexists. Qed.

Lemma explained_panic r (P : Route → Prop) R {A} t (o : outcome A) :
  panics o → explained r P R t o →
  ∃ route, P route ∧ Exists (λ dest, Port dest = None) (Destinations (Route_Spec route)).
Proof. intros Hp [[x ->]|Hc]; [by destruct Hp|]. by eapply cause_panic. Qed.

Lemma explained_bind r P R {A B} (p : prog A) (f : A → prog B) t o :
  traces (p ≫= f) t o →
  (∀ t1 o1, traces p t1 o1 → explained r P R t1 o1) →
  (∀ x t2, traces (f x) t2 o → (∃ t1, t = t1 ++ t2 ∧ traces p t1 (Ok x)) → explained r P R t2 o) →
  explained r P R t o.
Proof.
  intros (t1 & o1 & t2 & -> & H1 & H2)%traces_bind Hp Hf.
  destruct o1 as [x|e|w].
  - destruct (Hf x t2 H2) as [?|Hc]; [by exists t1 | by left|]. right. by eapply cause_weaken, Hc.
  - destruct H2 as [-> ->]. rewrite app_nil_r. right.
    destruct (Hp t1 _ H1) as [[? [=]]|Hc]. inversion Hc; subst; [by constructor | by eapply cause_group].
  - destruct H2 as [-> ->]. rewrite app_nil_r. right.
    destruct (Hp t1 _ H1) as [[? [=]]|Hc]. inversion Hc; subst. by eapply cause_port.
Qed.

Lemma explained_call r P R (a : action) t (o : outcome (value a)) :
  traces (call a) t o → explained r P R t o.
Proof.
  intros ([v|e] & t' & -> & [-> ->]%traces_Done)%traces_Act; [by left; eexists|].
  right. by apply (cause_call r P R []).
Qed.

Lemma explained_loop r P R {X} (a : X → action) l t o :
  traces (foldM (λ _ x, _ ← call (a x); mret tt) tt l) t o → explained r P R t o.
Proof.
  intros [[-> _]|(pre & x & post & t' & e & _ & -> & _ & ->)]%traces_loop; [by left; eexists|].
  right. by constructor.
Qed.

Lemma explained_mret r P R {A} (x : A) t o : traces (mret x) t o → explained r P R t o.
Proof. intros [_ ->]%traces_Done. by left; eexists. Qed.

Local Ltac solve_mret :=
  match goal with
  | H : traces ?p ?t ?o |- explained ?r ?P ?R ?t ?o => exact (explained_mret r P R _ t o H)
  end.

Lemma explained_services r (P : Route → Prop) R req route t o :
  P route → traces (reconcileServices r req route) t o → explained r P R t o.
Proof.
  intros HP Ht. eapply explained_bind; [exact Ht| |].
  - intros t1 o1 [-> ->]%traces_Done.
    destruct (Services_cases route) as [[services Hs]|[[w Hw] Hex]].
    + rewrite Hs. by left; eexists.
    + rewrite Hw. right. by eapply cause_port.
  - intros desired t2 H2 _. eapply explained_bind; [exact H2 | apply (explained_call r P R (List_Services _ _))|].
    intros actual t3 H3 _. eapply explained_bind; [exact H3 | apply explained_loop|].
    intros ? t4 H4 _. exact (explained_loop r P R Delete_Service _ _ _ H4).
Qed.

Lemma explained_virtual_services r P (R : RouteList → Prop) req rl t o :
  R rl → traces (reconcileVirtualServices r req rl) t o → explained r P R t o.
Proof.
  intros HR Ht. eapply explained_bind; [exact Ht| |].
  - intros t1 o1 [-> ->]%traces_Done.
    destruct (VirtualServiceBuilder.Build _ rl) as [vss|e|w] eqn:Hb; [by left; eexists| |].
    + right. by eapply cause_group.
    + exfalso. eapply Build_panic_free. by exists w.
  - intros desired t2 H2 _. exact (explained_loop r P R upsert_VirtualService _ _ _ H2).
Qed.

Lemma explained_finalize r P (R : RouteList → Prop) req route rl t o :
  (∀ x others, removeFirst (Name (Route_ObjectMeta route)) (Items rl) = x :: others →
    R (mkRouteList (x :: others))) →
  traces (finalizeRouteForDeletion r req route rl) t o → explained r P R t o.
Proof.
  intros HR Ht. eapply explained_bind; [exact Ht | apply (explained_call r P R (List_Services _ _))|].
  intros owned t2 H2 _. eapply explained_bind; [exact H2 | apply explained_loop|].
  intros ? t3 H3 _. eapply explained_bind; [exact H3| |].
  - intros t4 o4 H4. rewrite removeRoute_removeFirst in H4. unfold finalizeVirtualService in H4.
    cbn [Items] in H4. destruct (removeFirst _ _) as [|y others]; cbn [length Nat.eqb] in H4.
    + eapply explained_bind; [exact H4| |].
      * intros t5 o5 (rep & t6 & -> & [-> ->]%traces_Done)%traces_Act. by left; eexists.
      * intros [vs|err] t5 H5 _; [by apply (explained_call r P R (Delete_VirtualService vs))|].
        solve_mret.
    + eapply explained_virtual_services; [by apply HR | exact H4].
  - intros ? t4 H4 _. eapply explained_bind; [exact H4 | apply (explained_call r P R (Update_Route _))|].
    intros ? t5 H5 _. solve_mret.
Qed.

Lemma explained_live r (P : Route → Prop) (R : RouteList → Prop) req route rl t o :
  R rl → P route → (∀ x stored, Event (Update_Route x) (inl stored) ∈ t → P stored) →
  traces (stored ← ensureFinalizer route;
          _ ← reconcileServices r req stored;
          _ ← reconcileVirtualServices r req rl;
          mret (mkResult (ResyncInterval r))) t o →
  explained r P R t o.
Proof.
  intros HR HP Hstored Ht. eapply explained_bind; [exact Ht| |].
  - intros t1 o1 H1. unfold ensureFinalizer in H1. destruct (negb _).
    + match type of H1 with traces (call ?a) _ _ => exact (explained_call r P R a t1 o1 H1) end.
    + solve_mret.
  - intros stored t2 H2 (t1 & -> & H1%ensureFinalizer_traces).
    assert (P stored) as HPs.
    { destruct H1 as [|stored _]; [done|]. eapply Hstored. by left. }
    eapply explained_bind; [exact H2| |].
    + intros t3 o3. by apply explained_services.
    + intros ? t3 H3 _. eapply explained_bind; [exact H3| |].
      * intros t4 o4. by apply explained_virtual_services.
      * intros ? t4 H4 _. solve_mret.
Qed.

(** C11: a reconciliation succeeds unless its last call failed, and the error is
    that call's; or the Routes the server listed for the FQDN, with or without
    the deleted one, are rejected by the builder, and the error is the
    builder's; or a destination of the route the server returned has no port,
    and the controller panics. *)
Theorem Reconcile_failures r req t o (Ht : traces (Reconcile r req) t o) :
  is_ok o ∨
  cause r
    (λ route, Event (Get_Route req) (inl route) ∈ t ∨
       ∃ x, Event (Update_Route x) (inl route) ∈ t)
    (λ rl, ∃ route routes,
       Event (List_Routes (nn_Namespace req) (FQDN route)) (inl routes) ∈ t ∧
       (rl = routes ∨
        rl = mkRouteList (removeFirst (Name (Route_ObjectMeta route)) (Items routes)))) t o.
Proof.
  apply traces_request in Ht as ([route|e] & t1 & -> & Ht).
  - apply traces_call in Ht as [(rl & t2 & -> & Ht) | (e & -> & ->)];
      [|right; by apply (cause_call _ _ _ [_])].
    match goal with |- is_ok o ∨ cause r ?P0 ?R0 _ _ => set (P := P0); set (R := R0) end.
    assert (P route) as HP by (left; by left).
    assert (∀ x, x = rl ∨ x = mkRouteList (removeFirst (Name (Route_ObjectMeta route)) (Items rl)) → R x)
      as HR by (intros x Hx; exists route, rl; split; [right; by left | done]).
    assert (explained r P R t2 o) as [?|Hc]; [|by left|right; by apply (cause_weaken r P P R R [_; _])].
    destruct (IsZero _); [|destruct (route_hasFinalizer _ _)].
    + eapply explained_live; [apply HR; by left | exact HP | | exact Ht].
      intros x stored Hin. right. exists x. by do 2 right.
    + eapply explained_bind; [exact Ht| |].
      * intros t3 o3. apply explained_finalize. intros x others Heq. apply HR. right. by rewrite Heq.
      * intros ? t3 H3 _. solve_mret.
    + solve_mret.
  - destruct (IgnoreNotFound e) as [e'|] eqn:He.
    + apply traces_Done in Ht as [-> ->]. right. rewrite IgnoreNotFound_spec in He.
      apply (cause_call _ _ _ []). destruct (IsNotFound e); [done|]. by injection He as ->.
    + apply traces_Done in Ht as [-> ->]. by left; eexists.
Qed.
End failures.
