(* ===== verification/ApiServer.v ===== *)
(** The API server behind the client, as far as the controller relies on it:
    [ApiServer] is a server with three stores, [ApiServerLaws] what the
    documentation of Kubernetes and controller-runtime says the calls do to
    them when they succeed (nothing is said of a failed write), and
    [memory_server] an executable server that has the laws.

    Reads are taken to see the current state: the cache of the manager's
    client is assumed to be up to date.  Garbage collection of owned objects
    is a process of its own and no part of a call. *)
From S2P Require Import Prelude Api Client RouteController.

(** * Stores *)

Class ApiServer := {
  server : Type;
  serve : server → ∀ a, reply a → server → Prop;
  routes_of : server → gmap NamespacedName Route;
  services_of : server → gmap NamespacedName Service;
  virtual_services_of : server → gmap NamespacedName VirtualService;
}.

Definition route_key (x : Route) : NamespacedName := key_of (Route_ObjectMeta x).
Definition service_key (s : Service) : NamespacedName := key_of (Service_ObjectMeta s).
Definition vs_key (v : VirtualService) : NamespacedName := key_of (VS_ObjectMeta v).

Definition has_finalizers (x : Route) : bool :=
  match Finalizers (Route_ObjectMeta x) with [] => false | _ => true end.

Definition same_objects `{ApiServer} (w w' : server) : Prop :=
  routes_of w' = routes_of w ∧ services_of w' = services_of w ∧
  virtual_services_of w' = virtual_services_of w.

(** What the server stores for an object sent to it: it assigns the UID and,
    for a Service, the cluster IP, where the object has none. *)
Definition persisted_meta (m m' : ObjectMeta) : Prop :=
  key_of m' = key_of m ∧ Labels m' = Labels m ∧ Annotations m' = Annotations m ∧
  OwnerReferences m' = OwnerReferences m ∧ Finalizers m' = Finalizers m ∧
  DeletionTimestamp m' = DeletionTimestamp m ∧ (UID m ≠ "" → UID m' = UID m).

Definition persisted_service (s s' : Service) : Prop :=
  persisted_meta (Service_ObjectMeta s) (Service_ObjectMeta s') ∧
  Service_Selector (Service_Spec s') = Service_Selector (Service_Spec s) ∧
  Ports (Service_Spec s') = Ports (Service_Spec s) ∧
  (ClusterIP (Service_Spec s) ≠ "" → ClusterIP (Service_Spec s') = ClusterIP (Service_Spec s)).

Definition persisted_virtual_service (v v' : VirtualService) : Prop :=
  persisted_meta (VS_ObjectMeta v) (VS_ObjectMeta v') ∧ VS_Spec v' = VS_Spec v.

(** CreateOrUpdate on a store: the mutate function runs on the stored object,
    or on the given one when there is none; an unchanged object is not written. *)
Definition upserted {O} (persisted : O → O → Prop) (k : NamespacedName) (obj : O)
    (mutate : MutateFn O) (v : O) (m m' : gmap NamespacedName O) : Prop :=
  ∃ v0, mutate (default obj (m !! k)) = (v0, None) ∧ persisted v0 v ∧
    (m !! k = Some v0 → v = v0) ∧ m' = <[k := v]> m.

(** Delete on a store: an object without finalizers is gone, others stay. *)
Definition deleted {O} (fins : O → list string) (k : NamespacedName)
    (m m' : gmap NamespacedName O) : Prop :=
  (∀ v, m !! k = Some v → fins v = [] → m' !! k = None) ∧
  (m !! k = None → m' !! k = None) ∧
  ∀ k', k' ≠ k → m' !! k' = m !! k'.

Class ApiServerLaws (K : K8s) (A : ApiServer) : Prop := {
  (** objects are stored under their keys *)
  routes_keyed w k x : routes_of w !! k = Some x → route_key x = k;
  services_keyed w k s : services_of w !! k = Some s → service_key s = k;
  (** reads, successful or not, change nothing *)
  serve_reads w a r w' :
    match a with
    | Get_Route _ | List_Routes _ _ | List_Services _ _ | Get_VirtualService _ => True
    | _ => False
    end → serve w a r w' → same_objects w w';
  serve_Get_Route w k r w' :
    serve w (Get_Route k) r w' →
    match r with
    | inl x => routes_of w !! k = Some x
    | inr e => IsNotFound e = true → routes_of w !! k = None
    end;
  serve_Get_VirtualService w k r w' :
    serve w (Get_VirtualService k) r w' →
    match r with
    | inl v => virtual_services_of w !! k = Some v ∧ vs_key v = k
    | inr e => IsNotFound e = true → virtual_services_of w !! k = None
    end;
  (** a list by a field index: the objects of the namespace whose index
      function returns the queried value, each once *)
  serve_List_Routes w ns fqdn l w' :
    serve w (List_Routes ns fqdn) (inl l) w' →
    NoDup (route_key <$> Items l) ∧
    ∀ x, x ∈ Items l ↔
      routes_of w !! route_key x = Some x ∧ Namespace (Route_ObjectMeta x) = ns ∧
      fqdn ∈ fqdnIndex x;
  serve_List_Services w ns owner l w' :
    serve w (List_Services ns owner) (inl l) w' →
    ∀ s, s ∈ l ↔
      services_of w !! service_key s = Some s ∧ Namespace (Service_ObjectMeta s) = ns ∧
      owner ∈ serviceOwnerIndex s;
  (** an update stores the object and returns it; an object marked for deletion
      goes away with its last finalizer *)
  serve_Update_Route w x x' w' :
    serve w (Update_Route x) (inl x') w' →
    x' = x ∧ services_of w' = services_of w ∧ virtual_services_of w' = virtual_services_of w ∧
    routes_of w' =
      if IsZero (DeletionTimestamp (Route_ObjectMeta x)) || has_finalizers x
      then <[route_key x := x]> (routes_of w) else delete (route_key x) (routes_of w);
  serve_CreateOrUpdate_Service w s mutate v w' :
    serve w (CreateOrUpdate_Service s mutate) (inl v) w' →
    routes_of w' = routes_of w ∧ virtual_services_of w' = virtual_services_of w ∧
    upserted persisted_service (service_key s) s mutate v (services_of w) (services_of w');
  serve_CreateOrUpdate_VirtualService w s mutate v w' :
    serve w (CreateOrUpdate_VirtualService s mutate) (inl v) w' →
    routes_of w' = routes_of w ∧ services_of w' = services_of w ∧
    upserted persisted_virtual_service (vs_key s) s mutate v
      (virtual_services_of w) (virtual_services_of w');
  serve_Delete_Service w s w' :
    serve w (Delete_Service s) (inl tt) w' →
    routes_of w' = routes_of w ∧ virtual_services_of w' = virtual_services_of w ∧
    deleted (λ s, Finalizers (Service_ObjectMeta s)) (service_key s)
      (services_of w) (services_of w');
  serve_Delete_VirtualService w v w' :
    serve w (Delete_VirtualService v) (inl tt) w' →
    routes_of w' = routes_of w ∧ services_of w' = services_of w ∧
    deleted (λ v, Finalizers (VS_ObjectMeta v)) (vs_key v)
      (virtual_services_of w) (virtual_services_of w');
}.

(** * An in-memory server

    Deterministic and executable.  Only objects stored under their own key are
    visible, so the stores can be any maps. *)

Record stores := mkStores {
  raw_routes : gmap NamespacedName Route;
  raw_services : gmap NamespacedName Service;
  raw_virtual_services : gmap NamespacedName VirtualService;
}.

Definition visible {O} (key : O → NamespacedName) (m : gmap NamespacedName O)
    : gmap NamespacedName O := filter (λ kv, key kv.2 = kv.1) m.

Definition mem_routes (w : stores) := visible route_key (raw_routes w).
Definition mem_services (w : stores) := visible service_key (raw_services w).
Definition mem_vss (w : stores) := visible vs_key (raw_virtual_services w).

Definition NotFound (k : NamespacedName) : error :=
  StatusError "NotFound" (nn_Name k +:+ " not found").

Definition assign_uid (m : ObjectMeta) : ObjectMeta :=
  mkObjectMeta (Name m) (Namespace m)
    (if String.eqb (UID m) "" then "uid-" +:+ Name m else UID m)
    (Labels m) (Annotations m) (OwnerReferences m) (Finalizers m) (DeletionTimestamp m).

Definition assign_service (s : Service) : Service :=
  mkService (assign_uid (Service_ObjectMeta s))
    (mkServiceSpec (Service_Selector (Service_Spec s)) (Ports (Service_Spec s))
       (if String.eqb (ClusterIP (Service_Spec s)) "" then "10.0.0.1"
        else ClusterIP (Service_Spec s))).

Definition assign_virtual_service (v : VirtualService) : VirtualService :=
  mkVirtualService (assign_uid (VS_ObjectMeta v)) (VS_Spec v).

(** CreateOrUpdate: the new object and store, or an error. *)
Definition mem_upsert {O} `{EqDecision O} (key : O → NamespacedName) (assign : O → O)
    (obj : O) (mutate : MutateFn O) (m : gmap NamespacedName O)
    : (O + error) * gmap NamespacedName O :=
  match mutate (default obj (m !! key obj)) with
  | (_, Some e) => (inr e, m)
  | (v0, None) =>
      if decide (key v0 = key obj) then
        let v := if decide (m !! key obj = Some v0) then v0 else assign v0 in
        (inl v, <[key obj := v]> m)
      else (inr (errors_New "MutateFn cannot mutate object name and/or object namespace"), m)
  end.

Definition mem_delete {O} (fins : O → list string) (k : NamespacedName)
    (m : gmap NamespacedName O) : (unit + error) * gmap NamespacedName O :=
  match m !! k with
  | None => (inr (NotFound k), m)
  | Some v => (inl tt, match fins v with [] => delete k m | _ => m end)
  end.

Definition mem_get {O} (k : NamespacedName) (m : gmap NamespacedName O) : O + error :=
  match m !! k with Some v => inl v | None => inr (NotFound k) end.

Definition mem_list {O} (P : O → bool) (m : gmap NamespacedName O) : list O :=
  filter P ((map_to_list m).*2).

Definition mem_handle (a : action) (w : stores) : reply a * stores :=
  let rs := mem_routes w in
  let ss := mem_services w in
  let vs := mem_vss w in
  match a return reply a * stores with
  | Get_Route k => (mem_get k rs, w)
  | List_Routes ns fqdn =>
      (inl (mkRouteList (mem_list (λ x, String.eqb (Namespace (Route_ObjectMeta x)) ns
              && bool_decide (fqdn ∈ fqdnIndex x)) rs)), w)
  | Update_Route x =>
      match rs !! route_key x with
      | None => (inr (NotFound (route_key x)), w)
      | Some _ =>
          (inl x, mkStores
            (if @IsZero k8s_reference (DeletionTimestamp (Route_ObjectMeta x)) || has_finalizers x
             then <[route_key x := x]> rs else delete (route_key x) rs) ss vs)
      end
  | List_Services ns owner =>
      (inl (mem_list (λ s, String.eqb (Namespace (Service_ObjectMeta s)) ns
              && bool_decide (owner ∈ serviceOwnerIndex s)) ss), w)
  | CreateOrUpdate_Service obj f =>
      let '(r, ss') := mem_upsert service_key assign_service obj f ss in (r, mkStores rs ss' vs)
  | Delete_Service s =>
      let '(r, ss') := mem_delete (λ s, Finalizers (Service_ObjectMeta s)) (service_key s) ss in
      (r, mkStores rs ss' vs)
  | Get_VirtualService k => (mem_get k vs, w)
  | CreateOrUpdate_VirtualService obj f =>
      let '(r, vs') := mem_upsert vs_key assign_virtual_service obj f vs in (r, mkStores rs ss vs')
  | Delete_VirtualService v =>
      let '(r, vs') := mem_delete (λ v, Finalizers (VS_ObjectMeta v)) (vs_key v) vs in
      (r, mkStores rs ss vs')
  end.

Definition memory_server : ApiServer := {|
  server := stores;
  serve := handle_step mem_handle;
  routes_of := mem_routes;
  services_of := mem_services;
  virtual_services_of := mem_vss;
|}.

Section memory.
Context {O : Type} (key : O → NamespacedName).
Implicit Types (m : gmap NamespacedName O) (k : NamespacedName) (v : O).

Lemma visible_lookup m k v : visible key m !! k = Some v ↔ m !! k = Some v ∧ key v = k.
Proof. unfold visible. by rewrite map_lookup_filter_Some. Qed.

Lemma visible_idem m : visible key (visible key m) = visible key m.
Proof. unfold visible. rewrite map_filter_filter. apply map_filter_ext.
  intros k v _. cbn. tauto.
Qed.

Lemma visible_insert m k v :
  key v = k → visible key (<[k := v]> (visible key m)) = <[k := v]> (visible key m).
Proof. intros Hk. unfold visible at 1. rewrite map_filter_insert_True by done. f_equal. apply visible_idem. Qed.

Lemma visible_delete m k :
  visible key (delete k (visible key m)) = delete k (visible key m).
Proof. unfold visible at 1. rewrite map_filter_delete. f_equal. apply visible_idem. Qed.

Lemma mem_get_spec m k r :
  mem_get k m = r →
  match r with inl v => m !! k = Some v | inr e => m !! k = None end.
Proof. unfold mem_get. intros <-. by destruct (m !! k). Qed.

Lemma mem_list_elem (P : O → bool) m v :
  v ∈ mem_list P (visible key m) ↔ visible key m !! key v = Some v ∧ P v = true.
Proof.
  unfold mem_list. rewrite list_elem_of_filter, list_elem_of_fmap. split.
  - intros [HP ([k v'] & -> & Hin%elem_of_map_to_list)]. cbn in *.
    pose proof Hin as [_ Hk]%visible_lookup. subst k. by destruct (P v').
  - intros [Hv HP]. rewrite HP. split; [done|]. exists (key v, v).
    by rewrite elem_of_map_to_list.
Qed.

Lemma mem_list_NoDup (P : O → bool) m : NoDup (key <$> mem_list P (visible key m)).
Proof.
  unfold mem_list. eapply sublist_NoDup; [|apply fmap_sublist, sublist_filter].
  assert (key <$> (map_to_list (visible key m)).*2 = (map_to_list (visible key m)).*1) as ->;
    [|apply NoDup_fst_map_to_list].
  rewrite <- list_fmap_compose. apply list_fmap_ext. intros i [k v] Hi%list_elem_of_lookup_2.
  cbn. by apply elem_of_map_to_list, visible_lookup in Hi as [_ ?].
Qed.

Lemma mem_delete_spec fins m k m' :
  mem_delete fins k (visible key m) = (inl tt, m') →
  deleted fins k (visible key m) (visible key m').
Proof.
  unfold mem_delete. destruct (visible key m !! k) as [v|] eqn:Hk; [|done].
  intros [= <-]. split_and!.
  - intros v' Hv' Hf. rewrite Hk in Hv'. injection Hv' as ->. rewrite Hf, visible_delete.
    apply lookup_delete_eq.
  - by rewrite Hk.
  - intros k' Hne. destruct (fins v); [rewrite visible_delete, lookup_delete_ne by done|
      rewrite visible_idem]; done.
Qed.

Lemma mem_upsert_spec `{EqDecision O} (persisted : O → O → Prop) assign obj mutate m v m' :
  (∀ v0, persisted v0 v0) → (∀ v0, persisted v0 (assign v0)) → (∀ v0, key (assign v0) = key v0) →
  mem_upsert key assign obj mutate (visible key m) = (inl v, m') →
  upserted persisted (key obj) obj mutate v (visible key m) (visible key m').
Proof.
  intros Hp Ha Hk. unfold mem_upsert, upserted.
  destruct (mutate _) as [v0 [e|]]; [done|].
  destruct (decide (key v0 = key obj)) as [Hkey|]; [|done].
  intros [= <- <-]. exists v0. split; [done|]. split; [by destruct (decide _)|]. split.
  - intros Hv0. by rewrite decide_True.
  - apply visible_insert. destruct (decide _); by rewrite ?Hk.
Qed.
End memory.

Lemma assign_uid_persisted m : persisted_meta m (assign_uid m).
Proof.
  unfold assign_uid. split_and!; try done. cbn. by destruct (String.eqb_spec (UID m) "").
Qed.

Lemma assign_service_persisted s : persisted_service s (assign_service s).
Proof.
  split; [apply assign_uid_persisted|]. split_and!; try done. cbn.
  by destruct (String.eqb_spec (ClusterIP (Service_Spec s)) "").
Qed.

(** The in-memory server has the laws. *)
#[export] Instance memory_server_laws : ApiServerLaws k8s_reference memory_server.
Proof.
  split; cbn [serve routes_of services_of virtual_services_of memory_server server];
    unfold handle_step, mem_routes, mem_services, mem_vss.
  - intros w k x. rewrite visible_lookup. tauto.
  - intros w k s. rewrite visible_lookup. tauto.
  - intros w [] r w' Ha; try done; intros [= <- <-]; done.
  - intros w k r w' [= Hr <-]. apply mem_get_spec in Hr. by destruct r.
  - intros w k r w' [= Hr <-]. apply mem_get_spec in Hr. destruct r as [v|e]; [|done].
    split; [done|]. by apply visible_lookup in Hr as [_ ?].
  - intros w ns fqdn l w' [= <- <-]. split; [apply mem_list_NoDup|]. intros x.
    etrans; [apply (mem_list_elem route_key)|].
    by rewrite andb_true_iff, String.eqb_eq, bool_decide_eq_true.
  - intros w ns owner l w' [= <- <-] s.
    etrans; [apply (mem_list_elem service_key)|].
    by rewrite andb_true_iff, String.eqb_eq, bool_decide_eq_true.
  - intros w x x' w'. cbn [mem_handle]. unfold mem_routes, mem_services, mem_vss.
    destruct (_ !! _); [|done]. intros [= <- <-]. cbn. rewrite !visible_idem.
    split_and!; try done. destruct (_ || _); [by apply visible_insert | apply visible_delete].
  - intros w s mutate v w'. cbn [mem_handle]. unfold mem_routes, mem_services, mem_vss.
    destruct (mem_upsert _ _ _ _ _) as [r' m'] eqn:Hm. intros [= -> <-]. cbn.
    rewrite !visible_idem. split_and!; try done. eapply mem_upsert_spec, Hm; try done.
    apply assign_service_persisted.
  - intros w s mutate v w'. cbn [mem_handle]. unfold mem_routes, mem_services, mem_vss.
    destruct (mem_upsert _ _ _ _ _) as [r' m'] eqn:Hm. intros [= -> <-]. cbn.
    rewrite !visible_idem. split_and!; try done. eapply mem_upsert_spec, Hm; try done.
    intros v0. split; [apply assign_uid_persisted | done].
  - intros w s w'. cbn [mem_handle]. unfold mem_routes, mem_services, mem_vss.
    destruct (mem_delete _ _ _) as [r' m'] eqn:Hm. intros [= -> <-]. cbn.
    rewrite !visible_idem. split_and!; try done; by apply mem_delete_spec.
  - intros w s w'. cbn [mem_handle]. unfold mem_routes, mem_services, mem_vss.
    destruct (mem_delete _ _ _) as [r' m'] eqn:Hm. intros [= -> <-]. cbn.
    rewrite !visible_idem. split_and!; try done; by apply mem_delete_spec.
Qed.
