(* ===== verification/ControllerSync.v ===== *)
(** What a reconciliation makes of the cluster: from the calls of
    ControllerTraces and the server laws of ApiServer to the state of the
    stores.  A live route gets exactly its Services and VirtualService, a
    deleted one leaves nothing behind, everything else is untouched, and a
    second reconciliation changes nothing. *)
From S2P Require Import Prelude Runtime Api ResourceNames Client RouteController.
From S2P Require Import ControllerHelpers ControllerTraces ApiServer.
From S2P Require Import VirtualServiceBuilder ServiceBuilder.

(** * Loops over a store *)

Section store.
Context {O : Type} (key : O → NamespacedName) (synced : O → O → Prop).
Implicit Types (m : gmap NamespacedName O) (d v : O) (ds : list O).

Inductive chain {X S} (R : X → S → S → Prop) : list X → S → S → Prop :=
  | chain_nil s : chain R [] s s
  | chain_cons x xs s1 s2 s3 : R x s1 s2 → chain R xs s2 s3 → chain R (x :: xs) s1 s3.

(** After an upsert of [d] its key holds an object in sync with [d], the one
    it held before if that was in sync. *)
Definition upsert_effect d m m' : Prop :=
  ∃ v, m' = <[key d := v]> m ∧ synced d v ∧
    ∀ v0, m !! key d = Some v0 → synced d v0 → v = v0.

Lemma upserts_frame ds m m' k :
  chain upsert_effect ds m m' → k ∉ key <$> ds → m' !! k = m !! k.
Proof.
  induction 1 as [m|d ds m1 m2 m3 (v & -> & _) _ IH]; [done|].
  rewrite fmap_cons, not_elem_of_cons. intros [Hne Hk]. by rewrite IH, lookup_insert_ne.
Qed.

Lemma upserts_synced ds m m' d :
  NoDup (key <$> ds) → chain upsert_effect ds m m' → d ∈ ds →
  ∃ v, m' !! key d = Some v ∧ synced d v.
Proof.
  intros Hnd Hc. revert Hnd. induction Hc as [m|d' ds m1 m2 m3 (v & -> & Hv & _) Hc IH];
    [by intros _ ?%not_elem_of_nil|].
  rewrite fmap_cons, NoDup_cons. intros [Hd Hnd] [->|Hin]%elem_of_cons; [|by apply IH].
  exists v. split; [|done]. rewrite (upserts_frame ds _ m3) by done. apply lookup_insert_eq.
Qed.

Lemma upserts_idempotent ds m m' :
  NoDup (key <$> ds) → chain upsert_effect ds m m' →
  (∀ d, d ∈ ds → ∃ v, m !! key d = Some v ∧ synced d v) → m' = m.
Proof.
  intros Hnd Hc Hs. revert Hnd Hs.
  induction Hc as [m|d ds m1 m2 m3 (v & -> & Hv & Hsame) Hc IH]; [done|].
  rewrite fmap_cons, NoDup_cons. intros [Hd Hnd] Hs.
  destruct (Hs d) as (v0 & Hv0 & Hs0); [by left|]. rewrite (Hsame v0) in * by done.
  rewrite insert_id in * by done. apply IH; [done|]. intros d' Hd'. apply Hs. by right.
Qed.

Lemma deletes_frame (fins : O → list string) ds m m' k :
  chain (λ d, deleted fins (key d)) ds m m' → k ∉ key <$> ds → m' !! k = m !! k.
Proof.
  induction 1 as [m|d ds m1 m2 m3 (_ & _ & Hf) _ IH]; [done|].
  rewrite fmap_cons, not_elem_of_cons. intros [Hne Hk]. by rewrite IH, Hf.
Qed.

(** A loop of deletions, of objects without finalizers. *)
Lemma deletes_lookup (fins : O → list string) ds m m' k :
  chain (λ d, deleted fins (key d)) ds m m' →
  (∀ v, m !! k = Some v → fins v = []) →
  m' !! k = if decide (k ∈ key <$> ds) then None else m !! k.
Proof.
  induction 1 as [m|d ds m1 m2 m3 (Hg & Hn & Hf) Hc IH]; intros Hfin.
  - rewrite decide_False by apply not_elem_of_nil. done.
  - assert (m2 !! k = if decide (k = key d) then None else m1 !! k) as Hm2.
    { destruct (decide (k = key d)) as [->|Hne]; [|by apply Hf].
      destruct (m1 !! key d) as [v|] eqn:Hv; [|by apply Hn]. by eapply Hg; [|apply Hfin]. }
    rewrite IH, Hm2.
    + rewrite fmap_cons. destruct (decide (k = key d)) as [->|Hne].
      * destruct (decide (key d ∈ key d :: (key <$> ds))) as [|Hn']; [by destruct (decide _)|].
        destruct Hn'. by left.
      * destruct (decide (k ∈ key <$> ds)), (decide (k ∈ key d :: (key <$> ds)))
          as [Hin|Hnin]; try done.
        -- destruct Hnin. by right.
        -- by apply elem_of_cons in Hin as [|].
    + intros v. rewrite Hm2. case_decide; [done | apply Hfin].
Qed.
End store.

(** * Stepping along a trace *)

Section steps.
Context {A : ApiServer}.

Inductive steps : server → list event → server → Prop :=
  | steps_nil w : steps w [] w
  | steps_cons w1 a r w2 t w3 :
      serve w1 a r w2 → steps w2 t w3 → steps w1 (Event a r :: t) w3.

Lemma exec_steps {X} (p : prog X) w t o w' : exec serve w p t o w' → steps w t w'.
Proof. induction 1; [constructor | by econstructor]. Qed.

Lemma steps_nil_inv w w' : steps w [] w' → w' = w.
Proof. by inversion 1. Qed.

Lemma steps_cons_inv w a r t w' :
  steps w (Event a r :: t) w' → ∃ w1, serve w a r w1 ∧ steps w1 t w'.
Proof.
  intros Hs. refine (match Hs in steps w t w' return
    match t with
    | ev :: t => ∃ w1, serve w (event_action ev) (event_reply ev) w1 ∧ steps w1 t w'
    | [] => True
    end with steps_nil _ => I | steps_cons w1 a r w2 t w3 H1 H2 => _ end). by exists w2.
Qed.

Lemma steps_app_inv w t1 t2 w' :
  steps w (t1 ++ t2) w' → ∃ w1, steps w t1 w1 ∧ steps w1 t2 w'.
Proof.
  revert w. induction t1 as [|[a r] t1 IH]; intros w; cbn [app].
  - intros Hs. exists w. by split; [constructor|].
  - intros (w1 & H1 & (w2 & H2 & H3)%IH)%steps_cons_inv. exists w2.
    split; [by econstructor | done].
Qed.

(** A loop of successful calls is a chain of their effects. *)
Lemma steps_each {X} (act : X → action) l t w w' :
  each act l t → steps w t w' →
  chain (λ x w1 w2, ∃ v, serve w1 (act x) (inl v) w2) l w w'.
Proof.
  intros He. revert w. induction He as [|x ev l t [v ->] _ IH]; intros w.
  - intros ->%steps_nil_inv. constructor.
  - intros (w1 & H1 & H2)%steps_cons_inv. econstructor; [by exists v | by apply IH].
Qed.

Lemma chain_map {X S T} (f : S → T) (R : X → S → S → Prop) (R' : X → T → T → Prop) l s s' :
  (∀ x s1 s2, x ∈ l → R x s1 s2 → R' x (f s1) (f s2)) → chain R l s s' → chain R' l (f s) (f s').
Proof.
  intros HR Hc. induction Hc as [s|x l s1 s2 s3 H1 _ IH]; [constructor|].
  econstructor; [apply HR, H1; by left | apply IH]. intros y t1 t2 Hy. apply HR. by right.
Qed.

Lemma chain_same {X S T} (f : S → T) (R : X → S → S → Prop) l s s' :
  (∀ x s1 s2, R x s1 s2 → f s2 = f s1) → chain R l s s' → f s' = f s.
Proof. intros HR. induction 1 as [|x l s1 s2 s3 H1 _ IH]; [done|]. rewrite IH. by eapply HR. Qed.
End steps.

(** * The effect of each loop of the controller *)

Definition synced_service (d s : Service) : Prop :=
  Labels (Service_ObjectMeta s) = Labels (Service_ObjectMeta d) ∧
  Annotations (Service_ObjectMeta s) = Annotations (Service_ObjectMeta d) ∧
  OwnerReferences (Service_ObjectMeta s) = OwnerReferences (Service_ObjectMeta d) ∧
  Service_Selector (Service_Spec s) = Service_Selector (Service_Spec d) ∧
  Ports (Service_Spec s) = Ports (Service_Spec d).

Definition synced_virtual_service (d v : VirtualService) : Prop :=
  Labels (VS_ObjectMeta v) = Labels (VS_ObjectMeta d) ∧
  Annotations (VS_ObjectMeta v) = Annotations (VS_ObjectMeta d) ∧
  OwnerReferences (VS_ObjectMeta v) = OwnerReferences (VS_ObjectMeta d) ∧
  VS_Spec v = VS_Spec d.

Lemma synced_service_fixed d s :
  synced_service d s → ServiceBuilder.BuildMutateFunction d s = (s, None).
Proof.
  destruct s as [[] []]. unfold synced_service, ServiceBuilder.BuildMutateFunction. cbn.
  by intros (<- & <- & <- & <- & <-).
Qed.

Lemma synced_virtual_service_fixed d v :
  synced_virtual_service d v → VirtualServiceBuilder.BuildMutateFunction d v = (v, None).
Proof.
  destruct v as [[] ?]. unfold synced_virtual_service, VirtualServiceBuilder.BuildMutateFunction.
  cbn. by intros (<- & <- & <- & <-).
Qed.

(** The Services the route does not own. *)
Definition disowned (ns uid : string) (m : gmap NamespacedName Service)
    : gmap NamespacedName Service :=
  filter (λ kv, ¬ (nn_Namespace kv.1 = ns ∧ uid ∈ serviceOwnerIndex kv.2)) m.

Section effects.
Context {G : GoRuntime} {K : K8s} {A : ApiServer} {AL : ApiServerLaws K A}.
Implicit Types (w : server).

Lemma upsert_Service_effect d v w w' :
  serve w (upsert_Service d) (inl v) w' →
  (routes_of w' = routes_of w ∧ virtual_services_of w' = virtual_services_of w) ∧
  upsert_effect service_key synced_service d (services_of w) (services_of w').
Proof.
  intros Hs. apply serve_CreateOrUpdate_Service in Hs
    as (Hr & Hv & v0 & Hm & ((_ & Hl & Ha & Ho & _) & Hsel & Hports & _) & Hsame & Hw').
  split; [done|]. exists v. split; [exact Hw'|].
  pose proof Hm as [= Hv0]. split.
  - subst v0. by split_and!.
  - intros v1 Hv1 Hsync. change (service_key d) with
      (service_key (named_Service (Namespace (Service_ObjectMeta d)) (Name (Service_ObjectMeta d)))) in Hv1.
    rewrite Hv1 in Hm.
    change (ServiceBuilder.BuildMutateFunction d v1 = (v0, None)) in Hm.
    rewrite (synced_service_fixed d v1 Hsync) in Hm.
    injection Hm as <-. by apply Hsame.
Qed.

Lemma upsert_VirtualService_effect d v w w' :
  serve w (upsert_VirtualService d) (inl v) w' →
  (routes_of w' = routes_of w ∧ services_of w' = services_of w) ∧
  upsert_effect vs_key synced_virtual_service d
    (virtual_services_of w) (virtual_services_of w').
Proof.
  intros Hs. apply serve_CreateOrUpdate_VirtualService in Hs
    as (Hr & Hv & v0 & Hm & ((_ & Hl & Ha & Ho & _) & Hspec) & Hsame & Hw').
  split; [done|]. exists v. split; [exact Hw'|].
  pose proof Hm as [= Hv0]. split.
  - subst v0. by split_and!.
  - intros v1 Hv1 Hsync. change (vs_key d) with
      (vs_key (named_VirtualService (Namespace (VS_ObjectMeta d)) (Name (VS_ObjectMeta d)))) in Hv1.
    rewrite Hv1 in Hm.
    change (VirtualServiceBuilder.BuildMutateFunction d v1 = (v0, None)) in Hm.
    rewrite (synced_virtual_service_fixed d v1 Hsync) in Hm.
    injection Hm as <-. by apply Hsame.
Qed.

Lemma upserts_services ds t w w' :
  each upsert_Service ds t → steps w t w' →
  (routes_of w' = routes_of w ∧ virtual_services_of w' = virtual_services_of w) ∧
  chain (upsert_effect service_key synced_service) ds (services_of w) (services_of w').
Proof.
  intros He Hs. pose proof (steps_each _ _ _ _ _ He Hs) as Hc. split; [split|].
  - eapply (chain_same routes_of), Hc.
    by intros x s1 s2 [v ((? & ?) & _)%upsert_Service_effect].
  - eapply (chain_same virtual_services_of), Hc.
    by intros x s1 s2 [v ((? & ?) & _)%upsert_Service_effect].
  - eapply (chain_map services_of), Hc.
    by intros x s1 s2 _ [v (_ & ?)%upsert_Service_effect].
Qed.

Lemma upserts_virtual_services ds t w w' :
  each upsert_VirtualService ds t → steps w t w' →
  (routes_of w' = routes_of w ∧ services_of w' = services_of w) ∧
  chain (upsert_effect vs_key synced_virtual_service) ds
    (virtual_services_of w) (virtual_services_of w').
Proof.
  intros He Hs. pose proof (steps_each _ _ _ _ _ He Hs) as Hc. split; [split|].
  - eapply (chain_same routes_of), Hc.
    by intros x s1 s2 [v ((? & ?) & _)%upsert_VirtualService_effect].
  - eapply (chain_same services_of), Hc.
    by intros x s1 s2 [v ((? & ?) & _)%upsert_VirtualService_effect].
  - eapply (chain_map virtual_services_of), Hc.
    by intros x s1 s2 _ [v (_ & ?)%upsert_VirtualService_effect].
Qed.

Lemma deletes_services ss t w w' :
  each Delete_Service ss t → steps w t w' →
  (routes_of w' = routes_of w ∧ virtual_services_of w' = virtual_services_of w) ∧
  chain (λ s, deleted (λ s, Finalizers (Service_ObjectMeta s)) (service_key s)) ss
    (services_of w) (services_of w').
Proof.
  intros He Hs. pose proof (steps_each _ _ _ _ _ He Hs) as Hc. split; [split|].
  - eapply (chain_same routes_of), Hc. by intros x s1 s2 [[] (? & ? & _)%serve_Delete_Service].
  - eapply (chain_same virtual_services_of), Hc.
    by intros x s1 s2 [[] (? & ? & _)%serve_Delete_Service].
  - eapply (chain_map services_of), Hc. by intros x s1 s2 _ [[] (_ & _ & ?)%serve_Delete_Service].
Qed.

(** The listed Services are those that [disowned] removes. *)
Lemma listed_services w ns uid (actual : list Service) k :
  (∀ s, s ∈ actual ↔ services_of w !! service_key s = Some s ∧
     Namespace (Service_ObjectMeta s) = ns ∧ uid ∈ serviceOwnerIndex s) →
  disowned ns uid (services_of w) !! k =
  if decide (k ∈ service_key <$> actual) then None else services_of w !! k.
Proof.
  intros Hl. destruct (decide (k ∈ service_key <$> actual)) as [Hin|Hnin].
  - apply list_elem_of_fmap in Hin as (s & -> & (Hk & Hns & Huid)%Hl).
    apply map_lookup_filter_None. right. intros s' Hs'. rewrite Hk in Hs'. injection Hs' as <-.
    cbn. tauto.
  - destruct (services_of w !! k) as [s|] eqn:Hk.
    + apply map_lookup_filter_Some. split; [done|]. cbn. intros [Hns Huid]. apply Hnin.
      pose proof (services_keyed _ _ _ Hk) as Hkey. subst k. apply list_elem_of_fmap_2, Hl.
      by split_and!.
    + apply map_lookup_filter_None. by left.
Qed.
End effects.
