(* ===== verification/ControllerConvergence.v ===== *)
(** Convergence: the state of the cluster after a successful reconciliation,
    for a live route, for a deleted route, and when reconciling again. *)
From S2P Require Import Prelude Runtime Api ResourceNames BuilderStructure.
From S2P Require Import BuilderTheorems Client RouteController ControllerHelpers.
From S2P Require Import ControllerTraces ApiServer ControllerSync.
From S2P Require Import VirtualServiceBuilder ServiceBuilder.

(** No Service (VirtualService) of the cluster has a finalizer, so that
    deleting one removes it. *)
Definition services_unprotected `{ApiServer} (w : server) : Prop :=
  ∀ k s, services_of w !! k = Some s → Finalizers (Service_ObjectMeta s) = [].
Definition others_unprotected `{K8s} `{ApiServer} (route : Route) (w : server) : Prop :=
  ∀ desired k s, ServiceBuilder.Build route = Ok desired → k ∉ service_key <$> desired →
    services_of w !! k = Some s → Finalizers (Service_ObjectMeta s) = [].
Definition virtual_services_unprotected `{ApiServer} (w : server) : Prop :=
  ∀ k v, virtual_services_of w !! k = Some v → Finalizers (VS_ObjectMeta v) = [].

Section parts.
Context {G : GoRuntime} {GL : GoRuntimeLaws G} {K : K8s} {KL : K8sLaws K}.
Context {A : ApiServer} {AL : ApiServerLaws K A}.
Implicit Types (w : server) (r : RouteReconciler) (req : NamespacedName) (route : Route).

Lemma Build_service_keys route desired :
  ServiceBuilder.Build route = Ok desired →
  service_key <$> desired
  = (λ dest, mkNamespacedName (Namespace (Route_ObjectMeta route)) (serviceName dest))
      <$> Destinations (Route_Spec route).
Proof.
  rewrite ServiceBuilder.Services_Ok.
  induction 1 as [|dest s ds ss (p & _ & ->) _ IH]; [done|]. rewrite !fmap_cons. by rewrite IH.
Qed.

Lemma Build_service_keys_NoDup route desired :
  ServiceBuilder.Build route = Ok desired →
  NoDup (Guid <$> Destinations (Route_Spec route)) → NoDup (service_key <$> desired).
Proof.
  intros Hb Hnd. rewrite (Build_service_keys _ _ Hb).
  assert ((λ dest, mkNamespacedName (Namespace (Route_ObjectMeta route)) (serviceName dest))
    <$> Destinations (Route_Spec route) =
    (λ g, mkNamespacedName (Namespace (Route_ObjectMeta route)) ("s-" +:+ g))
      <$> (Guid <$> Destinations (Route_Spec route))) as ->.
  { rewrite <- list_fmap_compose. done. }
  apply NoDup_fmap_2, Hnd. intros g g' [=]. done.
Qed.

Lemma services_synced_state req route t w w' :
  services_synced req route t → steps w t w' →
  NoDup (Guid <$> Destinations (Route_Spec route)) → others_unprotected route w →
  (routes_of w' = routes_of w ∧ virtual_services_of w' = virtual_services_of w) ∧
  ∃ desired, ServiceBuilder.Build route = Ok desired ∧
    (∀ d, d ∈ desired → ∃ s, services_of w' !! service_key d = Some s ∧ synced_service d s) ∧
    (∀ k, k ∉ service_key <$> desired →
      services_of w' !! k =
      disowned (nn_Namespace req) (UID (Route_ObjectMeta route)) (services_of w) !! k) ∧
    ((∀ d, d ∈ desired → ∃ s, services_of w !! service_key d = Some s ∧ synced_service d s) →
     ∀ k, k ∈ service_key <$> desired → services_of w' !! k = services_of w !! k).
Proof.
  intros [desired actual upserts deletes Hb Hu Hd] Hs Hnd Hun.
  apply steps_cons_inv in Hs as (w1 & Hlist & Hs).
  pose proof (serve_reads _ (List_Services _ _) _ _ I Hlist) as (Hr1 & Hs1 & Hv1).
  pose proof (serve_List_Services _ _ _ _ _ Hlist) as Hl.
  apply steps_app_inv in Hs as (w2 & Hs2 & Hs3).
  apply (upserts_services desired) in Hs2 as [[Hr2 Hv2] Hc2]; [|done].
  eapply deletes_services in Hs3 as [[Hr3 Hv3] Hc3]; [|done].
  split; [split; congruence|]. exists desired. split; [done|].
  pose proof (Build_service_keys_NoDup _ _ Hb Hnd) as Hkeys.
  set (gone := filter _ actual) in *.
  assert (∀ k, k ∈ service_key <$> gone ↔ k ∈ service_key <$> actual ∧ k ∉ service_key <$> desired)
    as Hgone.
  { intros k. subst gone. rewrite !list_elem_of_fmap. split.
    - intros (s & -> & [Hf Hin]%list_elem_of_filter). split; [by exists s|].
      intros (d & Heq & Hdin). rewrite Forall_forall in Hf. by apply (Hf d).
    - intros [(s & -> & Hin) Hn]. exists s. split; [done|]. apply list_elem_of_filter.
      split; [|done]. apply Forall_forall. intros d Hdin Heq. apply Hn. by exists d. }
  assert (∀ k, k ∈ service_key <$> desired → services_of w' !! k = services_of w2 !! k) as Hkeep.
  { intros k Hk. eapply deletes_frame; [done|]. rewrite Hgone. tauto. }
  split_and!.
  - intros d Hin. rewrite Hkeep by by apply list_elem_of_fmap_2. by eapply upserts_synced.
  - intros k Hk.
    assert (services_of w2 !! k = services_of w !! k) as Hw2
      by by rewrite (upserts_frame _ _ _ _ _ _ Hc2 Hk), Hs1.
    rewrite (deletes_lookup _ _ _ _ _ k Hc3) by (intros s; rewrite Hw2; by apply (Hun desired)).
    rewrite (listed_services _ _ _ actual k Hl), Hw2.
    destruct (decide (k ∈ service_key <$> gone)) as [Hin|Hnin], (decide (k ∈ service_key <$> actual));
      try done; rewrite Hgone in *; tauto.
  - intros Hsync k Hk. rewrite Hkeep by done. rewrite <- Hs1 in *. f_equal.
    by eapply upserts_idempotent.
Qed.

Lemma Build_with_Finalizers route fs :
  ServiceBuilder.Build (with_Finalizers route fs) = ServiceBuilder.Build route.
Proof. done. Qed.

(** The Routes of one FQDN have one VirtualService. *)
Lemma Build_single b rl f ns vss :
  VirtualServiceBuilder.Build b rl = Ok vss → Items rl ≠ [] →
  (∀ x, x ∈ Items rl → FQDN x = f ∧ Namespace (Route_ObjectMeta x) = ns) →
  ∃ vs, vss = [vs] ∧ vs_key vs = mkNamespacedName ns (VirtualServiceName f).
Proof.
  intros Hb Hne Hall. apply Build_describes in Hb.
  assert (distinctFQDNs (Items rl) = [f]) as Hf.
  { symmetry. apply Permutation_singleton_l, NoDup_Permutation;
      [apply NoDup_singleton | apply NoDup_distinctFQDNs|]. intros f'.
    rewrite list_elem_of_singleton, elem_of_distinctFQDNs, list_elem_of_fmap. split.
    - intros ->. destruct (Items rl) as [|x l]; [done|]. exists x.
      split; [|by left]. symmetry. apply Hall. by left.
    - intros (x & -> & Hx). by apply Hall. }
  rewrite Hf in Hb. apply Forall2_cons_inv_l in Hb as (vs & l & Hd & Hl & ->).
  apply Forall2_nil_inv_l in Hl as ->. exists vs. split; [done|].
  destruct Hd as (r0 & rest & order & ess & Hg & _ & _ & _ & _ & ->).
  assert (r0 ∈ routesOf f (Items rl)) as [_ Hr0]%elem_of_routesOf by (rewrite Hg; by left).
  unfold vs_key, key_of. cbn. f_equal. by apply Hall.
Qed.

Lemma virtual_services_synced_state r rl f ns t w w' :
  virtual_services_synced r rl t → steps w t w' → Items rl ≠ [] →
  (∀ x, x ∈ Items rl → FQDN x = f ∧ Namespace (Route_ObjectMeta x) = ns) →
  (routes_of w' = routes_of w ∧ services_of w' = services_of w) ∧
  ∃ vs,
    VirtualServiceBuilder.Build
      (VirtualServiceBuilder.mkVirtualServiceBuilder [IstioGateway r]) rl = Ok [vs] ∧
    vs_key vs = mkNamespacedName ns (VirtualServiceName f) ∧
    (∃ v, virtual_services_of w' !! vs_key vs = Some v ∧ synced_virtual_service vs v) ∧
    (∀ k, k ≠ vs_key vs → virtual_services_of w' !! k = virtual_services_of w !! k) ∧
    ((∃ v, virtual_services_of w !! vs_key vs = Some v ∧ synced_virtual_service vs v) →
     virtual_services_of w' = virtual_services_of w).
Proof.
  intros [desired upserts Hb Hu] Hs Hne Hall.
  destruct (Build_single _ _ _ _ _ Hb Hne Hall) as (vs & -> & Hkey).
  apply (upserts_virtual_services [vs]) in Hs as [Hsame Hc]; [|done].
  assert (NoDup (vs_key <$> [vs])) as Hnd by apply NoDup_singleton.
  split; [done|]. exists vs. split_and!; [done..| | |].
  - eapply upserts_synced; [done..|]. by left.
  - intros k Hk. eapply upserts_frame; [done|]. rewrite list_fmap_singleton.
    by rewrite list_elem_of_singleton.
  - intros Hv. eapply upserts_idempotent; [done..|].
    by intros d ->%list_elem_of_singleton.
Qed.

(** The listed Routes are those of the namespace with the FQDN. *)
Definition listed w (ns f : string) (rl : RouteList) : Prop :=
  NoDup (route_key <$> Items rl) ∧
  ∀ x, x ∈ Items rl ↔
    routes_of w !! route_key x = Some x ∧ Namespace (Route_ObjectMeta x) = ns ∧ FQDN x = f.

Lemma List_Routes_listed w ns f rl w' :
  serve w (List_Routes ns f) (inl rl) w' → listed w ns f rl.
Proof.
  intros Hl. apply serve_List_Routes in Hl as [Hnd Hl]. split; [done|].
  intros x. rewrite Hl. unfold fqdnIndex. rewrite list_elem_of_singleton. by rewrite (symmetry_iff (=) f).
Qed.

(** The two calls that every reconciliation of an existing route begins with. *)
Lemma read_route w req route routes t w' :
  steps w (Event (Get_Route req) (inl route)
             :: Event (List_Routes (nn_Namespace req) (FQDN route)) (inl routes) :: t) w' →
  routes_of w !! req = Some route ∧ route_key route = req ∧
  listed w (nn_Namespace req) (FQDN route) routes ∧
  route ∈ Items routes ∧
  ∃ w1, same_objects w w1 ∧ steps w1 t w'.
Proof.
  intros (w1 & H1 & (w2 & H2 & Ht)%steps_cons_inv)%steps_cons_inv.
  pose proof (serve_reads _ (Get_Route _) _ _ I H1) as (Hr1 & Hs1 & Hv1).
  pose proof (serve_reads _ (List_Routes _ _) _ _ I H2) as (Hr2 & Hs2 & Hv2).
  apply serve_Get_Route in H1. pose proof (routes_keyed _ _ _ H1) as Hkey.
  apply List_Routes_listed in H2. unfold listed in H2. rewrite Hr1 in H2.
  split_and!; [done..| |].
  - apply H2. rewrite Hkey. split_and!; [done| |done]. by rewrite <- Hkey.
  - exists w2. split; [|done]. split_and!; congruence.
Qed.

Lemma claimed_state route t stored w w' :
  route_claimed route t stored → steps w t w' →
  routes_of w !! route_key route = Some route →
  IsZero (DeletionTimestamp (Route_ObjectMeta route)) = true →
  services_of w' = services_of w ∧ virtual_services_of w' = virtual_services_of w ∧
  routes_of w' = <[route_key route := stored]> (routes_of w) ∧
  ∃ fs, finalizerName ∈ fs ∧ stored = with_Finalizers route fs ∧
    ∀ f, f ∈ fs ↔ f ∈ Finalizers (Route_ObjectMeta route) ∨ f = finalizerName.
Proof.
  intros Hc Hs Hk Hz. destruct Hc as [Hf|stored Hf].
  - apply steps_nil_inv in Hs as ->. split_and!; [done..|by rewrite insert_id|].
    exists (Finalizers (Route_ObjectMeta route)). split_and!; [done|by destruct route as [? []]|].
    intros f. split; [by left|]. by intros [? | ->].
  - apply steps_cons_inv in Hs as (w1 & Hu & ->%steps_nil_inv).
    apply serve_Update_Route in Hu as (-> & Hsv & Hvs & Hr). cbn in Hr. rewrite Hz in Hr.
    split_and!; [done..|]. eexists. split_and!; [|done|].
    + apply AddFinalizer_elem. by right.
    + intros f. apply AddFinalizer_elem.
Qed.

(** The routes that remain when [route] leaves its FQDN. *)
Definition others route (rl : RouteList) : list Route :=
  filter (λ x, Name (Route_ObjectMeta x) ≠ Name (Route_ObjectMeta route)) (Items rl).

Lemma listed_others w ns f rl route :
  listed w ns f rl →
  removeFirst (Name (Route_ObjectMeta route)) (Items rl) = others route rl ∧
  ∀ x, x ∈ others route rl → FQDN x = f ∧ Namespace (Route_ObjectMeta x) = ns.
Proof.
  intros [Hnd Hl]. split.
  - apply removeFirst_filter. clear route.
    assert (∀ x, x ∈ Items rl → Namespace (Route_ObjectMeta x) = ns) as Hns
      by (intros x Hx; by apply Hl in Hx as (_ & ? & _)).
    clear Hl. induction (Items rl) as [|x l IH]; [constructor|].
    rewrite fmap_cons, NoDup_cons. rewrite fmap_cons, NoDup_cons in Hnd. destruct Hnd as [Hx Hnd].
    split; [|apply IH; [done|]; intros y Hy; apply Hns; by right].
    intros (y & Hname & Hy)%list_elem_of_fmap. apply Hx, list_elem_of_fmap. exists y.
    split; [|done]. unfold route_key, key_of. rewrite Hname, !Hns; [done|by right|by left].
  - intros x [_ Hx]%list_elem_of_filter. apply Hl in Hx. tauto.
Qed.

Lemma released_state r req route rest t w w' :
  virtual_service_released r req route rest t → steps w t w' →
  virtual_services_unprotected w →
  (∀ x, x ∈ rest → FQDN x = FQDN route ∧ Namespace (Route_ObjectMeta x) = nn_Namespace req) →
  let k0 := mkNamespacedName (nn_Namespace req) (VirtualServiceName (FQDN route)) in
  (routes_of w' = routes_of w ∧ services_of w' = services_of w) ∧
  (∀ k, k ≠ k0 → virtual_services_of w' !! k = virtual_services_of w !! k) ∧
  match rest with
  | [] => virtual_services_of w' !! k0 = None ∨
          ∃ e, Event (Get_VirtualService k0) (inr e) ∈ t ∧ IsNotFound e = false
  | _ => ∃ vs v,
      VirtualServiceBuilder.Build
        (VirtualServiceBuilder.mkVirtualServiceBuilder [IstioGateway r]) (mkRouteList rest)
        = Ok [vs] ∧ vs_key vs = k0 ∧
      virtual_services_of w' !! k0 = Some v ∧ synced_virtual_service vs v
  end.
Proof.
  intros Hrel Hs Hun Hall k0. destruct Hrel as [err|vs|x rest t Hsync].
  - apply steps_cons_inv in Hs as (w1 & H1 & ->%steps_nil_inv).
    pose proof (serve_reads _ (Get_VirtualService _) _ _ I H1) as (Hr1 & Hs1 & Hv1).
    apply serve_Get_VirtualService in H1. split_and!; [done..|by rewrite Hv1|].
    rewrite Hv1. destruct (IsNotFound err) eqn:He; [left; auto|].
    right. exists err. split; [by left|done].
  - apply steps_cons_inv in Hs as (w1 & H1 & (w2 & H2 & ->%steps_nil_inv)%steps_cons_inv).
    pose proof (serve_reads _ (Get_VirtualService _) _ _ I H1) as (Hr1 & Hs1 & Hv1).
    apply serve_Get_VirtualService in H1 as [H1 Hkey]. fold k0 in H1, Hkey.
    apply serve_Delete_VirtualService in H2 as (Hr2 & Hs2 & Hg & _ & Hf).
    rewrite Hkey, Hv1 in *. split_and!; [congruence..|done|].
    left. eapply Hg; [done|]. by eapply Hun.
  - destruct (virtual_services_synced_state _ _ _ _ _ _ _ Hsync Hs ltac:(done) Hall)
      as (Hsame & vs & Hb & Hkey & (v & Hv & Hvs) & Hf & _).
    rewrite Hkey in *. split; [done|]. split; [done|]. by exists vs, v.
Qed.
(** The cluster [w'] after the deleted [route], read in [w], is cleaned up by
    the calls [t]. *)
Definition torn_down r req route w (t : list event) w' : Prop :=
  let k0 := mkNamespacedName (nn_Namespace req) (VirtualServiceName (FQDN route)) in
  services_of w' = disowned (nn_Namespace req) (UID (Route_ObjectMeta route)) (services_of w) ∧
  (∀ k, k ≠ k0 → virtual_services_of w' !! k = virtual_services_of w !! k) ∧
  (∃ routes, listed w (nn_Namespace req) (FQDN route) routes ∧
    match others route routes with
    | [] => virtual_services_of w' !! k0 = None ∨
            ∃ e, Event (Get_VirtualService k0) (inr e) ∈ t ∧ IsNotFound e = false
    | rest => ∃ vs v,
        VirtualServiceBuilder.Build
          (VirtualServiceBuilder.mkVirtualServiceBuilder [IstioGateway r]) (mkRouteList rest)
          = Ok [vs] ∧ vs_key vs = k0 ∧
        virtual_services_of w' !! k0 = Some v ∧ synced_virtual_service vs v
    end) ∧
  ∃ fs, (∀ f, f ∈ fs ↔ f ∈ Finalizers (Route_ObjectMeta route) ∧ f ≠ finalizerName) ∧
    routes_of w' = match fs with
                   | [] => delete req (routes_of w)
                   | _ => <[req := with_Finalizers route fs]> (routes_of w)
                   end.

Lemma finalized_state r req route routes t w w' :
  route_finalized r req route routes t → steps w t w' →
  route_key route = req → IsZero (DeletionTimestamp (Route_ObjectMeta route)) = false →
  listed w (nn_Namespace req) (FQDN route) routes →
  services_unprotected w → virtual_services_unprotected w →
  torn_down r req route w t w'.
Proof.
  intros [owned deletes released stored Hd Hrel] Hs Hkey Hz Hl Hun Hunv.
  apply steps_cons_inv in Hs as (w1 & Hlist & Hs).
  pose proof (serve_reads _ (List_Services _ _) _ _ I Hlist) as (Hr1 & Hs1 & Hv1).
  pose proof (serve_List_Services _ _ _ _ _ Hlist) as Hls.
  apply steps_app_inv in Hs as (w2 & Hs2 & Hs).
  eapply deletes_services in Hs2 as [[Hr2 Hv2] Hc2]; [|done].
  apply steps_app_inv in Hs as (w3 & Hs3 & Hs4).
  apply steps_cons_inv in Hs4 as (w4 & Hu & ->%steps_nil_inv).
  destruct (listed_others _ _ _ _ route Hl) as [Hothers Hall].
  rewrite Hothers in Hrel.
  destruct (released_state _ _ _ _ _ _ _ Hrel Hs3) as ([Hr3 Hs3'] & Hvf & Hv); [|done|].
  { unfold virtual_services_unprotected. by rewrite Hv2, Hv1. }
  apply serve_Update_Route in Hu as (_ & Hs4 & Hv4 & Hr4).
  unfold torn_down. split_and!.
  - rewrite Hs4, Hs3'. apply map_eq. intros k.
    rewrite (listed_services _ _ _ _ k Hls), <- Hs1.
    apply (deletes_lookup service_key _ _ _ _ k Hc2). intros s. rewrite Hs1. apply Hun.
  - intros k Hk. by rewrite Hv4, Hvf, Hv2, Hv1.
  - exists routes. split; [done|]. rewrite Hv4. destruct (others route routes); [|done].
    destruct Hv as [?|(e & He & ?)]; [by left|]. right. exists e. split; [|done].
    right. rewrite !elem_of_app. auto.
  - exists (RemoveFinalizer (Finalizers (Route_ObjectMeta route)) finalizerName).
    split; [intros f; apply RemoveFinalizer_elem|].
    rewrite Hr4. cbn. rewrite Hz. cbn [orb]. unfold has_finalizers. cbn.
    change (route_key (with_Finalizers _ _)) with (route_key route).
    rewrite Hkey, Hr3, Hr2, Hr1. by destruct (RemoveFinalizer _ _).
Qed.
End parts.

Section convergence.
Context {G : GoRuntime} {GL : GoRuntimeLaws G} {K : K8s} {KL : K8sLaws K}.
Context {A : ApiServer} {AL : ApiServerLaws K A}.
Implicit Types (w : server) (r : RouteReconciler) (req : NamespacedName) (route : Route).

Definition builder_of r := VirtualServiceBuilder.mkVirtualServiceBuilder [IstioGateway r].

(** The cluster [w'] is what the live [route], read in [w], asks for. *)
Definition in_sync r req route w w' : Prop :=
  ∃ routes desired vs,
    listed w (nn_Namespace req) (FQDN route) routes ∧
    ServiceBuilder.Build route = Ok desired ∧
    VirtualServiceBuilder.Build (builder_of r) routes = Ok [vs] ∧
    vs_key vs = mkNamespacedName (nn_Namespace req) (VirtualServiceName (FQDN route)) ∧
    (∀ d, d ∈ desired → ∃ s, services_of w' !! service_key d = Some s ∧ synced_service d s) ∧
    (∀ k, k ∉ service_key <$> desired →
      services_of w' !! k =
      disowned (nn_Namespace req) (UID (Route_ObjectMeta route)) (services_of w) !! k) ∧
    (∃ v, virtual_services_of w' !! vs_key vs = Some v ∧ synced_virtual_service vs v) ∧
    (∀ k, k ≠ vs_key vs → virtual_services_of w' !! k = virtual_services_of w !! k) ∧
    ∃ fs, finalizerName ∈ fs ∧
      (∀ f, f ∈ fs ↔ f ∈ Finalizers (Route_ObjectMeta route) ∨ f = finalizerName) ∧
      routes_of w' = <[req := with_Finalizers route fs]> (routes_of w) ∧
      (finalizerName ∈ Finalizers (Route_ObjectMeta route) → routes_of w' = routes_of w).

Lemma live_run r req t res w w' route
    (Hex : exec serve w (Reconcile r req) t (Ok res) w')
    (Hroute : routes_of w !! req = Some route)
    (Hlive : IsZero (DeletionTimestamp (Route_ObjectMeta route)) = true) :
  ∃ routes claim stored services vss,
    t = Event (Get_Route req) (inl route)
          :: Event (List_Routes (nn_Namespace req) (FQDN route)) (inl routes)
          :: claim ++ services ++ vss ∧
    route_claimed route claim stored ∧ services_synced req stored services ∧
    virtual_services_synced r routes vss ∧ res = mkResult (ResyncInterval r) ∧
    steps w t w'.
Proof.
  pose proof (exec_traces _ _ _ _ _ _ Hex) as Ht%Reconcile_ok. apply exec_steps in Hex as Hs.
  destruct Ht as [e He|route' routes claim stored svcs vss Hz Hc Hsv Hv
    |route' routes cleanup Hz Hf Hcl|route' routes Hz Hf].
  - apply steps_cons_inv in Hs as (w1 & H1 & _). apply serve_Get_Route in H1.
    by rewrite H1 in Hroute.
  - pose proof Hs as (Hr & _)%read_route. rewrite Hroute in Hr. injection Hr as <-.
    by exists routes, claim, stored, svcs, vss.
  - apply read_route in Hs as (Hr & _). congruence.
  - apply read_route in Hs as (Hr & _). congruence.
Qed.

Lemma live_state r req t res w w' route
    (Hex : exec serve w (Reconcile r req) t (Ok res) w')
    (Hroute : routes_of w !! req = Some route)
    (Hlive : IsZero (DeletionTimestamp (Route_ObjectMeta route)) = true)
    (Hguids : NoDup (Guid <$> Destinations (Route_Spec route)))
    (Hun : others_unprotected route w) :
  res = mkResult (ResyncInterval r) ∧ in_sync r req route w w'.
Proof.
  destruct (live_run _ _ _ _ _ _ _ Hex Hroute Hlive)
    as (routes & claim & stored & svcs & vss & -> & Hc & Hsv & Hv & -> & Hs).
  split; [done|]. clear Hex.
  apply read_route in Hs as (Hr & Hkey & Hl & Hin & w1 & (Hr1 & Hs1 & Hv1) & Hs).
  apply steps_app_inv in Hs as (w2 & Hclaim & Hs).
  destruct (claimed_state _ _ _ _ _ Hc Hclaim) as (Hs2 & Hv2 & Hr2 & fs & Hfs & -> & Hfs');
    [by rewrite Hkey, Hr1 | done|].
  apply steps_app_inv in Hs as (w3 & Hsvcs & Hvss).
  assert (others_unprotected (with_Finalizers route fs) w2) as Hun2
    by (unfold others_unprotected; by rewrite Hs2, Hs1).
  destruct (services_synced_state _ _ _ _ _ Hsv Hsvcs Hguids Hun2)
    as ([Hr3 Hv3] & desired & Hb & Hd & Hframe & _).
  destruct (virtual_services_synced_state r routes (FQDN route) (nn_Namespace req) _ _ _ Hv Hvss)
    as ([Hr4 Hs4] & vs & Hbv & Hvkey & Hvs & Hvframe & _).
  { intros Hnil. rewrite Hnil in Hin. by apply not_elem_of_nil in Hin. }
  { intros x Hx. apply Hl in Hx. tauto. }
  exists routes, desired, vs. rewrite Hs4. rewrite Hs2, Hs1 in Hframe. split_and!; try done.
  - intros k Hk. by rewrite Hvframe, Hv3, Hv2, Hv1.
  - exists fs. rewrite Hr4, Hr3, Hr2, Hr1, Hkey. split_and!; [done..|]. intros Hhas.
    rewrite insert_id; [done|]. rewrite Hroute. f_equal. by destruct Hc.
Qed.

(** C2: after a successful reconciliation of a live route, whose destinations
    have distinct GUIDs, in a cluster whose Services have no finalizers, its
    namespace holds, for every destination, the Service the builder computes, no other
    Service owned by the route, and the VirtualService the builder computes
    for all Routes with its FQDN; the route carries the finalizer, every
    other object is as before, and the route is requeued after the resync
    interval. *)
Theorem Reconcile_live r req t res w w' route
    (Hex : exec serve w (Reconcile r req) t (Ok res) w')
    (Hroute : routes_of w !! req = Some route)
    (Hlive : IsZero (DeletionTimestamp (Route_ObjectMeta route)) = true)
    (Hguids : NoDup (Guid <$> Destinations (Route_Spec route)))
    (Hun : services_unprotected w) :
  res = mkResult (ResyncInterval r) ∧ in_sync r req route w w'.
Proof. eapply live_state; [done..|]. intros desired k s _ _. apply Hun. Qed.

Lemma Reconcile_torn_down r req t res w w' route
    (Hex : exec serve w (Reconcile r req) t (Ok res) w')
    (Hroute : routes_of w !! req = Some route)
    (Hdel : IsZero (DeletionTimestamp (Route_ObjectMeta route)) = false)
    (Hfin : finalizerName ∈ Finalizers (Route_ObjectMeta route))
    (Hun : services_unprotected w) (Hunv : virtual_services_unprotected w) :
  res = mkResult 0 ∧ torn_down r req route w t w'.
Proof.
  pose proof (exec_traces _ _ _ _ _ _ Hex) as Ht%Reconcile_ok.
  apply exec_steps in Hex as Hs. clear Hex.
  destruct Ht as [e He|route' routes claim stored svcs vss Hz _ _ _
    |route' routes cleanup Hz Hf Hcl|route' routes Hz Hf].
  - apply steps_cons_inv in Hs as (w1 & H1 & _). apply serve_Get_Route in H1.
    by rewrite H1 in Hroute.
  - apply read_route in Hs as (Hr & _). congruence.
  - apply read_route in Hs as (Hr & Hkey & Hl & Hin & w1 & (Hr1 & Hs1 & Hv1) & Hs).
    rewrite Hroute in Hr. injection Hr as <-.
    split; [done|].
    assert (torn_down r req route w1 cleanup w') as (Hsv & Hvf & (routes' & Hl' & Hv) & Hrt).
    { apply (finalized_state _ _ _ routes); try done.
      - unfold listed. by rewrite Hr1.
      - unfold services_unprotected. by rewrite Hs1.
      - unfold virtual_services_unprotected. by rewrite Hv1. }
    unfold torn_down. unfold listed in Hl'. rewrite Hr1, Hs1, Hv1 in *.
    split_and!; [done..| |done]. exists routes'. split; [done|].
    destruct (others route routes'); [|done].
    destruct Hv as [?|(e & He & ?)]; [by left|]. right. exists e. split; [|done].
    by do 2 right.
  - apply read_route in Hs as (Hr & _). congruence.
Qed.

(** C3: after a successful reconciliation of a route that is being deleted and
    holds the finalizer, in a cluster whose Services and VirtualServices have no
    finalizers, no Service of its namespace is owned by it and all others are
    as before; when no other route has its FQDN the VirtualService is gone, or
    as it was if reading it failed for another reason than its absence, which
    the code ignores; otherwise the VirtualService is the one the builder
    computes for the remaining routes; and the route itself lost the finalizer,
    or is gone with its last one. *)
Theorem Reconcile_finalized r req t res w w' route
    (Hex : exec serve w (Reconcile r req) t (Ok res) w')
    (Hroute : routes_of w !! req = Some route)
    (Hdel : IsZero (DeletionTimestamp (Route_ObjectMeta route)) = false)
    (Hfin : finalizerName ∈ Finalizers (Route_ObjectMeta route))
    (Hun : services_unprotected w) (Hunv : virtual_services_unprotected w) :
  res = mkResult 0 ∧ torn_down r req route w t w'.
Proof. by eapply Reconcile_torn_down. Qed.

Lemma listed_Permutation w w' ns f rl rl' :
  routes_of w' = routes_of w → listed w ns f rl → listed w' ns f rl' → Items rl ≡ₚ Items rl'.
Proof.
  intros Hr [Hnd Hl] [Hnd' Hl']. apply NoDup_Permutation; [by eapply NoDup_fmap_1..|].
  intros x. by rewrite Hl, Hl', Hr.
Qed.

(** No two Routes of an FQDN have the same URL. *)
Definition urls_distinct w ns f : Prop :=
  ∀ rl, listed w ns f rl → distinctUrls (Items rl).

Lemma in_sync_others_unprotected r req route w w' :
  in_sync r req route w w' → others_unprotected route w → others_unprotected route w'.
Proof.
  intros (routes & desired & vs & _ & Hb & _ & _ & _ & Hf & _) Hun desired' k s Hb' Hk Hs.
  rewrite Hb in Hb'. injection Hb' as <-. rewrite Hf in Hs by done.
  apply map_lookup_filter_Some in Hs as [Hs _]. by apply (Hun desired k s).
Qed.

Lemma in_sync_again r req t res w w1 w2 route :
  exec serve w1 (Reconcile r req) t (Ok res) w2 →
  routes_of w1 = routes_of w → routes_of w !! req = Some route →
  IsZero (DeletionTimestamp (Route_ObjectMeta route)) = true →
  finalizerName ∈ Finalizers (Route_ObjectMeta route) →
  NoDup (Guid <$> Destinations (Route_Spec route)) → others_unprotected route w →
  urls_distinct w (nn_Namespace req) (FQDN route) →
  in_sync r req route w w1 → same_objects w1 w2.
Proof.
  intros Hex Hr Hroute Hlive Hfin Hguids Hun Hurls Hsync.
  pose proof (in_sync_others_unprotected _ _ _ _ _ Hsync Hun) as Hun1.
  destruct Hsync as (rl & desired & vs & Hl & Hb & Hbv & Hkey & Hd & Hf & Hv & Hvf & _).
  destruct (live_run _ _ _ _ _ _ _ Hex ltac:(by rewrite Hr) Hlive)
    as (rl' & claim & stored & svcs & vss & -> & Hc & Hsv & Hvsync & -> & Hs).
  destruct Hc as [_|stored Hn]; [|done].
  apply read_route in Hs as (_ & _ & Hl' & Hin & w3 & (Hr3 & Hs3 & Hv3) & Hs).
  cbn [app] in Hs. apply steps_app_inv in Hs as (w4 & Hsvcs & Hvss).
  destruct (services_synced_state _ _ _ _ _ Hsv Hsvcs Hguids) as ([Hr4 Hv4] & desired' & Hb' & _ & Hf' & Hsame).
  { unfold others_unprotected. by rewrite Hs3. }
  rewrite Hb in Hb'. injection Hb' as <-. rewrite Hs3 in *.
  destruct (virtual_services_synced_state r rl' (FQDN route) (nn_Namespace req) _ _ _ Hvsync Hvss)
    as ([Hr5 Hs5] & vs' & Hbv' & _ & _ & _ & Hvsame).
  { intros Hnil. rewrite Hnil in Hin. by apply not_elem_of_nil in Hin. }
  { intros x Hx. apply Hl' in Hx. tauto. }
  pose proof (Build_independent G G _ _ _ _ rl rl' [vs] (listed_Permutation _ _ _ _ _ _ Hr Hl Hl')
    (Hurls rl Hl) Hbv) as Hbv2.
  unfold builder_of in Hbv2. rewrite Hbv' in Hbv2. injection Hbv2 as ->.
  split_and!; [congruence | | by rewrite Hvsame, Hv4, Hv3; [|rewrite Hv4, Hv3]].
  rewrite Hs5. apply map_eq. intros k. destruct (decide (k ∈ service_key <$> desired)) as [Hk|Hk].
  - by apply Hsame.
  - rewrite Hf' by done. apply option_eq. intros s. unfold disowned.
    rewrite map_lookup_filter_Some. split; [by intros [? _]|]. intros Hk'. split; [done|].
    rewrite Hf in Hk' by done. by apply map_lookup_filter_Some in Hk' as [_ ?].
Qed.

(** C4: reconciling is idempotent: once the route carries its finalizer, a
    second successful reconciliation leaves every object as the first one
    did, whatever order the server lists and Go ranges and sorts in. *)
Theorem Reconcile_idempotent r req t1 res1 t2 res2 w w1 w2 route
    (Hex1 : exec serve w (Reconcile r req) t1 (Ok res1) w1)
    (Hex2 : exec serve w1 (Reconcile r req) t2 (Ok res2) w2)
    (Hroute : routes_of w !! req = Some route)
    (Hlive : IsZero (DeletionTimestamp (Route_ObjectMeta route)) = true)
    (Hfin : finalizerName ∈ Finalizers (Route_ObjectMeta route))
    (Hguids : NoDup (Guid <$> Destinations (Route_Spec route)))
    (Hun : services_unprotected w)
    (Hurls : urls_distinct w (nn_Namespace req) (FQDN route)) :
  same_objects w1 w2.
Proof.
  assert (others_unprotected route w) as Hun' by (intros desired k s _ _; apply Hun).
  destruct (live_state _ _ _ _ _ _ _ Hex1 Hroute Hlive Hguids Hun') as [_ Hsync].
  pose proof Hsync as (_ & _ & _ & _ & _ & _ & _ & _ & _ & _ & _ & fs & _ & _ & _ & Hr).
  by eapply in_sync_again; [exact Hex2 | exact (Hr Hfin) | ..].
Qed.
End convergence.
