(* ===== verification/ControllerExamples.v ===== *)
(** A small cluster on the in-memory server, reconciled by evaluation, and the
    instances of the controller's theorems on it. *)
From S2P Require Import Prelude Runtime Api ResourceNames BuilderWeights BuilderRouting.
From S2P Require Import Client RouteController ControllerHelpers ControllerTraces.
From S2P Require Import ControllerSafety ControllerFailures ApiServer ControllerSync ControllerConvergence.
From S2P Require Import VirtualServiceBuilder ServiceBuilder.

#[local] Existing Instance go_reference.
#[local] Existing Instance k8s_reference.
#[local] Existing Instance memory_server.

Definition example_reconciler : RouteReconciler := mkRouteReconciler "some-gateway0" 30.

(** Two live routes of one FQDN; the second already carries the finalizer. *)
Definition claimed_route : Route := with_Finalizers deep_route [finalizerName].

(** The second route, marked for deletion. *)
Definition deleted_route : Route :=
  let m := Route_ObjectMeta deep_route in
  mkRoute (Route_TypeMeta deep_route)
    (mkObjectMeta (Name m) (Namespace m) (UID m) (Labels m) (Annotations m)
       (OwnerReferences m) [finalizerName] (Some 1%Z))
    (Route_Spec deep_route) (Route_Status deep_route).

Definition example_key (r : Route) : NamespacedName := key_of (Route_ObjectMeta r).

(** A Service of an earlier version of the route, and one of somebody else. *)
Definition stale_service : Service :=
  mkService
    (mkObjectMeta "s-old" "workload-namespace" "uid-old" ∅ ∅ [routeToOwnerRef deep_route] [] None)
    (mkServiceSpec ∅ [] "10.0.0.7").
Definition foreign_service : Service :=
  mkService (mkObjectMeta "s-foreign" "workload-namespace" "uid-foreign" ∅ ∅ [] [] None)
    (mkServiceSpec ∅ [] "10.0.0.8").

Definition example_services : gmap NamespacedName Service :=
  {[ service_key stale_service := stale_service; service_key foreign_service := foreign_service ]}.

Definition cluster (r : Route) : stores :=
  mkStores {[ example_key shallow_route := shallow_route; example_key r := r ]}
    example_services ∅.

(** The reconciliation of [r] in a cluster. *)
Definition run_of (r : Route) (w : stores) := run mem_handle (Reconcile example_reconciler (example_key r)) w.

Lemma run_of_exec r w res :
  (run_of r w).1.1 = Ok res →
  exec serve w (Reconcile example_reconciler (example_key r)) (run_of r w).1.2 (Ok res) (run_of r w).2.
Proof. apply (run_ok mem_handle). Qed.

Lemma run_of_traces r w :
  traces (Reconcile example_reconciler (example_key r)) (run_of r w).1.2 (run_of r w).1.1.
Proof.
  eapply exec_traces, (run_ok mem_handle (Reconcile example_reconciler (example_key r)) w). done.
Qed.

Example live_run_calls :
  (λ ev, match event_action ev with
         | Get_Route k => "get route " +:+ nn_Name k
         | List_Routes _ f => "list routes " +:+ f
         | Update_Route _ => "update route"
         | List_Services _ o => "list services " +:+ o
         | CreateOrUpdate_Service s _ => "upsert service " +:+ Name (Service_ObjectMeta s)
         | Delete_Service s => "delete service " +:+ Name (Service_ObjectMeta s)
         | Get_VirtualService _ => "get vs"
         | CreateOrUpdate_VirtualService v _ => "upsert vs"
         | Delete_VirtualService _ => "delete vs"
         end) <$> (run_of deep_route (cluster deep_route)).1.2
  = ["get route route-guid-1"; "list routes test0.domain0.example.com"; "update route";
     "list services route-guid-1-uid"; "upsert service s-d1"; "delete service s-old"; "upsert vs"].
Proof. vm_compute. reflexivity. Qed.

(** * Facts about the cluster *)

Lemma cluster_unprotected r : services_unprotected (cluster r).
Proof.
  intros k s Hs. apply visible_lookup in Hs as [Hs _]. cbn in Hs.
  apply lookup_insert_Some in Hs as [[_ <-]|[_ [_ <-]%lookup_singleton_Some]]; done.
Qed.

Lemma cluster_vs_unprotected r : virtual_services_unprotected (cluster r).
Proof. intros k s Hs. apply visible_lookup in Hs as [Hs _].
  cbn in Hs. by apply lookup_empty_Some in Hs.
Qed.

Lemma cluster_routes r x k :
  routes_of (cluster r) !! k = Some x → x = shallow_route ∨ x = r.
Proof.
  intros Hx. apply visible_lookup in Hx as [Hx _]. cbn in Hx.
  apply lookup_insert_Some in Hx as [[_ <-]|[_ [_ <-]%lookup_singleton_Some]]; auto.
Qed.

Lemma cluster_urls ns f : urls_distinct (cluster claimed_route) ns f.
Proof.
  intros rl [Hnd Hl] f'. apply NoDup_fmap_2_strong.
  - intros x y [_ Hx]%list_elem_of_filter [_ Hy]%list_elem_of_filter Heq.
    apply Hl in Hx as [Hx _], Hy as [Hy _].
    apply cluster_routes in Hx as [-> | ->], Hy as [-> | ->]; done.
  - apply NoDup_filter. by eapply NoDup_fmap_1.
Qed.

Lemma guids_distinct : NoDup (Guid <$> Destinations (Route_Spec deep_route)).
Proof. apply (bool_decide_unpack _). vm_compute. exact I. Qed.

(** * Instances of the theorems *)

Lemma Reconcile_refines_witness :
  reconciled example_reconciler (example_key deep_route)
    (run_of deep_route (cluster deep_route)).1.2 (mkResult 30).
Proof.
  apply (Reconcile_refines example_reconciler (example_key deep_route)).
  apply (exec_traces _ _ _ _ _ _ (run_of_exec deep_route (cluster deep_route) (mkResult 30)
    ltac:(vm_compute; reflexivity))).
Defined.

Lemma Reconcile_live_witness :
  in_sync example_reconciler (example_key deep_route) deep_route (cluster deep_route)
    (run_of deep_route (cluster deep_route)).2.
Proof.
  apply (Reconcile_live example_reconciler (example_key deep_route)
    (run_of deep_route (cluster deep_route)).1.2 (mkResult 30)).
  - apply run_of_exec. vm_compute. reflexivity.
  - vm_compute. reflexivity.
  - vm_compute. reflexivity.
  - exact guids_distinct.
  - apply cluster_unprotected.
Defined.

Lemma Reconcile_finalized_witness :
  torn_down example_reconciler (example_key deleted_route) deleted_route (cluster deleted_route)
    (run_of deleted_route (cluster deleted_route)).1.2
    (run_of deleted_route (cluster deleted_route)).2.
Proof.
  apply (Reconcile_finalized example_reconciler (example_key deleted_route)
    (run_of deleted_route (cluster deleted_route)).1.2 (mkResult 0)).
  - apply run_of_exec. vm_compute. reflexivity.
  - vm_compute. reflexivity.
  - vm_compute. reflexivity.
  - by left.
  - apply cluster_unprotected.
  - apply cluster_vs_unprotected.
Defined.

Lemma Reconcile_idempotent_witness :
  let w1 := (run_of claimed_route (cluster claimed_route)).2 in
  same_objects w1 (run_of claimed_route w1).2.
Proof.
  apply (Reconcile_idempotent (A:=memory_server) example_reconciler (example_key claimed_route)
    (run_of claimed_route (cluster claimed_route)).1.2 (mkResult 30)
    (run_of claimed_route (run_of claimed_route (cluster claimed_route)).2).1.2 (mkResult 30)
    (cluster claimed_route) (run_of claimed_route (cluster claimed_route)).2
    (run_of claimed_route (run_of claimed_route (cluster claimed_route)).2).2 claimed_route).
  - apply run_of_exec. vm_compute. reflexivity.
  - apply run_of_exec. vm_compute. reflexivity.
  - vm_compute. reflexivity.
  - vm_compute. reflexivity.
  - by left.
  - exact guids_distinct.
  - apply cluster_unprotected.
  - apply cluster_urls.
Defined.

Definition unavailable : error := StatusError "ServiceUnavailable" "try again".

Lemma Reconcile_errors_witness :
  let t := [Event (Get_Route (example_key deep_route)) (inl deep_route)] in
  let ev := Event (List_Routes "workload-namespace" "test0.domain0.example.com") (inr unavailable) in
  traces (Reconcile example_reconciler (example_key deep_route)) (t ++ [ev]) (Err unavailable) ∧
  event_error ev = Some unavailable ∧
  (@nil event = [] ∧ @Err Result unavailable = Err unavailable).
Proof.
  intros t ev.
  assert (traces (Reconcile example_reconciler (example_key deep_route)) (t ++ [ev])
    (Err unavailable)) as Ht.
  { apply traces_request. eexists _, _. split; [reflexivity|]. apply traces_call. right.
    exists unavailable. split; reflexivity. }
  split; [exact Ht|]. split; [reflexivity|].
  exact (Reconcile_errors example_reconciler (example_key deep_route) t ev [] (Err unavailable)
    unavailable Ht eq_refl eq_refl).
Defined.

Lemma Reconcile_get_error_witness :
  let e := NotFound (example_key deep_route) in
  let t := [Event (Get_Route (example_key deep_route)) (inr e)] in
  (∃ e, t = [Event (Get_Route (example_key deep_route)) (inr e)] ∧
     Ok empty_Result = if IsNotFound e then Ok empty_Result else Err e) ∨
  (∃ route t', t = Event (Get_Route (example_key deep_route)) (inl route) :: t').
Proof.
  apply (Reconcile_get_error example_reconciler). apply traces_request.
  eexists _, _. split; [reflexivity|]. constructor.
Defined.

(** A route whose destination has no port: its Services cannot be built. *)
Definition portless_route : Route :=
  mkRoute (Route_TypeMeta deep_route) (Route_ObjectMeta claimed_route)
    (mkRouteSpec "test0" "" "" (mkRouteDomain "domain0.example.com" false)
       [mkRouteDestination "d1" None None (mkDestinationApp "app-guid" (mkAppProcess "web"))
          (mkDestinationSelector ∅)])
    (Route_Status deep_route).

Lemma Reconcile_failures_witness :
  let t := (run_of portless_route (cluster portless_route)).1.2 in
  panics (run_of portless_route (cluster portless_route)).1.1 ∧
  ∃ route,
    (Event (Get_Route (example_key portless_route)) (inl route) ∈ t ∨
     ∃ x, Event (Update_Route x) (inl route) ∈ t) ∧
    Exists (λ dest, Port dest = None) (Destinations (Route_Spec route)).
Proof.
  intros t.
  assert (panics (run_of portless_route (cluster portless_route)).1.1) as Hp
    by (eexists; vm_compute; reflexivity).
  split; [exact Hp|].
  exact (explained_panic _ _ _ _ _ Hp
    (Reconcile_failures example_reconciler (example_key portless_route) t _
      (run_of_traces portless_route (cluster portless_route)))).
Defined.

(** The event at a position of a run. *)
Definition event_at (n : nat) (r : Route) : event :=
  default (Event (Get_Route (example_key r)) (inr unavailable))
    ((run_of r (cluster r)).1.2 !! n).

Lemma event_at_split n r :
  (run_of r (cluster r)).1.2 !! n = Some (event_at n r) →
  traces (Reconcile example_reconciler (example_key r))
    (take n (run_of r (cluster r)).1.2 ++ event_at n r :: drop (S n) (run_of r (cluster r)).1.2)
    (run_of r (cluster r)).1.1.
Proof. intros Hn. rewrite take_drop_middle by done. apply run_of_traces. Qed.

Lemma Reconcile_deletes_owned_witness :
  ∃ route actual, stale_service ∈ actual ∧
    Event (List_Services "workload-namespace" (UID (Route_ObjectMeta route))) (inl actual)
      ∈ take 5 (run_of deep_route (cluster deep_route)).1.2.
Proof.
  destruct (Reconcile_deletes_owned example_reconciler (example_key deep_route)
    (take 5 (run_of deep_route (cluster deep_route)).1.2) (event_at 5 deep_route)
    (drop 6 (run_of deep_route (cluster deep_route)).1.2)
    (run_of deep_route (cluster deep_route)).1.1 stale_service)
    as (route & actual & _ & Hl & Hs & _).
  - apply (event_at_split 5 deep_route). vm_compute. reflexivity.
  - vm_compute. reflexivity.
  - exists route, actual. split; [exact Hs | exact Hl].
Defined.

Lemma Reconcile_finalizer_last_witness :
  drop 6 (run_of deleted_route (cluster deleted_route)).1.2 = [] ∧
  ∃ route routes owned deletes released,
    each Delete_Service owned deletes ∧
    virtual_service_released example_reconciler (example_key deleted_route) route
      (removeFirst (Name (Route_ObjectMeta route)) (Items routes)) released.
Proof.
  destruct (Reconcile_finalizer_last example_reconciler (example_key deleted_route)
    (take 5 (run_of deleted_route (cluster deleted_route)).1.2) (event_at 5 deleted_route)
    (drop 6 (run_of deleted_route (cluster deleted_route)).1.2)
    (run_of deleted_route (cluster deleted_route)).1.1
    (with_Finalizers deleted_route []))
    as (Hpost & route & routes & owned & deletes & released & _ & _ & _ & Hd & Hr).
  - apply (event_at_split 5 deleted_route). vm_compute. reflexivity.
  - vm_compute. reflexivity.
  - apply not_elem_of_nil.
  - split; [exact Hpost|]. exists route, routes, owned, deletes, released. split; [exact Hd | exact Hr].
Defined.

Lemma finalization_ignores_get_error_witness :
  ∃ t, traces (Reconcile example_reconciler (example_key deleted_route)) t (Ok empty_Result) ∧
    Event (Get_VirtualService (mkNamespacedName "workload-namespace"
      (VirtualServiceName "test0.domain0.example.com"))) (inr unavailable) ∈ t ∧
    Forall (λ ev, match event_action ev with Delete_VirtualService _ => False | _ => True end) t.
Proof.
  eexists. split.
  - apply (finalization_ignores_get_error example_reconciler (example_key deleted_route)
      deleted_route (mkRouteList [deleted_route]) deleted_route unavailable);
      [vm_compute; reflexivity | by left | reflexivity].
  - split; [do 3 right; by left|]. repeat (apply Forall_cons; split; [exact I|]). apply Forall_nil.
    exact I.
Defined.
