(* ===== verification/BuilderFinalizers.v ===== *)
(** What VirtualServiceBuilder.Build makes of a list of Routes does not depend
    on their finalizers, the only part of a Route the controller itself
    changes. *)
From S2P Require Import Prelude Runtime Api ResourceNames Client RouteController.
From S2P Require Import BuilderWeights BuilderStructure BuilderTheorems VirtualServiceBuilder.

(** The Route without its finalizers. *)
Definition unclaimed (x : Route) : Route := with_Finalizers x [].

Lemma unclaimed_with_Finalizers x fs : unclaimed (with_Finalizers x fs) = unclaimed x.
Proof. done. Qed.

Lemma routesOf_unclaimed f items : unclaimed <$> routesOf f items = routesOf f (unclaimed <$> items).
Proof.
  unfold routesOf. induction items as [|x items IH]; [done|].
  rewrite fmap_cons. destruct (decide (FQDN x = f)).
  - rewrite !filter_cons_True by done. by rewrite fmap_cons, IH.
  - by rewrite !filter_cons_False.
Qed.

Lemma fmap_unclaimed {A} (g : Route → A) (l l' : list Route) :
  (∀ x, g (unclaimed x) = g x) → unclaimed <$> l = unclaimed <$> l' → g <$> l = g <$> l'.
Proof.
  intros Hg Heq. assert (∀ k : list Route, g <$> k = g <$> (unclaimed <$> k)) as Hl.
  { intros k. rewrite <- list_fmap_compose. apply list_fmap_ext. intros i x _. symmetry. apply Hg. }
  by rewrite (Hl l), (Hl l'), Heq.
Qed.

Lemma distinctFQDNs_unclaimed items items' :
  unclaimed <$> items = unclaimed <$> items' → distinctFQDNs items = distinctFQDNs items'.
Proof. intros Heq. unfold distinctFQDNs. by rewrite (fmap_unclaimed FQDN _ _ (λ _, eq_refl) Heq). Qed.

Lemma mapO_unclaimed {B} (g : Route → outcome B) l l' :
  (∀ x, g (unclaimed x) = g x) → unclaimed <$> l = unclaimed <$> l' → mapO g l = mapO g l'.
Proof.
  intros Hg. revert l'. induction l as [|x l IH]; intros [|x' l']; [done..|].
  rewrite !fmap_cons. intros [Hx Hl]%(inj2 cons). cbn [mapO].
  rewrite <- (Hg x), Hx, (Hg x'). by rewrite (IH l' Hl).
Qed.

Lemma Forall_unclaimed (P : Route → Prop) l l' :
  (∀ x, P (unclaimed x) ↔ P x) → unclaimed <$> l = unclaimed <$> l' → Forall P l → Forall P l'.
Proof.
  intros HP. revert l'. induction l as [|x l IH]; intros [|x' l']; [done..|].
  rewrite !fmap_cons, !Forall_cons. intros [Hx Hl]%(inj2 cons) [Hpx Hpl]. split; [|by apply IH].
  apply HP. rewrite <- Hx. by apply HP.
Qed.

Section build.
Context {G : GoRuntime} {GL : GoRuntimeLaws G} {K : K8s}.

Lemma sortRoutes_unclaimed (g g' : list Route) :
  unclaimed <$> g = unclaimed <$> g' → NoDup ((λ r, Url (Route_Spec r)) <$> g) →
  unclaimed <$> sortRoutes g = unclaimed <$> sortRoutes g'.
Proof.
  intros Heq Hnd. apply sorted_by_url_unique.
  - rewrite <- list_fmap_compose. change (NoDup ((λ r, Url (Route_Spec r)) <$> sortRoutes g)).
    by rewrite sortRoutes_Permutation.
  - eapply StronglySorted_fmap, sortRoutes_Sorted. done.
  - eapply StronglySorted_fmap, sortRoutes_Sorted. done.
  - by rewrite !sortRoutes_Permutation, Heq.
Qed.

Lemma fqdnToVirtualService_unclaimed b f g g' vs :
  unclaimed <$> g = unclaimed <$> g' → NoDup ((λ r, Url (Route_Spec r)) <$> g) →
  fqdnToVirtualService b f g = Ok vs → fqdnToVirtualService b f g' = Ok vs.
Proof.
  destruct g as [|r0 rs]; [done|]. destruct g' as [|r0' rs']; [done|]. intros Heq Hnd.
  pose proof (sortRoutes_unclaimed _ _ Heq Hnd) as Hsort.
  rewrite !fqdnToVirtualService_unfold.
  intros ([] & Hv%validateRoutesForFQDN_Ok & (ess & Hess & [= <-])%bind_Ok)%bind_Ok.
  pose proof Heq as Heq'. rewrite !fmap_cons in Heq'. apply (inj2 cons) in Heq' as [H0 Hrs].
  assert (Forall (compatible r0') (r0' :: rs')) as Hv'.
  { eapply (Forall_unclaimed (compatible r0')), Forall_impl; [done|exact Heq|exact Hv|].
    intros x [Hi Hn]. unfold compatible.
    pose proof (f_equal (λ x, Internal (Domain (Route_Spec x))) H0) as Hi0.
    pose proof (f_equal (λ x, Namespace (Route_ObjectMeta x)) H0) as Hn0.
    cbn in Hi0, Hn0. by rewrite <- Hi0, <- Hn0. }
  rewrite (proj2 (validateRoutesForFQDN_Ok r0' rs') Hv'). cbn [mbind outcome_bind].
  assert (length rs = length rs') as Hlen by (apply (f_equal length) in Hrs; by rewrite !length_fmap in Hrs).
  rewrite <- Hlen, <- (mapO_unclaimed (routeEntries (S (length rs))) _ _ (λ _, eq_refl) Hsort), Hess.
  cbn [mbind outcome_bind]. f_equal. unfold virtualServiceFor.
  pose proof (f_equal (λ x, Internal (Domain (Route_Spec x))) H0) as Hi0.
  pose proof (f_equal (λ x, Namespace (Route_ObjectMeta x)) H0) as Hn0.
  cbn in Hi0, Hn0. rewrite Hi0, Hn0.
  by rewrite (fmap_unclaimed routeToOwnerRef _ _ (λ _, eq_refl) Hsort).
Qed.

Lemma Build_unclaimed b items items' vss :
  unclaimed <$> items = unclaimed <$> items' → distinctUrls items →
  Build b (mkRouteList items) = Ok vss → Build b (mkRouteList items') = Ok vss.
Proof.
  intros Heq Hurls. rewrite !Build_mapO. cbn [Items].
  rewrite <- (distinctFQDNs_unclaimed _ _ Heq), !mapO_Ok. intros Hok.
  eapply Forall2_impl; [exact Hok|]. intros f vs. apply fqdnToVirtualService_unclaimed.
  - by rewrite !routesOf_unclaimed, Heq.
  - apply Hurls.
Qed.

(** Lists of the same Routes, up to order and finalizers, have the same
    VirtualServices. *)
Lemma Build_same_routes b rl rl' vss :
  unclaimed <$> Items rl ≡ₚ unclaimed <$> Items rl' → distinctUrls (Items rl) →
  Build b rl = Ok vss → Build b rl' = Ok vss.
Proof.
  destruct rl as [items], rl' as [items']. cbn [Items]. intros Hp Hurls Hb.
  assert (∀ k, unclaimed <$> (unclaimed <$> k) = unclaimed <$> (k : list Route)) as Hidem.
  { intros k. by rewrite <- list_fmap_compose. }
  assert (distinctUrls (unclaimed <$> items)) as Hurls'.
  { intros f. rewrite <- routesOf_unclaimed, <- list_fmap_compose.
    change (NoDup ((λ r, Url (Route_Spec r)) <$> routesOf f items)). apply Hurls. }
  apply (Build_unclaimed _ _ (unclaimed <$> items)) in Hb; [|by rewrite Hidem|done].
  apply (Build_independent G G _ _ _ _ (mkRouteList (unclaimed <$> items))
    (mkRouteList (unclaimed <$> items'))) in Hb; [|done|done].
  apply (Build_unclaimed _ (unclaimed <$> items')); [by rewrite Hidem| |done].
  by eapply distinctUrls_Permutation.
Qed.
End build.
