(* ===== verification/Cluster.v ===== *)
(** A cluster of several Routes, reconciled one after another: reconciling one
    Route does not undo what was done for another, so that after every Route
    has been reconciled, in whatever order, all are in sync. *)
From S2P Require Import Prelude Runtime Api ResourceNames Client RouteController.
From S2P Require Import BuilderStructure BuilderTheorems BuilderFinalizers ControllerHelpers.
From S2P Require Import ControllerTraces ControllerSafety ApiServer ControllerSync ControllerConvergence.
From S2P Require Import VirtualServiceBuilder ServiceBuilder.

(** * Orderly clusters *)

Definition route_guids (x : Route) : list string := Guid <$> Destinations (Route_Spec x).
Definition route_namespace (x : Route) : string := Namespace (Route_ObjectMeta x).
Definition route_uid (x : Route) : string := UID (Route_ObjectMeta x).
(** Where the VirtualService of its FQDN is. *)
Definition virtual_service_key (x : Route) : NamespacedName :=
  mkNamespacedName (route_namespace x) (VirtualServiceName (FQDN x)).

(** What makes two Routes independent: their UIDs differ; in one namespace and
    FQDN their URLs differ; in one namespace their destinations have different
    GUIDs; and different FQDNs have different digests. *)
Record independent (x x' : Route) : Prop := {
  independent_uid : route_uid x ≠ route_uid x';
  independent_url : route_namespace x = route_namespace x' → FQDN x = FQDN x' →
    Url (Route_Spec x) ≠ Url (Route_Spec x');
  independent_guids : route_namespace x = route_namespace x' →
    ∀ g, g ∈ route_guids x → g ∉ route_guids x';
  independent_names : VirtualServiceName (FQDN x) = VirtualServiceName (FQDN x') → FQDN x = FQDN x';
}.

Definition orderly (m : gmap NamespacedName Route) : Prop :=
  (∀ k x, m !! k = Some x → NoDup (route_guids x)) ∧
  ∀ k k' x x', m !! k = Some x → m !! k' = Some x' → k ≠ k' → independent x x'.

(** The Routes of the cluster without their finalizers. *)
Definition bare_routes `{ApiServer} (w : server) : gmap NamespacedName Route :=
  unclaimed <$> routes_of w.

(** A Route that is being deleted has no finalizer but the controller's. *)
Definition deletable `{K8s} (x : Route) : Prop :=
  IsZero (DeletionTimestamp (Route_ObjectMeta x)) = true ∨
  (finalizerName ∈ Finalizers (Route_ObjectMeta x) ∧
   ∀ f, f ∈ Finalizers (Route_ObjectMeta x) → f = finalizerName).

Record orderly_cluster `{K8s} `{ApiServer} (w : server) : Prop := {
  cluster_routes_orderly : orderly (bare_routes w);
  cluster_deletable k x : routes_of w !! k = Some x → deletable x;
  cluster_services_unprotected : services_unprotected w;
  cluster_virtual_services_unprotected : virtual_services_unprotected w;
}.

(** Reading a VirtualService fails only when there is none.  The code takes any
    error for that. *)
Definition virtual_services_readable `{K8s} `{ApiServer} : Prop :=
  ∀ w k e w', serve w (Get_VirtualService k) (inr e) w' → IsNotFound e = true.

Section cluster.
Context {G : GoRuntime} {GL : GoRuntimeLaws G} {K : K8s} {KL : K8sLaws K}.
Context {A : ApiServer} {AL : ApiServerLaws K A}.
Implicit Types (w : server) (r : RouteReconciler) (req : NamespacedName) (route : Route).

(** No Service of the namespace belongs to the UID but those under [keys]. *)
Definition owns_only w (ns uid : string) (keys : list NamespacedName) : Prop :=
  ∀ k s, services_of w !! k = Some s → nn_Namespace k = ns → uid ∈ serviceOwnerIndex s → k ∈ keys.

(** The cluster is what the live Route at [req] asks for. *)
Definition converged r w req : Prop :=
  ∃ route routes desired vs v,
    routes_of w !! req = Some route ∧
    IsZero (DeletionTimestamp (Route_ObjectMeta route)) = true ∧
    finalizerName ∈ Finalizers (Route_ObjectMeta route) ∧
    ServiceBuilder.Build route = Ok desired ∧
    (∀ d, d ∈ desired → ∃ s, services_of w !! service_key d = Some s ∧ synced_service d s) ∧
    owns_only w (nn_Namespace req) (route_uid route) (service_key <$> desired) ∧
    listed w (nn_Namespace req) (FQDN route) routes ∧
    VirtualServiceBuilder.Build (builder_of r) routes = Ok [vs] ∧
    vs_key vs = mkNamespacedName (nn_Namespace req) (VirtualServiceName (FQDN route)) ∧
    virtual_services_of w !! vs_key vs = Some v ∧ synced_virtual_service vs v.

(** The Route with that UID that was at [req] is gone with its Services. *)
Definition cleared w req (uid : string) : Prop :=
  routes_of w !! req = None ∧ (∀ k x, routes_of w !! k = Some x → route_uid x ≠ uid) ∧
  owns_only w (nn_Namespace req) uid [].

(** There is no VirtualService at [k] unless a Route is there that it is for. *)
Definition only_routed w (k : NamespacedName) : Prop :=
  (∀ k' x, routes_of w !! k' = Some x → virtual_service_key x ≠ k) →
  virtual_services_of w !! k = None.

(** Nothing is left of [route], which was at [req]: it is gone, so are its
    Services, and unless reading it may fail, so is its VirtualService but when
    other Routes share it. *)
Definition cleaned w req route : Prop :=
  cleared w req (route_uid route) ∧
  (virtual_services_readable → only_routed w (virtual_service_key route)).

(** What is due to [route], live or being deleted. *)
Definition settled r w req route : Prop :=
  if IsZero (DeletionTimestamp (Route_ObjectMeta route)) then converged r w req
  else cleaned w req route.

(** Reconciliations that all succeed, one after another. *)
Inductive reconciles r : server → list NamespacedName → server → Prop :=
  | reconciles_nil w : reconciles r w [] w
  | reconciles_cons w req t res w1 reqs w2 :
      exec serve w (Reconcile r req) t (Ok res) w1 → reconciles r w1 reqs w2 →
      reconciles r w (req :: reqs) w2.

(** * Lists of Routes *)

Lemma listed_exists w ns f : ∃ rl, listed w ns f rl.
Proof.
  exists (mkRouteList (filter (λ x, Namespace (Route_ObjectMeta x) = ns ∧ FQDN x = f)
    (map_to_list (routes_of w)).*2)). split; cbn [Items].
  - eapply sublist_NoDup; [|apply fmap_sublist, sublist_filter].
    assert (route_key <$> (map_to_list (routes_of w)).*2 = (map_to_list (routes_of w)).*1) as ->;
      [|apply NoDup_fst_map_to_list].
    rewrite <- list_fmap_compose. apply list_fmap_ext. intros i [k x] Hi%list_elem_of_lookup_2.
    cbn. by apply elem_of_map_to_list, routes_keyed in Hi.
  - intros x. rewrite list_elem_of_filter, list_elem_of_fmap. split.
    + intros [[Hns Hf] ([k x'] & -> & Hin%elem_of_map_to_list)]. cbn in *.
      by rewrite (routes_keyed _ _ _ Hin).
    + intros (Hx & Hns & Hf). split; [done|]. exists (route_key x, x).
      by rewrite elem_of_map_to_list.
Qed.

Lemma elem_of_bare w k y :
  bare_routes w !! k = Some y ↔ ∃ x, routes_of w !! k = Some x ∧ y = unclaimed x.
Proof. unfold bare_routes. rewrite lookup_fmap, fmap_Some. done. Qed.

Lemma unclaimed_key x y : unclaimed x = unclaimed y → route_key x = route_key y.
Proof. intros Heq. exact (f_equal route_key Heq). Qed.

Lemma listed_unclaimed w ns f rl :
  listed w ns f rl →
  NoDup (unclaimed <$> Items rl) ∧
  ∀ y, y ∈ unclaimed <$> Items rl ↔
    bare_routes w !! route_key y = Some y ∧ Namespace (Route_ObjectMeta y) = ns ∧ FQDN y = f.
Proof.
  intros [Hnd Hl]. split.
  - apply (NoDup_fmap_1 route_key). by rewrite <- list_fmap_compose.
  - intros y. rewrite list_elem_of_fmap. split.
    + intros (x & -> & (Hx & Hns & Hf)%Hl). split; [|done]. apply elem_of_bare. by exists x.
    + intros [(x & Hx & ->)%elem_of_bare [Hns Hf]]. exists x. split; [done|]. by apply Hl.
Qed.

Lemma listed_distinctUrls w ns f rl :
  orderly (bare_routes w) → listed w ns f rl → distinctUrls (Items rl).
Proof.
  intros [_ Hind] [Hnd Hl] f'. apply NoDup_fmap_2_strong.
  - intros x y [_ Hx]%elem_of_routesOf [_ Hy]%elem_of_routesOf Hurl.
    destruct (decide (route_key x = route_key y)) as [Hk|Hk].
    + apply Hl in Hx as (Hx & _), Hy as (Hy & _). rewrite Hk in Hx. congruence.
    + apply Hl in Hx as (Hx & Hnsx & Hfx), Hy as (Hy & Hnsy & Hfy).
      assert (independent (unclaimed x) (unclaimed y)) as Hxy
        by (eapply Hind; [apply elem_of_bare; eauto..|done]).
      destruct Hxy as [_ Hne _ _]. exfalso. apply Hne; [|exact (eq_trans Hfx (eq_sym Hfy))|done].
      unfold route_namespace. cbn. congruence.
  - apply NoDup_filter. by eapply NoDup_fmap_1.
Qed.

(** The same bare Routes of the namespace and FQDN: the same VirtualServices. *)
Lemma listed_Build r w w' ns f rl rl' vss :
  orderly (bare_routes w) → listed w ns f rl → listed w' ns f rl' →
  (∀ k y, Namespace (Route_ObjectMeta y) = ns → FQDN y = f →
     bare_routes w !! k = Some y ↔ bare_routes w' !! k = Some y) →
  VirtualServiceBuilder.Build (builder_of r) rl = Ok vss →
  VirtualServiceBuilder.Build (builder_of r) rl' = Ok vss.
Proof.
  intros Hord Hl Hl' Hsame Hb. eapply Build_same_routes, Hb.
  - destruct (listed_unclaimed _ _ _ _ Hl) as [Hnd Hin].
    destruct (listed_unclaimed _ _ _ _ Hl') as [Hnd' Hin'].
    apply NoDup_Permutation; [done..|]. intros y. rewrite Hin, Hin'.
    split; intros (Hy & Hns & Hf); (split; [by apply Hsame | done]).
  - by eapply listed_distinctUrls.
Qed.
(** * Objects keep their lack of finalizers *)

(** The upserts of the reconciler are those of ControllerTraces. *)
Definition controller_call (a : action) : Prop :=
  match a with
  | CreateOrUpdate_Service _ _ => ∃ d, a = upsert_Service d
  | CreateOrUpdate_VirtualService _ _ => ∃ d, a = upsert_VirtualService d
  | _ => True
  end.

Lemma Reconcile_controller_calls r req : calls controller_call (Reconcile r req).
Proof.
  unfold Reconcile, ensureFinalizer, reconcileServices, reconcileVirtualServices,
    finalizeRouteForDeletion, finalizeVirtualService, deleteServiceList.
  calls_tac.
  unfold reconcileVirtualServices. calls_tac.
Qed.

(** A successful reconciliation made no call that failed but reads. *)
Lemma Reconcile_ok_events r req t res :
  traces (Reconcile r req) t (Ok res) →
  Forall (λ ev, controller_call (event_action ev) ∧
                (event_error ev = None ∨ inspected (event_action ev) = true)) t.
Proof.
  intros Ht. apply Forall_and. split.
  - exact (calls_traces controller_call _ _ _ (Reconcile_controller_calls r req) Ht).
  - apply Forall_forall. intros ev (pre & post & ->)%list_elem_of_split.
    destruct (event_error ev) as [e|] eqn:He; [|by left]. right.
    destruct (inspected (event_action ev)) eqn:Ha; [done|].
    by destruct (strict_traces _ _ _ _ _ _ _ (Reconcile_strict r req) Ha He Ht) as [_ ?].
Qed.

Lemma upserted_unprotected {O} (persisted : O → O → Prop) (fins : O → list string) k obj mutate v
    (m m' : gmap NamespacedName O) :
  upserted persisted k obj mutate v m m' →
  (∀ v0 v1, persisted v0 v1 → fins v1 = fins v0) → (∀ x, fins (mutate x).1 = fins x) →
  fins obj = [] → (∀ k x, m !! k = Some x → fins x = []) → ∀ k x, m' !! k = Some x → fins x = [].
Proof.
  intros (v0 & Hm & Hp & _ & ->) Hpf Hmf Hobj Hall k' x [[_ <-]|[_ Hx]]%lookup_insert_Some;
    [|by eapply Hall].
  rewrite (Hpf _ _ Hp). change v0 with ((v0, @None error).1). rewrite <- Hm, Hmf.
  destruct (m !! k) eqn:Hk; [by eapply Hall | done].
Qed.

Lemma deleted_unprotected {O} (fins : O → list string) k (m m' : gmap NamespacedName O) :
  deleted fins k m m' → (∀ k x, m !! k = Some x → fins x = []) →
  ∀ k x, m' !! k = Some x → fins x = [].
Proof.
  intros (Hg & Hn & Hf) Hall k' x Hx. destruct (decide (k' = k)) as [->|Hne].
  - destruct (m !! k) as [v|] eqn:Hk; [|by rewrite Hn in Hx].
    by rewrite (Hg v) in Hx; [|done|eapply Hall].
  - rewrite Hf in Hx by done. by eapply Hall.
Qed.

Lemma step_unprotected w a (rep : reply a) w' :
  serve w a rep w' → controller_call a →
  (event_error (Event a rep) = None ∨ inspected a = true) →
  services_unprotected w ∧ virtual_services_unprotected w →
  services_unprotected w' ∧ virtual_services_unprotected w'.
Proof.
  unfold services_unprotected, virtual_services_unprotected.
  intros Hs Hc He [Hsu Hvu].
  destruct a; try (apply serve_reads in Hs as (_ & -> & ->); [done | exact I]);
    destruct rep as [v|e]; cbn in He; try (by destruct He).
  - apply serve_Update_Route in Hs as (_ & -> & -> & _). done.
  - apply serve_CreateOrUpdate_Service in Hs as (_ & -> & Hup). split; [|done].
    destruct Hc as [d Hd]. injection Hd as -> ->.
    eapply (upserted_unprotected _ (λ s, Finalizers (Service_ObjectMeta s))); [exact Hup| |done|done|done].
    intros v0 v1 [(_ & _ & _ & _ & Hf & _) _]. done.
  - destruct v. apply serve_Delete_Service in Hs as (_ & -> & Hdel). split; [|done].
    by eapply deleted_unprotected.
  - apply serve_CreateOrUpdate_VirtualService in Hs as (_ & -> & Hup). split; [done|].
    destruct Hc as [d Hd]. injection Hd as -> ->.
    eapply (upserted_unprotected _ (λ s, Finalizers (VS_ObjectMeta s))); [exact Hup| |done|done|done].
    intros v0 v1 [(_ & _ & _ & _ & Hf & _) _]. done.
  - destruct v. apply serve_Delete_VirtualService in Hs as (_ & -> & Hdel). split; [done|].
    by eapply deleted_unprotected.
Qed.

Lemma steps_unprotected w t w' :
  steps w t w' →
  Forall (λ ev, controller_call (event_action ev) ∧
                (event_error ev = None ∨ inspected (event_action ev) = true)) t →
  services_unprotected w ∧ virtual_services_unprotected w →
  services_unprotected w' ∧ virtual_services_unprotected w'.
Proof.
  induction 1 as [|w1 a rep w2 t w3 H1 _ IH]; [done|].
  intros [[Hc He] Ht]%Forall_cons Hun. apply IH; [done|]. by eapply step_unprotected.
Qed.
(** * One reconciliation *)

(** What a successful reconciliation can have done. *)
Inductive outcome_of r req w w' : Prop :=
  | found_nothing : routes_of w !! req = None → same_objects w w' → outcome_of r req w w'
  | synced_live route :
      routes_of w !! req = Some route → IsZero (DeletionTimestamp (Route_ObjectMeta route)) = true →
      in_sync r req route w w' → outcome_of r req w w'
  | tore_down route t :
      routes_of w !! req = Some route → IsZero (DeletionTimestamp (Route_ObjectMeta route)) = false →
      steps w t w' → torn_down r req route w t w' → outcome_of r req w w'.

Lemma orderly_guids w k x :
  orderly (bare_routes w) → routes_of w !! k = Some x → NoDup (route_guids x).
Proof. intros [Hg _] Hx. apply (Hg k (unclaimed x)), elem_of_bare. eauto. Qed.

Lemma Reconcile_outcome r req w t res w' :
  exec serve w (Reconcile r req) t (Ok res) w' → orderly_cluster w → outcome_of r req w w'.
Proof.
  intros Hex [Hord Hdel Hsu Hvu]. destruct (routes_of w !! req) as [route|] eqn:Hr.
  - destruct (IsZero (DeletionTimestamp (Route_ObjectMeta route))) eqn:Hz.
    + apply (synced_live _ _ _ _ route); [done..|].
      refine (proj2 (live_state _ _ _ _ _ _ _ Hex Hr Hz _ _)); [by eapply orderly_guids|].
      intros desired k s _ _. apply Hsu.
    + destruct (Hdel _ _ Hr) as [|[Hf _]]; [congruence|].
      apply (tore_down _ _ _ _ route t); [done..|by eapply exec_steps|].
      exact (proj2 (Reconcile_torn_down _ _ _ _ _ _ _ Hex Hr Hz Hf Hsu Hvu)).
  - apply found_nothing; [done|].
    pose proof (exec_traces _ _ _ _ _ _ Hex) as Ht%Reconcile_ok. apply exec_steps in Hex as Hs.
    destruct Ht as [e He|route routes claim stored svcs vss Hz _ _ _
      |route routes cleanup Hz Hf Hcl|route routes Hz Hf].
    + apply steps_cons_inv in Hs as (w1 & H1 & ->%steps_nil_inv). by apply serve_reads in H1.
    + apply read_route in Hs as (? & _). congruence.
    + apply read_route in Hs as (? & _). congruence.
    + apply read_route in Hs as (? & _). congruence.
Qed.

Lemma in_sync_bare r req route w w' :
  routes_of w !! req = Some route → in_sync r req route w w' →
  bare_routes w' = bare_routes w ∧
  ∃ fs, finalizerName ∈ fs ∧ routes_of w' = <[req := with_Finalizers route fs]> (routes_of w).
Proof.
  intros Hr (_ & _ & _ & _ & _ & _ & _ & _ & _ & _ & _ & fs & Hfs & _ & Hr' & _). split; [|by exists fs].
  unfold bare_routes. rewrite Hr', fmap_insert, unclaimed_with_Finalizers.
  apply insert_id. by rewrite lookup_fmap, Hr.
Qed.

Lemma torn_down_routes r req route w t w' :
  deletable route → IsZero (DeletionTimestamp (Route_ObjectMeta route)) = false →
  torn_down r req route w t w' → routes_of w' = delete req (routes_of w).
Proof.
  intros [?|[_ Hall]] Hz (_ & _ & _ & fs & Hfs & Hr); [congruence|].
  destruct fs as [|f fs]; [done|]. exfalso. destruct (Hfs f) as [[Hf Hne] _]; [by left|].
  by apply Hall in Hf.
Qed.

Lemma orderly_submap (m m' : gmap NamespacedName Route) : m' ⊆ m → orderly m → orderly m'.
Proof.
  intros Hs [Hg Hi]. split.
  - intros k x Hx. eapply Hg, lookup_weaken; done.
  - intros k k' x x' Hx Hx'. apply Hi; by eapply lookup_weaken.
Qed.

Lemma same_objects_orderly w w' : same_objects w w' → orderly_cluster w → orderly_cluster w'.
Proof.
  intros (Hr & Hs & Hv) [Hord Hdel Hsu Hvu]. split.
  - unfold bare_routes. by rewrite Hr.
  - intros k x. rewrite Hr. apply Hdel.
  - unfold services_unprotected. by rewrite Hs.
  - unfold virtual_services_unprotected. by rewrite Hv.
Qed.

(** Reconciling keeps a cluster orderly. *)
Lemma Reconcile_orderly r req w t res w' :
  exec serve w (Reconcile r req) t (Ok res) w' → orderly_cluster w → orderly_cluster w'.
Proof.
  intros Hex Hord. pose proof (Reconcile_outcome _ _ _ _ _ _ Hex Hord) as Hout.
  destruct (steps_unprotected w t w') as [Hsu' Hvu'].
  { by eapply exec_steps. }
  { eapply Reconcile_ok_events, exec_traces, Hex. }
  { by destruct Hord. }
  destruct Hout as [_ Hsame|route Hr Hz Hsync|route t' Hr Hz Hst Htd].
  - by eapply same_objects_orderly.
  - destruct (in_sync_bare _ _ _ _ _ Hr Hsync) as (Hbare & fs & Hfs & Hr').
    destruct Hord as [Ho Hdel _ _]. split; [by rewrite Hbare| |done|done].
    intros k x. rewrite Hr'. intros [[_ <-]|[_ Hx]]%lookup_insert_Some; [by left | by eapply Hdel].
  - destruct Hord as [Ho Hdel _ _].
    pose proof (torn_down_routes _ _ _ _ _ _ (Hdel _ _ Hr) Hz Htd) as Hr'. split; [| |done|done].
    + eapply orderly_submap, Ho. unfold bare_routes. rewrite Hr'. apply map_fmap_mono, delete_subseteq.
    + intros k x. rewrite Hr'. intros [_ Hx]%lookup_delete_Some. by eapply Hdel.
Qed.
(** * Convergence *)

Lemma Build_owner route desired d :
  ServiceBuilder.Build route = Ok desired → d ∈ desired →
  OwnerReferences (Service_ObjectMeta d) = [routeToOwnerRef route].
Proof.
  rewrite ServiceBuilder.Services_Ok. intros Hall Hd.
  apply list_elem_of_lookup in Hd as [i Hi].
  destruct (Forall2_lookup_r _ _ _ _ _ Hall Hi) as (dest & _ & p & _ & ->). done.
Qed.

(** An object in sync with a desired Service belongs to its route. *)
Lemma synced_owner route desired d s :
  ServiceBuilder.Build route = Ok desired → d ∈ desired → synced_service d s →
  serviceOwnerIndex s = [route_uid route].
Proof.
  intros Hb Hd (_ & _ & Ho & _). unfold serviceOwnerIndex.
  by rewrite Ho, (Build_owner _ _ _ Hb Hd).
Qed.

Lemma disowned_Some ns uid (m : gmap NamespacedName Service) k s :
  disowned ns uid m !! k = Some s ↔
  m !! k = Some s ∧ ¬ (nn_Namespace k = ns ∧ uid ∈ serviceOwnerIndex s).
Proof. unfold disowned. by rewrite map_lookup_filter_Some. Qed.

(** The route that was reconciled is in sync. *)
Lemma in_sync_converged r req route w w' :
  orderly_cluster w → routes_of w !! req = Some route →
  IsZero (DeletionTimestamp (Route_ObjectMeta route)) = true →
  in_sync r req route w w' → converged r w' req.
Proof.
  intros Hord Hr Hz Hsync. destruct (in_sync_bare _ _ _ _ _ Hr Hsync) as (Hbare & fs & Hfs & Hr').
  destruct Hsync as (rl & desired & vs & Hl & Hb & Hbv & Hkey & Hd & Hf & (v & Hv & Hvs) & _).
  destruct (listed_exists w' (nn_Namespace req) (FQDN route)) as [rl' Hl'].
  exists (with_Finalizers route fs), rl', desired, vs, v.
  split_and!; [by rewrite Hr'; apply lookup_insert_eq|done|done|done|exact Hd| |exact Hl'| |done|done|done].
  - intros k s Hk Hns Howner. destruct (decide (k ∈ service_key <$> desired)) as [|Hn]; [done|].
    rewrite Hf in Hk by done. apply disowned_Some in Hk as [_ Hn']. by destruct Hn'.
  - eapply listed_Build, Hbv; [apply Hord|exact Hl|exact Hl'|]. intros k y _ _. by rewrite Hbare.
Qed.

(** The parts of [converged] that can be lost: the Services of the route at
    [req], and the VirtualService of its FQDN. *)
Lemma converged_kept r req w w' (route : Route) :
  routes_of w !! req = Some route → routes_of w' !! req = Some route →
  (∀ desired d s, ServiceBuilder.Build route = Ok desired → d ∈ desired →
     services_of w !! service_key d = Some s → serviceOwnerIndex s = [route_uid route] →
     services_of w' !! service_key d = Some s) →
  (∀ k s, services_of w' !! k = Some s → route_uid route ∈ serviceOwnerIndex s →
     services_of w !! k = Some s) →
  (∀ vs v rl, listed w (nn_Namespace req) (FQDN route) rl →
     VirtualServiceBuilder.Build (builder_of r) rl = Ok [vs] →
     vs_key vs = mkNamespacedName (nn_Namespace req) (VirtualServiceName (FQDN route)) →
     virtual_services_of w !! vs_key vs = Some v → synced_virtual_service vs v →
     ∃ rl' vs' v', listed w' (nn_Namespace req) (FQDN route) rl' ∧
       VirtualServiceBuilder.Build (builder_of r) rl' = Ok [vs'] ∧
       vs_key vs' = mkNamespacedName (nn_Namespace req) (VirtualServiceName (FQDN route)) ∧
       virtual_services_of w' !! vs_key vs' = Some v' ∧ synced_virtual_service vs' v') →
  converged r w req → converged r w' req.
Proof.
  intros Hr Hr' Hkeep Hback Hvs
    (route' & rl & desired & vs & v & Hroute & Hz & Hfin & Hb & Hd & Ho & Hl & Hbv & Hkey & Hv & Hsync).
  rewrite Hr in Hroute. injection Hroute as <-.
  destruct (Hvs vs v rl) as (rl' & vs' & v' & Hl' & Hbv' & Hkey' & Hv' & Hsync'); [done..|].
  exists route, rl', desired, vs', v'. split_and!; try done.
  - intros d Hin. destruct (Hd d Hin) as (s & Hs & Hss). exists s. split; [|done].
    eapply Hkeep; [done..|]. by eapply synced_owner.
  - intros k s Hk Hns Hu. eapply Ho; [|done..]. by apply Hback.
Qed.
Lemma serviceOwnerIndex_unique s u u' :
  u ∈ serviceOwnerIndex s → u' ∈ serviceOwnerIndex s → u = u'.
Proof.
  unfold serviceOwnerIndex. destruct (OwnerReferences _) as [|o l]; [by intros ?%not_elem_of_nil|].
  by intros ->%list_elem_of_singleton ->%list_elem_of_singleton.
Qed.

Lemma orderly_independent w k k' x x' :
  orderly (bare_routes w) → routes_of w !! k = Some x → routes_of w !! k' = Some x' → k ≠ k' →
  independent (unclaimed x) (unclaimed x').
Proof. intros [_ Hi] Hx Hx' Hne. apply (Hi k k'); [apply elem_of_bare; eauto..|done]. Qed.

Lemma service_keys_disjoint w k k' (x x' : Route) desired desired' d d' :
  orderly (bare_routes w) → routes_of w !! k = Some x → routes_of w !! k' = Some x' → k ≠ k' →
  ServiceBuilder.Build x = Ok desired → ServiceBuilder.Build x' = Ok desired' →
  d ∈ desired → d' ∈ desired' → service_key d ≠ service_key d'.
Proof.
  intros Hord Hx Hx' Hne Hb Hb' Hd%(list_elem_of_fmap_2 service_key)
    Hd'%(list_elem_of_fmap_2 service_key) Heq.
  rewrite (Build_service_keys _ _ Hb), list_elem_of_fmap in Hd.
  rewrite (Build_service_keys _ _ Hb'), list_elem_of_fmap in Hd'.
  destruct Hd as (dest & Hk & Hin), Hd' as (dest' & Hk' & Hin').
  rewrite Heq, Hk' in Hk. injection Hk as Hns Hname.
  destruct (orderly_independent _ _ _ _ _ Hord Hx Hx' Hne) as [_ _ Hg _].
  apply (Hg (eq_sym Hns) (Guid dest)); [by apply list_elem_of_fmap_2|].
  change (Guid dest' = Guid dest) in Hname. unfold route_guids. cbn. rewrite <- Hname. by apply list_elem_of_fmap_2.
Qed.

(** A VirtualService that neither is touched nor has other Routes. *)
Lemma virtual_service_kept r w w' req route vs v rl :
  orderly (bare_routes w) →
  (∀ k y, Namespace (Route_ObjectMeta y) = nn_Namespace req → FQDN y = FQDN route →
     bare_routes w !! k = Some y ↔ bare_routes w' !! k = Some y) →
  virtual_services_of w' !! vs_key vs = virtual_services_of w !! vs_key vs →
  listed w (nn_Namespace req) (FQDN route) rl →
  VirtualServiceBuilder.Build (builder_of r) rl = Ok [vs] →
  vs_key vs = mkNamespacedName (nn_Namespace req) (VirtualServiceName (FQDN route)) →
  virtual_services_of w !! vs_key vs = Some v → synced_virtual_service vs v →
  ∃ rl' vs' v', listed w' (nn_Namespace req) (FQDN route) rl' ∧
    VirtualServiceBuilder.Build (builder_of r) rl' = Ok [vs'] ∧
    vs_key vs' = mkNamespacedName (nn_Namespace req) (VirtualServiceName (FQDN route)) ∧
    virtual_services_of w' !! vs_key vs' = Some v' ∧ synced_virtual_service vs' v'.
Proof.
  intros Hord Hsame Hvs Hl Hb Hkey Hv Hsync.
  destruct (listed_exists w' (nn_Namespace req) (FQDN route)) as [rl' Hl'].
  exists rl', vs, v. split_and!; [done| |done|by rewrite Hvs|done].
  by eapply listed_Build.
Qed.

Lemma route_namespace_key w k x : routes_of w !! k = Some x → Namespace (Route_ObjectMeta x) = nn_Namespace k.
Proof. intros Hx%routes_keyed. by rewrite <- Hx. Qed.

(** Another live Route does not disturb it. *)
Lemma converged_live r w w' req req2 route2 :
  orderly_cluster w → routes_of w !! req2 = Some route2 → in_sync r req2 route2 w w' → req ≠ req2 →
  converged r w req → converged r w' req.
Proof.
  intros [Hord _ _ _] Hr2 Hsync Hne Hc. pose proof Hc as (route & _ & _ & _ & _ & Hr & _).
  destruct (in_sync_bare _ _ _ _ _ Hr2 Hsync) as (Hbare & fs & _ & Hr').
  pose proof (orderly_independent _ _ _ _ _ Hord Hr Hr2 Hne) as [Huid _ _ Hnames].
  destruct Hsync as (rl2 & desired2 & vs2 & Hl2 & Hb2 & Hbv2 & Hkey2 & Hd2 & Hf2 & (v2 & Hv2 & Hvs2) & Hvf2 & _).
  revert Hc. apply (converged_kept _ _ _ _ route); [done| | | |].
  - by rewrite Hr', lookup_insert_ne.
  - intros desired d s Hb Hd Hs Hown. rewrite Hf2.
    + apply disowned_Some. split; [done|]. rewrite Hown, list_elem_of_singleton. by intros [_ ?].
    + intros (d' & Heq & Hd')%list_elem_of_fmap.
      by apply (service_keys_disjoint w req req2 route route2 desired desired2 d d').
  - intros k s Hs Hu. destruct (decide (k ∈ service_key <$> desired2)) as [Hin|Hn].
    + apply list_elem_of_fmap in Hin as (d & -> & Hd). destruct (Hd2 d Hd) as (s' & Hs' & Hss).
      rewrite Hs in Hs'. injection Hs' as <-.
      rewrite (synced_owner _ _ _ _ Hb2 Hd Hss), list_elem_of_singleton in Hu. done.
    + rewrite Hf2 in Hs by done. by apply disowned_Some in Hs as [? _].
  - intros vs v rl Hl Hb Hkey Hv Hvsync.
    destruct (decide (vs_key vs = vs_key vs2)) as [Heq|Hneq].
    + assert (nn_Namespace req = nn_Namespace req2 ∧ FQDN route = FQDN route2) as [Hns HF].
      { rewrite Hkey, Hkey2 in Heq. split; [exact (f_equal nn_Namespace Heq)|].
        apply Hnames. exact (f_equal nn_Name Heq). }
      rewrite <- Hns, <- HF in Hl2.
      assert (VirtualServiceBuilder.Build (builder_of r) rl2 = Ok [vs]) as Hsame
        by (eapply listed_Build; [exact Hord|exact Hl|exact Hl2|done|exact Hb]).
      rewrite Hbv2 in Hsame. injection Hsame as ->.
      destruct (listed_exists w' (nn_Namespace req) (FQDN route)) as [rl' Hl'].
      exists rl', vs, v2. split_and!; [done| |done..].
      eapply listed_Build, Hb; [done..|]. intros k y _ _. by rewrite Hbare.
    + eapply virtual_service_kept; [done| |by apply Hvf2|done..]. intros k y _ _. by rewrite Hbare.
Qed.

(** Neither does the finalization of another. *)
Lemma converged_torn_down r w w' req req2 route2 t :
  orderly_cluster w → routes_of w !! req2 = Some route2 →
  IsZero (DeletionTimestamp (Route_ObjectMeta route2)) = false →
  torn_down r req2 route2 w t w' → req ≠ req2 → converged r w req → converged r w' req.
Proof.
  intros Hcl Hr2 Hz2 Htd Hne Hc. pose proof Hc as (route & _ & _ & _ & _ & Hr & _).
  destruct Hcl as [Hord Hdel _ _].
  pose proof (torn_down_routes _ _ _ _ _ _ (Hdel _ _ Hr2) Hz2 Htd) as Hr'.
  pose proof (orderly_independent _ _ _ _ _ Hord Hr Hr2 Hne) as [Huid _ _ Hnames].
  destruct Htd as (Hs' & Hvf & (rl2 & Hl2 & Hvs2) & _).
  revert Hc. apply (converged_kept _ _ _ _ route); [done| | | |].
  - by rewrite Hr', lookup_delete_ne.
  - intros desired d s Hb Hd Hs Hown. rewrite Hs'. apply disowned_Some. split; [done|].
    rewrite Hown, list_elem_of_singleton. by intros [_ ?].
  - intros k s Hs _. rewrite Hs' in Hs. by apply disowned_Some in Hs as [? _].
  - intros vs v rl Hl Hb Hkey Hv Hvsync.
    set (k0 := mkNamespacedName (nn_Namespace req2) (VirtualServiceName (FQDN route2))) in *.
    destruct (decide (vs_key vs = k0)) as [Heq|Hneq].
    + assert (nn_Namespace req = nn_Namespace req2 ∧ FQDN route = FQDN route2) as [Hns HF].
      { rewrite Hkey in Heq. split; [exact (f_equal nn_Namespace Heq)|].
        apply Hnames. exact (f_equal nn_Name Heq). }
      assert (listed w' (nn_Namespace req) (FQDN route) (mkRouteList (others route2 rl2))) as Hl'.
      { rewrite Hns, HF. destruct Hl2 as [Hnd Hin]. split; cbn [Items].
        - eapply sublist_NoDup; [exact Hnd | apply fmap_sublist, sublist_filter].
        - intros x. unfold others. rewrite list_elem_of_filter, Hin, Hr', lookup_delete_Some.
          assert (Namespace (Route_ObjectMeta x) = nn_Namespace req2 →
            (Name (Route_ObjectMeta x) ≠ Name (Route_ObjectMeta route2) ↔ req2 ≠ route_key x)) as Hk.
          { intros Hnsx. rewrite <- (routes_keyed _ _ _ Hr2). unfold route_key, key_of.
            rewrite Hnsx, (route_namespace_key _ _ _ Hr2). split; [congruence|].
            intros Hn He. apply Hn. by rewrite He. }
          split; [intros (H1 & H2 & H3 & H4) | intros ((H1 & H2) & H3 & H4)]; naive_solver. }
      assert (route ∈ others route2 rl2) as Hin.
      { apply (proj2 Hl' route). rewrite (routes_keyed _ _ _ Hr), Hr', lookup_delete_ne by done.
        split_and!; [done|by eapply route_namespace_key|done]. }
      destruct (others route2 rl2) as [|x rest] eqn:Hrest; [by apply not_elem_of_nil in Hin|].
      destruct Hvs2 as (vs' & v' & Hb' & Hk' & Hv' & Hsync').
      exists (mkRouteList (x :: rest)), vs', v'. split_and!; [done|done| |by rewrite Hk'|done].
      rewrite Hk', <- Hkey. done.
    + eapply virtual_service_kept; [done| |by apply Hvf|done..].
      intros k y Hns HF. unfold bare_routes. rewrite Hr', fmap_delete.
      rewrite lookup_delete_Some. split; [|by intros [_ ?]]. intros Hy. split; [|done].
      intros <-. apply Hneq. rewrite Hkey. unfold k0.
      rewrite lookup_fmap, Hr2 in Hy. injection Hy as <-. cbn in Hns.
      rewrite <- (route_namespace_key _ _ _ Hr2), Hns, <- HF. done.
Qed.
Lemma converged_same_objects r w w' req :
  same_objects w w' → orderly_cluster w → converged r w req → converged r w' req.
Proof.
  intros (Hr & Hs & Hv) [Hord _ _ _] Hc. pose proof Hc as (route & _ & _ & _ & _ & Hreq & _).
  revert Hc. apply (converged_kept _ _ _ _ route); [done|by rewrite Hr|by rewrite Hs..|].
  intros vs v rl Hl Hb Hkey Hv' Hsync.
  eapply virtual_service_kept; [done| |by rewrite Hv|done..].
  intros k y _ _. unfold bare_routes. by rewrite Hr.
Qed.

Lemma converged_step r req2 w t res w' req :
  exec serve w (Reconcile r req2) t (Ok res) w' → orderly_cluster w → req ≠ req2 →
  converged r w req → converged r w' req.
Proof.
  intros Hex Hord Hne. destruct (Reconcile_outcome _ _ _ _ _ _ Hex Hord)
    as [_ Hsame|route Hr Hz Hsync|route t' Hr Hz Hst Htd].
  - by apply converged_same_objects.
  - by eapply converged_live.
  - by eapply converged_torn_down.
Qed.

Lemma cleared_step r req2 w t res w' req uid :
  exec serve w (Reconcile r req2) t (Ok res) w' → orderly_cluster w →
  cleared w req uid → cleared w' req uid.
Proof.
  intros Hex Hord (Hnone & Huids & Howns). destruct (Reconcile_outcome _ _ _ _ _ _ Hex Hord)
    as [_ (Hr' & Hs' & _)|route Hr Hz Hsync|route t' Hr Hz Hst Htd].
  - unfold cleared, owns_only. by rewrite Hr', Hs'.
  - destruct (in_sync_bare _ _ _ _ _ Hr Hsync) as (_ & fs & _ & Hr').
    destruct Hsync as (_ & desired & _ & _ & Hb & _ & _ & Hd & Hf & _).
    split_and!.
    + rewrite Hr', lookup_insert_ne; [done|]. intros ->. congruence.
    + intros k x. rewrite Hr'. intros [[_ <-]|[_ Hx]]%lookup_insert_Some;
        [by apply (Huids req2 route) | by eapply Huids].
    + intros k s Hs Hns Hu. destruct (decide (k ∈ service_key <$> desired)) as [Hin|Hn].
      * apply list_elem_of_fmap in Hin as (d & -> & Hin). destruct (Hd d Hin) as (s' & Hs' & Hss).
        rewrite Hs in Hs'. injection Hs' as <-.
        rewrite (synced_owner _ _ _ _ Hb Hin Hss), list_elem_of_singleton in Hu.
        by destruct (Huids req2 route Hr).
      * rewrite Hf in Hs by done. apply disowned_Some in Hs as [Hs _]. by eapply Howns.
  - pose proof (torn_down_routes _ _ _ _ _ _ (cluster_deletable _ Hord _ _ Hr) Hz Htd) as Hr'.
    destruct Htd as (Hs' & _). split_and!.
    + rewrite Hr'. apply lookup_delete_None. by right.
    + intros k x. rewrite Hr'. intros [_ Hx]%lookup_delete_Some. by eapply Huids.
    + intros k s. rewrite Hs'. intros [Hs _]%disowned_Some. by apply Howns.
Qed.

(** ** VirtualServices without Routes *)

Lemma steps_event w t w' ev :
  steps w t w' → ev ∈ t → ∃ w1 w2, serve w1 (event_action ev) (event_reply ev) w2.
Proof.
  induction 1 as [|w a rep w1 t w2 Hs _ IH]; [by intros ?%not_elem_of_nil|].
  intros [->|Hin]%elem_of_cons; [by exists w, w1 | by apply IH].
Qed.

Lemma only_routed_by w k k' x :
  routes_of w !! k' = Some x → virtual_service_key x = k → only_routed w k.
Proof. intros Hx Hk Hnone. by destruct (Hnone k' x). Qed.

Lemma only_routed_kept w w' k :
  virtual_services_of w' !! k = virtual_services_of w !! k →
  (∀ k' x, routes_of w !! k' = Some x → virtual_service_key x = k →
     ∃ x', routes_of w' !! k' = Some x' ∧ virtual_service_key x' = k) →
  only_routed w k → only_routed w' k.
Proof.
  intros Hv Hroutes Ho Hnone. rewrite Hv. apply Ho. intros k' x Hx Hk.
  destruct (Hroutes k' x Hx Hk) as (x' & Hx' & Hk'). by destruct (Hnone k' x').
Qed.

Lemma virtual_service_key_at w req x :
  routes_of w !! req = Some x →
  virtual_service_key x = mkNamespacedName (nn_Namespace req) (VirtualServiceName (FQDN x)).
Proof. intros Hx. unfold virtual_service_key, route_namespace. by rewrite (route_namespace_key _ _ _ Hx). Qed.

Lemma in_sync_routed r req route w w' k :
  routes_of w !! req = Some route → in_sync r req route w w' → only_routed w k → only_routed w' k.
Proof.
  intros Hr Hsync. destruct (in_sync_bare _ _ _ _ _ Hr Hsync) as (_ & fs & _ & Hr').
  destruct Hsync as (_ & _ & vs & _ & _ & _ & Hkey & _ & _ & _ & Hvf & _).
  rewrite <- (virtual_service_key_at _ _ _ Hr) in Hkey.
  destruct (decide (k = virtual_service_key route)) as [->|Hne].
  - intros _. apply (only_routed_by _ _ req (with_Finalizers route fs)); [|done].
    by rewrite Hr', lookup_insert_eq.
  - apply only_routed_kept; [apply Hvf; congruence|]. intros k' x Hx Hk. exists x. split; [|done].
    rewrite Hr', lookup_insert_ne; [done|]. intros <-. congruence.
Qed.

(** The finalization of a Route keeps this, and brings it about for its own. *)
Lemma torn_down_routed r req route w t w' k :
  orderly_cluster w → virtual_services_readable → routes_of w !! req = Some route →
  IsZero (DeletionTimestamp (Route_ObjectMeta route)) = false →
  steps w t w' → torn_down r req route w t w' →
  k = virtual_service_key route ∨ only_routed w k → only_routed w' k.
Proof.
  intros Hord Hread Hr Hz Hst Htd Hk.
  pose proof (torn_down_routes _ _ _ _ _ _ (cluster_deletable _ Hord _ _ Hr) Hz Htd) as Hr'.
  destruct Htd as (_ & Hvf & (rl & Hl & Hvs) & _).
  rewrite <- (virtual_service_key_at _ _ _ Hr) in Hvf, Hvs.
  destruct (decide (k = virtual_service_key route)) as [->|Hne].
  - destruct (others route rl) as [|x rest] eqn:Hrest.
    + destruct Hvs as [Hnone|(e & Hin & He)]; [by intros _|].
      destruct (steps_event _ _ _ _ Hst Hin) as (w1 & w2 & Hs). by rewrite (Hread _ _ _ _ Hs) in He.
    + assert (x ∈ others route rl) as Hin by (rewrite Hrest; by left).
      apply list_elem_of_filter in Hin as [Hname Hin]. apply Hl in Hin as (Hx & Hns & Hf).
      apply (only_routed_by _ _ (route_key x) x).
      * rewrite Hr', lookup_delete_ne; [done|]. intros Heq. apply Hname.
        rewrite <- (routes_keyed _ _ _ Hr) in Heq. exact (f_equal nn_Name (eq_sym Heq)).
      * rewrite (virtual_service_key_at _ _ _ Hr). unfold virtual_service_key, route_namespace.
        by rewrite Hns, Hf.
  - destruct Hk as [|Ho]; [done|]. revert Ho. apply only_routed_kept; [by apply Hvf|].
    intros k' x Hx Hk. exists x. split; [|done]. rewrite Hr', lookup_delete_ne; [done|].
    intros <-. congruence.
Qed.

Lemma only_routed_step r req2 w t res w' k :
  exec serve w (Reconcile r req2) t (Ok res) w' → orderly_cluster w → virtual_services_readable →
  only_routed w k → only_routed w' k.
Proof.
  intros Hex Hord Hread Ho. destruct (Reconcile_outcome _ _ _ _ _ _ Hex Hord)
    as [_ (Hr' & _ & Hv')|route Hr Hz Hsync|route t' Hr Hz Hst Htd].
  - unfold only_routed. by rewrite Hr', Hv'.
  - by eapply in_sync_routed.
  - eapply torn_down_routed; eauto.
Qed.

Lemma cleaned_step r req2 w t res w' req route :
  exec serve w (Reconcile r req2) t (Ok res) w' → orderly_cluster w →
  cleaned w req route → cleaned w' req route.
Proof.
  intros Hex Hord [Hc Hv]. split; [by eapply cleared_step|]. intros Hread.
  eapply only_routed_step; [done..|by apply Hv].
Qed.

(** A reconciliation settles its own Route, *)
Lemma settled_own r req w t res w' route :
  exec serve w (Reconcile r req) t (Ok res) w' → orderly_cluster w →
  routes_of w !! req = Some route → settled r w' req route.
Proof.
  intros Hex Hord Hroute. unfold settled. destruct (Reconcile_outcome _ _ _ _ _ _ Hex Hord)
    as [Hn _|route' Hr Hz Hsync|route' t' Hr Hz Hst Htd]; [congruence|..];
    rewrite Hroute in Hr; injection Hr as <-; rewrite Hz.
  - by eapply in_sync_converged.
  - split; [|intros Hread; by eapply torn_down_routed; [..|by left]].
    pose proof (torn_down_routes _ _ _ _ _ _ (cluster_deletable _ Hord _ _ Hroute) Hz Htd) as Hr'.
    destruct Htd as (Hs' & _). split_and!.
    + rewrite Hr'. apply lookup_delete_eq.
    + intros k x. rewrite Hr'. intros [Hne Hx]%lookup_delete_Some.
      assert (k ≠ req) as Hne' by done.
      by destruct (orderly_independent _ _ _ _ _ (cluster_routes_orderly _ Hord) Hx Hroute Hne').
    + intros k s. rewrite Hs'. intros [_ Hn]%disowned_Some Hns Hu. by destruct Hn.
Qed.

(** keeps what was settled, *)
Lemma settled_step r req2 w t res w' req route :
  exec serve w (Reconcile r req2) t (Ok res) w' → orderly_cluster w →
  settled r w req route → settled r w' req route.
Proof.
  intros Hex Hord. unfold settled. destruct (IsZero _).
  - intros Hc. destruct (decide (req = req2)) as [->|Hne]; [|by eapply converged_step].
    destruct Hc as (route' & _ & _ & _ & _ & Hr & Hz & _).
    pose proof (settled_own _ _ _ _ _ _ _ Hex Hord Hr) as Hown. unfold settled in Hown.
    by rewrite Hz in Hown.
  - by eapply cleaned_step.
Qed.

(** and leaves the other Routes as they are. *)
Lemma route_step r req2 w t res w' req route :
  exec serve w (Reconcile r req2) t (Ok res) w' → orderly_cluster w → req ≠ req2 →
  routes_of w !! req = Some route → routes_of w' !! req = Some route.
Proof.
  intros Hex Hord Hne Hroute. destruct (Reconcile_outcome _ _ _ _ _ _ Hex Hord)
    as [_ (Hr' & _)|route' Hr Hz Hsync|route' t' Hr Hz Hst Htd].
  - by rewrite Hr'.
  - destruct (in_sync_bare _ _ _ _ _ Hr Hsync) as (_ & fs & _ & ->). by rewrite lookup_insert_ne.
  - rewrite (torn_down_routes _ _ _ _ _ _ (cluster_deletable _ Hord _ _ Hr) Hz Htd).
    by rewrite lookup_delete_ne.
Qed.

Lemma reconciles_settled r w reqs w' req route :
  reconciles r w reqs w' → orderly_cluster w → settled r w req route → settled r w' req route.
Proof.
  induction 1 as [|w req' t res w1 reqs w2 Hex _ IH]; [done|]. intros Hord Hset.
  apply IH; [by eapply Reconcile_orderly | by eapply settled_step].
Qed.

Lemma reconciles_orderly r w reqs w' :
  reconciles r w reqs w' → orderly_cluster w → orderly_cluster w'.
Proof.
  induction 1 as [|w req' t res w1 reqs w2 Hex _ IH]; [done|]. intros Hord.
  by eapply IH, Reconcile_orderly.
Qed.

(** C8: in an orderly cluster (Routes that are independent of each other, and no
    finalizers but the controller's on what is deleted) reconciling one Route,
    live or being deleted, undoes nothing that was done for another: a live
    Route whose Services and VirtualService are in sync stays so, also when
    both have the same FQDN and share the VirtualService; of a deleted Route of
    which nothing was left nothing comes back; and the cluster stays orderly. *)
Theorem Reconcile_noninterference r req2 w t res w' req
    (Hex : exec serve w (Reconcile r req2) t (Ok res) w') (Hord : orderly_cluster w)
    (Hne : req ≠ req2) :
  (converged r w req → converged r w' req) ∧
  (∀ route, cleaned w req route → cleaned w' req route) ∧
  orderly_cluster w'.
Proof.
  split_and!; [by eapply converged_step| |by eapply Reconcile_orderly].
  intros route. by eapply cleaned_step.
Qed.

(** Convergence of the cluster: after reconciliations of any Routes in any
    order, any number of times, every live Route that was among them has
    exactly its Services and its VirtualService, built from all Routes of its
    FQDN that are still there, and nothing is left of every deleted one. *)
Theorem cluster_converges r w reqs w' req route
    (Hrun : reconciles r w reqs w') (Hord : orderly_cluster w)
    (Hin : req ∈ reqs) (Hroute : routes_of w !! req = Some route) :
  settled r w' req route.
Proof.
  revert Hord Hin Hroute. induction Hrun as [|w req' t res w1 reqs w2 Hex Hrest IH].
  - by intros _ ?%not_elem_of_nil.
  - intros Hord Hin Hroute. pose proof (Reconcile_orderly _ _ _ _ _ _ Hex Hord) as Hord1.
    destruct (decide (req = req')) as [->|Hne].
    + eapply reconciles_settled; [done..|]. by eapply settled_own.
    + apply elem_of_cons in Hin as [?|Hin]; [done|].
      apply IH; [done..|]. by eapply route_step.
Qed.
End cluster.
