(* ===== verification/Recovery.v ===== *)
(** Interrupted reconciliations: the process may stop between any two calls, and
    a call that fails may have taken effect all the same.  Whatever was
    interrupted, and however often, later reconciliations put the cluster in
    order. *)
From S2P Require Import Prelude Runtime Api ResourceNames Client RouteController.
From S2P Require Import BuilderFinalizers ControllerHelpers ControllerTraces ControllerSafety.
From S2P Require Import ApiServer ControllerSync ControllerConvergence Cluster.
From S2P Require Import VirtualServiceBuilder ServiceBuilder.

(** A call that returned an error, a timeout say, took effect or did not. *)
Class ApiServerFailures (A : ApiServer) : Prop := {
  serve_fails w a e w' :
    serve w a (inr e) w' → same_objects w w' ∨ ∃ v, serve w a (inl v) w';
}.

Section recovery.
Context {G : GoRuntime} {GL : GoRuntimeLaws G} {K : K8s} {KL : K8sLaws K}.
Context {A : ApiServer} {AL : ApiServerLaws K A} {AF : ApiServerFailures A}.
Implicit Types (w : server) (r : RouteReconciler) (req : NamespacedName) (route : Route).

(** * Interrupted programs *)

(** The states a program passes through: it may stop after any call. *)
Inductive reaches {X} : server → prog X → server → Prop :=
  | stops w p : reaches w p w
  | goes_on w a k rep w1 w2 : serve w a rep w1 → reaches w1 (k rep) w2 → reaches w (Act a k) w2.

Lemma exec_reaches {X} (p : prog X) w t o w' : exec serve w p t o w' → reaches w p w'.
Proof. induction 1; [apply stops | by eapply goes_on]. Qed.

(** [I] holds of every state that is reached, [Q] of the end. *)
Fixpoint always {X} (I : server → Prop) (p : prog X) (Q : outcome X → server → Prop) w : Prop :=
  I w ∧ match p with
        | Done o => Q o w
        | Act a k => ∀ rep w', serve w a rep w' → always I (k rep) Q w'
        end.

Lemma always_reaches {X} I (p : prog X) Q w w' : always I p Q w → reaches w p w' → I w'.
Proof.
  intros Hal Hr. induction Hr as [w p|w a k rep w1 w2 Hs _ IH]; [by destruct p, Hal|].
  apply IH. destruct Hal as [_ Hal]. by apply Hal.
Qed.

Lemma always_mono {X} (I I' : server → Prop) (p : prog X) (Q Q' : outcome X → server → Prop) w :
  (∀ w, I w → I' w) → (∀ o w, I w → Q o w → Q' o w) → always I p Q w → always I' p Q' w.
Proof.
  intros HI HQ. revert w. induction p as [o|a k IH]; intros w [HIw Hal]; split; auto.
Qed.

(** What follows the end of a part. *)
Definition and_then {X Y} (I : server → Prop) (f : X → prog Y) (Q : outcome Y → server → Prop)
    : outcome X → server → Prop := λ o w,
  match o with
  | Ok x => always I (f x) Q w
  | Err e => I w ∧ Q (Err e) w
  | Panic why => I w ∧ Q (Panic why) w
  end.

Lemma always_bind {X Y} I (p : prog X) (f : X → prog Y) Q w :
  always I p (and_then I f Q) w → always I (p ≫= f) Q w.
Proof.
  unfold mbind, prog_bind. revert w.
  induction p as [[x|e|why]|a k IH]; intros w [HI Hal]; cbn in *; [done..|].
  split; [done|]. intros rep w' Hs. by apply IH, Hal.
Qed.

Lemma always_calls {X} (P : action → Prop) (I : server → Prop) (p : prog X) w :
  (∀ w a rep w', P a → serve w a rep w' → I w → I w') →
  calls P p → I w → always I p (λ _ w', I w') w.
Proof.
  intros Hstep. revert w. induction p as [o|a k IH]; intros w; [done|].
  intros [Ha Hk] HI. split; [done|]. intros rep w' Hs. apply IH; [done|]. by eapply Hstep.
Qed.

(** * What a call preserves *)

(** Whoever is not [uid] owns no Service that it did not own before. *)
Definition foreign_kept (uid : string) w w' : Prop :=
  ∀ k s u, services_of w' !! k = Some s → u ∈ serviceOwnerIndex s → u ≠ uid →
    ∃ s0, services_of w !! k = Some s0 ∧ u ∈ serviceOwnerIndex s0.

(** From [w] on, on behalf of the Route with [uid], with [m] for the Routes. *)
Record tended (uid : string) w (m : gmap NamespacedName Route) w' : Prop := {
  tended_orderly : orderly_cluster w';
  tended_routes : routes_of w' = m;
  tended_foreign : foreign_kept uid w w';
}.

(** The calls on Services and VirtualServices made for that Route. *)
Definition tending (uid : string) (a : action) : Prop :=
  match a with
  | Update_Route _ => False
  | CreateOrUpdate_Service _ _ =>
      ∃ d, a = upsert_Service d ∧ Owner_UID <$> OwnerReferences (Service_ObjectMeta d) = [uid]
  | CreateOrUpdate_VirtualService _ _ => ∃ d, a = upsert_VirtualService d
  | _ => True
  end.

Lemma tended_same uid w m w1 w2 : same_objects w1 w2 → tended uid w m w1 → tended uid w m w2.
Proof.
  intros Hsame [Ho Hr Hf]. split; [by eapply same_objects_orderly| |].
  - destruct Hsame as (-> & _). done.
  - unfold foreign_kept. destruct Hsame as (_ & -> & _). exact Hf.
Qed.

(** An error may hide an effect: it is enough to look at successful calls. *)
Lemma failure_preserves (I : server → Prop) w a rep w' :
  (∀ w w', same_objects w w' → I w → I w') →
  (∀ v, serve w a (inl v) w' → I w → I w') → serve w a rep w' → I w → I w'.
Proof.
  intros Hsame Hok. destruct rep as [v|e]; [apply Hok|]. intros [Heq|[v Hv]]%serve_fails HI.
  - by eapply Hsame.
  - by eapply Hok.
Qed.

Lemma upsert_owner k d v m m' :
  upserted persisted_service k
    (named_Service (Namespace (Service_ObjectMeta d)) (Name (Service_ObjectMeta d)))
    (ServiceBuilder.BuildMutateFunction d) v m m' →
  OwnerReferences (Service_ObjectMeta v) = OwnerReferences (Service_ObjectMeta d) ∧
  m' = <[k := v]> m.
Proof.
  intros (v0 & Hm & [(_ & _ & _ & -> & _) _] & _ & ->). split; [|done].
  injection Hm as <-. done.
Qed.

Lemma tended_step uid w m w1 a rep w2 :
  tending uid a → serve w1 a rep w2 → tended uid w m w1 → tended uid w m w2.
Proof.
  intros Ha. apply failure_preserves; [apply tended_same|]. intros v Hs [Ho Hr Hf].
  assert (controller_call a) as Hc.
  { destruct a; try done. by destruct Ha as (d & -> & _); exists d. }
  destruct (step_unprotected _ _ _ _ Hs Hc (or_introl eq_refl)) as [Hsu Hvu]; [by destruct Ho|].
  assert (routes_of w2 = routes_of w1 ∧ foreign_kept uid w w2) as [Hr2 Hf2].
  { destruct a; try (apply serve_reads in Hs as (-> & Hs2 & _); [|exact I]; split; [done|];
      unfold foreign_kept; by rewrite Hs2).
    - done.
    - apply serve_CreateOrUpdate_Service in Hs as (-> & _ & Hup). split; [done|].
      destruct Ha as (d & Hd & Hu). injection Hd as -> ->.
      apply upsert_owner in Hup as [Hown Hs2]. intros k s u. rewrite Hs2.
      intros [[_ <-]|[_ Hk]]%lookup_insert_Some Hin Hne; [|by eapply Hf].
      exfalso. apply Hne. unfold serviceOwnerIndex in Hin. rewrite Hown in Hin.
      destruct (OwnerReferences _) as [|o [|]]; try done. injection Hu as <-.
      by apply list_elem_of_singleton in Hin.
    - destruct v. apply serve_Delete_Service in Hs as (-> & _ & Hdel). split; [done|].
      intros k s' u Hk. eapply Hf. destruct Hdel as (Hg & Hn & Hother).
      destruct (decide (k = service_key service)) as [->|Hne]; [|by rewrite <- Hother].
      destruct (services_of w1 !! service_key service) as [s1|] eqn:H1; [|by rewrite Hn in Hk].
      rewrite (Hg s1) in Hk; [done|done|]. destruct Ho as [_ _ Hp _]. by eapply Hp.
    - apply serve_CreateOrUpdate_VirtualService in Hs as (-> & Hs2 & _). split; [done|].
      unfold foreign_kept. by rewrite Hs2.
    - destruct v. apply serve_Delete_VirtualService in Hs as (-> & Hs2 & _). split; [done|].
      unfold foreign_kept. by rewrite Hs2. }
  split; [|congruence|done]. destruct Ho as [Hord Hdel _ _]. split; [| |done|done].
  - unfold bare_routes. by rewrite Hr2.
  - intros k x. rewrite Hr2. apply Hdel.
Qed.

Lemma reconcileServices_tending r req route :
  calls (tending (route_uid route)) (reconcileServices r req route).
Proof.
  unfold reconcileServices. apply calls_bind_lift. intros desired Hb.
  apply calls_bind; [by apply calls_call|]. intros actual.
  apply calls_bind; [|intros _; unfold deleteServiceList]; apply calls_foldM; intros _ d Hd;
    (apply calls_bind; [apply calls_call | done]); [|done].
  exists d. by rewrite (Build_owner _ _ _ Hb Hd).
Qed.

Lemma reconcileVirtualServices_tending uid r req routes :
  calls (tending uid) (reconcileVirtualServices r req routes).
Proof.
  unfold reconcileVirtualServices. apply calls_bind_lift. intros vss _.
  apply calls_foldM. intros _ d _. apply calls_bind; [apply calls_call; by exists d | done].
Qed.

(** * One interrupted reconciliation *)

(** What an interrupted reconciliation of [req] leaves as it was. *)
Record kept req w w' : Prop := {
  kept_orderly : orderly_cluster w';
  kept_routes k : k ≠ req → routes_of w' !! k = routes_of w !! k;
  kept_owned ns u :
    (∀ x, routes_of w !! req = Some x → route_uid x ≠ u) → owns_only w ns u [] → owns_only w' ns u [];
  kept_route :
    match routes_of w !! req with
    | None => routes_of w' !! req = None
    | Some x =>
        (∃ fs, routes_of w' !! req = Some (with_Finalizers x fs)) ∨
        (IsZero (DeletionTimestamp (Route_ObjectMeta x)) = false ∧ cleared w' req (route_uid x))
    end;
}.

Lemma foreign_owns_only uid w w' ns u :
  foreign_kept uid w w' → u ≠ uid → owns_only w ns u [] → owns_only w' ns u [].
Proof. intros Hf Hne Ho k s Hs Hns Hu. destruct (Hf _ _ _ Hs Hu Hne) as (s0 & Hs0 & Hu0). by eapply Ho. Qed.

Lemma tended_kept req w x m fs w' :
  routes_of w !! req = Some x → m = routes_of w ∨ m = <[req := with_Finalizers x fs]> (routes_of w) →
  tended (route_uid x) w m w' → kept req w w'.
Proof.
  intros Hx Hm [Ho Hr Hf]. split; [done|..].
  - intros k Hk. rewrite Hr. destruct Hm as [-> | ->]; [done|]. by rewrite lookup_insert_ne.
  - intros ns u Hu. eapply foreign_owns_only; [done|]. intros ->. by apply (Hu x).
  - rewrite Hx, Hr. left. destruct Hm as [-> | ->].
    + exists (Finalizers (Route_ObjectMeta x)). by destruct x as [? [] ? ?].
    + exists fs. apply lookup_insert_eq.
Qed.

(** Finalizers change, the rest of the Routes stays. *)
Lemma orderly_claimed w w' req x fs :
  orderly_cluster w → routes_of w !! req = Some x →
  routes_of w' = <[req := with_Finalizers x fs]> (routes_of w) →
  services_of w' = services_of w → virtual_services_of w' = virtual_services_of w →
  deletable (with_Finalizers x fs) → orderly_cluster w'.
Proof.
  intros [Hord Hdel Hsu Hvu] Hx Hr Hs Hv Hd. split.
  - unfold bare_routes. rewrite Hr, fmap_insert, unclaimed_with_Finalizers, insert_id; [done|].
    by rewrite lookup_fmap, Hx.
  - intros k y. rewrite Hr. intros [[_ <-]|[_ Hy]]%lookup_insert_Some; [done | by eapply Hdel].
  - unfold services_unprotected. by rewrite Hs.
  - unfold virtual_services_unprotected. by rewrite Hv.
Qed.

Lemma tended_update req w x fs w1 v w2 :
  routes_of w !! req = Some x → IsZero (DeletionTimestamp (Route_ObjectMeta x)) = true →
  tended (route_uid x) w (routes_of w) w1 →
  serve w1 (Update_Route (with_Finalizers x fs)) (inl v) w2 →
  v = with_Finalizers x fs ∧
  tended (route_uid x) w (<[req := with_Finalizers x fs]> (routes_of w)) w2.
Proof.
  intros Hx Hz [Ho Hr Hf] (-> & Hs & Hv & Hr2)%serve_Update_Route. split; [done|].
  assert (route_key (with_Finalizers x fs) = req) as Hk by exact (routes_keyed _ _ _ Hx).
  change (DeletionTimestamp (Route_ObjectMeta (with_Finalizers x fs)))
    with (DeletionTimestamp (Route_ObjectMeta x)) in Hr2.
  rewrite Hz, Hk in Hr2. cbn [orb] in Hr2. rewrite <- Hr in Hx. split.
  - eapply orderly_claimed; [exact Ho|exact Hx|exact Hr2|done|done|by left].
  - by rewrite Hr2, Hr.
  - unfold foreign_kept. by rewrite Hs.
Qed.

(** The part of [Reconcile] for a live Route. *)
Definition tend r req (routes : RouteList) route : prog Result :=
  _ ← reconcileServices r req route;
  _ ← reconcileVirtualServices r req routes;
  mret (mkResult (ResyncInterval r)).

Lemma tend_kept r req routes route w x m fs w1 :
  routes_of w !! req = Some x → route_uid route = route_uid x →
  m = routes_of w ∨ m = <[req := with_Finalizers x fs]> (routes_of w) →
  tended (route_uid x) w m w1 →
  always (kept req w) (tend r req routes route) (λ _ _, True) w1.
Proof.
  intros Hx Hu Hm Ht. eapply (always_mono (tended (route_uid x) w m)); [|done|].
  - intros w2. by apply (tended_kept req w x m fs).
  - apply (always_calls (tending (route_uid x))); [intros w2 a rep w3; apply tended_step| |done].
    unfold tend. apply calls_bind; [rewrite <- Hu; apply reconcileServices_tending|]. intros _.
    apply calls_bind; [apply reconcileVirtualServices_tending | done].
Qed.

Lemma live_kept r req routes w x w1 :
  routes_of w !! req = Some x → IsZero (DeletionTimestamp (Route_ObjectMeta x)) = true →
  tended (route_uid x) w (routes_of w) w1 →
  always (kept req w) (ensureFinalizer x ≫= tend r req routes) (λ _ _, True) w1.
Proof.
  intros Hx Hz Ht. unfold ensureFinalizer. destruct (negb _).
  - apply always_bind. pose proof (tended_kept req w x _ [] w1 Hx (or_introl eq_refl) Ht) as Hk.
    split; [done|]. intros rep w2 Hs.
    set (fs := AddFinalizer _ _) in *.
    destruct rep as [v|e].
    + destruct (tended_update _ _ _ _ _ _ _ Hx Hz Ht Hs) as [-> Ht2].
      assert (kept req w w2) by (eapply tended_kept; [done|by right|done]).
      split; [done|]. eapply tend_kept; [done|done|by right|done].
    + assert (kept req w w2) as Hk2; [|done].
      apply serve_fails in Hs as [Hsame|[v Hs]].
      * apply (tended_kept req w x _ [] w2 Hx (or_introl eq_refl)). by eapply tended_same.
      * destruct (tended_update _ _ _ _ _ _ _ Hx Hz Ht Hs) as [-> Ht2].
        eapply tended_kept; [done|by right|done].
  - eapply (tend_kept _ _ _ _ _ x _ []); [done|done|by left|done].
Qed.

(** * An interrupted finalization *)

(** The Services that are left, of those there were. *)
Definition dwindled (svcs : gmap NamespacedName Service) uid w m w' : Prop :=
  tended uid w m w' ∧ services_of w' ⊆ svcs.

Lemma dwindled_delete svcs uid w m s w1 rep w2 :
  serve w1 (Delete_Service s) rep w2 → dwindled svcs uid w m w1 →
  dwindled svcs uid w m w2 ∧
  (∀ v, rep = inl v → services_of w2 !! service_key s = None) ∧
  (∀ k, services_of w1 !! k = None → services_of w2 !! k = None).
Proof.
  intros Hs [Ht Hsub]. pose proof (tended_step _ _ _ _ (Delete_Service s) _ _ I Hs Ht) as Ht2.
  assert (∀ w2, serve w1 (Delete_Service s) (inl tt) w2 →
    services_of w2 ⊆ services_of w1 ∧ services_of w2 !! service_key s = None) as Hdel.
  { intros w3 (_ & _ & Hg & Hn & Ho)%serve_Delete_Service.
    assert (services_of w3 !! service_key s = None) as Hnone.
    { destruct (services_of w1 !! service_key s) as [s1|] eqn:H1; [|by apply Hn].
      apply (Hg s1); [done|]. destruct Ht as [[_ _ Hp _] _ _]. by eapply Hp. }
    split; [|done]. apply map_subseteq_spec. intros k s' Hk.
    destruct (decide (k = service_key s)) as [->|Hne]; [congruence|]. by rewrite <- Ho. }
  assert (services_of w2 ⊆ services_of w1 ∧
    ∀ v, rep = inl v → services_of w2 !! service_key s = None) as [Hsub2 Hgone].
  { destruct rep as [[]|e].
    - destruct (Hdel w2 Hs) as [? ?]. split; [done|]. by intros.
    - apply serve_fails in Hs as [(_ & -> & _)|[[] Hs]]; (split; [|done]); [done|].
      by apply Hdel. }
  split; [split; [done|by etrans]|]. split; [done|].
  intros k Hk. destruct (services_of w2 !! k) as [s'|] eqn:H2; [|done].
  rewrite (lookup_weaken _ _ _ _ H2 Hsub2) in Hk. done.
Qed.

Lemma deleteServiceList_dwindled svcs uid w m l w1 :
  dwindled svcs uid w m w1 →
  always (dwindled svcs uid w m) (deleteServiceList l)
    (λ o w2, o = Ok tt → ∀ k, (k ∈ service_key <$> l ∨ services_of w1 !! k = None) →
      services_of w2 !! k = None) w1.
Proof.
  unfold deleteServiceList. revert w1. induction l as [|s l IH]; intros w1 Hd; cbn [foldM].
  - split; [done|]. intros _ k [Hk|]; [by apply not_elem_of_nil in Hk|done].
  - apply always_bind, always_bind. split; [done|]. intros rep w2 Hs.
    destruct (dwindled_delete _ _ _ _ _ _ _ _ Hs Hd) as (Hd2 & Hgone & Hnone).
    destruct rep as [[]|e]; [|by repeat (split; [done|])].
    do 2 (split; [done|]). eapply always_mono; [done| |apply IH; done].
    intros o w3 _ Hq Ho k Hk. apply Hq; [done|]. rewrite fmap_cons, elem_of_cons in Hk.
    destruct Hk as [[->|Hk]|Hk]; [right; by eapply Hgone|by left|right; by apply Hnone].
Qed.

(** Calls on VirtualServices alone. *)
Definition releasing (a : action) : Prop :=
  match a with
  | Get_VirtualService _ | Delete_VirtualService _ => True
  | CreateOrUpdate_VirtualService _ _ => ∃ d, a = upsert_VirtualService d
  | _ => False
  end.

Lemma finalizeVirtualService_releasing r req route routes :
  calls releasing (finalizeVirtualService r req route routes).
Proof.
  unfold finalizeVirtualService. destruct (Nat.eqb _ _).
  - apply calls_bind; [by apply calls_request|]. intros [vs|e]; [by apply calls_call | done].
  - unfold reconcileVirtualServices. apply calls_bind_lift. intros vss _.
    apply calls_foldM. intros _ d _. apply calls_bind; [apply calls_call; by exists d | done].
Qed.

Lemma releasing_services w a rep w' :
  releasing a → serve w a rep w' → services_of w' = services_of w.
Proof.
  intros Ha. revert w'. assert (∀ v w', serve w a (inl v) w' → services_of w' = services_of w) as Hok.
  { intros v w' Hs. destruct a; try done.
    - apply serve_reads in Hs; [|exact I]. apply Hs.
    - apply serve_CreateOrUpdate_VirtualService in Hs. apply Hs.
    - destruct v. apply serve_Delete_VirtualService in Hs. apply Hs. }
  intros w'. destruct rep as [v|e]; [by apply Hok|].
  intros [(_ & ? & _)|[v Hv]]%serve_fails; [done | by eapply Hok].
Qed.

(** All Services of a Route are gone, before its finalizer. *)
Definition emptied (ns uid : string) w w' : Prop :=
  tended uid w (routes_of w) w' ∧ owns_only w' ns uid [].

Lemma emptied_step ns uid w w1 a rep w2 :
  releasing a → serve w1 a rep w2 → emptied ns uid w w1 → emptied ns uid w w2.
Proof.
  intros Ha Hs [Ht Ho]. split.
  - eapply tended_step; [|done..]. by destruct a.
  - unfold owns_only. by rewrite (releasing_services _ _ _ _ Ha Hs).
Qed.

(** The update that drops the finalizer. *)
Lemma released_kept req w x fs w1 rep w2 :
  routes_of w !! req = Some x → IsZero (DeletionTimestamp (Route_ObjectMeta x)) = false →
  deletable x → (∀ f, f ∈ fs ↔ f ∈ Finalizers (Route_ObjectMeta x) ∧ f ≠ finalizerName) →
  emptied (nn_Namespace req) (route_uid x) w w1 →
  serve w1 (Update_Route (with_Finalizers x fs)) rep w2 → kept req w w2.
Proof.
  intros Hx Hz Hdel Hfs [Ht Ho].
  assert (fs = []) as ->.
  { destruct Hdel as [?|[_ Hall]]; [congruence|]. destruct fs as [|f fs]; [done|]. exfalso.
    destruct (proj1 (Hfs f)) as [Hf Hne]; [by left|]. by apply Hne, Hall. }
  assert (∀ v, serve w1 (Update_Route (with_Finalizers x [])) (inl v) w2 → kept req w w2) as Hok.
  { intros v (_ & Hs & Hv & Hr2)%serve_Update_Route. destruct Ht as [Hord Hr Hf].
    assert (route_key (with_Finalizers x []) = req) as Hk by exact (routes_keyed _ _ _ Hx).
    change (DeletionTimestamp (Route_ObjectMeta (with_Finalizers x [])))
      with (DeletionTimestamp (Route_ObjectMeta x)) in Hr2.
    rewrite Hz, Hk, Hr in Hr2. cbn in Hr2. split.
    - destruct Hord as [Hord Hdel1 Hsu Hvu]. unfold bare_routes in Hord. rewrite Hr in Hord.
      split.
      + eapply orderly_submap, Hord. unfold bare_routes. rewrite Hr2.
        apply map_fmap_mono, delete_subseteq.
      + intros k y. rewrite Hr2. intros [_ Hy]%lookup_delete_Some. apply (Hdel1 k). by rewrite Hr.
      + unfold services_unprotected. by rewrite Hs.
      + unfold virtual_services_unprotected. by rewrite Hv.
    - intros k Hne. by rewrite Hr2, lookup_delete_ne.
    - intros ns u Hu Hown. apply (foreign_owns_only (route_uid x) w); [|by intros ->; eapply Hu|done].
      unfold foreign_kept. by rewrite Hs.
    - rewrite Hx. right. split; [done|]. split_and!.
      + rewrite Hr2. apply lookup_delete_eq.
      + intros k y. rewrite Hr2. intros [Hne Hy]%lookup_delete_Some Hu.
        assert (k ≠ req) as Hne' by done. rewrite <- Hr in Hy, Hx.
        by destruct (orderly_independent _ _ _ _ _ (cluster_routes_orderly _ Hord) Hy Hx Hne').
      + unfold owns_only. by rewrite Hs. }
  destruct rep as [v|e]; [by apply Hok|]. intros [Hsame|[v Hv]]%serve_fails; [|by eapply Hok].
  eapply (tended_kept req w x _ [] w2 Hx (or_introl eq_refl)). by eapply tended_same.
Qed.

Lemma finalizeRouteForDeletion_kept r req routes w x w1 :
  routes_of w !! req = Some x → IsZero (DeletionTimestamp (Route_ObjectMeta x)) = false →
  tended (route_uid x) w (routes_of w) w1 →
  always (kept req w) (finalizeRouteForDeletion r req x routes) (λ _ _, True) w1.
Proof.
  intros Hx Hz Ht.
  assert (∀ w', tended (route_uid x) w (routes_of w) w' → kept req w w') as Hkept.
  { intros w'. exact (tended_kept req w x _ [] w' Hx (or_introl eq_refl)). }
  assert (deletable x) as Hdel.
  { destruct Ht as [[_ Hdel _ _] Hr _]. apply (Hdel req). by rewrite Hr. }
  unfold finalizeRouteForDeletion. apply always_bind. split; [by apply Hkept|]. intros rep w2 Hlist.
  pose proof (serve_reads _ (List_Services _ _) _ _ I Hlist) as Hsame.
  pose proof (tended_same _ _ _ _ _ Hsame Ht) as Ht2.
  pose proof (Hkept _ Ht2) as Hk2. destruct rep as [actual|e]; [|done].
  pose proof (serve_List_Services _ _ _ _ _ Hlist) as Hl.
  split; [done|]. apply always_bind.
  eapply (always_mono (dwindled (services_of w2) (route_uid x) w (routes_of w)));
    [intros w3 [? _]; by apply Hkept| |by apply deleteServiceList_dwindled].
  intros o w3 [Ht3 Hsub] Hgone. pose proof (Hkept _ Ht3) as Hk3. destruct o as [[]|e|why]; [|done..].
  assert (emptied (nn_Namespace req) (route_uid x) w w3) as Hemp.
  { split; [done|]. intros k s Hs Hns Hu. destruct Hsame as (_ & Hsame & _).
    pose proof (lookup_weaken _ _ _ _ Hs Hsub) as Hs2. pose proof (services_keyed _ _ _ Hs2) as Hkey.
    assert (s ∈ actual) as Hin.
    { apply Hl. rewrite <- Hsame, Hkey. split_and!; [done| |done]. by rewrite <- Hns, <- Hkey. }
    rewrite <- Hkey in Hs. rewrite (Hgone eq_refl) in Hs; [done|]. left. by apply list_elem_of_fmap_2. }
  cbn [and_then]. apply always_bind.
  eapply (always_mono (emptied (nn_Namespace req) (route_uid x) w));
    [intros w4 [? _]; by apply Hkept| |apply (always_calls releasing); [apply emptied_step|
      apply finalizeVirtualService_releasing|done]].
  intros o w4 Hemp4 _. pose proof (Hkept _ (proj1 Hemp4)) as Hk4. destruct o as [[]|e|why]; [|done..].
  split; [done|]. intros rep w5 Hup.
  assert (kept req w w5) as Hk5.
  { eapply released_kept; [done|done|done| |exact Hemp4|exact Hup]. intros f. apply RemoveFinalizer_elem. }
  by destruct rep; repeat (split; [done|]).
Qed.

Lemma kept_same req w w' : orderly_cluster w → same_objects w w' → kept req w w'.
Proof.
  intros Hord Hsame. pose proof (same_objects_orderly _ _ Hsame Hord) as Hord'.
  destruct Hsame as (Hr & Hs & _). split; [done|..].
  - intros k _. by rewrite Hr.
  - intros ns u _ Ho. unfold owns_only. by rewrite Hs.
  - rewrite Hr. destruct (routes_of w !! req) as [x|]; [|done]. left.
    exists (Finalizers (Route_ObjectMeta x)). by destruct x as [? [] ? ?].
Qed.

(** Wherever a reconciliation stops, the cluster is orderly, and no Route but
    its own has changed. *)
Lemma Reconcile_kept r req w w' :
  orderly_cluster w → reaches w (Reconcile r req) w' → kept req w w'.
Proof.
  intros Hord. apply (always_reaches (kept req w) _ (λ _ _, True)).
  assert (same_objects w w) as Hrefl by done.
  unfold Reconcile. apply always_bind. split; [by apply kept_same|]. intros got w1 Hget.
  pose proof (serve_reads _ (Get_Route _) _ _ I Hget) as Hsame1.
  pose proof (kept_same req w w1 Hord Hsame1) as Hk1. split; [done|].
  cbn [and_then]. destruct got as [x|e]; [|by destruct (IgnoreNotFound e)].
  apply serve_Get_Route in Hget as Hx.
  apply always_bind. split; [done|]. intros listed w2 Hlist.
  pose proof (serve_reads _ (List_Routes _ _) _ _ I Hlist) as Hsame2.
  assert (tended (route_uid x) w (routes_of w) w2) as Ht.
  { apply (tended_same _ _ _ w1); [done|]. apply (tended_same _ _ _ w); [done|].
    split; [done|done|]. intros k s u Hs Hu _. by exists s. }
  pose proof (tended_kept req w x _ [] w2 Hx (or_introl eq_refl) Ht) as Hk2.
  destruct listed as [routes|e]; [|done]. split; [done|]. cbn [and_then].
  destruct (IsZero _) eqn:Hz.
  - by apply live_kept.
  - destruct (route_hasFinalizer _ _); [|done]. apply always_bind.
    eapply always_mono; [done| |by apply finalizeRouteForDeletion_kept].
    intros [[]|e|why] w3 Hk3 _; done.
Qed.

(** * VirtualServices of an interrupted reconciliation *)

(** Calls that write no VirtualService but the one at [k0]. *)
Definition at_key (k0 : NamespacedName) (a : action) : Prop :=
  match a with
  | CreateOrUpdate_VirtualService v _ | Delete_VirtualService v => vs_key v = k0
  | _ => True
  end.

Definition vs_frame (k0 : NamespacedName) w w' : Prop :=
  ∀ k, k ≠ k0 → virtual_services_of w' !! k = virtual_services_of w !! k.

Lemma vs_frame_step k0 w w1 a rep w2 :
  at_key k0 a → serve w1 a rep w2 → vs_frame k0 w w1 → vs_frame k0 w w2.
Proof.
  intros Ha. apply failure_preserves.
  { intros w3 w4 (_ & _ & Hv) Hf k Hk. by rewrite Hv, Hf. }
  intros v Hs Hf k Hk. rewrite <- (Hf k Hk). clear Hf.
  destruct a; try (apply serve_reads in Hs as (_ & _ & ->); [done|exact I]).
  - by apply serve_Update_Route in Hs as (_ & _ & -> & _).
  - by apply serve_CreateOrUpdate_Service in Hs as (_ & -> & _).
  - destruct v. by apply serve_Delete_Service in Hs as (_ & -> & _).
  - apply serve_CreateOrUpdate_VirtualService in Hs as (_ & _ & (v0 & _ & _ & _ & ->)).
    cbn in Ha. by rewrite lookup_insert_ne by congruence.
  - destruct v. apply serve_Delete_VirtualService in Hs as (_ & _ & _ & _ & Hother).
    apply Hother. cbn in Ha. congruence.
Qed.

(** Those of a reconciliation of one FQDN. *)
Definition of_fqdn ns f (routes : RouteList) : Prop :=
  Items routes ≠ [] ∧ ∀ x, x ∈ Items routes → FQDN x = f ∧ Namespace (Route_ObjectMeta x) = ns.

Lemma reconcileVirtualServices_at r req routes ns f :
  of_fqdn ns f routes →
  calls (at_key (mkNamespacedName ns (VirtualServiceName f))) (reconcileVirtualServices r req routes).
Proof.
  intros [Hne Hall]. unfold reconcileVirtualServices. apply calls_bind_lift. intros vss Hb.
  destruct (Build_single _ _ _ _ _ Hb Hne Hall) as (vs & -> & Hkey).
  apply calls_foldM. intros _ d ->%list_elem_of_singleton.
  apply calls_bind; [by apply calls_call | done].
Qed.

Lemma tend_at k0 r req routes route :
  calls (at_key k0) (reconcileVirtualServices r req routes) →
  calls (at_key k0) (ensureFinalizer route ≫= tend r req routes).
Proof.
  intros Hv. unfold ensureFinalizer, tend, reconcileServices, deleteServiceList.
  calls_tac. exact Hv.
Qed.

(** Reading and then deleting the VirtualService keeps to its key. *)
Lemma finalizeVirtualService_frame r req route routes w w1 :
  let k0 := mkNamespacedName (nn_Namespace req) (VirtualServiceName (FQDN route)) in
  (∀ x, x ∈ Items routes → FQDN x = FQDN route ∧ Namespace (Route_ObjectMeta x) = nn_Namespace req) →
  vs_frame k0 w w1 →
  always (vs_frame k0 w) (finalizeVirtualService r req route routes) (λ _ _, True) w1.
Proof.
  intros k0 Hall Hf. unfold finalizeVirtualService. destruct (Nat.eqb_spec (length (Items routes)) 0) as [_|Hne].
  - split; [done|]. intros rep w2 Hs.
    pose proof (vs_frame_step k0 _ _ (Get_VirtualService _) _ _ I Hs Hf) as Hf2.
    destruct rep as [v|e]; [|done]. apply serve_Get_VirtualService in Hs as [_ Hkey].
    split; [done|]. intros rep w3 Hs.
    pose proof (vs_frame_step k0 _ _ (Delete_VirtualService v) _ _ Hkey Hs Hf2) as Hf3. by destruct rep.
  - eapply always_mono; [done| |apply (always_calls (at_key k0)); [|apply reconcileVirtualServices_at|exact Hf]].
    + done.
    + intros w2 a rep w3. apply vs_frame_step.
    + split; [|exact Hall]. intros Hnil. by rewrite Hnil in Hne.
Qed.

(** Without a Route there is nothing to do. *)
Lemma Reconcile_absent r req w w' :
  routes_of w !! req = None → reaches w (Reconcile r req) w' →
  virtual_services_of w' = virtual_services_of w.
Proof.
  intros Hx. apply (always_reaches (λ w', virtual_services_of w' = virtual_services_of w) _ (λ _ _, True)).
  unfold Reconcile. apply always_bind. split; [done|]. intros got w1 Hget.
  pose proof (serve_reads _ (Get_Route _) _ _ I Hget) as (_ & _ & Hv). split; [done|]. cbn [and_then].
  destruct got as [x|e]; [apply serve_Get_Route in Hget; discriminate (eq_trans (eq_sym Hx) Hget)|].
  by destruct (IgnoreNotFound e).
Qed.

Lemma listed_of_fqdn w ns req routes x :
  routes_of w !! req = Some x → ns = nn_Namespace req → listed w ns (FQDN x) routes →
  of_fqdn ns (FQDN x) routes.
Proof.
  intros Hx -> [_ Hl]. split.
  - intros Hnil. assert (x ∈ Items routes) as Hin.
    { apply Hl. rewrite (routes_keyed _ _ _ Hx). split_and!; [done| |done].
      by rewrite (route_namespace_key _ _ _ Hx). }
    rewrite Hnil in Hin. by apply not_elem_of_nil in Hin.
  - intros y (_ & Hns & Hf)%Hl. done.
Qed.

(** Wherever a reconciliation stops, it has written no VirtualService but that
    of its Route's FQDN. *)
Lemma Reconcile_frame r req w w' x :
  routes_of w !! req = Some x → reaches w (Reconcile r req) w' →
  vs_frame (virtual_service_key x) w w'.
Proof.
  intros Hx. rewrite (virtual_service_key_at _ _ _ Hx).
  set (k0 := mkNamespacedName (nn_Namespace req) (VirtualServiceName (FQDN x))).
  assert (∀ w1 w2 a rep, at_key k0 a → serve w1 a rep w2 → vs_frame k0 w w1 → vs_frame k0 w w2) as Hstep
    by (intros w1 w2 a rep; apply vs_frame_step).
  apply (always_reaches (vs_frame k0 w) _ (λ _ _, True)). unfold Reconcile.
  apply always_bind. split; [done|]. intros got w1 Hget.
  pose proof (Hstep _ _ (Get_Route _) _ I Hget (λ k _, eq_refl)) as Hf1. split; [done|]. cbn [and_then].
  pose proof (serve_reads _ (Get_Route _) _ _ I Hget) as (Hr1 & _).
  destruct got as [y|e]; [|by destruct (IgnoreNotFound e)].
  apply serve_Get_Route in Hget. pose proof (eq_trans (eq_sym Hget) Hx) as [= ->].
  apply always_bind. split; [done|]. intros rep w2 Hlist.
  pose proof (Hstep _ _ (List_Routes _ _) _ I Hlist Hf1) as Hf2. destruct rep as [routes|e]; [|done].
  split; [done|]. cbn [and_then]. apply List_Routes_listed in Hlist. unfold listed in Hlist. rewrite Hr1 in Hlist.
  destruct (IsZero _).
  - eapply always_mono; [done| |apply (always_calls (at_key k0)); [|apply tend_at|exact Hf2]]; [done|..].
    + intros w3 a rep w4 Ha Hs. by apply Hstep with (a := a) (rep := rep).
    + by eapply reconcileVirtualServices_at, listed_of_fqdn.
  - destruct (route_hasFinalizer _ _); [|done]. apply always_bind.
    eapply (always_mono (vs_frame k0 w) _ _ (λ _ _, True)); [done| |].
    { intros [[]|e|why] w3 Hf3 _; done. }
    unfold finalizeRouteForDeletion. apply always_bind. split; [done|]. intros rep w3 Hs.
    pose proof (Hstep _ _ (List_Services _ _) _ I Hs Hf2) as Hf3. destruct rep as [actual|e]; [|done]. split; [done|].
    apply always_bind. eapply (always_mono (vs_frame k0 w)); [done| |apply (always_calls (at_key k0));
      [|unfold deleteServiceList; calls_tac|exact Hf3]].
    2: { intros w4 a rep w5 Ha Hs4. by apply Hstep with (a := a) (rep := rep). }
    intros [[]|e|why] w4 Hf4 _; [|done..]. apply always_bind.
    eapply (always_mono (vs_frame k0 w)); [done| |apply finalizeVirtualService_frame; [|exact Hf4]].
    + intros [[]|e|why] w5 Hf5 _; [|done..]. split; [done|]. intros rep w6 Hup.
      pose proof (Hstep _ _ (Update_Route _) _ I Hup Hf5) as Hf6. by destruct rep.
    + cbn [Items]. rewrite removeRoute_removeFirst.
      destruct (listed_others _ _ _ _ x Hlist) as [-> Hall]. exact Hall.
Qed.

(** With no other Route of the FQDN, the VirtualService is gone. *)
Lemma finalizeVirtualService_gone r req route routes uid w m w1 :
  virtual_services_readable → tended uid w m w1 →
  always (tended uid w m) (finalizeVirtualService r req route routes)
    (λ o w2, o = Ok tt → Items routes = [] →
      virtual_services_of w2 !! mkNamespacedName (nn_Namespace req) (VirtualServiceName (FQDN route)) = None) w1.
Proof.
  intros Hread Ht. unfold finalizeVirtualService.
  destruct (Nat.eqb_spec (length (Items routes)) 0) as [_|Hne].
  - split; [done|]. intros rep w2 Hs.
    pose proof (tended_step _ _ _ _ (Get_VirtualService _) _ _ I Hs Ht) as Ht2.
    pose proof (serve_reads _ (Get_VirtualService _) _ _ I Hs) as (_ & _ & Hv2).
    destruct rep as [v|e].
    + apply serve_Get_VirtualService in Hs as [Hv Hkey].
      split; [done|]. intros rep w3 Hs.
      pose proof (tended_step _ _ _ _ (Delete_VirtualService v) _ _ I Hs Ht2) as Ht3.
      destruct rep as [[]|e]; (split; [done|]); [|done]. intros _ _.
      apply serve_Delete_VirtualService in Hs as (_ & _ & Hg & _). rewrite Hkey in Hg.
      apply (Hg v); [by rewrite Hv2|]. destruct Ht2 as [[_ _ _ Hvu] _ _].
      apply (Hvu (vs_key v)). by rewrite Hv2, Hkey.
    + pose proof (Hread _ _ _ _ Hs) as He. split; [done|]. intros _ _. rewrite Hv2.
      apply serve_Get_VirtualService in Hs. by apply Hs.
  - eapply always_mono; [done| |apply (always_calls (tending uid));
      [intros w2 a rep w3; apply tended_step|apply reconcileVirtualServices_tending|exact Ht]].
    intros o w2 _ _ _ Hnil. by rewrite Hnil in Hne.
Qed.

(** An update of a Route changes nothing else. *)
Lemma Update_Route_elsewhere w x rep w' :
  serve w (Update_Route x) rep w' →
  virtual_services_of w' = virtual_services_of w ∧
  ∀ k, k ≠ route_key x → routes_of w' !! k = routes_of w !! k.
Proof.
  assert (∀ v, serve w (Update_Route x) (inl v) w' → virtual_services_of w' = virtual_services_of w ∧
    ∀ k, k ≠ route_key x → routes_of w' !! k = routes_of w !! k) as Hok.
  { intros v (_ & _ & Hv & Hr)%serve_Update_Route. split; [done|]. intros k Hk. rewrite Hr.
    destruct (_ || _); [by rewrite lookup_insert_ne|by rewrite lookup_delete_ne]. }
  destruct rep as [v|e]; [apply Hok|]. intros [(Hr & _ & Hv)|[v Hv]]%serve_fails; [|by eapply Hok].
  split; [done|]. intros k _. by rewrite Hr.
Qed.

(** A Route leaves no VirtualService behind, unless other Routes share it. *)
Lemma finalizeRouteForDeletion_gone r req routes w x w1 :
  virtual_services_readable → routes_of w !! req = Some x →
  listed w (nn_Namespace req) (FQDN x) routes → tended (route_uid x) w (routes_of w) w1 →
  always (λ w', routes_of w' !! req = None → only_routed w' (virtual_service_key x))
    (finalizeRouteForDeletion r req x routes) (λ _ _, True) w1.
Proof.
  intros Hread Hx Hl Ht.
  assert (∀ w', tended (route_uid x) w (routes_of w) w' →
    routes_of w' !! req = None → only_routed w' (virtual_service_key x)) as Htended.
  { intros w' [_ Hr _] Hnone. rewrite Hr in Hnone. congruence. }
  unfold finalizeRouteForDeletion. apply always_bind. split; [by apply Htended|]. intros rep w2 Hs.
  pose proof (tended_step _ _ _ _ (List_Services _ _) _ _ I Hs Ht) as Ht2.
  pose proof (Htended _ Ht2) as HI2. destruct rep as [actual|e]; [|done]. split; [done|].
  apply always_bind. eapply (always_mono (tended (route_uid x) w (routes_of w))); [exact Htended| |
    apply (always_calls (tending (route_uid x))); [intros w3 a rep w4; apply tended_step|
      unfold deleteServiceList; calls_tac|exact Ht2]].
  intros [[]|e|why] w3 Ht3 _; [|by split; [apply Htended|]..]. apply always_bind.
  eapply (always_mono (tended (route_uid x) w (routes_of w))); [exact Htended| |
    by apply finalizeVirtualService_gone].
  intros [[]|e|why] w4 Ht4 Hgone; [|by split; [apply Htended|]..].
  split; [by apply Htended|]. intros rep w5 Hup.
  assert (routes_of w5 !! req = None → only_routed w5 (virtual_service_key x)) as HI5; [|by destruct rep].
  intros Hnone. destruct Ht4 as [_ Hr4 _].
  destruct (Update_Route_elsewhere _ _ _ _ Hup) as [Hv5 Hr5].
  change (route_key (with_Finalizers _ _)) with (route_key x) in Hr5.
  rewrite (routes_keyed _ _ _ Hx), Hr4 in Hr5.
  cbn [Items] in Hgone. rewrite removeRoute_removeFirst in Hgone.
  destruct (listed_others _ _ _ _ x Hl) as [Hothers Hall]. rewrite Hothers in Hgone.
  rewrite (virtual_service_key_at _ _ _ Hx).
  destruct (others x routes) as [|y rest] eqn:Hrest.
  - intros _. rewrite Hv5. by apply Hgone.
  - assert (y ∈ others x routes) as Hin by (rewrite Hrest; by left).
    destruct (Hall y ltac:(by left)) as [Hf Hns].
    apply list_elem_of_filter in Hin as [Hname Hin]. apply Hl in Hin as (Hy & _).
    apply (only_routed_by _ _ (route_key y) y).
    + rewrite Hr5; [done|]. intros Heq. apply Hname. rewrite <- (routes_keyed _ _ _ Hx) in Heq.
      exact (f_equal nn_Name Heq).
    + unfold virtual_service_key, route_namespace. by rewrite Hf, Hns.
Qed.

Lemma Reconcile_gone r req w w' x :
  orderly_cluster w → virtual_services_readable → routes_of w !! req = Some x →
  reaches w (Reconcile r req) w' →
  routes_of w' !! req = None → only_routed w' (virtual_service_key x).
Proof.
  intros Hord Hread Hx Hreach Hnone.
  destruct (IsZero (DeletionTimestamp (Route_ObjectMeta x))) eqn:Hz.
  { pose proof (kept_route _ _ _ (Reconcile_kept _ _ _ _ Hord Hreach)) as Hk. rewrite Hx in Hk.
    destruct Hk as [[fs Hfs]|[? _]]; congruence. }
  revert Hnone. revert Hreach.
  apply (always_reaches (λ w', routes_of w' !! req = None → only_routed w' (virtual_service_key x)) _ (λ _ _, True)).
  assert (tended (route_uid x) w (routes_of w) w) as Ht.
  { split; [done|done|]. intros k s u Hs Hu _. by exists s. }
  assert (∀ w', same_objects w w' →
    routes_of w' !! req = None → only_routed w' (virtual_service_key x)) as Hsame.
  { intros w1 (Hr & _) Hnone. congruence. }
  unfold Reconcile. apply always_bind. split; [by apply Hsame|]. intros got w1 Hget.
  pose proof (serve_reads _ (Get_Route _) _ _ I Hget) as Hsame1.
  pose proof (Hsame _ Hsame1) as HI1. split; [done|]. cbn [and_then].
  destruct got as [y|e]; [|by destruct (IgnoreNotFound e)].
  apply serve_Get_Route in Hget. pose proof (eq_trans (eq_sym Hget) Hx) as [= ->].
  apply always_bind. split; [done|]. intros rep w2 Hlist.
  pose proof (serve_reads _ (List_Routes _ _) _ _ I Hlist) as Hsame2.
  pose proof (tended_same _ _ _ _ _ Hsame2 (tended_same _ _ _ _ _ Hsame1 Ht)) as Ht2.
  assert (routes_of w2 !! req = None → only_routed w2 (virtual_service_key x)) as HI2.
  { destruct Ht2 as [_ Hr2 _]. rewrite Hr2. congruence. }
  destruct rep as [routes|e]; [|done]. split; [done|]. cbn [and_then]. rewrite Hz.
  apply List_Routes_listed in Hlist. unfold listed in Hlist. destruct Hsame1 as [Hr1 _]. rewrite Hr1 in Hlist.
  destruct (route_hasFinalizer _ _); [|done]. apply always_bind.
  eapply always_mono; [| |exact (finalizeRouteForDeletion_gone r req routes w x w2 Hread Hx Hlist Ht2)];
    [done|]. intros [[]|e|why] w3 HI3 _; done.
Qed.

(** Wherever a reconciliation stops, no VirtualService has lost its last Route
    and stayed. *)
Lemma Reconcile_routed r req w w' k :
  orderly_cluster w → virtual_services_readable → reaches w (Reconcile r req) w' →
  (∃ x, routes_of w !! req = Some x ∧ virtual_service_key x = k) ∨ only_routed w k →
  only_routed w' k.
Proof.
  intros Hord Hread Hreach Hk.
  destruct (Reconcile_kept _ _ _ _ Hord Hreach) as [_ Hroutes _ Hroute].
  destruct (routes_of w !! req) as [x|] eqn:Hx.
  - destruct (decide (virtual_service_key x = k)) as [<-|Hne].
    + destruct (routes_of w' !! req) as [x'|] eqn:Hx'; [|by eapply Reconcile_gone].
      destruct Hroute as [[fs Hfs]|[_ (Hgone & _)]]; [|congruence].
      apply (only_routed_by _ _ req x'); [done|]. injection Hfs as ->. done.
    + destruct Hk as [(x' & [= <-] & ?)|Ho]; [done|]. revert Ho.
      apply only_routed_kept; [by apply (Reconcile_frame _ _ _ _ _ Hx Hreach)|].
      intros k' y Hy Hkey. exists y. split; [|done]. rewrite Hroutes; [done|]. intros ->. congruence.
  - destruct Hk as [(? & ? & _)|Ho]; [done|]. revert Ho. apply only_routed_kept.
    + by rewrite (Reconcile_absent _ _ _ _ Hx Hreach).
    + intros k' y Hy Hkey. exists y. split; [|done]. rewrite Hroutes; [done|]. intros ->. congruence.
Qed.

(** * Any number of them *)

(** Reconciliations that stopped anywhere, one after another. *)
Inductive disturbed r : server → server → Prop :=
  | undisturbed w : disturbed r w w
  | disturbed_more w req w1 w2 :
      reaches w (Reconcile r req) w1 → disturbed r w1 w2 → disturbed r w w2.

(** The Route is still there, but for its finalizers, or it was being deleted
    and nothing is left of it. *)
Definition remains w req route : Prop :=
  (∃ fs, routes_of w !! req = Some (with_Finalizers route fs)) ∨
  (IsZero (DeletionTimestamp (Route_ObjectMeta route)) = false ∧ cleaned w req route).

Lemma cleared_kept req2 w w' req uid :
  kept req2 w w' → cleared w req uid → cleared w' req uid.
Proof.
  intros [_ Hroutes Howned Hroute] (Hnone & Huids & Howns). split_and!.
  - destruct (decide (req = req2)) as [->|Hne]; [by rewrite Hnone in Hroute|by rewrite Hroutes].
  - intros k y Hy. destruct (decide (k = req2)) as [->|Hne]; [|rewrite Hroutes in Hy by done; by eapply Huids].
    destruct (routes_of w !! req2) as [x|] eqn:Hx; [|congruence].
    destruct Hroute as [[fs Hx']|[_ (Hgone & _)]]; [|congruence].
    rewrite Hx' in Hy. injection Hy as <-. by apply (Huids req2 x).
  - apply Howned; [|done]. intros x Hx. by apply (Huids req2 x).
Qed.

Lemma remains_reached r req2 w w' req route :
  orderly_cluster w → reaches w (Reconcile r req2) w' → remains w req route → remains w' req route.
Proof.
  intros Hord Hreach. pose proof (Reconcile_kept _ _ _ _ Hord Hreach) as Hk.
  intros [[fs Hx]|[Hz [Hc Hv]]].
  - destruct (decide (req = req2)) as [->|Hne];
      [|left; exists fs; by rewrite (kept_routes _ _ _ Hk)].
    pose proof (kept_route _ _ _ Hk) as Hroute. rewrite Hx in Hroute.
    destruct Hroute as [[fs' Hx']|[Hz Hc]]; [by left; exists fs'|]. right. split; [done|]. split; [done|].
    intros Hread. eapply Reconcile_routed; [done..|]. left. by exists (with_Finalizers route fs).
  - right. split; [done|]. split; [by eapply cleared_kept|]. intros Hread.
    eapply Reconcile_routed; [done..|]. right. by apply Hv.
Qed.

(** C6: recovery. In an orderly cluster (Routes that are independent of each
    other, and no finalizers but the controller's on what is deleted), let any
    reconciliations be interrupted, each anywhere between two calls, and let
    calls that failed have taken effect or not: once every Route is then
    reconciled successfully, in any order, each live Route has exactly its
    Services and its VirtualService, and each deleted one is gone with all its
    Services; its VirtualService is gone too, but when other Routes share it,
    provided that reading one fails only when there is none: the code takes any
    error for that. *)
Theorem crash_recovery r w w1 reqs w2 req route
    (Hord : orderly_cluster w) (Hdis : disturbed r w w1) (Hrun : reconciles r w1 reqs w2)
    (Hin : req ∈ reqs) (Hroute : routes_of w !! req = Some route) :
  settled r w2 req route ∧ orderly_cluster w2.
Proof.
  assert (remains w req route) as Hrem.
  { left. exists (Finalizers (Route_ObjectMeta route)). rewrite Hroute. by destruct route as [? [] ? ?]. }
  clear Hroute. induction Hdis as [w|w req' w1 w' Hreach _ IH].
  - split; [|by eapply reconciles_orderly].
    destruct Hrem as [[fs Hx]|[Hz Hc]].
    + exact (cluster_converges r w reqs w2 req (with_Finalizers route fs) Hrun Hord Hin Hx).
    + eapply reconciles_settled; [done..|]. unfold settled. by rewrite Hz.
  - pose proof (Reconcile_kept _ _ _ _ Hord Hreach) as Hk.
    apply IH; [by apply kept_orderly in Hk|done|by eapply remains_reached].
Qed.
End recovery.
