(* ===== verification/Reliability.v ===== *)
(** Reconciling on a server that does not fail: with valid Routes every
    reconciliation succeeds, so that one pass over the Routes of a cluster puts
    all of them in sync. *)
From S2P Require Import Prelude Runtime Api ResourceNames Client RouteController.
From S2P Require Import BuilderStructure BuilderTheorems BuilderFinalizers ControllerHelpers.
From S2P Require Import ControllerTraces ControllerSafety ApiServer ControllerSync.
From S2P Require Import ControllerConvergence Cluster Recovery VirtualServiceBuilder ServiceBuilder.

(** A call fails only for a reason that lies in the call. *)
Class ReliableServer (K : K8s) (A : ApiServer) : Prop := {
  serve_total w a : ∃ rep w', serve w a rep w';
  reliable_Get_Route w k e w' : serve w (Get_Route k) (inr e) w' → IsNotFound e = true;
  reliable_List_Routes w ns f e w' : ¬ serve w (List_Routes ns f) (inr e) w';
  reliable_Update_Route w x e w' :
    serve w (Update_Route x) (inr e) w' → routes_of w !! route_key x = None;
  reliable_List_Services w ns u e w' : ¬ serve w (List_Services ns u) (inr e) w';
  (** a list holds an object once *)
  List_Services_NoDup w ns u l w' :
    serve w (List_Services ns u) (inl l) w' → NoDup (service_key <$> l);
  reliable_CreateOrUpdate_Service w s mutate e w' :
    serve w (CreateOrUpdate_Service s mutate) (inr e) w' →
    ∀ v, mutate (default s (services_of w !! service_key s)) = (v, None) →
      service_key v ≠ service_key s;
  reliable_Delete_Service w s e w' :
    serve w (Delete_Service s) (inr e) w' → services_of w !! service_key s = None;
  reliable_CreateOrUpdate_VirtualService w s mutate e w' :
    serve w (CreateOrUpdate_VirtualService s mutate) (inr e) w' →
    ∀ v, mutate (default s (virtual_services_of w !! vs_key s)) = (v, None) → vs_key v ≠ vs_key s;
  reliable_Get_VirtualService w k e w' :
    serve w (Get_VirtualService k) (inr e) w' → IsNotFound e = true;
  virtual_services_keyed w k v : virtual_services_of w !! k = Some v → vs_key v = k;
  reliable_Delete_VirtualService w v e w' :
    serve w (Delete_VirtualService v) (inr e) w' → virtual_services_of w !! vs_key v = None;
}.

(** Routes the builders accept: ports and weights, and agreement within an FQDN. *)
Definition valid_route (x : Route) : Prop :=
  Forall (λ dest, is_Some (Port dest)) (Destinations (Route_Spec x)) ∧
  valid_destinations (Destinations (Route_Spec x)).

Definition valid_cluster `{ApiServer} (w : server) : Prop :=
  (∀ k x, routes_of w !! k = Some x → valid_route x) ∧
  ∀ k k' x x', routes_of w !! k = Some x → routes_of w !! k' = Some x' →
    FQDN x = FQDN x' → Internal (Domain (Route_Spec x)) = Internal (Domain (Route_Spec x')).

Section reliability.
Context {G : GoRuntime} {GL : GoRuntimeLaws G} {K : K8s} {KL : K8sLaws K}.
Context {A : ApiServer} {AL : ApiServerLaws K A} {AF : ApiServerFailures A} {AR : ReliableServer K A}.
Implicit Types (w : server) (r : RouteReconciler) (req : NamespacedName) (route : Route).

(** * Total correctness *)

(** Every execution from [w] ends in a value and a state of which [Q] holds. *)
Definition succeeds {X} (p : prog X) (Q : X → server → Prop) w : Prop :=
  wp serve p (λ o w', match o with Ok x => Q x w' | _ => False end) w.

Lemma succeeds_bind {X Y} (p : prog X) (f : X → prog Y) Q w :
  succeeds p (λ x, succeeds (f x) Q) w → succeeds (p ≫= f) Q w.
Proof.
  unfold succeeds. intros Hp. apply wp_bind. eapply wp_mono; [|exact Hp].
  by intros [x|e|why].
Qed.

Lemma succeeds_ret {X} (x : X) (Q : X → server → Prop) w : Q x w → succeeds (mret x) Q w.
Proof. done. Qed.

Lemma succeeds_mono {X} (p : prog X) (Q Q' : X → server → Prop) w :
  (∀ x w, Q x w → Q' x w) → succeeds p Q w → succeeds p Q' w.
Proof. intros HQ. apply wp_mono. intros [x|e|why]; auto. Qed.

Lemma succeeds_call (a : action) (Q : value a → server → Prop) w :
  (∀ e w', ¬ serve w a (inr e) w') → (∀ v w', serve w a (inl v) w' → Q v w') →
  succeeds (call a) Q w.
Proof. intros He Hv [v|e] w' Hs; [by apply Hv | by destruct (He e w')]. Qed.

Lemma succeeds_always {X} (p : prog X) (I : server → Prop) (Q : X → server → Prop) w :
  always I p (λ _ w', I w') w → succeeds p Q w → succeeds p (λ x w', Q x w' ∧ I w') w.
Proof.
  unfold succeeds. revert w. induction p as [[x|e|why]|a k IH]; intros w [HI Hal]; cbn; [done..|].
  intros Hp rep w' Hs. apply IH; [by apply Hal | by apply Hp].
Qed.

(** * The parts of a reconciliation *)

Lemma upserts_succeed ds w :
  succeeds (foldM (λ _ d, _ ← call (upsert_Service d); mret tt) tt ds)
    (λ _ w', ∀ k, k ∉ service_key <$> ds → services_of w' !! k = services_of w !! k) w.
Proof.
  revert w. induction ds as [|d ds IH]; intros w; [by intros k _|]. cbn [foldM].
  apply succeeds_bind, succeeds_bind, succeeds_call.
  - intros e w' Hs. pose proof (reliable_CreateOrUpdate_Service _ _ _ _ _ Hs) as Hno.
    destruct (services_of w !! service_key _) as [s|] eqn:Hk; cbn [default] in Hno.
    + eapply Hno; [done|]. exact (services_keyed _ _ _ Hk).
    + by eapply Hno.
  - intros v w1 Hs. apply upsert_Service_effect in Hs as [_ (v' & Hw1 & _)].
    apply succeeds_ret. eapply succeeds_mono, IH. intros [] w2 Hframe k.
    rewrite fmap_cons, not_elem_of_cons. intros [Hne Hk].
    by rewrite Hframe, Hw1, lookup_insert_ne.
Qed.

Lemma upsert_VirtualServices_succeed ds w :
  succeeds (foldM (λ _ d, _ ← call (upsert_VirtualService d); mret tt) tt ds) (λ _ _, True) w.
Proof.
  revert w. induction ds as [|d ds IH]; intros w; [done|]. cbn [foldM].
  apply succeeds_bind, succeeds_bind, succeeds_call; [|intros v w1 _; apply succeeds_ret, IH].
  intros e w' Hs. pose proof (reliable_CreateOrUpdate_VirtualService _ _ _ _ _ Hs) as Hno.
  destruct (virtual_services_of w !! vs_key _) as [s|] eqn:Hk; cbn [default] in Hno.
  - eapply Hno; [done|]. exact (virtual_services_keyed _ _ _ Hk).
  - by eapply Hno.
Qed.

Lemma deleteServiceList_succeeds l w :
  NoDup (service_key <$> l) → (∀ s, s ∈ l → is_Some (services_of w !! service_key s)) →
  succeeds (deleteServiceList l) (λ _ _, True) w.
Proof.
  unfold deleteServiceList. revert w. induction l as [|s l IH]; intros w; [done|].
  rewrite fmap_cons, NoDup_cons. intros [Hs Hnd] Hall. cbn [foldM].
  apply succeeds_bind, succeeds_bind, succeeds_call.
  - intros e w' He%reliable_Delete_Service. destruct (Hall s) as [s' Hs']; [by left|]. congruence.
  - intros [] w1 (_ & _ & _ & _ & Hframe)%serve_Delete_Service. apply succeeds_ret, IH; [done|].
    intros s' Hs'. rewrite Hframe; [apply Hall; by right|].
    intros Heq. apply Hs. rewrite <- Heq. by apply list_elem_of_fmap_2.
Qed.

Lemma reconcileServices_succeeds r req route w :
  is_ok (ServiceBuilder.Build route) → succeeds (reconcileServices r req route) (λ _ _, True) w.
Proof.
  intros [desired Hb]. unfold reconcileServices. rewrite Hb. cbn [lift mbind prog_bind prog_bind_def].
  apply succeeds_bind, succeeds_call; [apply reliable_List_Services|]. intros actual w1 Hl.
  pose proof (List_Services_NoDup _ _ _ _ _ Hl) as Hnd.
  pose proof (serve_reads _ (List_Services _ _) _ _ I Hl) as (_ & Hsame & _).
  pose proof (serve_List_Services _ _ _ _ _ Hl) as Hin.
  apply succeeds_bind. eapply succeeds_mono, (upserts_succeed desired). intros [] w2 Hframe.
  cbn beta in Hframe. rewrite servicesForDeletion_filter. apply deleteServiceList_succeeds.
  - eapply sublist_NoDup; [exact Hnd|]. apply fmap_sublist, sublist_filter.
  - intros s [Hne Hs]%list_elem_of_filter. rewrite Hframe.
    + rewrite Hsame. apply Hin in Hs as [-> _]. by eexists.
    + intros (d & Heq & Hd)%list_elem_of_fmap. rewrite Forall_forall in Hne. by apply (Hne d).
Qed.

Lemma reconcileVirtualServices_succeeds r req routes w :
  is_ok (VirtualServiceBuilder.Build (builder_of r) routes) →
  succeeds (reconcileVirtualServices r req routes) (λ _ _, True) w.
Proof.
  intros [desired Hb]. unfold reconcileVirtualServices. fold (builder_of r). rewrite Hb.
  apply (upsert_VirtualServices_succeed desired).
Qed.

Lemma finalizeVirtualService_succeeds r req route routes w :
  is_ok (VirtualServiceBuilder.Build (builder_of r) routes) →
  succeeds (finalizeVirtualService r req route routes) (λ _ _, True) w.
Proof.
  intros Hb. unfold finalizeVirtualService. destruct (Nat.eqb _ _);
    [|by apply reconcileVirtualServices_succeeds].
  apply wp_request. intros [v|e] w1 Hg; [|done].
  apply serve_Get_VirtualService in Hg as Hv. destruct Hv as [Hv Hk].
  pose proof (serve_reads _ (Get_VirtualService _) _ _ I Hg) as (_ & _ & Hsame).
  apply succeeds_call; [|done]. intros e w2 He%reliable_Delete_VirtualService.
  rewrite Hsame, Hk in He. discriminate (eq_trans (eq_sym Hv) He).
Qed.

(** * Routes are there to be updated *)

(** Calls that write no Route. *)
Definition no_update (a : action) : Prop := match a with Update_Route _ => False | _ => True end.

Lemma no_update_routes w a rep w' :
  no_update a → serve w a rep w' → routes_of w' = routes_of w.
Proof.
  intros Ha. assert (∀ v, serve w a (inl v) w' → routes_of w' = routes_of w) as Hok.
  { intros v Hs. destruct a; try done; try (apply serve_reads in Hs; [apply Hs|exact I]).
    - apply serve_CreateOrUpdate_Service in Hs. apply Hs.
    - destruct v. apply serve_Delete_Service in Hs. apply Hs.
    - apply serve_CreateOrUpdate_VirtualService in Hs. apply Hs.
    - destruct v. apply serve_Delete_VirtualService in Hs. apply Hs. }
  destruct rep as [v|e]; [apply Hok|]. intros [(? & _)|[v Hv]]%serve_fails; [done | by eapply Hok].
Qed.

Lemma succeeds_keeping {X} (p : prog X) (Q : X → server → Prop) w :
  calls no_update p → succeeds p Q w →
  succeeds p (λ x w', Q x w' ∧ routes_of w' = routes_of w) w.
Proof.
  intros Hc. apply (succeeds_always _ (λ w', routes_of w' = routes_of w)).
  apply (always_calls no_update); [|done..]. intros w1 a rep w2 Ha Hs Heq.
  by rewrite (no_update_routes _ _ _ _ Ha Hs).
Qed.

Lemma update_succeeds req x fs (Q : Route → server → Prop) w :
  routes_of w !! req = Some x → (∀ w', Q (with_Finalizers x fs) w') →
  succeeds (call (Update_Route (with_Finalizers x fs))) Q w.
Proof.
  intros Hx HQ. apply succeeds_call.
  - intros e w' He%reliable_Update_Route.
    change (route_key (with_Finalizers x fs)) with (route_key x) in He.
    rewrite (routes_keyed _ _ _ Hx) in He. congruence.
  - intros v w' (-> & _)%serve_Update_Route. apply HQ.
Qed.

Lemma finalizeRouteForDeletion_succeeds r req x routes w :
  routes_of w !! req = Some x →
  is_ok (VirtualServiceBuilder.Build (builder_of r)
    (mkRouteList (removeRouteFromRouteList x routes).1)) →
  succeeds (finalizeRouteForDeletion r req x routes) (λ _ _, True) w.
Proof.
  intros Hx Hb. unfold finalizeRouteForDeletion.
  apply succeeds_bind, succeeds_call; [apply reliable_List_Services|]. intros actual w1 Hl.
  pose proof (List_Services_NoDup _ _ _ _ _ Hl) as Hnd.
  pose proof (serve_List_Services _ _ _ _ _ Hl) as Hin.
  pose proof (serve_reads _ (List_Services _ _) _ _ I Hl) as (Hr1 & Hs1 & _).
  apply succeeds_bind. eapply succeeds_mono, (succeeds_keeping _ (λ _ _, True)).
  - intros [] w2 [_ Hr2]. apply succeeds_bind.
    eapply succeeds_mono, (succeeds_keeping _ (λ _ _, True)).
    + intros [] w3 [_ Hr3]. apply succeeds_bind, (update_succeeds req); [|done].
      by rewrite Hr3, Hr2, Hr1.
    + eapply calls_mono, finalizeVirtualService_releasing. by intros [].
    + by apply finalizeVirtualService_succeeds.
  - unfold deleteServiceList. apply upsert_loop_calls. done.
  - apply deleteServiceList_succeeds; [done|]. intros s [Hs _]%Hin. rewrite Hs1, Hs. by eexists.
Qed.

Lemma ensureFinalizer_succeeds req x (Q : Route → server → Prop) w :
  routes_of w !! req = Some x →
  (∀ w' fs, Q (with_Finalizers x fs) w') → succeeds (ensureFinalizer x) Q w.
Proof.
  intros Hx HQ. unfold ensureFinalizer. destruct (negb _).
  - by apply (update_succeeds req).
  - apply succeeds_ret. specialize (HQ w (Finalizers (Route_ObjectMeta x))).
    by destruct x as [? [] ? ?].
Qed.

(** * Valid Routes *)

Lemma Build_valid b rl :
  (∀ x, x ∈ Items rl → valid_destinations (Destinations (Route_Spec x))) →
  (∀ x y, x ∈ Items rl → y ∈ Items rl → compatible x y) →
  is_ok (VirtualServiceBuilder.Build b rl).
Proof.
  intros Hd Hc. apply Build_succeeds_iff. intros f (x & -> & Hx)%list_elem_of_fmap.
  assert (x ∈ routesOf (FQDN x) (Items rl)) as Hin by by apply elem_of_routesOf.
  assert (∀ y, y ∈ routesOf (FQDN x) (Items rl) → y ∈ Items rl) as Hsub
    by (intros y [_ ?]%elem_of_routesOf; done).
  unfold valid_group. destruct (routesOf _ _) as [|r0 rs]; [by apply not_elem_of_nil in Hin|].
  split; apply Forall_forall; intros y Hy; [|by apply Hd, Hsub].
  apply Hc; apply Hsub; [by left | done].
Qed.

Lemma listed_valid b w ns f rl :
  valid_cluster w → listed w ns f rl →
  is_ok (VirtualServiceBuilder.Build b rl) ∧
  ∀ x, is_ok (VirtualServiceBuilder.Build b (mkRouteList (removeRouteFromRouteList x rl).1)).
Proof.
  intros [Hv Hint] Hl.
  assert (∀ l, (∀ x, x ∈ l → x ∈ Items rl) →
    is_ok (VirtualServiceBuilder.Build b (mkRouteList l))) as Hsub.
  { intros l Hsub. apply Build_valid; cbn [Items].
    - intros x Hx%Hsub%Hl. destruct Hx as [Hx _]. by apply Hv in Hx as [_ ?].
    - intros x y Hx%Hsub%Hl Hy%Hsub%Hl. destruct Hx as (Hx & Hnx & Hfx), Hy as (Hy & Hny & Hfy).
      split; [|congruence]. eapply Hint; [done..|congruence]. }
  split; [by destruct rl; apply Hsub|]. intros x. apply Hsub. intros y.
  rewrite removeRoute_removeFirst. destruct (listed_others _ _ _ _ x Hl) as [-> _].
  by intros [_ ?]%list_elem_of_filter.
Qed.

Lemma Services_valid x fs : valid_route x → is_ok (ServiceBuilder.Build (with_Finalizers x fs)).
Proof.
  intros [Hp _]. destruct (Services_cases (with_Finalizers x fs)) as [|[_ Hex]]; [done|].
  apply Exists_exists in Hex as (dest & Hin & Hnone). rewrite Forall_forall in Hp.
  destruct (Hp dest Hin) as [p Heq]. congruence.
Qed.

Lemma Reconcile_total r req w :
  valid_cluster w → succeeds (Reconcile r req) (λ _ _, True) w.
Proof.
  intros Hval. apply wp_request. intros [x|e] w1 Hg.
  - apply serve_Get_Route in Hg as Hx. pose proof (serve_reads _ (Get_Route _) _ _ I Hg) as (Hr1 & _).
    apply succeeds_bind, succeeds_call; [apply reliable_List_Routes|]. intros rl w2 Hlist.
    pose proof (serve_reads _ (List_Routes _ _) _ _ I Hlist) as (Hr2 & _).
    assert (routes_of w2 !! req = Some x) as Hx2 by by rewrite Hr2, Hr1.
    assert (listed w (nn_Namespace req) (FQDN x) rl) as Hl.
    { apply List_Routes_listed in Hlist as [Hnd Hl]. split; [done|]. by rewrite <- Hr1. }
    destruct (listed_valid (builder_of r) _ _ _ _ Hval Hl) as [Hb Hbr].
    destruct (IsZero _); [|destruct (route_hasFinalizer _ _)].
    + apply succeeds_bind, (ensureFinalizer_succeeds req); [done|]. intros w3 fs.
      apply succeeds_bind. eapply succeeds_mono, reconcileServices_succeeds.
      * intros [] w4 _. apply succeeds_bind.
        eapply succeeds_mono; [|by apply reconcileVirtualServices_succeeds]. by intros [] w5 _.
      * apply Services_valid. destruct Hval as [Hval _]. by eapply Hval.
    + apply succeeds_bind. eapply succeeds_mono; [|by apply finalizeRouteForDeletion_succeeds].
      by intros [] w5 _.
    + by apply succeeds_ret.
  - apply reliable_Get_Route in Hg. rewrite IgnoreNotFound_spec, Hg. by apply succeeds_ret.
Qed.

(** * A pass over the cluster *)

(** A Route that a reconciliation leaves was there before, but for its
    finalizers. *)
Lemma kept_valid req w w' : kept req w w' → valid_cluster w → valid_cluster w'.
Proof.
  intros [_ Hroutes _ Hroute] [Hv Hint].
  assert (∀ k y, routes_of w' !! k = Some y →
    ∃ x fs, routes_of w !! k = Some x ∧ y = with_Finalizers x fs) as Hold.
  { intros k y Hy. destruct (decide (k = req)) as [->|Hne].
    - destruct (routes_of w !! req) as [x|]; [|congruence].
      destruct Hroute as [[fs Hx]|[_ (Hgone & _)]]; [|congruence].
      exists x, fs. split; [done|congruence].
    - rewrite Hroutes in Hy by done. exists y, (Finalizers (Route_ObjectMeta y)).
      split; [done|]. by destruct y as [? [] ? ?]. }
  split.
  - intros k y (x & fs & Hx & ->)%Hold. exact (Hv k x Hx).
  - intros k k' y y' (x & fs & Hx & ->)%Hold (x' & fs' & Hx' & ->)%Hold.
    exact (Hint k k' x x' Hx Hx').
Qed.

(** One reconciliation of each request in turn, whatever the results. *)
Inductive passes r : server → list NamespacedName → server → Prop :=
  | passes_nil w : passes r w [] w
  | passes_cons w req t o w1 reqs w2 :
      exec serve w (Reconcile r req) t o w1 → passes r w1 reqs w2 → passes r w (req :: reqs) w2.

Lemma Reconcile_ok_valid r req w t o w' :
  orderly_cluster w → valid_cluster w → exec serve w (Reconcile r req) t o w' →
  (∃ res, o = Ok res) ∧ orderly_cluster w' ∧ valid_cluster w'.
Proof.
  intros Hord Hval Hex. pose proof (wp_sound _ _ _ _ _ _ _ (Reconcile_total r req w Hval) Hex) as Ho.
  pose proof (Reconcile_kept _ _ _ _ Hord (exec_reaches _ _ _ _ _ Hex)) as Hk.
  split_and!; [by destruct o as [res|e|why]; [exists res|..]|by apply kept_orderly in Hk|by eapply kept_valid].
Qed.

Lemma passes_reconcile r w reqs w' :
  orderly_cluster w → valid_cluster w → passes r w reqs w' → reconciles r w reqs w'.
Proof.
  intros Hord Hval Hp. revert Hord Hval.
  induction Hp as [w|w req t o w1 reqs w2 Hex _ IH]; intros Hord Hval; [apply reconciles_nil|].
  destruct (Reconcile_ok_valid _ _ _ _ _ _ Hord Hval Hex) as ([res ->] & Hord1 & Hval1).
  eapply reconciles_cons; [done|by apply IH].
Qed.

Lemma passes_exist r w reqs : ∃ w', passes r w reqs w'.
Proof.
  revert w. induction reqs as [|req reqs IH]; intros w; [exists w; apply passes_nil|].
  destruct (exec_total serve (Reconcile r req) w serve_total) as (t & o & w1 & Hex).
  destruct (IH w1) as [w2 Hp]. exists w2. by eapply passes_cons.
Qed.

(** C7: total correctness. On a server that does not fail, in an orderly cluster
    (Routes that are independent of each other, and no finalizers but the
    controller's on what is deleted) of Routes that the builders accept,
    reconciling Routes once, in any order, always comes to an end without an
    error or a panic; then each live one has exactly its Services and its
    VirtualService, and each deleted one is gone with all its Services, and
    with its VirtualService but when other Routes share it. *)
Theorem one_pass_settles r w reqs
    (Hord : orderly_cluster w) (Hval : valid_cluster w) :
  (∃ w', passes r w reqs w') ∧
  ∀ w', passes r w reqs w' →
    reconciles r w reqs w' ∧
    ∀ req route, req ∈ reqs → routes_of w !! req = Some route →
      settled r w' req route ∧
      (IsZero (DeletionTimestamp (Route_ObjectMeta route)) = false →
       only_routed w' (virtual_service_key route)).
Proof.
  split; [apply passes_exist|]. intros w' Hp%passes_reconcile; [|done..].
  split; [done|]. intros req route Hin Hroute.
  assert (settled r w' req route) as Hset by by eapply cluster_converges.
  split; [done|]. intros Hz. unfold settled in Hset. rewrite Hz in Hset.
  apply Hset. exact reliable_Get_VirtualService.
Qed.
End reliability.
