(* ===== verification/Interference.v ===== *)
(** Users who edit Routes at any time, also between two calls of a running
    reconciliation.  The API server accepts the update of an object only at the
    version that was read: what was edited since then is not overwritten. *)
From S2P Require Import Prelude Runtime Api Client RouteController.
From S2P Require Import ApiServer Cluster Recovery.

Section interference.
Context {K : K8s} {A : ApiServer}.
Implicit Types (w : server) (req : NamespacedName) (changed : bool).

(** * What users do *)

(** A Route with that UID is in the namespace and holds the finalizer. *)
Definition held (m : gmap NamespacedName Route) (ns uid : string) : Prop :=
  ∃ k x, m !! k = Some x ∧ nn_Namespace k = ns ∧ route_uid x = uid ∧
    finalizerName ∈ Finalizers (Route_ObjectMeta x).

(** Routes that hold the finalizer stay and keep it. *)
Definition keeps_held (m m' : gmap NamespacedName Route) : Prop :=
  ∀ k x, m !! k = Some x → finalizerName ∈ Finalizers (Route_ObjectMeta x) →
    ∃ x', m' !! k = Some x' ∧ route_uid x' = route_uid x ∧
      finalizerName ∈ Finalizers (Route_ObjectMeta x').

(** The edits that are considered.  Users create and change Routes, mark them as
    deleted, and take away those that nothing holds, so that the cluster stays
    orderly; they do not take the controller's finalizer away, nor the Route
    that holds it, and leave the Services to the controller. *)
Record edited w w' : Prop := {
  edited_orderly : orderly_cluster w';
  edited_services : services_of w' = services_of w;
  edited_routes : keeps_held (routes_of w) (routes_of w');
}.

Lemma keeps_held_refl m : keeps_held m m.
Proof. intros k x Hx Hfin. by exists x. Qed.

Lemma held_kept m m' ns uid : keeps_held m m' → held m ns uid → held m' ns uid.
Proof.
  intros Hm (k & x & Hx & Hns & Hu & Hfin). destruct (Hm k x Hx Hfin) as (x' & Hx' & Hu' & Hfin').
  exists k, x'. split_and!; congruence.
Qed.

(** * Programs among edits *)

(** [changed]: the Route of the request was edited after it was read. *)
Inductive edits req : bool → server → bool → server → Prop :=
  | edits_none changed w : edits req changed w changed w
  | edits_more changed w w1 changed' w2 :
      edited w w1 →
      edits req (changed || bool_decide (routes_of w1 !! req ≠ routes_of w !! req)) w1 changed' w2 →
      edits req changed w changed' w2.

(** An update of a Route that was edited since it was read is a conflict. *)
Definition accepted changed (a : action) : reply a → server → server → Prop :=
  match a with
  | Update_Route x => λ rep w w', changed = true → same_objects w w' ∧ ∃ e, rep = inr e
  | _ => λ _ _ _, True
  end.

Definition read_again changed (a : action) : bool :=
  match a with Get_Route _ => false | _ => changed end.

(** The states a program passes through among edits; it may stop after any
    call. *)
Inductive meddled {X} req : bool → server → prog X → server → Prop :=
  | meddled_stops changed w p changed' w' :
      edits req changed w changed' w' → meddled req changed w p w'
  | meddled_goes_on changed w a k changed1 w1 rep w2 w3 :
      edits req changed w changed1 w1 → serve w1 a rep w2 → accepted changed1 a rep w1 w2 →
      meddled req (read_again changed1 a) w2 (k rep) w3 → meddled req changed w (Act a k) w3.

(** Without edits, the states an interrupted program reaches. *)
Lemma reaches_meddled {X} req w (p : prog X) w' :
  reaches w p w' → meddled req false w p w'.
Proof.
  induction 1 as [w p|w a k rep w1 w2 Hs _ IH]; [eapply meddled_stops, edits_none|].
  eapply meddled_goes_on; [apply edits_none|exact Hs| |by destruct a]. by destruct a.
Qed.

Lemma meddled_edited {X} req changed w w1 (p : prog X) w2 :
  edited w w1 →
  meddled req (changed || bool_decide (routes_of w1 !! req ≠ routes_of w !! req)) w1 p w2 →
  meddled req changed w p w2.
Proof.
  intros Hed Hm.
  remember (changed || bool_decide (routes_of w1 !! req ≠ routes_of w !! req)) as changed1 eqn:Hc.
  destruct Hm as [changed1 w1 p changed2 w2 Hm|changed1 w1 a k changed2 w2 rep w3 w4 Hm Hs Ha Hm'];
    subst changed1.
  - eapply meddled_stops, edits_more; done.
  - eapply meddled_goes_on; [by eapply edits_more|done..].
Qed.

(** * Invariants among edits *)

Context (I : server → Prop).

(** [I] holds of every state that is reached, [Q] of the end. *)
Fixpoint endures {X} req (p : prog X) (Q : outcome X → bool → server → Prop) changed w : Prop :=
  ∀ changed1 w1, edits req changed w changed1 w1 →
    I w1 ∧ match p with
           | Done o => Q o changed1 w1
           | Act a k => ∀ rep w2, serve w1 a rep w2 → accepted changed1 a rep w1 w2 →
               endures req (k rep) Q (read_again changed1 a) w2
           end.

Lemma endures_meddled {X} req (p : prog X) Q changed w w' :
  endures req p Q changed w → meddled req changed w p w' → I w'.
Proof.
  intros He Hm. induction Hm as [changed w p changed' w' Hed|changed w a k changed1 w1 rep w2 w3 Hed Hs Ha _ IH].
  - destruct p; by apply He in Hed as [? _].
  - apply IH. by eapply He.
Qed.

Lemma edits_trans req changed w changed1 w1 changed2 w2 :
  edits req changed w changed1 w1 → edits req changed1 w1 changed2 w2 →
  edits req changed w changed2 w2.
Proof. induction 1; [done|]. intros. eapply edits_more; eauto. Qed.

(** An assertion that no edit invalidates. *)
Definition stable req (R : bool → server → Prop) : Prop :=
  ∀ changed w w1, R changed w → edited w w1 →
    R (changed || bool_decide (routes_of w1 !! req ≠ routes_of w !! req)) w1.

Lemma stable_edits req R changed w changed' w' :
  stable req R → R changed w → edits req changed w changed' w' → R changed' w'.
Proof. intros Hst HR Hed. induction Hed as [|changed w w1 changed' w2 Hed _ IH]; [done|]. by apply IH, Hst. Qed.

(** What follows the end of a part. *)
Definition and_on {X Y} req (f : X → prog Y) (Q : outcome Y → bool → server → Prop)
    : outcome X → bool → server → Prop := λ o changed w,
  match o with
  | Ok x => endures req (f x) Q changed w
  | Err e => Q (Err e) changed w
  | Panic why => Q (Panic why) changed w
  end.

Lemma endures_bind {X Y} req (p : prog X) (f : X → prog Y) Q changed w :
  endures req p (and_on req f Q) changed w → endures req (p ≫= f) Q changed w.
Proof.
  unfold mbind, prog_bind. revert changed w. induction p as [[x|e|why]|a k IH]; intros changed w He; cbn.
  - destruct (f x) as [o|a k] eqn:Hf; intros changed1 w1 Hed;
      destruct (He _ _ Hed) as [_ Hx]; cbn [and_on] in Hx; rewrite Hf in Hx;
      exact (Hx _ _ (edits_none _ _ _)).
  - exact He.
  - exact He.
  - intros changed1 w1 Hed. destruct (He _ _ Hed) as [HI Hk]. split; [done|].
    intros rep w2 Hs Ha. by apply IH, Hk.
Qed.

(** A call in a stable assertion. *)
Lemma endures_call {X} req (R : bool → server → Prop) a (f : value a → prog X) Q changed w :
  stable req R → (∀ changed w, R changed w → I w) → R changed w →
  (∀ changed1 w1 rep w2, R changed1 w1 → serve w1 a rep w2 → accepted changed1 a rep w1 w2 →
     match rep with
     | inl v => endures req (f v) Q (read_again changed1 a) w2
     | inr e => ∀ changed3 w3, edits req (read_again changed1 a) w2 changed3 w3 →
                  I w3 ∧ Q (Err e) changed3 w3
     end) →
  endures req (call a ≫= f) Q changed w.
Proof.
  intros Hst HI HR Hstep changed1 w1 Hed. pose proof (stable_edits _ _ _ _ _ _ Hst HR Hed) as HR1.
  split; [by eapply HI|]. intros rep w2 Hs Ha. specialize (Hstep _ _ _ _ HR1 Hs Ha).
  by destruct rep.
Qed.

(** Calls that keep a stable assertion. *)
Lemma endures_calls {X} req (P : action → Prop) (R : bool → server → Prop) (p : prog X) changed w :
  stable req R → (∀ changed w, R changed w → I w) →
  (∀ changed w a rep w', P a → serve w a rep w' → accepted changed a rep w w' → R changed w →
     R (read_again changed a) w') →
  calls P p → R changed w → endures req p (λ _, R) changed w.
Proof.
  intros Hst HI Hstep. revert changed w. induction p as [o|a k IH]; intros changed w Hcalls HR changed1 w1 Hed;
    pose proof (stable_edits _ _ _ _ _ _ Hst HR Hed) as HR1; (split; [by eapply HI|]); [done|].
  destruct Hcalls as [Ha Hk]. intros rep w2 Hs Hacc. apply IH; [done|]. by eapply Hstep.
Qed.

Lemma endures_mono {X} req (p : prog X) (Q Q' : outcome X → bool → server → Prop) changed w :
  (∀ o changed w, I w → Q o changed w → Q' o changed w) →
  endures req p Q changed w → endures req p Q' changed w.
Proof.
  intros HQ. revert changed w. induction p as [o|a k IH]; intros changed w He changed1 w1 Hed;
    destruct (He _ _ Hed) as [HI Hp]; (split; [done|]); [by apply HQ|].
  intros rep w2 Hs Ha. by apply IH, Hp.
Qed.
End interference.
