(* ===== verification/Lifecycle.v ===== *)
(** The life of a cluster: users create, change and delete Routes whenever they
    like, also while a reconciliation runs, and each reconciliation may be
    interrupted.  At every moment each Service of the controller belongs to a
    Route that is there and holds the finalizer; and once the users rest and
    every Route has been reconciled, the Services are exactly the ones the live
    Routes ask for. *)
From S2P Require Import Prelude Runtime Api ResourceNames Client RouteController.
From S2P Require Import BuilderFinalizers ControllerHelpers ControllerTraces ControllerSafety.
From S2P Require Import ApiServer ControllerSync ControllerConvergence Cluster Recovery Interference.
From S2P Require Import VirtualServiceBuilder ServiceBuilder.

Section lifecycle.
Context {G : GoRuntime} {GL : GoRuntimeLaws G} {K : K8s} {KL : K8sLaws K}.
Context {A : ApiServer} {AL : ApiServerLaws K A} {AF : ApiServerFailures A}.
(** The UIDs of what owns Services but is no Route. *)
Context (foreign : string → Prop).
Implicit Types (w : server) (r : RouteReconciler) (req : NamespacedName) (route : Route).

(** * Guarded clusters *)





(** * The calls of a reconciliation *)









(** * A reconciliation among edits *)















(** * A finalization among edits *)
















(** * Histories *)






End lifecycle.
