(* ===== verification/ClusterExamples.v ===== *)
(** A cluster of two Routes of one FQDN on the in-memory server, reconciled one
    after the other by evaluation: the instances of the theorems of [Cluster],
    and the run that needs their hypothesis on finalizers. *)
From S2P Require Import Prelude Runtime Api ResourceNames BuilderRouting Client RouteController.
From S2P Require Import ControllerHelpers ControllerTraces ControllerSafety ApiServer.
From S2P Require Import ControllerSync ControllerConvergence ControllerExamples Cluster.
From S2P Require Import VirtualServiceBuilder ServiceBuilder BuilderFinalizers.

#[local] Existing Instance go_reference.
#[local] Existing Instance k8s_reference.
#[local] Existing Instance memory_server.

Lemma deep_shallow_independent r :
  route_uid r = route_uid deep_route → Url (Route_Spec r) = Url (Route_Spec deep_route) →
  route_guids r = route_guids deep_route → FQDN r = FQDN deep_route →
  independent shallow_route r ∧ independent r shallow_route.
Proof.
  intros Hu Hurl Hg Hf. assert (FQDN shallow_route = FQDN r) as Hff by (by rewrite Hf).
  split; split; rewrite ?Hu, ?Hurl, ?Hg; try done.
  all: change (route_guids shallow_route) with ["d0"]; change (route_guids deep_route) with ["d1"];
    intros _ g ->%list_elem_of_singleton ?%list_elem_of_singleton; done.
Qed.

(** The cluster with [deep_route], with or without finalizers and a deletion
    timestamp, next to [shallow_route]. *)
Lemma cluster_orderly r :
  r ∈ [deep_route; claimed_route; deleted_route] → orderly_cluster (cluster r).
Proof.
  intros Hr.
  assert (independent (unclaimed shallow_route) (unclaimed r) ∧
          independent (unclaimed r) (unclaimed shallow_route)) as [Hi Hi'].
  { rewrite !elem_of_cons in Hr. destruct Hr as [-> | [-> | [-> | ?%not_elem_of_nil]]]; [..|done];
      by apply deep_shallow_independent. }
  assert (NoDup (route_guids (unclaimed r)) ∧ example_key r ≠ example_key shallow_route ∧ deletable r)
    as (Hg & Hk & Hd).
  { rewrite !elem_of_cons in Hr. destruct Hr as [-> | [-> | [-> | ?%not_elem_of_nil]]]; [..|done];
      (split_and!; [apply (bool_decide_unpack _); vm_compute; exact I | done |]);
      [by left | by left | right].
    split; [by left|]. intros f [->|?%not_elem_of_nil]%elem_of_cons; done. }
  assert (∀ k x, bare_routes (cluster r) !! k = Some x →
    (k = example_key shallow_route ∧ x = unclaimed shallow_route) ∨
    (k = example_key r ∧ x = unclaimed r)) as Hall.
  { intros k x (y & [Hy _]%visible_lookup & ->)%elem_of_bare. cbn in Hy.
    apply lookup_insert_Some in Hy as [[<- <-]|[_ [<- <-]%lookup_singleton_Some]]; auto. }
  split; [split| | |].
  - intros k x [[_ ->]|[_ ->]]%Hall; [|done].
    apply (bool_decide_unpack _). vm_compute. exact I.
  - intros k k' x x' [[-> ->]|[-> ->]]%Hall [[-> ->]|[-> ->]]%Hall Hne; done.
  - intros k x [-> | ->]%cluster_routes; [by left | done].
  - apply cluster_unprotected.
  - apply cluster_vs_unprotected.
Qed.

(** Both Routes, one after the other; [deep_route] first. *)
Definition second_run (r : Route) := run_of shallow_route (run_of r (cluster r)).2.

Lemma both_reconciled r n m :
  (run_of r (cluster r)).1.1 = Ok n → (second_run r).1.1 = Ok m →
  reconciles example_reconciler (cluster r) [example_key r; example_key shallow_route]
    (second_run r).2.
Proof.
  intros Hn Hm. eapply reconciles_cons; [exact (run_of_exec _ _ _ Hn)|].
  eapply reconciles_cons; [exact (run_of_exec _ _ _ Hm)|]. apply reconciles_nil.
Qed.

(** [deep_route] first, live or being deleted, then its neighbour. *)
Lemma Reconcile_noninterference_witness :
  (converged example_reconciler (second_run deep_route).2 (example_key deep_route) ∧
   orderly_cluster (second_run deep_route).2) ∧
  cleaned (second_run deleted_route).2 (example_key deleted_route) deleted_route.
Proof.
  split.
  - assert (exec serve (cluster deep_route)
      (Reconcile example_reconciler (example_key deep_route))
      (run_of deep_route (cluster deep_route)).1.2 (Ok (mkResult 30))
      (run_of deep_route (cluster deep_route)).2) as Hex
      by (apply run_of_exec; vm_compute; reflexivity).
    assert (orderly_cluster (cluster deep_route)) as Hord by (apply cluster_orderly; by left).
    destruct (Reconcile_noninterference (A:=memory_server) example_reconciler
      (example_key shallow_route) (run_of deep_route (cluster deep_route)).2
      (second_run deep_route).1.2 (mkResult 30) (second_run deep_route).2 (example_key deep_route))
      as (Hc & _ & Hord2); [apply run_of_exec; vm_compute; reflexivity| |intros [=]|].
    { exact (Reconcile_orderly _ _ _ _ _ _ Hex Hord). }
    split; [|exact Hord2]. apply Hc.
    apply (settled_own _ _ _ _ _ _ deep_route Hex Hord). vm_compute. reflexivity.
  - assert (exec serve (cluster deleted_route)
      (Reconcile example_reconciler (example_key deleted_route))
      (run_of deleted_route (cluster deleted_route)).1.2 (Ok (mkResult 0))
      (run_of deleted_route (cluster deleted_route)).2) as Hex
      by (apply run_of_exec; vm_compute; reflexivity).
    assert (orderly_cluster (cluster deleted_route)) as Hord
      by (apply cluster_orderly; do 2 right; by left).
    destruct (Reconcile_noninterference (A:=memory_server) example_reconciler
      (example_key shallow_route) (run_of deleted_route (cluster deleted_route)).2
      (second_run deleted_route).1.2 (mkResult 30) (second_run deleted_route).2
      (example_key deleted_route))
      as (_ & Hc & _); [apply run_of_exec; vm_compute; reflexivity| |intros [=]|].
    { exact (Reconcile_orderly _ _ _ _ _ _ Hex Hord). }
    apply Hc.
    apply (settled_own _ _ _ _ _ _ deleted_route Hex Hord). vm_compute. reflexivity.
Defined.

(** One Route is live, the other is being deleted. *)
Lemma cluster_converges_witness :
  converged example_reconciler (second_run deleted_route).2 (example_key shallow_route) ∧
  cleaned (second_run deleted_route).2 (example_key deleted_route) deleted_route.
Proof.
  assert (reconciles example_reconciler (cluster deleted_route)
    [example_key deleted_route; example_key shallow_route] (second_run deleted_route).2) as Hrun.
  { apply (both_reconciled deleted_route (mkResult 0) (mkResult 30));
      vm_compute; reflexivity. }
  assert (orderly_cluster (cluster deleted_route)) as Hord
    by (apply cluster_orderly; do 2 right; by left).
  split.
  - apply (cluster_converges (A:=memory_server) example_reconciler (cluster deleted_route) _ _
      (example_key shallow_route) shallow_route Hrun Hord);
      [right; by left | vm_compute; reflexivity].
  - apply (cluster_converges (A:=memory_server) example_reconciler (cluster deleted_route) _ _
      (example_key deleted_route) deleted_route Hrun Hord);
      [by left | vm_compute; reflexivity].
Defined.

(** The hypothesis that a Route being deleted has no finalizer but the
    controller's is needed: while another finalizer keeps [deep_route] in the
    store, the reconciliation of its neighbour lists it again, and the
    VirtualService sends traffic to a Service that is gone. *)
Definition held_route : Route := with_Finalizers deleted_route [finalizerName; "example.com/hold"].

Definition virtual_service_hosts (w : stores) : list string :=
  (map_to_list (virtual_services_of w)).*2 ≫= λ v,
    Http (VS_Spec v) ≫= λ h, Destination_Host <$> omap HTTP_Destination (HTTP_Route h).
Definition service_names (w : stores) : list string :=
  (Name ∘ Service_ObjectMeta ∘ snd) <$> map_to_list (services_of w).

Theorem held_route_resurfaces :
  let w1 := (run_of held_route (cluster held_route)).2 in
  let w2 := (run_of shallow_route w1).2 in
  let w3 := (run_of held_route w2).2 in
  ("s-d1" ∉ service_names w1) ∧ virtual_service_hosts w1 = ["s-d0"] ∧
  ("s-d1" ∉ service_names w2) ∧ virtual_service_hosts w2 = ["s-d1"; "s-d0"] ∧
  ("s-d1" ∉ service_names w3) ∧ virtual_service_hosts w3 = ["s-d1"; "s-d0"].
Proof. cbv zeta. apply (bool_decide_unpack _). vm_compute. exact I. Qed.

(** A Route whose host is changed gets a VirtualService for its new FQDN; the
    one of the old FQDN stays and still routes to it. *)
Definition moved_route : Route :=
  let s := Route_Spec deep_route in
  mkRoute (Route_TypeMeta deep_route) (Route_ObjectMeta claimed_route)
    (mkRouteSpec "moved" (Path s) "moved.domain0.example.com/path0/deeper" (Domain s) (Destinations s))
    (Route_Status deep_route).

Definition lone_cluster : stores := mkStores {[ example_key deep_route := deep_route ]} ∅ ∅.
Definition move (w : stores) : stores :=
  mkStores {[ example_key deep_route := moved_route ]} (raw_services w) (raw_virtual_services w).
Definition virtual_service_targets (w : stores) : list (list string * list string) :=
  (λ v, (Hosts (VS_Spec v),
         Http (VS_Spec v) ≫= λ h, Destination_Host <$> omap HTTP_Destination (HTTP_Route h)))
    <$> (map_to_list (virtual_services_of w)).*2.

Theorem moved_route_leaves_virtual_service :
  let w1 := (run_of deep_route lone_cluster).2 in
  let w2 := (run_of deep_route (move w1)).2 in
  FQDN moved_route = "moved.domain0.example.com" ∧
  (run_of deep_route (move w1)).1.1 = Ok (mkResult 30) ∧
  virtual_service_targets w1 = [(["test0.domain0.example.com"], ["s-d1"])] ∧
  virtual_service_targets w2 =
    [(["moved.domain0.example.com"], ["s-d1"]); (["test0.domain0.example.com"], ["s-d1"])].
Proof.
  cbv zeta. split; [reflexivity|]. split; [vm_compute; reflexivity|].
  apply (bool_decide_unpack _). vm_compute. exact I.
Qed.
