(* ===== verification/RecoveryExamples.v ===== *)
(** An in-memory server whose calls may time out, with or without effect, and a
    cluster that is put in order after interrupted reconciliations. *)
From S2P Require Import Prelude Runtime Api Client RouteController ApiServer BuilderRouting.
From S2P Require Import ControllerConvergence ControllerExamples Cluster ClusterExamples Recovery.

#[local] Existing Instance go_reference.
#[local] Existing Instance k8s_reference.

Definition timed_out : error := StatusError "Timeout" "try again".

(** Each call answers as the in-memory server does, or times out. *)
Definition flaky_serve (w : stores) (a : action) (rep : reply a) (w' : stores) : Prop :=
  handle_step mem_handle w a rep w' ∨
  (rep = inr timed_out ∧ (w' = w ∨ ∃ v, handle_step mem_handle w a (inl v) w')).

Definition flaky_server : ApiServer := {|
  server := stores;
  serve := flaky_serve;
  routes_of := mem_routes;
  services_of := mem_services;
  virtual_services_of := mem_vss;
|}.
#[local] Existing Instance flaky_server.

Lemma flaky_ok w a v w' : flaky_serve w a (inl v) w' → handle_step mem_handle w a (inl v) w'.
Proof. by intros [?|[? _]]. Qed.

Lemma flaky_reads w a rep w' :
  match a with
  | Get_Route _ | List_Routes _ _ | List_Services _ _ | Get_VirtualService _ => True
  | _ => False
  end → flaky_serve w a rep w' → @same_objects flaky_server w w'.
Proof.
  intros Ha [Hs|[_ [->|[v Hs]]]].
  - exact (@serve_reads _ _ memory_server_laws w a rep w' Ha Hs).
  - done.
  - exact (@serve_reads _ _ memory_server_laws w a _ w' Ha Hs).
Qed.

#[local] Instance flaky_server_laws : ApiServerLaws k8s_reference flaky_server.
Proof.
  split; cbn [serve routes_of services_of virtual_services_of flaky_server server].
  - exact (@routes_keyed _ _ memory_server_laws).
  - exact (@services_keyed _ _ memory_server_laws).
  - exact flaky_reads.
  - intros w k rep w' [Hs|[-> _]]; [|done]. exact (@serve_Get_Route _ _ memory_server_laws w k rep w' Hs).
  - intros w k rep w' [Hs|[-> _]]; [|done]. exact (@serve_Get_VirtualService _ _ memory_server_laws w k rep w' Hs).
  - intros w ns fqdn l w' Hs%flaky_ok. exact (@serve_List_Routes _ _ memory_server_laws w ns fqdn l w' Hs).
  - intros w ns owner l w' Hs%flaky_ok. exact (@serve_List_Services _ _ memory_server_laws w ns owner l w' Hs).
  - intros w x x' w' Hs%flaky_ok. exact (@serve_Update_Route _ _ memory_server_laws w x x' w' Hs).
  - intros w s f v w' Hs%flaky_ok. exact (@serve_CreateOrUpdate_Service _ _ memory_server_laws w s f v w' Hs).
  - intros w s f v w' Hs%flaky_ok.
    exact (@serve_CreateOrUpdate_VirtualService _ _ memory_server_laws w s f v w' Hs).
  - intros w s w' Hs%flaky_ok. exact (@serve_Delete_Service _ _ memory_server_laws w s w' Hs).
  - intros w v w' Hs%flaky_ok. exact (@serve_Delete_VirtualService _ _ memory_server_laws w v w' Hs).
Qed.

(** An error of the in-memory server itself changes nothing. *)
Lemma mem_handle_error w a e w' :
  mem_handle a w = (inr e, w') → @same_objects flaky_server w w'.
Proof.
  unfold same_objects. cbn. unfold mem_routes, mem_services, mem_vss.
  destruct a; cbn [mem_handle]; unfold mem_upsert, mem_delete, mem_routes, mem_services, mem_vss;
    repeat case_match; intros [=]; simplify_eq; cbn; rewrite ?visible_idem; done.
Qed.

#[local] Instance flaky_server_failures : ApiServerFailures flaky_server.
Proof.
  split. intros w a e w' [Hs|[_ [->|[v Hs]]]].
  - left. exact (mem_handle_error _ _ _ _ Hs).
  - by left.
  - right. exists v. by left.
Qed.

(** * Runs *)

Lemma mem_exec {X} w (p : prog X) t o w' :
  exec (handle_step mem_handle) w p t o w' → exec flaky_serve w p t o w'.
Proof. induction 1; econstructor; [by left|done]. Qed.

(** The state after [n] calls. *)
Fixpoint stop_after {X} (n : nat) (p : prog X) (w : stores) : stores :=
  match n, p with
  | S n, Act a k => let '(rep, w1) := mem_handle a w in stop_after n (k rep) w1
  | _, _ => w
  end.

Lemma stop_after_reaches {X} n (p : prog X) w :
  reaches (A:=flaky_server) w p (stop_after n p w).
Proof.
  revert p w. induction n as [|n IH]; intros p w; [destruct p; apply stops|].
  destruct p as [o|a k]; [apply stops|]. cbn. destruct (mem_handle a w) as [rep w1] eqn:Ha.
  eapply goes_on; [by left|apply IH].
Qed.

(** [deleted_route] is finalized up to the deletion of its Services, then the
    process stops; [shallow_route] gets no further than its Services either. *)
Definition stopped_once : stores :=
  stop_after 4 (Reconcile example_reconciler (example_key deleted_route)) (cluster deleted_route).
Definition stopped_twice : stores :=
  stop_after 5 (Reconcile example_reconciler (example_key shallow_route)) stopped_once.

Definition recovered_once := run_of shallow_route stopped_twice.
Definition recovered := run_of deleted_route recovered_once.2.

Lemma recovered_reconciles :
  reconciles (A:=flaky_server) example_reconciler stopped_twice
    [example_key shallow_route; example_key deleted_route] recovered.2.
Proof.
  eapply reconciles_cons;
    [exact (mem_exec _ _ _ _ _ (run_of_exec shallow_route stopped_twice (mkResult 30)
       ltac:(vm_compute; reflexivity)))|].
  eapply reconciles_cons;
    [exact (mem_exec _ _ _ _ _ (run_of_exec deleted_route recovered_once.2 (mkResult 0)
       ltac:(vm_compute; reflexivity)))|].
  apply reconciles_nil.
Qed.

Lemma crash_recovery_witness :
  converged example_reconciler recovered.2 (example_key shallow_route) ∧
  cleaned recovered.2 (example_key deleted_route) deleted_route.
Proof.
  assert (disturbed (A:=flaky_server) example_reconciler (cluster deleted_route) stopped_twice) as Hdis.
  { eapply disturbed_more; [apply stop_after_reaches|].
    eapply disturbed_more; [apply stop_after_reaches|]. apply undisturbed. }
  pose proof recovered_reconciles as Hrun.
  assert (orderly_cluster (H0:=flaky_server) (cluster deleted_route)) as Hord.
  { destruct (cluster_orderly deleted_route) as [H1 H2 H3 H4]; [do 2 right; by left|].
    split; [exact H1|exact H2|exact H3|exact H4]. }
  split.
  - apply (crash_recovery (A:=flaky_server) example_reconciler _ _ _ _
      (example_key shallow_route) shallow_route Hord Hdis Hrun);
      [by left|vm_compute; reflexivity].
  - apply (crash_recovery (A:=flaky_server) example_reconciler _ _ _ _
      (example_key deleted_route) deleted_route Hord Hdis Hrun);
      [right; by left|vm_compute; reflexivity].
Defined.
