(* ===== verification/ReliabilityExamples.v ===== *)
(** The in-memory server does not fail, and a cluster of two Routes, one of them
    being deleted, is in sync after one pass. *)
From S2P Require Import Prelude Runtime Api Client RouteController ApiServer.
From S2P Require Import BuilderStructure BuilderRouting ControllerConvergence ControllerExamples.
From S2P Require Import Cluster ClusterExamples Recovery RecoveryExamples Reliability.

#[local] Existing Instance go_reference.
#[local] Existing Instance k8s_reference.
#[local] Existing Instance memory_server.

#[local] Instance memory_server_failures : ApiServerFailures memory_server.
Proof. split. intros w a e w' Hs. left. exact (mem_handle_error _ _ _ _ Hs). Qed.

Lemma mem_upsert_error {O} `{EqDecision O} (key : O → NamespacedName) assign obj mutate
    (m : gmap NamespacedName O) e m' v :
  mem_upsert key assign obj mutate m = (inr e, m') →
  mutate (default obj (m !! key obj)) = (v, None) → key v ≠ key obj.
Proof.
  unfold mem_upsert. intros Hm Hv. rewrite Hv in Hm. by case_decide.
Qed.

#[local] Instance memory_server_reliable : ReliableServer k8s_reference memory_server.
Proof.
  split; cbn [serve routes_of services_of virtual_services_of memory_server server];
    unfold handle_step.
  - intros w a. destruct (mem_handle a w) as [rep w'] eqn:Ha. by exists rep, w'.
  - intros w k e w'. cbn [mem_handle]. unfold mem_get. case_match; [done|]. by intros [= <- <-].
  - done.
  - intros w x e w'. cbn [mem_handle]. by destruct (mem_routes w !! route_key x).
  - done.
  - intros w ns u l w'. intros [= <- <-]. apply mem_list_NoDup.
  - intros w s f e w'. cbn [mem_handle]. destruct (mem_upsert _ _ _ _ _) as [rep m'] eqn:Hm.
    intros [= -> <-] v. by eapply mem_upsert_error.
  - intros w s e w'. cbn [mem_handle]. unfold mem_delete.
    by destruct (mem_services w !! service_key s).
  - intros w s f e w'. cbn [mem_handle]. destruct (mem_upsert _ _ _ _ _) as [rep m'] eqn:Hm.
    intros [= -> <-] v. by eapply mem_upsert_error.
  - intros w k e w'. cbn [mem_handle]. unfold mem_get. case_match; [done|]. by intros [= <- <-].
  - intros w k v [_ Hk]%visible_lookup. exact Hk.
  - intros w v e w'. cbn [mem_handle]. unfold mem_delete. by destruct (mem_vss w !! vs_key v).
Qed.

Lemma cluster_valid r :
  r ∈ [deep_route; claimed_route; deleted_route] → valid_cluster (cluster r).
Proof.
  intros Hr.
  assert (valid_route shallow_route ∧ valid_route r ∧
    Internal (Domain (Route_Spec r)) = Internal (Domain (Route_Spec shallow_route))) as (Hs & Hv & Hi).
  { rewrite !elem_of_cons in Hr. destruct Hr as [-> | [-> | [-> | ?%not_elem_of_nil]]]; [..|done];
      (split_and!; [..|done]); (split; [apply Forall_singleton; by eexists|]); split; auto. }
  split.
  - by intros k x [-> | ->]%cluster_routes.
  - intros k k' x x' [-> | ->]%cluster_routes [-> | ->]%cluster_routes _; congruence.
Qed.

Lemma one_pass_settles_witness :
  ∃ w', passes (A:=memory_server) example_reconciler (cluster deleted_route)
      [example_key shallow_route; example_key deleted_route] w' ∧
    converged (A:=memory_server) example_reconciler w' (example_key shallow_route) ∧
    cleaned (A:=memory_server) w' (example_key deleted_route) deleted_route ∧
    only_routed (A:=memory_server) w' (virtual_service_key deleted_route).
Proof.
  destruct (one_pass_settles (A:=memory_server) example_reconciler (cluster deleted_route)
    [example_key shallow_route; example_key deleted_route]) as [[w' Hp] Hall].
  - apply cluster_orderly. do 2 right. by left.
  - apply cluster_valid. do 2 right. by left.
  - exists w'. destruct (Hall w' Hp) as [_ Hset]. split; [exact Hp|]. split.
    + apply (Hset (example_key shallow_route) shallow_route); [by left|vm_compute; reflexivity].
    + destruct (Hset (example_key deleted_route) deleted_route) as [Hc Hv];
        [right; by left|vm_compute; reflexivity|].
      split; [exact Hc|]. apply Hv. reflexivity.
Defined.
