(* ===== verification/LifecycleExamples.v ===== *)
(** A cluster in which a user deletes a Route while it is being reconciled, on
    the server whose calls may time out. *)
From S2P Require Import Prelude Runtime Api Client RouteController ApiServer BuilderRouting.
From S2P Require Import ControllerConvergence ControllerExamples Cluster ClusterExamples Recovery.
From S2P Require Import RecoveryExamples Interference Lifecycle.

#[local] Existing Instance go_reference.
#[local] Existing Instance k8s_reference.
#[local] Existing Instance flaky_server.
#[local] Existing Instance flaky_server_laws.
#[local] Existing Instance flaky_server_failures.





(** The program and the state after [n] calls. *)
Fixpoint advance {X} (n : nat) (p : prog X) (w : stores) : prog X * stores :=
  match n, p with
  | S n, Act a k => let '(rep, w1) := mem_handle a w in advance n (k rep) w1
  | _, _ => (p, w)
  end.




(** [claimed_route] is read as a live Route; then it is marked as deleted, and
    the reconciliation goes on to write its Services before it stops. *)
Definition overtaken : prog Result :=
  (advance 2 (Reconcile example_reconciler (example_key claimed_route)) (cluster claimed_route)).1.
Definition overtaken_state : stores := stop_after 2 overtaken (cluster deleted_route).




(** A Service was written for the Route although it is being deleted. *)
Example overtaken_services :
  nn_Name <$> (map_to_list (raw_services overtaken_state)).*1 ≡ₚ ["s-d1"; "s-old"; "s-foreign"].
Proof. apply (bool_decide_unpack _). vm_compute. exact I. Qed.




