(* ===== verification/VirtualServiceJSON.v ===== *)
(** MarshalJSON and UnmarshalJSON of
    src/routecontroller/apis/istio/networking/v1alpha3/virtualservice_types.go:
    jsonpb (a parameter) writes through a bufio.Writer into a bytes.Buffer, both
    of Go's standard library and modelled here.  Bytes reach the buffer when
    the writer fills up or is flushed. *)
From S2P Require Import Prelude Api.
From Stdlib Require Import Strings.Byte.

(** * bytes.Buffer and bufio.Writer *)

Definition bytes : Type := list byte.

(** [func (b *Buffer) Write(p []byte) (n int, err error)]: never fails. *)
Definition Buffer_Write (buffer p : bytes) : bytes * nat * option error :=
  (buffer ++ p, length p, None).

(** The Writer: the underlying buffer, what is buffered, and the first error. *)
Record Writer := mkWriter { wr : bytes; buf : bytes; werr : option error }.

Definition defaultBufSize : nat := 4096.
Definition NewWriter (buffer : bytes) : Writer := mkWriter buffer [] None.
Definition Available (w : Writer) : nat := defaultBufSize - length (buf w).

Definition io_ErrShortWrite : error := errors_New "short write".

Definition Flush (w : Writer) : Writer :=
  match werr w with
  | Some _ => w
  | None =>
      if Nat.eqb (length (buf w)) 0 then w else
      let '(wr', n, err) := Buffer_Write (wr w) (buf w) in
      let err := if isNil err && (n <? length (buf w)) then Some io_ErrShortWrite else err in
      if isNil err then mkWriter wr' [] None else mkWriter wr' (drop n (buf w)) err
  end.

(** [for len(p) > b.Available() && b.err == nil { ... }]: at most [rounds]
    rounds; the writer and what is left of [p]. *)
Fixpoint write_rounds (rounds : nat) (w : Writer) (p : bytes) : Writer * bytes :=
  match rounds with
  | 0 => (w, p)
  | S rounds =>
      if (Available w <? length p) && isNil (werr w) then
        if Nat.eqb (length (buf w)) 0 then
          let '(wr', n, err) := Buffer_Write (wr w) p in
          write_rounds rounds (mkWriter wr' (buf w) err) (drop n p)
        else
          let n := Nat.min (Available w) (length p) in
          write_rounds rounds (Flush (mkWriter (wr w) (buf w ++ take n p) (werr w))) (drop n p)
      else (w, p)
  end.

(** [func (b *Writer) Write(p []byte)]: after two rounds the loop has ended
    ([write_rounds_end]). *)
Definition Write (w : Writer) (p : bytes) : Writer :=
  let '(w, p) := write_rounds 2 w p in
  match werr w with
  | Some _ => w
  | None => mkWriter (wr w) (buf w ++ take (Available w) p) None
  end.

(** * The methods *)

(** github.com/gogo/protobuf/jsonpb, on Istio's VirtualService: the writes a
    Marshaler makes and its error, and what an Unmarshaler makes of its target. *)
Class JSONPB := {
  jsonpb_Marshal : VirtualServiceSpec → list bytes * option error;
  jsonpb_Unmarshal : bytes → VirtualServiceSpec → VirtualServiceSpec * option error;
}.

Section methods.
Context {J : JSONPB}.

Definition MarshalJSON (p : VirtualServiceSpec) : outcome bytes :=
  let writer := NewWriter [] in
  let '(chunks, err) := jsonpb_Marshal p in
  let writer := foldl Write writer chunks in
  match err with
  | Some err => Err err
  | None => Ok (wr (Flush writer))
  end.

Definition UnmarshalJSON (p : VirtualServiceSpec) (b : bytes) : VirtualServiceSpec * option error :=
  let '(p, err) := jsonpb_Unmarshal b p in
  match err with
  | Some err => (p, Some err)
  | None => (p, None)
  end.
End methods.

(** * The writer loses nothing *)

(** Within its capacity, without an error. *)
Definition writer_ok (w : Writer) : Prop := length (buf w) ≤ defaultBufSize ∧ werr w = None.

(** Everything written so far. *)
Definition written (w : Writer) : bytes := wr w ++ buf w.

Lemma Flush_spec w :
  writer_ok w → writer_ok (Flush w) ∧ wr (Flush w) = written w ∧ buf (Flush w) = [].
Proof.
  destruct w as [u b e]. intros [Hlen He]. cbn in Hlen, He. subst e. unfold Flush, written.
  cbn [werr buf wr Buffer_Write isNil andb]. rewrite Nat.ltb_irrefl. destruct b as [|x b]; cbn.
  - by rewrite app_nil_r.
  - split_and!; [|done..]. split; [apply Nat.le_0_l | done].
Qed.

Lemma fill_bound (size : nat) (b p : bytes) :
  length b ≤ size → length (b ++ take (Nat.min (size - length b) (length p)) p) ≤ size.
Proof. rewrite length_app, length_take. lia. Qed.

Lemma append_bound (size : nat) (b p : bytes) :
  length b ≤ size → length p ≤ size - length b → length (b ++ p) ≤ size.
Proof. rewrite length_app. lia. Qed.

(** One round, as an equation: the size of the buffer stays folded. *)
Lemma write_rounds_S rounds w p :
  write_rounds (S rounds) w p =
  if (Available w <? length p) && isNil (werr w) then
    if Nat.eqb (length (buf w)) 0 then
      write_rounds rounds (mkWriter (wr w ++ p) (buf w) None) (drop (length p) p)
    else
      let n := Nat.min (Available w) (length p) in
      write_rounds rounds (Flush (mkWriter (wr w) (buf w ++ take n p) (werr w))) (drop n p)
  else (w, p).
Proof. reflexivity. Qed.

Lemma write_rounds_spec rounds w p w' p' :
  writer_ok w → write_rounds rounds w p = (w', p') →
  writer_ok w' ∧ written w' ++ p' = written w ++ p.
Proof.
  revert w p. induction rounds as [|rounds IH]; intros w p Hw.
  { by intros [= <- <-]. }
  destruct Hw as [Hlen He]. rewrite write_rounds_S, He. cbn [isNil]. rewrite andb_true_r.
  destruct (Nat.ltb_spec (Available w) (length p)); [|by intros [= <- <-]].
  destruct (Nat.eqb_spec (length (buf w)) 0) as [Hb|Hb].
  - intros Hrest. apply IH in Hrest as [Hw' Heq]; [|by split].
    split; [done|]. rewrite Heq. unfold written. cbn. apply nil_length_inv in Hb. rewrite Hb.
    by rewrite !app_nil_r, drop_all, app_nil_r.
  - set (n := Nat.min (Available w) (length p)).
    destruct (Flush_spec (mkWriter (wr w) (buf w ++ take n p) None)) as (Hok & Hwr & Hbuf).
    { split; [exact (fill_bound _ _ _ Hlen) | done]. }
    intros Hrest. apply IH in Hrest as [Hw' Heq]; [|done].
    split; [done|]. rewrite Heq. unfold written at 1. rewrite Hwr, Hbuf. unfold written. cbn.
    by rewrite app_nil_r, <- !(assoc_L (++)), take_drop.
Qed.

Lemma write_rounds_nil k w : write_rounds k w [] = (w, []).
Proof.
  destruct k as [|k]; [done|]. rewrite write_rounds_S.
  by rewrite (proj2 (Nat.ltb_ge (Available w) (length (@nil byte))) (Nat.le_0_l _)).
Qed.

Lemma write_rounds_unbuffered k w p w' p' :
  buf w = [] → werr w = None → write_rounds (S k) w p = (w', p') → length p' ≤ Available w'.
Proof.
  intros Hb He. rewrite write_rounds_S, He, Hb. cbn [isNil length Nat.eqb]. rewrite andb_true_r. destruct (Nat.ltb_spec (Available w) (length p)); [|by intros [= <- <-]].
  rewrite drop_all, write_rounds_nil. intros [= <- <-]. apply Nat.le_0_l.
Qed.

(** Two rounds end the loop: what is left fits into the buffer. *)
Lemma write_rounds_end w p w' p' :
  writer_ok w → write_rounds 2 w p = (w', p') → length p' ≤ Available w'.
Proof.
  intros [Hlen He]. destruct (decide (buf w = [])) as [Hb|Hb]; [by apply write_rounds_unbuffered|].
  rewrite write_rounds_S, He. cbn [isNil]. rewrite andb_true_r.
  destruct (Nat.ltb_spec (Available w) (length p)); [|by intros [= <- <-]].
  destruct (Nat.eqb_spec (length (buf w)) 0) as [?%nil_length_inv|_]; [done|].
  set (n := Nat.min (Available w) (length p)).
  destruct (Flush_spec (mkWriter (wr w) (buf w ++ take n p) None)) as ([_ He'] & _ & Hb').
  { split; [exact (fill_bound _ _ _ Hlen) | done]. }
  intros Hr. exact (write_rounds_unbuffered 0 _ _ _ _ Hb' He' Hr).
Qed.

Lemma Write_spec w p : writer_ok w → writer_ok (Write w p) ∧ written (Write w p) = written w ++ p.
Proof.
  intros Hw. unfold Write. destruct (write_rounds 2 w p) as [w' p'] eqn:Hr.
  pose proof (write_rounds_end _ _ _ _ Hw Hr) as Hend.
  destruct (write_rounds_spec _ _ _ _ _ Hw Hr) as [[Hlen He] <-]. rewrite He.
  rewrite take_ge by done. unfold Available in Hend. split.
  - split; [|done]. cbn [buf]. by apply append_bound.
  - unfold written. cbn [wr buf]. by rewrite (assoc_L (++)).
Qed.

Lemma Writes_spec w chunks :
  writer_ok w →
  writer_ok (foldl Write w chunks) ∧ written (foldl Write w chunks) = written w ++ concat chunks.
Proof.
  revert w. induction chunks as [|p chunks IH]; intros w Hw; cbn [foldl concat].
  - by rewrite app_nil_r.
  - destruct (Write_spec w p Hw) as [Hw' Heq]. destruct (IH _ Hw') as [Hok ->].
    by rewrite Heq, (assoc_L (++)).
Qed.

Section theorems.
Context {J : JSONPB}.

(** C22: the methods are transparent, whatever jsonpb does: MarshalJSON returns
    exactly the bytes that jsonpb wrote, in order, however many writes of
    whatever sizes they came in and wherever the buffer filled up between or
    within them; if jsonpb fails it returns that error and no bytes; it never
    panics.  UnmarshalJSON makes of bytes what jsonpb makes of all of them, its
    error included. *)
Theorem JSON_transparent p q b :
  MarshalJSON p = match jsonpb_Marshal p with
                  | (chunks, None) => Ok (concat chunks)
                  | (_, Some e) => Err e
                  end ∧
  UnmarshalJSON q b = jsonpb_Unmarshal b q.
Proof.
  split.
  - unfold MarshalJSON. destruct (jsonpb_Marshal p) as [chunks [e|]]; [done|].
    destruct (Writes_spec (NewWriter []) chunks) as [Hw Heq].
    { split; [apply Nat.le_0_l | done]. }
    f_equal. by rewrite (proj1 (proj2 (Flush_spec _ Hw))), Heq.
  - unfold UnmarshalJSON. by destruct (jsonpb_Unmarshal b q) as [? [?|]].
Qed.
End theorems.

(** * Example *)

(** Writes that fill the buffer up between and within them, and one that is
    larger than it: 1, 4095, 1, 9000, 3000 and 0 bytes. *)
Definition long_writes : list bytes :=
  [[x7b]; replicate 4095 x30; [x2c]; replicate (3 * 3000) x31; replicate 3000 x32; []].

Definition writing (chunks : list bytes) : JSONPB := {|
  jsonpb_Marshal _ := (chunks, None);
  jsonpb_Unmarshal _ p := (p, Some (errors_New "not used"));
|}.

(** The last 3000 bytes are still in the writer when jsonpb is done. *)
Example long_writes_buffered :
  let w := foldl Write (NewWriter []) long_writes in
  (N.of_nat (length (wr w)), N.of_nat (length (buf w))) = (13097, 3000)%N.
Proof. vm_compute. reflexivity. Qed.

Example long_writes_marshalled :
  MarshalJSON (J:=writing long_writes) (mkVirtualServiceSpec [] [] []) = Ok (concat long_writes).
Proof. vm_compute. reflexivity. Qed.
