(* ===== verification/GoMemory.v ===== *)
(** Go's memory, as far as pointers, slices and maps make it observable: a heap
    of allocated objects, pointers to (fields and elements of) them, [new],
    [make], [copy], [append], and map assignment.  A struct value holds the
    locations its pointers, slices and maps refer to; [deep] reads the value
    behind them, together with its footprint, the locations it reaches.

    [None] is a run-time panic (a nil dereference, an index out of range); a
    dangling or ill-typed pointer, which Go excludes, is [None] as well. *)
From S2P Require Import Prelude Runtime.

Definition loc : Type := positive.

(** Where [new] and [make] put an object is left open. *)
Class Allocator := { pick : gset loc → loc }.
Class AllocatorLaws (A : Allocator) : Prop := { pick_fresh X : pick X ∉ X }.

Definition bump_allocator : Allocator := {| pick X := (set_fold Pos.max 1 X + 1)%positive |}.

#[export] Instance bump_allocator_laws : AllocatorLaws bump_allocator.
Proof.
  split. intros X HX. cbn in HX.
  assert (∀ l, l ∈ X → (l ≤ set_fold Pos.max 1 X)%positive) as Hmax.
  { apply (set_fold_ind_L (λ m Y, ∀ l, l ∈ Y → (l ≤ m)%positive)).
    - set_solver.
    - intros l Y m _ IH l' [->%elem_of_singleton|?%IH]%elem_of_union; lia. }
  apply Hmax in HX. lia.
Qed.

(** A struct field: how to read it and how to replace it. *)
Record lens (T U : Type) := mkLens {
  lget : T → U;
  lput : U → T → T;
  lget_lput u t : lget (lput u t) = u;
  lput_lput u u' t : lput u (lput u' t) = lput u t;
  lput_lget t : lput (lget t) t = t;
}.
Arguments mkLens {T U}. Arguments lget {T U}. Arguments lput {T U}.
Arguments lget_lput {T U}. Arguments lput_lput {T U}. Arguments lput_lget {T U}.

(** The header of a slice: its part of a backing array. *)
Record header := mkHeader { Array : loc; Offset : nat; Len : nat; Cap : nat }.
Definition slice : Type := option header.
Definition pointer : Type := option loc.

(** Memory: the objects that were allocated. *)
Abbreviation heap := (gmap loc).

(** The objects that hold values of [T]: arrays; a single variable is an array
    of length one. *)
Class Typed (obj T : Type) := {
  inject : list T → obj;
  project : obj → option (list T);
  project_inject l : project (inject l) = Some l;
  project_Some o l : project o = Some l → o = inject l;
}.

Section memory.
Context {obj : Type}.

(** Computations that read and write memory. *)
Definition Mem (A : Type) : Type := heap obj → option (A * heap obj).
#[export] Instance Mem_ret : MRet Mem := λ A a h, Some (a, h).
#[export] Instance Mem_bind : MBind Mem := λ A B f c h, '(a, h') ← c h; f a h'.
Definition Fault {A} : Mem A := λ _, None.

(** A pointer to a part of an object. *)
Record ptr (T : Type) := mkPtr {
  base : loc;
  focus : obj → option T;
  refocus : T → obj → obj;
}.
Arguments mkPtr {T}. Arguments base {T}. Arguments focus {T}. Arguments refocus {T}.

Definition load {T} (p : ptr T) (h : heap obj) : option T := o ← h !! base p; focus p o.
Definition Load {T} (p : ptr T) : Mem T := λ h, t ← load p h; Some (t, h).
Definition Store {T} (p : ptr T) (t : T) : Mem unit := λ h,
  o ← h !! base p; _ ← focus p o; Some (tt, <[base p := refocus p t o]> h).

(** [&p.f] *)
Definition field {T U} (p : ptr T) (f : lens T U) : ptr U :=
  mkPtr (base p) (λ o, lget f <$> focus p o)
    (λ u o, match focus p o with Some t => refocus p (lput f u t) o | None => o end).

(** The [i]-th element of an array object. *)
Definition element {T} `{Typed obj T} (l : loc) (i : nat) : ptr T :=
  mkPtr l (λ o, ts ← project o; ts !! i)
    (λ t o, match project o with Some ts => inject (<[i := t]> ts) | None => o end).

(** The variable a [*T] points to. *)
Definition variable {T} `{Typed obj T} (l : loc) : ptr T := element l 0.

Definition allocate `{Allocator} (o : obj) : Mem loc := λ h,
  let l := pick (dom h) in Some (l, <[l := o]> h).

(** [new(T)] and [make([]T, n)], given the zero value of [T] *)
Definition new `{Allocator} {T} `{Typed obj T} (zero : T) : Mem loc := allocate (inject [zero]).
Definition make_slice `{Allocator} {T} `{Typed obj T} (zero : T) (n : nat) : Mem slice :=
  l ← allocate (inject (replicate n zero)); mret (Some (mkHeader l 0 n n)).

Definition slice_len (s : slice) : nat := match s with None => 0 | Some d => Len d end.

(** [&s[i]] *)
Definition at_index {T} `{Typed obj T} (s : slice) (i : nat) : Mem (ptr T) :=
  match s with
  | Some d => if decide (i < Len d) then mret (element (Array d) (Offset d + i)) else Fault
  | None => Fault
  end.

(** [*p] for a pointer that may be nil *)
Definition target {T} `{Typed obj T} (p : pointer) : Mem (ptr T) :=
  match p with Some l => mret (variable l) | None => Fault end.

(** The elements of a slice, read or replaced at once; [copy(dst, src)]. *)
Definition elements {T} `{Typed obj T} (s : slice) (h : heap obj) : option (list T) :=
  match s with
  | None => Some []
  | Some d =>
      ts ← h !! Array d ≫= project;
      if decide (Len d ≤ Cap d ∧ Offset d + Cap d ≤ length ts)
      then Some (take (Len d) (drop (Offset d) ts)) else None
  end.
Definition splice {T} (i : nat) (new old : list T) : list T :=
  take i old ++ new ++ drop (i + length new) old.
Definition write_elements {T} `{Typed obj T} (d : header) (new : list T) : Mem unit := λ h,
  ts ← h !! Array d ≫= project;
  if decide (Offset d + length new ≤ length ts)
  then Some (tt, <[Array d := inject (splice (Offset d) new ts)]> h) else None.
Definition copy_slice {T} `{Typed obj T} (dst src : slice) : Mem unit := λ h,
  ts ← elements src h;
  match dst with
  | None => Some (tt, h)
  | Some d => write_elements d (take (Len d) ts) h
  end.

(** [m[k] = v] on a map: assignment to a nil map panics. *)
Definition map_assign `{Typed obj (gmap string string)} (m : pointer) (k v : string) : Mem unit :=
  p ← target m; x ← Load p; Store p (<[k := v]> x).
Definition make_map `{Allocator} `{Typed obj (gmap string string)} : Mem pointer :=
  l ← new ∅; mret (Some l).
End memory.
Arguments Mem obj A : clear implicits.
Arguments ptr obj T : clear implicits.
Arguments mkPtr {obj T}. Arguments base {obj T}. Arguments focus {obj T}. Arguments refocus {obj T}.

(** * The value behind a struct *)

(** How to read the value behind a [T]: the value and its footprint.  Reading
    depends on the footprint alone. *)
Record view (obj T V : Type) := mkView {
  deep : heap obj → T → option (V * gset loc);
  deep_frame h h' t v F :
    deep h t = Some (v, F) → (∀ l, l ∈ F → h' !! l = h !! l) → deep h' t = Some (v, F);
  deep_dom h t v F : deep h t = Some (v, F) → F ⊆ dom h;
}.
Arguments mkView {obj T V}. Arguments deep {obj T V}.
Arguments deep_frame {obj T V}. Arguments deep_dom {obj T V}.

(** A type without pointers. *)
Program Definition plain {obj T} : view obj T T := mkView (λ _ t, Some (t, ∅)) _ _.
Next Obligation. done. Qed.
Next Obligation. intros obj T h t v F [= <- <-]. set_solver. Qed.

Section views.
Context {obj T V : Type} (vw : view obj T V).

Fixpoint deep_list (h : heap obj) (ts : list T) : option (list V * gset loc) :=
  match ts with
  | [] => Some ([], ∅)
  | t :: ts => '(v, F) ← deep vw h t; '(vs, Ss) ← deep_list h ts; Some (v :: vs, F ∪ Ss)
  end.

Definition deep_pointer `{Typed obj T} (h : heap obj) (p : pointer)
    : option (option V * gset loc) :=
  match p with
  | None => Some (None, ∅)
  | Some l => t ← load (variable l) h; '(v, F) ← deep vw h t; Some (Some v, {[l]} ∪ F)
  end.

(** A slice reaches its whole backing array, which its elements do not reach:
    no type here contains slices of itself. *)
Definition deep_slice `{Typed obj T} (h : heap obj) (s : slice)
    : option (option (list V) * gset loc) :=
  match s with
  | None => Some (None, ∅)
  | Some d =>
      ts ← elements s h; '(vs, F) ← deep_list h ts;
      if decide (Array d ∈ F) then None else Some (Some vs, {[Array d]} ∪ F)
  end.

Lemma deep_list_cons h t ts vs F :
  deep_list h (t :: ts) = Some (vs, F) ↔
  ∃ v Sv vs' F', deep vw h t = Some (v, Sv) ∧ deep_list h ts = Some (vs', F') ∧
    vs = v :: vs' ∧ F = Sv ∪ F'.
Proof.
  cbn [deep_list]. split.
  - intros ([v Sv] & Hv & ([vs' F'] & Hvs & [= <- <-])%bind_Some)%bind_Some. eauto 10.
  - intros (v & Sv & vs' & F' & -> & Hvs & -> & ->). cbn. by rewrite Hvs.
Qed.

Lemma deep_list_app h ts ts' vs vs' F F' :
  deep_list h ts = Some (vs, F) → deep_list h ts' = Some (vs', F') →
  deep_list h (ts ++ ts') = Some (vs ++ vs', F ∪ F').
Proof.
  intros Hts Hts'. revert vs F Hts. induction ts as [|t ts IH]; intros vs F.
  - intros [= <- <-]. cbn [app]. rewrite Hts'. do 2 f_equal. set_solver.
  - rewrite deep_list_cons. intros (v & Fv & vs1 & F1 & Hv & Hvs & -> & ->). cbn [app].
    apply deep_list_cons. exists v, Fv, (vs1 ++ vs'), (F1 ∪ F').
    split_and!; [done | by apply IH | done | set_solver].
Qed.

Lemma deep_list_app_inv h ts ts' vs F :
  deep_list h (ts ++ ts') = Some (vs, F) →
  ∃ vs1 F1 vs2 F2, deep_list h ts = Some (vs1, F1) ∧ deep_list h ts' = Some (vs2, F2) ∧
    vs = vs1 ++ vs2 ∧ F = F1 ∪ F2.
Proof.
  revert vs F. induction ts as [|t ts IH]; intros vs F; cbn [app].
  - intros Hd. exists [], ∅, vs, F. split_and!; [done..|set_solver].
  - rewrite deep_list_cons.
    intros (v & Fv & vs' & F' & Hv & (vs1 & F1 & vs2 & F2 & H1 & H2 & -> & ->)%IH & -> & ->).
    exists (v :: vs1), (Fv ∪ F1), vs2, F2. split_and!; [|done..|set_solver].
    apply deep_list_cons. by exists v, Fv, vs1, F1.
Qed.

Lemma deep_list_length h ts vs F : deep_list h ts = Some (vs, F) → length vs = length ts.
Proof.
  revert vs F. induction ts as [|t ts IH]; intros vs F; [by intros [= <- <-]|].
  rewrite deep_list_cons. intros (v & Fv & vs' & F' & _ & Hvs%IH & -> & _). cbn. by rewrite Hvs.
Qed.

Lemma deep_list_lookup h ts vs F i t v :
  deep_list h ts = Some (vs, F) → ts !! i = Some t → vs !! i = Some v →
  ∃ Fi, deep vw h t = Some (v, Fi) ∧ Fi ⊆ F.
Proof.
  revert vs F i. induction ts as [|t' ts IH]; intros vs F i; [done|].
  rewrite deep_list_cons. intros (v' & Fv & vs' & F' & Hv & Hvs & -> & ->).
  destruct i as [|i]; cbn [lookup].
  - intros [= <-] [= <-]. exists Fv. split; [done | set_solver].
  - intros Ht Hi. destruct (IH _ _ _ Hvs Ht Hi) as (Fi & ? & ?). exists Fi.
    split; [done | set_solver].
Qed.

Lemma deep_list_frame h h' ts vs F :
  deep_list h ts = Some (vs, F) → (∀ l, l ∈ F → h' !! l = h !! l) → deep_list h' ts = Some (vs, F).
Proof.
  revert vs F. induction ts as [|t ts IH]; intros vs F; [done|].
  rewrite !deep_list_cons. intros (v & Sv & vs' & F' & Hv & Hvs & -> & ->) Hl.
  exists v, Sv, vs', F'. split_and!; [|apply IH; [done|]|done..].
  - eapply deep_frame; [done|]. set_solver.
  - set_solver.
Qed.

Lemma deep_list_dom h ts vs F : deep_list h ts = Some (vs, F) → F ⊆ dom h.
Proof.
  revert vs F. induction ts as [|t ts IH]; intros vs F; [intros [= <- <-]; set_solver|].
  rewrite deep_list_cons. intros (v & Sv & vs' & F' & Hv%deep_dom & Hvs%IH & -> & ->). set_solver.
Qed.
End views.

Lemma load_frame {obj T} (p : ptr obj T) (h h' : heap obj) :
  h' !! base p = h !! base p → load p h' = load p h.
Proof. unfold load. by intros ->. Qed.

Lemma load_dom {obj T} (p : ptr obj T) (h : heap obj) t : load p h = Some t → base p ∈ dom h.
Proof. unfold load. intros (o & Ho & _)%bind_Some. by apply elem_of_dom_2 in Ho. Qed.

Lemma elements_frame {obj T} `{Typed obj T} d (h h' : heap obj) :
  h' !! Array d = h !! Array d → elements (T:=T) (Some d) h' = elements (Some d) h.
Proof. cbn. by intros ->. Qed.

Program Definition pointer_view {obj T V} `{Typed obj T} (vw : view obj T V)
    : view obj pointer (option V) := mkView (deep_pointer vw) _ _.
Next Obligation.
  intros obj T V ? vw h h' [l|] v F; [|done]. cbn [deep_pointer].
  intros (t & Ht & ([v' F'] & Hv & [= <- <-])%bind_Some)%bind_Some Hl.
  rewrite (load_frame _ h) by (apply Hl; set_solver). rewrite Ht. cbn.
  erewrite deep_frame; [done..|]. set_solver.
Qed.
Next Obligation.
  intros obj T V ? vw h [l|] v F; cbn [deep_pointer]; [|intros [= <- <-]; set_solver].
  intros (t & Ht%load_dom & ([v' F'] & Hv%deep_dom & [= <- <-])%bind_Some)%bind_Some.
  cbn in Ht. set_solver.
Qed.

Program Definition slice_view {obj T V} `{Typed obj T} (vw : view obj T V)
    : view obj slice (option (list V)) := mkView (deep_slice vw) _ _.
Next Obligation.
  intros obj T V ? vw h h' [d|] v F; [|done]. cbn [deep_slice].
  intros (ts & Ht & ([v' F'] & Hv & Hif)%bind_Some)%bind_Some Hl.
  destruct (decide _) as [|Hn] eqn:Hdec in Hif; [done|]. injection Hif as <- <-.
  rewrite (elements_frame _ h) by (apply Hl; set_solver). rewrite Ht. cbn.
  erewrite deep_list_frame; [|done|set_solver]. cbn. by rewrite Hdec.
Qed.
Next Obligation.
  intros obj T V ? vw h [d|] v F; cbn [deep_slice]; [|intros [= <- <-]; set_solver].
  intros (ts & Ht & ([v' F'] & Hv%deep_list_dom & Hif)%bind_Some)%bind_Some.
  destruct (decide _); [done|]. injection Hif as <- <-. cbn in Ht. apply bind_Some in Ht as (ts' & (o & Ho%elem_of_dom_2 & _)%bind_Some & _). set_solver.
Qed.

(** A struct, from the parts of it that hold pointers: [get] takes them out and
    [build] puts their values in. *)
Program Definition struct_view {obj T T' V' V} (get : T → T') (vw : view obj T' V')
    (build : T → V' → V) : view obj T V :=
  mkView (λ h t, '(v, F) ← deep vw h (get t); Some (build t v, F)) _ _.
Next Obligation.
  intros obj T T' V' V get vw build h h' t v F ([v' F'] & Hv & [= <- <-])%bind_Some Hl.
  by erewrite deep_frame.
Qed.
Next Obligation.
  intros obj T T' V' V get vw build h t v F ([v' F'] & Hv & [= <- <-])%bind_Some.
  by eapply deep_dom.
Qed.

Program Definition pair_view {obj T1 V1 T2 V2} (vw1 : view obj T1 V1) (vw2 : view obj T2 V2)
    : view obj (T1 * T2) (V1 * V2) :=
  mkView (λ h t, '(v1, F1) ← deep vw1 h t.1; '(v2, F2) ← deep vw2 h t.2;
                 Some ((v1, v2), F1 ∪ F2)) _ _.
Next Obligation.
  intros obj T1 V1 T2 V2 vw1 vw2 h h' t v F
    ([v1 F1] & Hv1 & ([v2 F2] & Hv2 & [= <- <-])%bind_Some)%bind_Some Hl.
  erewrite (deep_frame vw1); [|done|set_solver]. cbn.
  by erewrite (deep_frame vw2); [|done|set_solver].
Qed.
Next Obligation.
  intros obj T1 V1 T2 V2 vw1 vw2 h t v F
    ([v1 F1] & Hv1%deep_dom & ([v2 F2] & Hv2%deep_dom & [= <- <-])%bind_Some)%bind_Some.
  set_solver.
Qed.

Lemma deep_struct_Some {obj T T' V' V} (get : T → T') (vw : view obj T' V')
    (build : T → V' → V) h t v F :
  deep (struct_view get vw build) h t = Some (v, F) ↔
  ∃ v', deep vw h (get t) = Some (v', F) ∧ v = build t v'.
Proof.
  cbn [deep struct_view]. split.
  - intros ([v' F'] & Hv & [= <- <-])%bind_Some. eauto.
  - intros (v' & -> & ->). done.
Qed.

Lemma deep_pair_Some {obj T1 V1 T2 V2} (vw1 : view obj T1 V1) (vw2 : view obj T2 V2) h t v F :
  deep (pair_view vw1 vw2) h t = Some (v, F) ↔
  ∃ v1 F1 v2 F2, deep vw1 h t.1 = Some (v1, F1) ∧ deep vw2 h t.2 = Some (v2, F2) ∧
    v = (v1, v2) ∧ F = F1 ∪ F2.
Proof.
  cbn [deep pair_view]. split.
  - intros ([v1 F1] & Hv1 & ([v2 F2] & Hv2 & [= <- <-])%bind_Some)%bind_Some. eauto 10.
  - intros (v1 & F1 & v2 & F2 & -> & Hv2 & -> & ->). cbn. by rewrite Hv2.
Qed.

Lemma deep_pointer_Some {obj T V} `{Typed obj T} (vw : view obj T V) h l x F :
  deep (pointer_view vw) h (Some l) = Some (x, F) ↔
  ∃ t v F', load (variable l) h = Some t ∧ deep vw h t = Some (v, F') ∧
    x = Some v ∧ F = {[l]} ∪ F'.
Proof.
  cbn [deep pointer_view deep_pointer]. split.
  - intros (t & Ht & ([v F'] & Hv & [= <- <-])%bind_Some)%bind_Some. eauto 10.
  - intros (t & v & F' & -> & Hv & -> & ->). cbn. by rewrite Hv.
Qed.

Lemma deep_slice_Some {obj T V} `{Typed obj T} (vw : view obj T V) h d x F :
  deep (slice_view vw) h (Some d) = Some (x, F) ↔
  ∃ ts vs F', elements (Some d) h = Some ts ∧ deep_list vw h ts = Some (vs, F') ∧
    Array d ∉ F' ∧ x = Some vs ∧ F = {[Array d]} ∪ F'.
Proof.
  cbn [deep slice_view deep_slice]. split.
  - intros (ts & Hts & ([vs F'] & Hvs & Hif)%bind_Some)%bind_Some.
    destruct (decide _); [done|]. injection Hif as <- <-. eauto 10.
  - intros (ts & vs & F' & -> & Hvs & Hn & -> & ->). cbn [mbind option_bind]. rewrite Hvs.
    cbn [mbind option_bind]. by rewrite decide_False.
Qed.

(** * Loads and stores *)

Class PtrOk {obj T} (p : ptr obj T) : Prop := {
  focus_refocus o t : is_Some (focus p o) → focus p (refocus p t o) = Some t;
  refocus_refocus o t t' : is_Some (focus p o) → refocus p t (refocus p t' o) = refocus p t o;
  refocus_id o t : focus p o = Some t → refocus p t o = o;
}.

#[export] Instance element_ok {obj T} `{Typed obj T} l i : PtrOk (element (T:=T) l i).
Proof.
  split; cbn.
  - intros o t [t0 (ts & Hp & Ht)%bind_Some]. rewrite Hp, project_inject. cbn.
    apply list_lookup_insert_eq. by eapply lookup_lt_Some.
  - intros o t t' [t0 (ts & Hp & Ht)%bind_Some]. rewrite Hp, project_inject.
    by rewrite list_insert_insert_eq.
  - intros o t (ts & Hp & Ht)%bind_Some. rewrite Hp, list_insert_id by done.
    symmetry. by apply project_Some.
Qed.

#[export] Instance variable_ok {obj T} `{Typed obj T} l : PtrOk (variable (T:=T) l).
Proof. apply element_ok. Qed.

#[export] Instance field_ok {obj T U} (p : ptr obj T) (f : lens T U) : PtrOk p → PtrOk (field p f).
Proof.
  intros Hp. split; cbn.
  - intros o u [u0 (t & Ht & _)%fmap_Some]. rewrite Ht, focus_refocus by done. cbn.
    by rewrite lget_lput.
  - intros o u u' [u0 (t & Ht & _)%fmap_Some]. rewrite Ht, focus_refocus, refocus_refocus by done.
    by rewrite lput_lput.
  - intros o u (t & Ht & ->)%fmap_Some. rewrite Ht, lput_lget. by apply refocus_id.
Qed.

(** The heap after a write through [q]. *)
Definition updated {obj T} (q : ptr obj T) (t : T) (h : heap obj) : heap obj :=
  alter (refocus q t) (base q) h.

Section updates.
Context {obj : Type}.
Implicit Types (h : heap obj).

Lemma Store_spec {T} (q : ptr obj T) t t0 h :
  load q h = Some t0 → Store q t h = Some (tt, updated q t h).
Proof.
  unfold load, Store. intros (o & Ho & Hf)%bind_Some. rewrite Ho. cbn. rewrite Hf. cbn.
  unfold updated. do 2 f_equal. apply map_eq. intros l. destruct (decide (l = base q)) as [->|Hne].
  - by rewrite lookup_insert_eq, lookup_alter_eq, Ho.
  - by rewrite lookup_insert_ne, lookup_alter_ne.
Qed.

Lemma Load_eval {T} (p : ptr obj T) t h : load p h = Some t → Load p h = Some (t, h).
Proof. unfold Load. by intros ->. Qed.

Lemma load_updated {T} (q : ptr obj T) `{!PtrOk q} t t0 h :
  load q h = Some t0 → load q (updated q t h) = Some t.
Proof.
  unfold load, updated. intros (o & Ho & Hf)%bind_Some. rewrite lookup_alter_eq, Ho. cbn.
  by apply focus_refocus.
Qed.

Lemma load_updated_ne {T U} (p : ptr obj T) (q : ptr obj U) u h :
  base p ≠ base q → load p (updated q u h) = load p h.
Proof. intros Hne. apply load_frame. unfold updated. by rewrite lookup_alter_ne. Qed.

Lemma load_mono {T} (p : ptr obj T) t h h' : h ⊆ h' → load p h = Some t → load p h' = Some t.
Proof.
  intros Hs Hl. rewrite (load_frame _ h); [done|]. apply load_dom, elem_of_dom in Hl as [o Ho].
  rewrite Ho. by eapply lookup_weaken.
Qed.

Lemma updated_updated {T} (q : ptr obj T) `{!PtrOk q} t t' t0 h :
  load q h = Some t0 → updated q t (updated q t' h) = updated q t h.
Proof.
  unfold load. intros (o & Ho & Hf)%bind_Some. unfold updated. rewrite alter_alter_eq.
  apply alter_ext. intros o' Ho'. rewrite Ho in Ho'. injection Ho' as <-. cbn.
  by apply refocus_refocus.
Qed.

Lemma updated_id {T} (q : ptr obj T) `{!PtrOk q} t h : load q h = Some t → updated q t h = h.
Proof.
  unfold load. intros (o & Ho & Hf)%bind_Some. unfold updated. apply alter_id.
  intros o' Ho'. rewrite Ho in Ho'. injection Ho' as <-. by apply refocus_id.
Qed.

Lemma updated_mono {T} (q : ptr obj T) t h h' : h ⊆ h' → updated q t h ⊆ updated q t h'.
Proof.
  intros Hs. apply map_subseteq_spec. intros l o. unfold updated.
  destruct (decide (l = base q)) as [->|Hne].
  - rewrite !lookup_alter_eq. intros (o' & Ho & ->)%fmap_Some.
    by rewrite (lookup_weaken _ _ _ _ Ho Hs).
  - rewrite !lookup_alter_ne by done. intros Ho. by eapply lookup_weaken.
Qed.

Lemma load_field {T U} (p : ptr obj T) (f : lens T U) t h :
  load p h = Some t → load (field p f) h = Some (lget f t).
Proof. unfold load. intros (o & Ho & Hf)%bind_Some. cbn. rewrite Ho. cbn. by rewrite Hf. Qed.

Lemma updated_field {T U} (q : ptr obj T) (f : lens T U) u t h :
  load q h = Some t → updated (field q f) u h = updated q (lput f u t) h.
Proof.
  unfold load. intros (o & Ho & Hf)%bind_Some. unfold updated. cbn. apply alter_ext.
  intros o' Ho'. rewrite Ho in Ho'. injection Ho' as <-. by rewrite Hf.
Qed.

Lemma dom_updated {T} (q : ptr obj T) t h : dom (updated q t h) = dom h.
Proof. apply dom_alter_L. Qed.

Lemma updated_subseteq_dom {T} (q : ptr obj T) t h h' : updated q t h ⊆ h' → dom h ⊆ dom h'.
Proof. intros Hs%subseteq_dom. by rewrite dom_updated in Hs. Qed.

(** A value is untouched by writes outside its footprint. *)
Lemma deep_updated {T V U} (vw : view obj T V) (q : ptr obj U) u h h' t v F :
  deep vw h t = Some (v, F) → base q ∉ F → updated q u h ⊆ h' → deep vw h' t = Some (v, F).
Proof.
  intros Hd Hq Hs. eapply deep_frame; [done|]. intros l Hl.
  pose proof (deep_dom _ _ _ _ _ Hd _ Hl) as [o Ho]%elem_of_dom. rewrite Ho.
  eapply lookup_weaken; [|done]. unfold updated. by rewrite lookup_alter_ne by set_solver.
Qed.

Lemma deep_mono {T V} (vw : view obj T V) h h' t v F :
  deep vw h t = Some (v, F) → h ⊆ h' → deep vw h' t = Some (v, F).
Proof.
  intros Hd Hs. eapply deep_frame; [done|]. intros l Hl.
  pose proof (deep_dom _ _ _ _ _ Hd _ Hl) as [o Ho]%elem_of_dom. rewrite Ho.
  by eapply lookup_weaken.
Qed.

Lemma deep_list_updated {T V U} (vw : view obj T V) (q : ptr obj U) u h h' ts vs F :
  deep_list vw h ts = Some (vs, F) → base q ∉ F → updated q u h ⊆ h' →
  deep_list vw h' ts = Some (vs, F).
Proof.
  intros Hd Hq Hs. eapply deep_list_frame; [done|]. intros l Hl.
  pose proof (deep_list_dom _ _ _ _ _ Hd _ Hl) as [o Ho]%elem_of_dom. rewrite Ho.
  eapply lookup_weaken; [|done]. unfold updated. by rewrite lookup_alter_ne by set_solver.
Qed.

Lemma allocate_spec `{AL : AllocatorLaws} o h :
  ∃ l, allocate o h = Some (l, <[l := o]> h) ∧ l ∉ dom h ∧ h ⊆ <[l := o]> h.
Proof.
  exists (pick (dom h)). split; [done|]. pose proof (pick_fresh (dom h)) as Hl. split; [done|].
  by apply insert_subseteq, not_elem_of_dom.
Qed.

Lemma load_element {T} `{Typed obj T} l i ts t h :
  h !! l = Some (inject ts) → ts !! i = Some t → load (element l i) h = Some t.
Proof. unfold load. cbn. intros -> Ht. cbn. by rewrite project_inject. Qed.

Lemma bind_eval {A B} (c : Mem obj A) (f : A → Mem obj B) a h h' :
  c h = Some (a, h') → (c ≫= f) h = f a h'.
Proof. intros Hc. unfold mbind, Mem_bind. by rewrite Hc. Qed.
End updates.

(** One step of a computation that is known to succeed. *)
Ltac run H := rewrite (bind_eval _ _ _ _ _ H).
