(* ===== verification/Copying.v ===== *)
(** Deep copies through pointers: the fragments controller-gen generates for a
    pointer, a map and a slice inside a [DeepCopyInto], what it means that such
    a function copies ([copies]), and how the copies of the fields make up the
    copy of a struct. *)
From S2P Require Import Prelude Runtime GoMemory.

Section fragments.
Context {obj : Type} {GR : GoRuntime} {AR : Allocator}.

(** [if *in != nil { *out = new(int); **out = **in }] *)
Definition copy_int_pointer `{Typed obj Z} (in_ out : ptr obj pointer) : Mem obj unit :=
  p ← Load in_;
  if isNil p then mret tt else
  l ← new 0%Z;
  _ ← Store out (Some l);
  dst ← (Load out ≫= target);
  src ← (Load in_ ≫= target);
  x ← Load src;
  Store dst x.

(** [if *in != nil { *out = make(map[string]string, len( *in));
    for key, val := range *in { ( *out)[key] = val } }] *)
Definition copy_map `{Typed obj (gmap string string)} (in_ out : ptr obj pointer) : Mem obj unit :=
  p ← Load in_;
  if isNil p then mret tt else
  m ← make_map;
  _ ← Store out m;
  src ← (Load in_ ≫= target);
  x ← Load src;
  foldM (λ _ '(key, val), m ← Load out; map_assign m key val) tt (map_range x).

(** [if *in != nil { *out = make([]T, len( *in));
    for i := range *in { ( *in)[i].DeepCopyInto(&( *out)[i]) } }] *)
Definition copy_elements {T} `{Typed obj T} (zero : T)
    (DeepCopyInto : ptr obj T → ptr obj T → Mem obj unit) (in_ out : ptr obj slice)
    : Mem obj unit :=
  s ← Load in_;
  if isNil s then mret tt else
  s' ← make_slice zero (slice_len s);
  _ ← Store out s';
  foldM (λ _ i,
    src ← (Load in_ ≫= λ s, at_index s i);
    dst ← (Load out ≫= λ s, at_index s i);
    DeepCopyInto src dst) tt (seq 0 (slice_len s)).

(** [if *in != nil { *out = make([]T, len( *in)); copy( *out, *in) }] *)
Definition copy_plain_elements {T} `{Typed obj T} (zero : T) (in_ out : ptr obj slice)
    : Mem obj unit :=
  s ← Load in_;
  if isNil s then mret tt else
  s' ← make_slice zero (slice_len s);
  _ ← Store out s';
  dst ← Load out;
  src ← Load in_;
  copy_slice dst src.

(** [*out = *in] *)
Definition assign {T} (in_ out : ptr obj T) : Mem obj unit := x ← Load in_; Store out x.

(** [if in == nil { return nil }; out := new(T); in.DeepCopyInto(out); return out] *)
Definition copy_new {T} `{Typed obj T} (zero : T)
    (DeepCopyInto : ptr obj T → ptr obj T → Mem obj unit) (in_ : pointer) : Mem obj pointer :=
  match in_ with
  | None => mret None
  | Some l =>
      out ← new zero;
      _ ← DeepCopyInto (variable l) (variable out);
      mret (Some out)
  end.
End fragments.

(** [c in out] succeeds and leaves a deep copy in [*out]: the same value behind
    it, in memory that was free before, and no object but [*out] changed.  It
    may rely on [R] between what [in] and [out] point to. *)
Definition copies {obj T V} (vw : view obj T V) (R : T → T → Prop)
    (c : ptr obj T → ptr obj T → Mem obj unit) : Prop :=
  ∀ h (p q : ptr obj T) t t0 v F,
    PtrOk q → load p h = Some t → load q h = Some t0 → R t t0 → base p ≠ base q →
    deep vw h t = Some (v, F) → base q ∉ F →
    ∃ h' t' F', c p q h = Some (tt, h') ∧ updated q t' h ⊆ h' ∧
      deep vw h' t' = Some (v, F') ∧ F' ## dom h.

Definition anyway {T} : T → T → Prop := λ _ _, True.

Section copies.
Context {obj : Type}.
Implicit Types (h : heap obj).

Lemma copies_weaken {T V} (vw : view obj T V) (R R' : T → T → Prop) c :
  (∀ t t', R' t t' → R t t') → copies vw R c → copies vw R' c.
Proof. intros HR Hc h p q t t0 v F Hq Hp Hl Ht. eapply Hc; eauto. Qed.

(** A struct, some of whose fields are copied already: [*q] holds [tq]. *)
Lemma copies_field {T U V} (vw : view obj U V) (f : lens T U) R c h0 h (p q : ptr obj T) t tq t0 v F :
  copies vw R c → PtrOk q → load p h0 = Some t → load q h0 = Some t0 → base p ≠ base q →
  updated q tq h0 ⊆ h → R (lget f t) (lget f tq) →
  deep vw h0 (lget f t) = Some (v, F) → base q ∉ F →
  ∃ h' u F', c (field p f) (field q f) h = Some (tt, h') ∧ updated q (lput f u tq) h0 ⊆ h' ∧
    deep vw h' u = Some (v, F') ∧ F' ## dom h0 ∧ updated q (lput f u tq) h ⊆ h'.
Proof.
  intros Hc Hq Hp Hl Hne Hs HR Hd HF.
  assert (load p h = Some t) as Hp' by (eapply load_mono; [done|]; by rewrite load_updated_ne).
  assert (load q h = Some tq) as Hq' by (eapply load_mono; [done|]; by eapply load_updated).
  destruct (Hc h (field p f) (field q f) (lget f t) (lget f tq) v F)
    as (h' & u & F' & Hrun & Hup & Hd' & HF'); [apply _|by apply load_field..|done|done| |done|].
  { by eapply deep_updated. }
  rewrite (updated_field _ _ _ tq) in Hup by done.
  exists h', u, F'. split_and!; [done| |done| |done].
  - etrans; [|exact Hup]. rewrite <- (updated_updated q _ tq t0 h0) by done. by apply updated_mono.
  - apply updated_subseteq_dom in Hs. set_solver.
Qed.

(** What was copied stays copied. *)
Lemma copied_stays {T U V} (vw : view obj U V) (q : ptr obj T) tq h0 h h' (u : U) (v : V) F :
  deep vw h u = Some (v, F) → F ## dom h0 → base q ∈ dom h0 → updated q tq h ⊆ h' →
  deep vw h' u = Some (v, F).
Proof. intros Hd HF Hq Hs. eapply deep_updated; [done| |done]. set_solver. Qed.
End copies.

(** * The fragments copy *)

Section fragment_lemmas.
Context {obj : Type} {GR : GoRuntime} {GL : GoRuntimeLaws GR} {AR : Allocator} {AL : AllocatorLaws AR}.
Implicit Types (h : heap obj).

(** [new] and a store of the new location: the steps the fragments share. *)
Lemma store_allocated {T} (q : ptr obj T) `{!PtrOk q} (o : obj) l t t0 h :
  load q h = Some t0 → l ∉ dom h →
  Store q t (<[l := o]> h) = Some (tt, <[l := o]> (updated q t h)) ∧
  load q (<[l := o]> (updated q t h)) = Some t ∧
  updated q t h ⊆ <[l := o]> (updated q t h) ∧
  ∀ {U} (p : ptr obj U) u, base p ≠ base q → load p h = Some u →
    load p (<[l := o]> (updated q t h)) = Some u.
Proof.
  intros Hq Hl. pose proof (load_dom _ _ _ Hq) as Hqd.
  assert (l ≠ base q) as Hne by set_solver.
  assert (updated q t h ⊆ <[l := o]> (updated q t h)) as Hsub.
  { apply insert_subseteq, not_elem_of_dom. by rewrite dom_updated. }
  split_and!; [| |done|].
  - rewrite (Store_spec _ _ t0).
    + unfold updated. by rewrite alter_insert_ne.
    + rewrite (load_frame _ h); [done|]. by apply lookup_insert_ne.
  - eapply load_mono; [done|]. by eapply load_updated.
  - intros U p u Hpq Hp. eapply load_mono; [done|]. by rewrite load_updated_ne.
Qed.

Lemma Load_target {T} `{Typed obj T} (p : ptr obj pointer) l h :
  load p h = Some (Some l) → (Load p ≫= target) h = Some (variable (T:=T) l, h).
Proof. intros Hp. by run (Load_eval _ _ _ Hp). Qed.

Lemma copies_assign {T} : copies (obj:=obj) (plain (T:=T)) anyway assign.
Proof.
  intros h p q t t0 v F Hq Hp Hl _ Hne [= <- <-] _.
  exists (updated q t h), t, ∅. unfold assign.
  run (Load_eval _ _ _ Hp). rewrite (Store_spec _ _ t0) by done.
  split_and!; [done..|set_solver].
Qed.

Lemma copies_int_pointer `{Typed obj Z} :
  copies (pointer_view (plain (T:=Z))) eq copy_int_pointer.
Proof.
  intros h p q t t0 v F Hq Hp Hl <- Hne Hd HF. unfold copy_int_pointer.
  run (Load_eval _ _ _ Hp).
  destruct t as [l|]; cbn [isNil].
  - apply deep_pointer_Some in Hd as (z & _ & _ & Hz & [= <- <-] & -> & ->).
    destruct (allocate_spec (inject [0%Z]) h) as (a & Ha & Hfresh & _).
    run Ha.
    destruct (store_allocated q (inject [0%Z]) a (Some a) (Some l) h Hl Hfresh)
      as (Hst & Hlq & Hsub & Hkeep).
    run Hst.
    assert (load (variable l) h = Some z) as Hz' by done.
    apply (Hkeep _ p) in Hp; [|done].
    apply (Hkeep _ (variable l)) in Hz'; [|set_solver].
    run (Load_target _ _ _ Hlq).
    run (Load_target _ _ _ Hp).
    run (Load_eval _ _ _ Hz').
    set (h1 := <[a := _]> _) in *.
    assert (load (variable a) h1 = Some 0%Z) as Ha1
      by (eapply load_element; [apply lookup_insert_eq | done]).
    rewrite (Store_spec _ _ _ _ Ha1).
    exists (updated (variable a) z h1), (Some a), ({[a]} ∪ ∅). split_and!; [done| | |set_solver].
    + apply map_subseteq_spec. intros k o Hk. unfold updated at 1. rewrite lookup_alter_ne.
      * by eapply lookup_weaken.
      * cbn. intros <-. apply elem_of_dom_2 in Hk. by rewrite dom_updated in Hk.
    + apply deep_pointer_Some. exists z, z, ∅. split_and!; [exact (load_updated _ _ _ _ Ha1)|done..].
  - injection Hd as <- <-. exists h, None, ∅. split_and!; [done| |done|set_solver].
    by rewrite updated_id.
Qed.

(** A heap that differs from another in an object that is not in it. *)
Lemma subseteq_alter_fresh (h h' : heap obj) l f : h ⊆ h' → l ∉ dom h → h ⊆ alter f l h'.
Proof.
  intros Hs Hl. apply map_subseteq_spec. intros k o Hk. rewrite lookup_alter_ne.
  - by eapply lookup_weaken.
  - intros <-. by apply elem_of_dom_2 in Hk.
Qed.

Lemma map_assign_spec `{Typed obj (gmap string string)} a (m : gmap string string) k v h :
  load (variable a) h = Some m →
  map_assign (Some a) k v h = Some (tt, updated (variable a) (<[k := v]> m) h).
Proof.
  intros Hm. unfold map_assign. rewrite (bind_eval _ _ (variable a) h h) by done.
  run (Load_eval _ _ _ Hm). by rewrite (Store_spec _ _ _ _ Hm).
Qed.

(** The loop over the entries: [*q] keeps pointing at the map they end up in. *)
Lemma map_loop `{Typed obj (gmap string string)} (q : ptr obj pointer) a kvs (m : gmap string string) h :
  load q h = Some (Some a) → base q ≠ a → load (variable a) h = Some m →
  ∃ h', foldM (λ _ '(key, val), mp ← Load q; map_assign mp key val) tt kvs h = Some (tt, h') ∧
    load (variable a) h' = Some (foldl (λ m kv, <[kv.1 := kv.2]> m) m kvs) ∧
    ∀ h0, h0 ⊆ h → a ∉ dom h0 → h0 ⊆ h'.
Proof.
  revert m h. induction kvs as [|[k v] kvs IH]; intros m h Hq Hne Hm; cbn [foldM foldl].
  - by exists h.
  - assert ((mp ← Load q; map_assign mp k v) h
      = Some (tt, updated (variable a) (<[k := v]> m) h)) as Hstep.
    { run (Load_eval _ _ _ Hq). by apply map_assign_spec. }
    run Hstep.
    destruct (IH (<[k := v]> m) (updated (variable a) (<[k := v]> m) h)) as (h' & Hrun & Hl & Hs).
    + by rewrite load_updated_ne.
    + done.
    + exact (load_updated _ _ _ _ Hm).
    + exists h'. split_and!; [done..|]. intros h0 Hsub Ha. apply Hs; [|done].
      by apply subseteq_alter_fresh.
Qed.

Lemma foldl_inserts (kvs : list (string * string)) (m : gmap string string) :
  NoDup kvs.*1 → m ##ₘ list_to_map kvs →
  foldl (λ m kv, <[kv.1 := kv.2]> m) m kvs = list_to_map kvs ∪ m.
Proof.
  revert m. induction kvs as [|[k v] kvs IH]; intros m Hnd Hd; cbn [foldl].
  - by rewrite list_to_map_nil, (left_id_L ∅ (∪)).
  - rewrite fmap_cons, NoDup_cons in Hnd. destruct Hnd as [Hk Hnd]. cbn in Hd |- *.
    apply map_disjoint_insert_r in Hd as [Hmk Hd].
    rewrite IH; [|done|].
    + rewrite <- insert_union_r, insert_union_l; [done|]. by apply not_elem_of_list_to_map.
    + apply map_disjoint_insert_l. split; [by apply not_elem_of_list_to_map | done].
Qed.

Lemma foldl_map_range (m : gmap string string) :
  foldl (λ m kv, <[kv.1 := kv.2]> m) ∅ (map_range m) = m.
Proof.
  assert (NoDup (map_range m).*1) as Hnd
    by (rewrite map_range_Permutation; apply NoDup_fst_map_to_list).
  rewrite foldl_inserts; [|done|apply map_disjoint_empty_l].
  rewrite (right_id_L ∅ (∪)). rewrite <- (list_to_map_to_list m) at 2.
  apply list_to_map_proper; [done|]. apply map_range_Permutation.
Qed.

Lemma copies_map `{Typed obj (gmap string string)} :
  copies (pointer_view (plain (T:=gmap string string))) eq copy_map.
Proof.
  intros h p q t t0 v F Hq Hp Hl <- Hne Hd HF. unfold copy_map.
  run (Load_eval _ _ _ Hp).
  destruct t as [l|]; cbn [isNil].
  - apply deep_pointer_Some in Hd as (m & _ & _ & Hm & [= <- <-] & -> & ->).
    destruct (allocate_spec (inject [∅ : gmap string string]) h) as (a & Ha & Hfresh & _).
    unfold make_map. rewrite (bind_eval _ _ (Some a) _ _) by by run Ha.
    destruct (store_allocated q (inject [∅ : gmap string string]) a (Some a) (Some l) h Hl Hfresh)
      as (Hst & Hlq & Hsub & Hkeep).
    run Hst.
    pose proof (Hkeep _ p _ Hne Hp) as Hp'.
    assert (load (variable (T:=gmap string string) l) (<[a := inject [∅ : gmap string string]]>
      (updated q (Some a) h)) = Some m) as Hm' by (apply (Hkeep _ (variable l)); [set_solver | done]).
    run (Load_target (T:=gmap string string) _ _ _ Hp'). run (Load_eval _ _ _ Hm').
    pose proof (load_dom _ _ _ Hl) as Hqd.
    destruct (map_loop q a (map_range m) ∅ _ Hlq) as (h' & Hrun & Hl' & Hs).
    { by intros <-. }
    { eapply load_element; [apply lookup_insert_eq | done]. }
    rewrite foldl_map_range in Hl'.
    exists h', (Some a), ({[a]} ∪ ∅). split_and!; [exact Hrun| | |set_solver].
    + apply Hs; [done|]. by rewrite dom_updated.
    + apply deep_pointer_Some. by exists m, m, ∅.
  - injection Hd as <- <-. exists h, None, ∅. split_and!; [done| |done|set_solver].
    by rewrite updated_id.
Qed.

Lemma elements_lookup {T} `{Typed obj T} d (ts : list T) i t h :
  elements (Some d) h = Some ts → ts !! i = Some t →
  i < Len d ∧ load (element (Array d) (Offset d + i)) h = Some t.
Proof.
  cbn. intros (us & (o & Ho & Hus)%bind_Some & Hts)%bind_Some Ht.
  destruct (decide _); [|done]. injection Hts as <-.
  pose proof (lookup_lt_Some _ _ _ Ht) as Hi. rewrite length_take, length_drop in Hi.
  split; [lia|]. rewrite lookup_take_lt, lookup_drop in Ht by lia.
  unfold load. cbn. rewrite Ho. cbn. by rewrite Hus.
Qed.

Lemma elements_length {T} `{Typed obj T} s (ts : list T) h :
  elements s h = Some ts → length ts = slice_len s.
Proof.
  destruct s as [d|]; [|by intros [= <-]]. cbn. intros (us & _ & Hts)%bind_Some.
  destruct (decide _); [|done]. injection Hts as <-. rewrite length_take, length_drop. lia.
Qed.

Lemma elements_fresh {T} `{Typed obj T} a n (ts : list T) h :
  h !! a = Some (inject ts) → length ts = n → elements (Some (mkHeader a 0 n n)) h = Some ts.
Proof.
  intros Ha <-. cbn. rewrite Ha. cbn. rewrite project_inject. cbn.
  rewrite decide_True by lia. by rewrite drop_0, firstn_all.
Qed.

Section elements.
Context {T V : Type} `{Typed obj T} (vw : view obj T V).
Context (c : ptr obj T → ptr obj T → Mem obj unit) (Hc : copies vw anyway c).

(** One round of the loop and all that follow. *)
Lemma elements_loop (p q : ptr obj slice) d a n (ts : list T) vs F h0 k i h us F' :
  load p h0 = Some (Some d) → base p ≠ base q → PtrOk q → is_Some (load q h0) →
  elements (Some d) h0 = Some ts → deep_list vw h0 ts = Some (vs, F) → base q ∉ F →
  base q ≠ Array d → a ∉ dom h0 → length ts = n → length us = n → i + k = n →
  updated q (Some (mkHeader a 0 n n)) h0 ⊆ h → h !! a = Some (inject us) →
  deep_list vw h (take i us) = Some (take i vs, F') → F' ## dom h0 → a ∉ F' →
  ∃ h' us' F'',
    foldM (λ _ i,
      src ← (Load p ≫= λ s, at_index s i);
      dst ← (Load q ≫= λ s, at_index s i);
      c src dst) tt (seq i k) h = Some (tt, h') ∧
    updated q (Some (mkHeader a 0 n n)) h0 ⊆ h' ∧ h' !! a = Some (inject us') ∧
    length us' = n ∧ deep_list vw h' us' = Some (vs, F'') ∧ F'' ## dom h0 ∧ a ∉ F''.
Proof.
  intros Hp Hne Hq [s0 Hs0] Hts Hvs HF Hqd Ha Hn. revert i h us F'.
  induction k as [|k IH]; intros i h us F' Hus Hi Hsub Hau Hd HF' HaF'.
  - exists h, us, F'. pose proof (deep_list_length _ _ _ _ _ Hvs).
    rewrite !take_ge in Hd by lia. by split_and!.
  - destruct (lookup_lt_is_Some_2 ts i) as [t Ht]; [lia|].
    destruct (lookup_lt_is_Some_2 us i) as [u Hu]; [lia|].
    destruct (lookup_lt_is_Some_2 vs i) as [v Hv]; [rewrite (deep_list_length _ _ _ _ _ Hvs); lia|].
    destruct (elements_lookup _ _ _ _ _ Hts Ht) as [Hil Hsrc].
    destruct (deep_list_lookup _ _ _ _ _ _ _ _ Hvs Ht Hv) as (Fi & Hdi & HFi).
    pose proof (deep_dom _ _ _ _ _ Hdi) as Hdom.
    assert (load p h = Some (Some d)) as Hp1
      by (eapply load_mono; [done|]; by rewrite load_updated_ne).
    assert (load q h = Some (Some (mkHeader a 0 n n))) as Hq1
      by (eapply load_mono; [done|]; exact (load_updated _ _ _ _ Hs0)).
    assert (load (element (Array d) (Offset d + i)) h = Some t) as Hsrc1
      by (eapply load_mono; [done|]; by rewrite load_updated_ne).
    pose proof (load_dom _ _ _ Hsrc) as Hdd. cbn [base element] in Hdd.
    destruct (Hc h (element (Array d) (Offset d + i)) (element a i) t u v Fi)
      as (h1 & u' & Fu & Hrun & Hup & Hdu & HFu); [apply _|done| |done| | | |].
    { by eapply load_element. }
    { cbn. set_solver. }
    { eapply deep_updated; [done| |done]. set_solver. }
    { cbn. set_solver. }
    assert (dom h0 ⊆ dom h) as Hdh by by eapply updated_subseteq_dom.
    destruct (IH (S i) h1 (<[i := u']> us) (F' ∪ Fu)) as (h' & us' & F'' & Hrest & Hres).
    + by rewrite length_insert.
    + lia.
    + etrans; [|exact Hup]. apply subseteq_alter_fresh; [done|]. by rewrite dom_updated.
    + eapply lookup_weaken; [|exact Hup]. unfold updated. cbn. rewrite lookup_alter_eq, Hau. cbn.
      by rewrite project_inject.
    + rewrite (take_S_r _ _ u'), (take_S_r vs _ v), take_insert_ge by
        (done || (apply list_lookup_insert_eq; by eapply lookup_lt_Some)).
      apply deep_list_app; [by eapply (deep_list_updated _ (element a i))|].
      apply deep_list_cons. exists v, Fu, [], ∅. split_and!; [done..|set_solver].
    + set_solver.
    + apply elem_of_dom_2 in Hau. set_solver.
    + exists h', us', F''. split; [|done]. cbn [seq foldM].
      rewrite <- Hrest. rewrite (bind_eval _ _ tt h h1); [done|].
      rewrite (bind_eval _ _ (element (Array d) (Offset d + i)) h h).
      2: { run (Load_eval _ _ _ Hp1). cbn [at_index]. by rewrite decide_True. }
      rewrite (bind_eval _ _ (element a (0 + i)) h h); [done|].
      run (Load_eval _ _ _ Hq1). cbn [at_index Len Array Offset]. rewrite decide_True by lia. done.
Qed.
End elements.

Lemma make_slice_spec {T} `{Typed obj T} (zero : T) n (q : ptr obj slice) `{!PtrOk q} s0 h :
  load q h = Some s0 →
  ∃ a, let s := Some (mkHeader a 0 n n) in let h1 := <[a := inject (replicate n zero)]> h in
    make_slice zero n h = Some (s, h1) ∧ a ∉ dom h ∧
    ∃ h2, Store q s h1 = Some (tt, h2) ∧ load q h2 = Some s ∧ updated q s h ⊆ h2 ∧
      h2 !! a = Some (inject (replicate n zero)).
Proof.
  intros Hl. destruct (allocate_spec (inject (replicate n zero)) h) as (a & Ha & Hfresh & _).
  exists a. split_and!; [unfold make_slice; by run Ha|done|].
  destruct (store_allocated q (inject (replicate n zero)) a (Some (mkHeader a 0 n n)) s0 h Hl Hfresh)
    as (Hst & Hlq & Hsub & _).
  eexists. split_and!; [done..|apply lookup_insert_eq].
Qed.

Lemma copies_elements {T V} `{Typed obj T} (vw : view obj T V) zero c :
  copies vw anyway c → copies (slice_view vw) eq (copy_elements zero c).
Proof.
  intros Hc h p q s s0 x F Hq Hp Hl <- Hne Hd HF. unfold copy_elements.
  run (Load_eval _ _ _ Hp). destruct s as [d|]; cbn [isNil].
  - apply deep_slice_Some in Hd as (ts & vs & Fs & Hts & Hvs & HnA & -> & ->).
    pose proof (elements_length _ _ _ Hts) as Hlen.
    destruct (make_slice_spec zero (slice_len (Some d)) q (Some d) h Hl)
      as (a & Hmake & Hfresh & h1 & Hst & Hlq & Hsub & Ha).
    run Hmake. run Hst.
    destruct (elements_loop vw c Hc p q d a (slice_len (Some d)) ts vs Fs h (slice_len (Some d)) 0 h1
      (replicate (slice_len (Some d)) zero) ∅ Hp Hne Hq) as (h' & us & F' & Hrun & Hup & Hau & Hus & Hd' & HF' & HaF);
      [done|done|done|set_solver|set_solver|done|done|apply length_replicate|lia|done|done|done
      |set_solver|set_solver|].
    exists h', (Some (mkHeader a 0 (slice_len (Some d)) (slice_len (Some d)))), ({[a]} ∪ F').
    split_and!; [exact Hrun|done| |set_solver]. apply deep_slice_Some.
    exists us, vs, F'. split_and!; [by apply elements_fresh|done..].
  - injection Hd as <- <-. exists h, None, ∅. split_and!; [done| |done|set_solver].
    by rewrite updated_id.
Qed.

Lemma deep_list_plain {T} (ts : list T) h : deep_list (plain (obj:=obj)) h ts = Some (ts, ∅).
Proof.
  induction ts as [|t ts IH]; [done|]. apply deep_list_cons. exists t, ∅, ts, ∅.
  split_and!; [done..|set_solver].
Qed.

Lemma copies_plain_elements {T} `{Typed obj T} (zero : T) :
  copies (slice_view (plain (T:=T))) eq (copy_plain_elements zero).
Proof.
  intros h p q s s0 x F Hq Hp Hl <- Hne Hd HF. unfold copy_plain_elements.
  run (Load_eval _ _ _ Hp). destruct s as [d|]; cbn [isNil].
  - apply deep_slice_Some in Hd as (ts & vs & Fs & Hts & Hvs & HnA & -> & ->).
    rewrite deep_list_plain in Hvs. injection Hvs as <- <-.
    pose proof (elements_length _ _ _ Hts) as Hlen.
    destruct (make_slice_spec zero (slice_len (Some d)) q (Some d) h Hl)
      as (a & Hmake & Hfresh & h1 & Hst & Hlq & Hsub & Ha).
    set (n := slice_len (Some d)) in *.
    run Hmake. run Hst.
    assert (load p h1 = Some (Some d)) as Hp1
      by (eapply load_mono; [done|]; by rewrite load_updated_ne).
    run (Load_eval _ _ _ Hlq). run (Load_eval _ _ _ Hp1).
    assert (elements (Some d) h1 = Some ts) as Hts1.
    { rewrite (elements_frame _ h); [done|].
      cbn in Hts. apply bind_Some in Hts as (us & (o & Ho & _)%bind_Some & _). rewrite Ho.
      eapply lookup_weaken; [|exact Hsub]. unfold updated. rewrite lookup_alter_ne; [done|set_solver]. }
    exists (<[a := inject ts]> h1), (Some (mkHeader a 0 n n)), ({[a]} ∪ ∅). split_and!.
    + unfold copy_slice. rewrite Hts1. cbn [mbind option_bind]. unfold write_elements.
      cbn [Array Offset Len]. rewrite Ha. cbn [mbind option_bind]. rewrite project_inject.
      cbn [mbind option_bind]. rewrite length_replicate, take_ge, decide_True by lia.
      unfold splice. cbn [take app Nat.add]. rewrite drop_ge, app_nil_r; [done|].
      rewrite length_replicate. lia.
    + apply map_subseteq_spec. intros k o Hk. rewrite lookup_insert_ne.
      * by eapply lookup_weaken.
      * intros <-. apply elem_of_dom_2 in Hk. by rewrite dom_updated in Hk.
    + apply deep_slice_Some. exists ts, ts, ∅. split_and!; [|apply deep_list_plain|set_solver|done..].
      apply elements_fresh; [apply lookup_insert_eq | done].
    + set_solver.
  - injection Hd as <- <-. exists h, None, ∅. split_and!; [done| |done|set_solver].
    by rewrite updated_id.
Qed.

(** * DeepCopy *)

(** A copy in new memory: everything that was in memory is as before. *)
Lemma copy_new_spec {T V} `{Typed obj T} (vw : view obj T V) zero c h l v F :
  copies vw anyway c → deep (pointer_view vw) h (Some l) = Some (Some v, F) →
  ∃ h' out F', copy_new zero c (Some l) h = Some (Some out, h') ∧ h ⊆ h' ∧
    deep (pointer_view vw) h' (Some out) = Some (Some v, F') ∧ F' ## dom h.
Proof.
  intros Hc Hd. apply deep_pointer_Some in Hd as (t & v' & Ft & Ht & Hd & [= <-] & ->).
  unfold copy_new. destruct (allocate_spec (inject [zero]) h) as (a & Ha & Hfresh & Hsub).
  unfold new. run Ha. set (h1 := <[a := _]> h) in *.
  pose proof (load_dom _ _ _ Ht) as Hl. cbn [base variable element] in Hl.
  pose proof (deep_dom _ _ _ _ _ Hd) as Hdom.
  destruct (Hc h1 (variable l) (variable a) t zero v Ft) as (h' & t' & F' & Hrun & Hup & Hd' & HF').
  - apply _.
  - by eapply load_mono.
  - eapply load_element; [apply lookup_insert_eq | done].
  - done.
  - cbn. by intros <-.
  - by eapply deep_mono.
  - cbn. set_solver.
  - exists h', a, ({[a]} ∪ F'). run Hrun. split_and!; [done| | |].
    + etrans; [|exact Hup]. by apply subseteq_alter_fresh.
    + apply deep_pointer_Some. exists t', v, F'. split_and!; [|done..].
      eapply load_mono; [exact Hup|]. eapply load_updated; [apply _|].
      eapply load_element; [apply lookup_insert_eq | done].
    + apply subseteq_dom in Hsub. set_solver.
Qed.

(** The copy and the original never see writes to each other. *)
Lemma copies_apart {T V} (vw : view obj T V) h h' t t' v F F' :
  deep vw h t = Some (v, F) → deep vw h' t' = Some (v, F') → h ⊆ h' → F' ## dom h →
  (∀ h2, (∀ l, l ∉ F' → h2 !! l = h' !! l) → deep vw h2 t = Some (v, F)) ∧
  (∀ h2, (∀ l, l ∉ dom h → h2 !! l = h' !! l) → deep vw h2 t' = Some (v, F')).
Proof.
  intros Hd Hd' Hs HF. pose proof (deep_dom _ _ _ _ _ Hd) as Hdom. split; intros h2 Heq.
  - pose proof (deep_mono _ _ _ _ _ _ Hd Hs) as Hd1. eapply deep_frame; [exact Hd1|].
    intros l Hl. apply Heq. set_solver.
  - eapply deep_frame; [exact Hd'|]. intros l Hl. apply Heq. set_solver.
Qed.
End fragment_lemmas.

(** * Structs

    [start_struct] runs the assignment a [DeepCopyInto] begins with,
    [copy_struct_field Hc f Hv] the copy of the field [f], by [Hc : copies ...]
    and the value [Hv] of the field; the copies of earlier fields are carried
    along. *)
Lemma begin_struct {obj T} (p q : ptr obj T) t t0 h :
  load p h = Some t → load q h = Some t0 →
  assign p q h = Some (tt, updated q t h) ∧ updated q t h ⊆ updated q t h.
Proof.
  intros Hp Hq. split; [|done]. unfold assign. run (Load_eval _ _ _ Hp). by rewrite (Store_spec _ _ t0).
Qed.

Ltac copy_struct_field Hc f Hv :=
  lazymatch goal with
  | Hq : PtrOk ?q, Hp : load ?p ?h0 = Some ?t, Hl : load ?q ?h0 = Some ?t0,
    Hne : base ?p ≠ base ?q, Hsub : updated ?q ?tq ?h0 ⊆ ?h |- _ =>
      let h' := fresh "h" in let u := fresh "u" in let F := fresh "Fu" in
      let Hrun := fresh "Hrun" in let Hsub' := fresh "Hsub" in
      let Hd := fresh "Hcopied" in let HF := fresh "Hfresh" in let Hstep := fresh "Hstep" in
      let HFv := fresh in
      lazymatch type of Hv with
      | _ = Some (_, ?Fv) => assert (base q ∉ Fv) as HFv by set_solver
      end;
      destruct (λ HR, copies_field _ f _ _ h0 h p q t tq t0 _ _ Hc Hq Hp Hl Hne Hsub HR Hv HFv)
        as (h' & u & F & Hrun & Hsub' & Hd & HF & Hstep); [done|];
      repeat match goal with
      | Hold : deep ?w h ?x = Some (?y, ?Fy), Hfr : ?Fy ## dom h0 |- _ =>
          apply (λ H, copied_stays w q _ h0 h h' x y Fy H Hfr (load_dom _ _ _ Hl) Hstep) in Hold
      end;
      clear Hsub Hstep HFv; rename Hsub' into Hsub;
      rewrite (bind_eval _ _ _ _ _ Hrun) || rewrite Hrun
  end.

(** Begin: [*out = *in]; end: the value of the parts makes the value. *)
Ltac start_struct :=
  let h := fresh "h" in let p := fresh "p" in let q := fresh "q" in
  let t := fresh "t" in let t0 := fresh "t0" in let v := fresh "v" in let F := fresh "F" in
  intros h p q t t0 v F Hq Hp Hl _ Hne Hd HF;
  destruct (begin_struct p q t t0 h Hp Hl) as [Hassign Hsub].

Ltac end_struct :=
  eexists _, _, _; split_and!; [reflexivity | eassumption | |];
  [apply deep_struct_Some; eexists; split;
    [repeat (apply deep_pair_Some; eexists _, _, _, _; split_and!;
       [eassumption | | reflexivity | reflexivity]); eassumption
    |reflexivity]
  |set_solver].

(** The parts of the value of a struct. *)
Ltac split_value Hd :=
  let vs := fresh "vs" in
  apply deep_struct_Some in Hd as (vs & Hd & ->);
  repeat (let v := fresh "v" in let F := fresh "Fv" in let vs' := fresh "vs" in
    let F' := fresh "Fv" in let Hv := fresh "Hv" in
    apply deep_pair_Some in Hd as (v & F & vs' & F' & Hv & Hd & -> & ->));
  cbn [fst snd] in *.

(** A field without pointers. *)
Ltac copy_plain_field f :=
  lazymatch goal with
  | Hne : base ?p ≠ base _, Hp : load ?p ?h = Some ?t |- _ =>
      let U := type of (lget f t) in
      let O := lazymatch type of h with gmap _ ?O => O end in
      copy_struct_field (copies_assign (obj:=O) (T:=U)) f
        (eq_refl (Some (lget f t, ∅ : gset loc)))
  end;
  lazymatch goal with Hc : deep plain _ _ = _ |- _ => injection Hc as -> <- end.
