(* ===== verification/DeepCopy.v ===== *)
(** The generated deep copies of the two API packages:
    src/routecontroller/apis/networking/v1alpha1/zz_generated.deepcopy.go and
    src/routecontroller/apis/istio/networking/v1alpha3/zz_generated.deepcopy.go,
    on the memory of GoMemory.

    A struct type is declared once, with its pointers, maps and slices as
    parameters: in memory ([...M]) they are locations and slice headers, as
    values ([...V]) what lies behind them, [None] being nil.  The structs of
    other packages that are embedded here (metav1.ObjectMeta, metav1.ListMeta,
    Istio's VirtualService) and their [DeepCopyInto] are parameters. *)
From S2P Require Import Prelude Runtime Api GoMemory Copying.

(** * Structs *)

Record DestinationSelectorOf (M : Type) := mkSelectorOf { sel_MatchLabels : M }.
Arguments mkSelectorOf {M}. Arguments sel_MatchLabels {M}.

Record RouteDestinationOf (P M : Type) := mkDestinationOf {
  dest_Guid : string;
  dest_Weight : P;
  dest_Port : P;
  dest_App : DestinationApp;
  dest_Selector : DestinationSelectorOf M;
}.
Arguments mkDestinationOf {P M}. Arguments dest_Guid {P M}. Arguments dest_Weight {P M}.
Arguments dest_Port {P M}. Arguments dest_App {P M}. Arguments dest_Selector {P M}.

Record RouteSpecOf (D : Type) := mkSpecOf {
  spec_Host : string;
  spec_Path : string;
  spec_Url : string;
  spec_Domain : RouteDomain;
  spec_Destinations : D;
}.
Arguments mkSpecOf {D}. Arguments spec_Host {D}. Arguments spec_Path {D}.
Arguments spec_Url {D}. Arguments spec_Domain {D}. Arguments spec_Destinations {D}.

Record RouteStatusOf (C : Type) := mkStatusOf { status_Conditions : C }.
Arguments mkStatusOf {C}. Arguments status_Conditions {C}.

Record RouteOf (O D C : Type) := mkRouteOf {
  route_TypeMeta : TypeMeta;
  route_ObjectMeta : O;
  route_Spec : RouteSpecOf D;
  route_Status : RouteStatusOf C;
}.
Arguments mkRouteOf {O D C}. Arguments route_TypeMeta {O D C}. Arguments route_ObjectMeta {O D C}.
Arguments route_Spec {O D C}. Arguments route_Status {O D C}.

Record ListOf (L I : Type) := mkListOf {
  list_TypeMeta : TypeMeta;
  list_ListMeta : L;
  list_Items : I;
}.
Arguments mkListOf {L I}. Arguments list_TypeMeta {L I}. Arguments list_ListMeta {L I}.
Arguments list_Items {L I}.

(** VirtualServiceSpec embeds Istio's VirtualService; VirtualServiceStatus is
    the empty struct. *)
Record VirtualServiceSpecOf (X : Type) := mkVSSpecOf { vsspec_VirtualService : X }.
Arguments mkVSSpecOf {X}. Arguments vsspec_VirtualService {X}.

Record VirtualServiceOf (O X : Type) := mkVSOf {
  vs_TypeMeta : TypeMeta;
  vs_ObjectMeta : O;
  vs_Spec : VirtualServiceSpecOf X;
  vs_Status : unit;
}.
Arguments mkVSOf {O X}. Arguments vs_TypeMeta {O X}. Arguments vs_ObjectMeta {O X}.
Arguments vs_Spec {O X}. Arguments vs_Status {O X}.

Record VirtualServiceListOf (L I : Type) := mkVSListOf {
  vslist_TypeMeta : TypeMeta;
  vslist_ListMeta : L;
  vslist_Items : I;
}.
Arguments mkVSListOf {L I}. Arguments vslist_TypeMeta {L I}. Arguments vslist_ListMeta {L I}.
Arguments vslist_Items {L I}.

(** * The structs of other packages *)

(** Their layout in memory, their value, their zero value, and the objects
    only they use. *)
Class ForeignTypes := {
  ObjectMetaM : Type; ObjectMetaV : Type; ObjectMeta_zero : ObjectMetaM;
  ListMetaM : Type; ListMetaV : Type; ListMeta_zero : ListMetaM;
  IstioM : Type; IstioV : Type; Istio_zero : IstioM;
  foreign_obj : Type;
}.

Section types.
Context `{ForeignTypes}.

Definition SelectorM : Type := DestinationSelectorOf pointer.
Definition DestinationM : Type := RouteDestinationOf pointer pointer.
Definition RouteSpecM : Type := RouteSpecOf slice.
Definition RouteStatusM : Type := RouteStatusOf slice.
Definition RouteM : Type := RouteOf ObjectMetaM slice slice.
Definition RouteListM : Type := ListOf ListMetaM slice.
Definition VSSpecM : Type := VirtualServiceSpecOf IstioM.
Definition VSM : Type := VirtualServiceOf ObjectMetaM IstioM.
Definition VSListM : Type := VirtualServiceListOf ListMetaM slice.

Definition SelectorV : Type := DestinationSelectorOf (option (gmap string string)).
Definition DestinationV : Type := RouteDestinationOf (option Z) (option (gmap string string)).
Definition RouteSpecV : Type := RouteSpecOf (option (list DestinationV)).
Definition RouteStatusV : Type := RouteStatusOf (option (list Condition)).
Definition RouteV : Type :=
  RouteOf ObjectMetaV (option (list DestinationV)) (option (list Condition)).
Definition RouteListV : Type := ListOf ListMetaV (option (list RouteV)).
Definition VSSpecV : Type := VirtualServiceSpecOf IstioV.
Definition VSV : Type := VirtualServiceOf ObjectMetaV IstioV.
Definition VSListV : Type := VirtualServiceListOf ListMetaV (option (list VSV)).
End types.

(** The objects of the heap. *)
Inductive object `{ForeignTypes} : Type :=
  | Ints (l : list Z)
  | Maps (l : list (gmap string string))
  | AppProcesses (l : list AppProcess)
  | DestinationApps (l : list DestinationApp)
  | RouteDomains (l : list RouteDomain)
  | Conditions_ (l : list Condition)
  | Selectors (l : list SelectorM)
  | RouteDestinations (l : list DestinationM)
  | RouteSpecs (l : list RouteSpecM)
  | RouteStatuses (l : list RouteStatusM)
  | Routes (l : list RouteM)
  | RouteLists (l : list RouteListM)
  | VirtualServiceSpecs (l : list VSSpecM)
  | VirtualServiceStatuses (l : list unit)
  | VirtualServices (l : list VSM)
  | VirtualServiceLists (l : list VSListM)
  | Foreign (x : foreign_obj).

Section objects.
Context `{ForeignTypes}.
Local Ltac solve_typed := intros; by repeat (case_match || simplify_eq/=).

#[export] Program Instance typed_Z : Typed object Z :=
  {| inject := Ints; project o := match o with Ints l => Some l | _ => None end |}.
Solve Obligations with solve_typed.
#[export] Program Instance typed_map : Typed object (gmap string string) :=
  {| inject := Maps; project o := match o with Maps l => Some l | _ => None end |}.
Solve Obligations with solve_typed.
#[export] Program Instance typed_AppProcess : Typed object AppProcess :=
  {| inject := AppProcesses; project o := match o with AppProcesses l => Some l | _ => None end |}.
Solve Obligations with solve_typed.
#[export] Program Instance typed_DestinationApp : Typed object DestinationApp :=
  {| inject := DestinationApps;
     project o := match o with DestinationApps l => Some l | _ => None end |}.
Solve Obligations with solve_typed.
#[export] Program Instance typed_RouteDomain : Typed object RouteDomain :=
  {| inject := RouteDomains; project o := match o with RouteDomains l => Some l | _ => None end |}.
Solve Obligations with solve_typed.
#[export] Program Instance typed_Condition : Typed object Condition :=
  {| inject := Conditions_; project o := match o with Conditions_ l => Some l | _ => None end |}.
Solve Obligations with solve_typed.
#[export] Program Instance typed_Selector : Typed object SelectorM :=
  {| inject := Selectors; project o := match o with Selectors l => Some l | _ => None end |}.
Solve Obligations with solve_typed.
#[export] Program Instance typed_Destination : Typed object DestinationM :=
  {| inject := RouteDestinations;
     project o := match o with RouteDestinations l => Some l | _ => None end |}.
Solve Obligations with solve_typed.
#[export] Program Instance typed_RouteSpec : Typed object RouteSpecM :=
  {| inject := RouteSpecs; project o := match o with RouteSpecs l => Some l | _ => None end |}.
Solve Obligations with solve_typed.
#[export] Program Instance typed_RouteStatus : Typed object RouteStatusM :=
  {| inject := RouteStatuses; project o := match o with RouteStatuses l => Some l | _ => None end |}.
Solve Obligations with solve_typed.
#[export] Program Instance typed_Route : Typed object RouteM :=
  {| inject := Routes; project o := match o with Routes l => Some l | _ => None end |}.
Solve Obligations with solve_typed.
#[export] Program Instance typed_RouteList : Typed object RouteListM :=
  {| inject := RouteLists; project o := match o with RouteLists l => Some l | _ => None end |}.
Solve Obligations with solve_typed.
#[export] Program Instance typed_VSSpec : Typed object VSSpecM :=
  {| inject := VirtualServiceSpecs;
     project o := match o with VirtualServiceSpecs l => Some l | _ => None end |}.
Solve Obligations with solve_typed.
#[export] Program Instance typed_VSStatus : Typed object unit :=
  {| inject := VirtualServiceStatuses;
     project o := match o with VirtualServiceStatuses l => Some l | _ => None end |}.
Solve Obligations with solve_typed.
#[export] Program Instance typed_VS : Typed object VSM :=
  {| inject := VirtualServices;
     project o := match o with VirtualServices l => Some l | _ => None end |}.
Solve Obligations with solve_typed.
#[export] Program Instance typed_VSList : Typed object VSListM :=
  {| inject := VirtualServiceLists;
     project o := match o with VirtualServiceLists l => Some l | _ => None end |}.
Solve Obligations with solve_typed.
End objects.

(** * Fields *)

Section fields.
Context `{ForeignTypes}.
#[local] Obligation Tactic :=
  intros; first [reflexivity | match goal with |- _ = ?t => by destruct t end].

Program Definition f_Process : lens DestinationApp AppProcess :=
  mkLens Process (λ x a, mkDestinationApp (App_Guid a) x) _ _ _.
Program Definition f_MatchLabels : lens SelectorM pointer :=
  mkLens sel_MatchLabels (λ x _, mkSelectorOf x) _ _ _.
Program Definition f_Weight : lens DestinationM pointer :=
  mkLens dest_Weight (λ x d, mkDestinationOf (dest_Guid d) x (dest_Port d) (dest_App d)
    (dest_Selector d)) _ _ _.
Program Definition f_Port : lens DestinationM pointer :=
  mkLens dest_Port (λ x d, mkDestinationOf (dest_Guid d) (dest_Weight d) x (dest_App d)
    (dest_Selector d)) _ _ _.
Program Definition f_App : lens DestinationM DestinationApp :=
  mkLens dest_App (λ x d, mkDestinationOf (dest_Guid d) (dest_Weight d) (dest_Port d) x
    (dest_Selector d)) _ _ _.
Program Definition f_Selector : lens DestinationM SelectorM :=
  mkLens dest_Selector (λ x d, mkDestinationOf (dest_Guid d) (dest_Weight d) (dest_Port d)
    (dest_App d) x) _ _ _.
Program Definition f_Domain : lens RouteSpecM RouteDomain :=
  mkLens spec_Domain (λ x s, mkSpecOf (spec_Host s) (spec_Path s) (spec_Url s) x
    (spec_Destinations s)) _ _ _.
Program Definition f_Destinations : lens RouteSpecM slice :=
  mkLens spec_Destinations (λ x s, mkSpecOf (spec_Host s) (spec_Path s) (spec_Url s)
    (spec_Domain s) x) _ _ _.
Program Definition f_Conditions : lens RouteStatusM slice :=
  mkLens status_Conditions (λ x _, mkStatusOf x) _ _ _.
Program Definition f_Route_TypeMeta : lens RouteM TypeMeta :=
  mkLens route_TypeMeta (λ x r, mkRouteOf x (route_ObjectMeta r) (route_Spec r)
    (route_Status r)) _ _ _.
Program Definition f_Route_ObjectMeta : lens RouteM ObjectMetaM :=
  mkLens route_ObjectMeta (λ x r, mkRouteOf (route_TypeMeta r) x (route_Spec r)
    (route_Status r)) _ _ _.
Program Definition f_Route_Spec : lens RouteM RouteSpecM :=
  mkLens route_Spec (λ x r, mkRouteOf (route_TypeMeta r) (route_ObjectMeta r) x
    (route_Status r)) _ _ _.
Program Definition f_Route_Status : lens RouteM RouteStatusM :=
  mkLens route_Status (λ x r, mkRouteOf (route_TypeMeta r) (route_ObjectMeta r)
    (route_Spec r) x) _ _ _.
Program Definition f_List_TypeMeta : lens RouteListM TypeMeta :=
  mkLens list_TypeMeta (λ x l, mkListOf x (list_ListMeta l) (list_Items l)) _ _ _.
Program Definition f_List_ListMeta : lens RouteListM ListMetaM :=
  mkLens list_ListMeta (λ x l, mkListOf (list_TypeMeta l) x (list_Items l)) _ _ _.
Program Definition f_List_Items : lens RouteListM slice :=
  mkLens list_Items (λ x l, mkListOf (list_TypeMeta l) (list_ListMeta l) x) _ _ _.
Program Definition f_VirtualService : lens VSSpecM IstioM :=
  mkLens vsspec_VirtualService (λ x _, mkVSSpecOf x) _ _ _.
Program Definition f_VS_TypeMeta : lens VSM TypeMeta :=
  mkLens vs_TypeMeta (λ x v, mkVSOf x (vs_ObjectMeta v) (vs_Spec v) (vs_Status v)) _ _ _.
Program Definition f_VS_ObjectMeta : lens VSM ObjectMetaM :=
  mkLens vs_ObjectMeta (λ x v, mkVSOf (vs_TypeMeta v) x (vs_Spec v) (vs_Status v)) _ _ _.
Program Definition f_VS_Spec : lens VSM VSSpecM :=
  mkLens vs_Spec (λ x v, mkVSOf (vs_TypeMeta v) (vs_ObjectMeta v) x (vs_Status v)) _ _ _.
Program Definition f_VS_Status : lens VSM unit :=
  mkLens vs_Status (λ x v, mkVSOf (vs_TypeMeta v) (vs_ObjectMeta v) (vs_Spec v) x) _ _ _.
Program Definition f_VSList_TypeMeta : lens VSListM TypeMeta :=
  mkLens vslist_TypeMeta (λ x l, mkVSListOf x (vslist_ListMeta l) (vslist_Items l)) _ _ _.
Program Definition f_VSList_ListMeta : lens VSListM ListMetaM :=
  mkLens vslist_ListMeta (λ x l, mkVSListOf (vslist_TypeMeta l) x (vslist_Items l)) _ _ _.
Program Definition f_VSList_Items : lens VSListM slice :=
  mkLens vslist_Items (λ x l, mkVSListOf (vslist_TypeMeta l) (vslist_ListMeta l) x) _ _ _.
End fields.

(** * What lies behind the structs *)

(** The value of the foreign structs, and their deep copies. *)
Class ForeignOps (FT : ForeignTypes) := {
  ObjectMeta_view : view object ObjectMetaM ObjectMetaV;
  ListMeta_view : view object ListMetaM ListMetaV;
  Istio_view : view object IstioM IstioV;
  ObjectMeta_DeepCopyInto : ptr object ObjectMetaM → ptr object ObjectMetaM → Mem object unit;
  ListMeta_DeepCopyInto : ptr object ListMetaM → ptr object ListMetaM → Mem object unit;
  Istio_DeepCopyInto : ptr object IstioM → ptr object IstioM → Mem object unit;
  (** [m.Name], and the fields of an ObjectMeta that Api models *)
  ObjectMetaM_Name : ObjectMetaM → string;
  ObjectMetaV_api : ObjectMetaV → ObjectMeta;
}.

(** They copy, as their documentation says. *)
Class ForeignLaws (FT : ForeignTypes) (FO : ForeignOps FT) : Prop := {
  ObjectMeta_copies : copies ObjectMeta_view anyway ObjectMeta_DeepCopyInto;
  ListMeta_copies : copies ListMeta_view anyway ListMeta_DeepCopyInto;
  Istio_copies : copies Istio_view anyway Istio_DeepCopyInto;
  ObjectMeta_Name_spec h m v F :
    deep ObjectMeta_view h m = Some (v, F) → Name (ObjectMetaV_api v) = ObjectMetaM_Name m;
}.

Section deep_values.
Context `{FO : ForeignOps}.

Definition Selector_view : view object SelectorM SelectorV :=
  struct_view sel_MatchLabels (pointer_view plain) (λ _ m, mkSelectorOf m).
Definition Destination_view : view object DestinationM DestinationV :=
  struct_view (λ d, (dest_Weight d, (dest_Port d, dest_Selector d)))
    (pair_view (pointer_view plain) (pair_view (pointer_view plain) Selector_view))
    (λ d '(w, (p, s)), mkDestinationOf (dest_Guid d) w p (dest_App d) s).
Definition RouteSpec_view : view object RouteSpecM RouteSpecV :=
  struct_view spec_Destinations (slice_view Destination_view)
    (λ s ds, mkSpecOf (spec_Host s) (spec_Path s) (spec_Url s) (spec_Domain s) ds).
Definition RouteStatus_view : view object RouteStatusM RouteStatusV :=
  struct_view status_Conditions (slice_view plain) (λ _ cs, mkStatusOf cs).
Definition Route_view : view object RouteM RouteV :=
  struct_view (λ r, (route_ObjectMeta r, (route_Spec r, route_Status r)))
    (pair_view ObjectMeta_view (pair_view RouteSpec_view RouteStatus_view))
    (λ r '(m, (s, st)), mkRouteOf (route_TypeMeta r) m s st).
Definition RouteList_view : view object RouteListM RouteListV :=
  struct_view (λ l, (list_ListMeta l, list_Items l))
    (pair_view ListMeta_view (slice_view Route_view))
    (λ l '(m, rs), mkListOf (list_TypeMeta l) m rs).
Definition VSSpec_view : view object VSSpecM VSSpecV :=
  struct_view vsspec_VirtualService Istio_view (λ _ x, mkVSSpecOf x).
Definition VS_view : view object VSM VSV :=
  struct_view (λ v, (vs_ObjectMeta v, vs_Spec v)) (pair_view ObjectMeta_view VSSpec_view)
    (λ v '(m, s), mkVSOf (vs_TypeMeta v) m s (vs_Status v)).
Definition VSList_view : view object VSListM VSListV :=
  struct_view (λ l, (vslist_ListMeta l, vslist_Items l))
    (pair_view ListMeta_view (slice_view VS_view))
    (λ l '(m, vs), mkVSListOf (vslist_TypeMeta l) m vs).
End deep_values.

(** * The generated methods *)

Section methods.
Context `{FO : ForeignOps} {GR : GoRuntime} {AR : Allocator}.

Definition TypeMeta_zero : TypeMeta := mkTypeMeta "" "".
Definition AppProcess_zero : AppProcess := mkAppProcess "".
Definition DestinationApp_zero : DestinationApp := mkDestinationApp "" AppProcess_zero.
Definition RouteDomain_zero : RouteDomain := mkRouteDomain "" false.
Definition Condition_zero : Condition := mkCondition "" false.
Definition Selector_zero : SelectorM := mkSelectorOf None.
Definition Destination_zero : DestinationM :=
  mkDestinationOf "" None None DestinationApp_zero Selector_zero.
Definition RouteSpec_zero : RouteSpecM := mkSpecOf "" "" "" RouteDomain_zero None.
Definition RouteStatus_zero : RouteStatusM := mkStatusOf None.
Definition Route_zero : RouteM :=
  mkRouteOf TypeMeta_zero ObjectMeta_zero RouteSpec_zero RouteStatus_zero.
Definition RouteList_zero : RouteListM := mkListOf TypeMeta_zero ListMeta_zero None.
Definition VSSpec_zero : VSSpecM := mkVSSpecOf Istio_zero.
Definition VS_zero : VSM := mkVSOf TypeMeta_zero ObjectMeta_zero VSSpec_zero tt.
Definition VSList_zero : VSListM := mkVSListOf TypeMeta_zero ListMeta_zero None.

Definition AppProcess_DeepCopyInto (in_ out : ptr object AppProcess) : Mem object unit :=
  assign in_ out.
Definition AppProcess_DeepCopy : pointer → Mem object pointer :=
  copy_new AppProcess_zero AppProcess_DeepCopyInto.

Definition Condition_DeepCopyInto (in_ out : ptr object Condition) : Mem object unit :=
  assign in_ out.
Definition Condition_DeepCopy : pointer → Mem object pointer :=
  copy_new Condition_zero Condition_DeepCopyInto.

Definition DestinationApp_DeepCopyInto (in_ out : ptr object DestinationApp) : Mem object unit :=
  _ ← assign in_ out;
  assign (field in_ f_Process) (field out f_Process).
Definition DestinationApp_DeepCopy : pointer → Mem object pointer :=
  copy_new DestinationApp_zero DestinationApp_DeepCopyInto.

Definition DestinationSelector_DeepCopyInto (in_ out : ptr object SelectorM) : Mem object unit :=
  _ ← assign in_ out;
  copy_map (field in_ f_MatchLabels) (field out f_MatchLabels).
Definition DestinationSelector_DeepCopy : pointer → Mem object pointer :=
  copy_new Selector_zero DestinationSelector_DeepCopyInto.

Definition RouteDestination_DeepCopyInto (in_ out : ptr object DestinationM) : Mem object unit :=
  _ ← assign in_ out;
  _ ← copy_int_pointer (field in_ f_Weight) (field out f_Weight);
  _ ← copy_int_pointer (field in_ f_Port) (field out f_Port);
  _ ← assign (field in_ f_App) (field out f_App);
  DestinationSelector_DeepCopyInto (field in_ f_Selector) (field out f_Selector).
Definition RouteDestination_DeepCopy : pointer → Mem object pointer :=
  copy_new Destination_zero RouteDestination_DeepCopyInto.

Definition RouteDomain_DeepCopyInto (in_ out : ptr object RouteDomain) : Mem object unit :=
  assign in_ out.
Definition RouteDomain_DeepCopy : pointer → Mem object pointer :=
  copy_new RouteDomain_zero RouteDomain_DeepCopyInto.

Definition RouteSpec_DeepCopyInto (in_ out : ptr object RouteSpecM) : Mem object unit :=
  _ ← assign in_ out;
  _ ← assign (field in_ f_Domain) (field out f_Domain);
  copy_elements Destination_zero RouteDestination_DeepCopyInto
    (field in_ f_Destinations) (field out f_Destinations).
Definition RouteSpec_DeepCopy : pointer → Mem object pointer :=
  copy_new RouteSpec_zero RouteSpec_DeepCopyInto.

Definition RouteStatus_DeepCopyInto (in_ out : ptr object RouteStatusM) : Mem object unit :=
  _ ← assign in_ out;
  copy_plain_elements Condition_zero (field in_ f_Conditions) (field out f_Conditions).
Definition RouteStatus_DeepCopy : pointer → Mem object pointer :=
  copy_new RouteStatus_zero RouteStatus_DeepCopyInto.

Definition Route_DeepCopyInto (in_ out : ptr object RouteM) : Mem object unit :=
  _ ← assign in_ out;
  _ ← assign (field in_ f_Route_TypeMeta) (field out f_Route_TypeMeta);
  _ ← ObjectMeta_DeepCopyInto (field in_ f_Route_ObjectMeta) (field out f_Route_ObjectMeta);
  _ ← RouteSpec_DeepCopyInto (field in_ f_Route_Spec) (field out f_Route_Spec);
  RouteStatus_DeepCopyInto (field in_ f_Route_Status) (field out f_Route_Status).
Definition Route_DeepCopy : pointer → Mem object pointer := copy_new Route_zero Route_DeepCopyInto.

Definition RouteList_DeepCopyInto (in_ out : ptr object RouteListM) : Mem object unit :=
  _ ← assign in_ out;
  _ ← assign (field in_ f_List_TypeMeta) (field out f_List_TypeMeta);
  _ ← ListMeta_DeepCopyInto (field in_ f_List_ListMeta) (field out f_List_ListMeta);
  copy_elements Route_zero Route_DeepCopyInto (field in_ f_List_Items) (field out f_List_Items).
Definition RouteList_DeepCopy : pointer → Mem object pointer :=
  copy_new RouteList_zero RouteList_DeepCopyInto.

Definition VirtualServiceSpec_DeepCopyInto (in_ out : ptr object VSSpecM) : Mem object unit :=
  _ ← assign in_ out;
  Istio_DeepCopyInto (field in_ f_VirtualService) (field out f_VirtualService).
Definition VirtualServiceSpec_DeepCopy : pointer → Mem object pointer :=
  copy_new VSSpec_zero VirtualServiceSpec_DeepCopyInto.

Definition VirtualServiceStatus_DeepCopyInto (in_ out : ptr object unit) : Mem object unit :=
  assign in_ out.
Definition VirtualServiceStatus_DeepCopy : pointer → Mem object pointer :=
  copy_new tt VirtualServiceStatus_DeepCopyInto.

Definition VirtualService_DeepCopyInto (in_ out : ptr object VSM) : Mem object unit :=
  _ ← assign in_ out;
  _ ← assign (field in_ f_VS_TypeMeta) (field out f_VS_TypeMeta);
  _ ← ObjectMeta_DeepCopyInto (field in_ f_VS_ObjectMeta) (field out f_VS_ObjectMeta);
  _ ← VirtualServiceSpec_DeepCopyInto (field in_ f_VS_Spec) (field out f_VS_Spec);
  assign (field in_ f_VS_Status) (field out f_VS_Status).
Definition VirtualService_DeepCopy : pointer → Mem object pointer :=
  copy_new VS_zero VirtualService_DeepCopyInto.

Definition VirtualServiceList_DeepCopyInto (in_ out : ptr object VSListM) : Mem object unit :=
  _ ← assign in_ out;
  _ ← assign (field in_ f_VSList_TypeMeta) (field out f_VSList_TypeMeta);
  _ ← ListMeta_DeepCopyInto (field in_ f_VSList_ListMeta) (field out f_VSList_ListMeta);
  copy_elements VS_zero VirtualService_DeepCopyInto
    (field in_ f_VSList_Items) (field out f_VSList_Items).
Definition VirtualServiceList_DeepCopy : pointer → Mem object pointer :=
  copy_new VSList_zero VirtualServiceList_DeepCopyInto.

(** A value of the interface runtime.Object: nil, or a pointer with its type,
    itself nil or not. *)
Inductive runtime_Object : Type :=
  | NilObject
  | AsRoute (p : pointer)
  | AsRouteList (p : pointer)
  | AsVirtualService (p : pointer)
  | AsVirtualServiceList (p : pointer).

(** [if c := in.DeepCopy(); c != nil { return c }; return nil] *)
Definition as_object (wrap : pointer → runtime_Object) (DeepCopy : pointer → Mem object pointer)
    (in_ : pointer) : Mem object runtime_Object :=
  c ← DeepCopy in_;
  mret (if isNil c then NilObject else wrap c).

Definition Route_DeepCopyObject : pointer → Mem object runtime_Object :=
  as_object AsRoute Route_DeepCopy.
Definition RouteList_DeepCopyObject : pointer → Mem object runtime_Object :=
  as_object AsRouteList RouteList_DeepCopy.
Definition VirtualService_DeepCopyObject : pointer → Mem object runtime_Object :=
  as_object AsVirtualService VirtualService_DeepCopy.
Definition VirtualServiceList_DeepCopyObject : pointer → Mem object runtime_Object :=
  as_object AsVirtualServiceList VirtualServiceList_DeepCopy.
End methods.
