(* ===== verification/DeepCopyTheorems.v ===== *)
(** The generated deep copies copy: equal values in fresh memory, nothing else
    changed, and no write to the copy is ever seen through the original. *)
From S2P Require Import Prelude Runtime Api GoMemory Copying DeepCopy.

Section theorems.
Context `{FL : ForeignLaws} {GR : GoRuntime} {GL : GoRuntimeLaws GR}.
Context {AR : Allocator} {AL : AllocatorLaws AR}.

Lemma DestinationApp_copies : copies plain anyway DestinationApp_DeepCopyInto.
Proof.
  start_struct. injection Hd as <- <-. unfold DestinationApp_DeepCopyInto. run Hassign.
  copy_plain_field f_Process. eexists _, _, ∅. split_and!; [done..| |set_solver].
  by destruct t.
Qed.

Lemma DestinationSelector_copies : copies Selector_view anyway DestinationSelector_DeepCopyInto.
Proof.
  start_struct. split_value Hd. unfold DestinationSelector_DeepCopyInto. run Hassign.
  copy_struct_field (copies_map (obj:=object)) f_MatchLabels Hd. end_struct.
Qed.

Lemma RouteDestination_copies : copies Destination_view anyway RouteDestination_DeepCopyInto.
Proof.
  start_struct. split_value Hd. unfold RouteDestination_DeepCopyInto. run Hassign.
  copy_struct_field (copies_int_pointer (obj:=object)) f_Weight Hv.
  copy_struct_field (copies_int_pointer (obj:=object)) f_Port Hv0.
  copy_plain_field f_App.
  copy_struct_field DestinationSelector_copies f_Selector Hd. end_struct.
Qed.

Lemma RouteSpec_copies : copies RouteSpec_view anyway RouteSpec_DeepCopyInto.
Proof.
  start_struct. split_value Hd. unfold RouteSpec_DeepCopyInto. run Hassign.
  copy_plain_field f_Domain.
  copy_struct_field (copies_elements _ Destination_zero _ RouteDestination_copies) f_Destinations Hd.
  end_struct.
Qed.

Lemma RouteStatus_copies : copies RouteStatus_view anyway RouteStatus_DeepCopyInto.
Proof.
  start_struct. split_value Hd. unfold RouteStatus_DeepCopyInto. run Hassign.
  copy_struct_field (copies_plain_elements (obj:=object) Condition_zero) f_Conditions Hd. end_struct.
Qed.

Lemma Route_copies : copies Route_view anyway Route_DeepCopyInto.
Proof.
  start_struct. split_value Hd. unfold Route_DeepCopyInto. run Hassign.
  copy_plain_field f_Route_TypeMeta.
  copy_struct_field ObjectMeta_copies f_Route_ObjectMeta Hv.
  copy_struct_field RouteSpec_copies f_Route_Spec Hv0.
  copy_struct_field RouteStatus_copies f_Route_Status Hd. end_struct.
Qed.

Lemma RouteList_copies : copies RouteList_view anyway RouteList_DeepCopyInto.
Proof.
  start_struct. split_value Hd. unfold RouteList_DeepCopyInto. run Hassign.
  copy_plain_field f_List_TypeMeta.
  copy_struct_field ListMeta_copies f_List_ListMeta Hv.
  copy_struct_field (copies_elements _ Route_zero _ Route_copies) f_List_Items Hd. end_struct.
Qed.

Lemma VirtualServiceSpec_copies : copies VSSpec_view anyway VirtualServiceSpec_DeepCopyInto.
Proof.
  start_struct. split_value Hd. unfold VirtualServiceSpec_DeepCopyInto. run Hassign.
  copy_struct_field Istio_copies f_VirtualService Hd. end_struct.
Qed.

Lemma VirtualService_copies : copies VS_view anyway VirtualService_DeepCopyInto.
Proof.
  start_struct. split_value Hd. unfold VirtualService_DeepCopyInto. run Hassign.
  copy_plain_field f_VS_TypeMeta.
  copy_struct_field ObjectMeta_copies f_VS_ObjectMeta Hv.
  copy_struct_field VirtualServiceSpec_copies f_VS_Spec Hd.
  copy_plain_field f_VS_Status. end_struct.
Qed.

Lemma VirtualServiceList_copies : copies VSList_view anyway VirtualServiceList_DeepCopyInto.
Proof.
  start_struct. split_value Hd. unfold VirtualServiceList_DeepCopyInto. run Hassign.
  copy_plain_field f_VSList_TypeMeta.
  copy_struct_field ListMeta_copies f_VSList_ListMeta Hv.
  copy_struct_field (copies_elements _ VS_zero _ VirtualService_copies) f_VSList_Items Hd. end_struct.
Qed.

(** What a [DeepCopy] method promises: the nil pointer for nil; otherwise a new
    pointer to the same value, in memory that was free, with all memory as
    before; afterwards no change outside the copy's memory is seen through the
    copy, and none inside it is seen through the original. *)
Definition deep_copies {T V} `{Typed object T} (vw : view object T V)
    (DeepCopy : pointer → Mem object pointer) : Prop :=
  (∀ h, DeepCopy None h = Some (None, h)) ∧
  ∀ h l v F, deep (pointer_view vw) h (Some l) = Some (Some v, F) →
    ∃ h' out F', DeepCopy (Some l) h = Some (Some out, h') ∧ h ⊆ h' ∧ F' ## dom h ∧
      deep (pointer_view vw) h' (Some out) = Some (Some v, F') ∧
      (∀ h2, (∀ k, k ∉ F' → h2 !! k = h' !! k) →
        deep (pointer_view vw) h2 (Some l) = Some (Some v, F)) ∧
      (∀ h2, (∀ k, k ∉ dom h → h2 !! k = h' !! k) →
        deep (pointer_view vw) h2 (Some out) = Some (Some v, F')).

Lemma copy_new_deep_copies {T V} `{Typed object T} (vw : view object T V) zero c :
  copies vw anyway c → deep_copies vw (copy_new zero c).
Proof.
  intros Hc. split; [done|]. intros h l v F Hd.
  destruct (copy_new_spec vw zero c h l v F Hc Hd) as (h' & out & F' & Hrun & Hs & Hd' & HF).
  destruct (copies_apart _ _ _ _ _ _ _ _ Hd Hd' Hs HF) as [H1 H2].
  by exists h', out, F'.
Qed.

(** C19: the generated [DeepCopy] of the four API objects (Route, RouteList,
    VirtualService, VirtualServiceList) never faults and returns a new pointer
    to the same value, nil pointers, maps and slices included, that shares no
    memory with the original: every write to one is invisible through the
    other. *)
Theorem API_objects_DeepCopy :
  deep_copies Route_view Route_DeepCopy ∧ deep_copies RouteList_view RouteList_DeepCopy ∧
  deep_copies VS_view VirtualService_DeepCopy ∧
  deep_copies VSList_view VirtualServiceList_DeepCopy.
Proof.
  split_and!; apply copy_new_deep_copies; [apply Route_copies | apply RouteList_copies
    | apply VirtualService_copies | apply VirtualServiceList_copies].
Qed.

(** So does the [DeepCopy] of each struct the API objects are made of. *)
Theorem API_structs_DeepCopy :
  deep_copies (plain (T:=AppProcess)) AppProcess_DeepCopy ∧ deep_copies (plain (T:=Condition)) Condition_DeepCopy ∧
  deep_copies (plain (T:=DestinationApp)) DestinationApp_DeepCopy ∧ deep_copies (plain (T:=RouteDomain)) RouteDomain_DeepCopy ∧
  deep_copies Selector_view DestinationSelector_DeepCopy ∧
  deep_copies Destination_view RouteDestination_DeepCopy ∧
  deep_copies RouteSpec_view RouteSpec_DeepCopy ∧
  deep_copies RouteStatus_view RouteStatus_DeepCopy ∧
  deep_copies VSSpec_view VirtualServiceSpec_DeepCopy ∧
  deep_copies (plain (T:=unit)) VirtualServiceStatus_DeepCopy.
Proof.
  split_and!; apply copy_new_deep_copies; try apply copies_assign;
    [apply DestinationApp_copies | apply DestinationSelector_copies
    | apply RouteDestination_copies | apply RouteSpec_copies | apply RouteStatus_copies
    | apply VirtualServiceSpec_copies].
Qed.

(** The same for [DeepCopyObject], whose result is an interface: nil for a nil
    pointer, and never an interface that holds a nil pointer. *)
Definition object_copies {T V} `{Typed object T} (vw : view object T V)
    (wrap : pointer → runtime_Object) (DeepCopyObject : pointer → Mem object runtime_Object) : Prop :=
  (∀ h, DeepCopyObject None h = Some (NilObject, h)) ∧
  ∀ h l v F, deep (pointer_view vw) h (Some l) = Some (Some v, F) →
    ∃ h' out F', DeepCopyObject (Some l) h = Some (wrap (Some out), h') ∧ h ⊆ h' ∧
      deep (pointer_view vw) h' (Some out) = Some (Some v, F') ∧ F' ## dom h.

Lemma as_object_copies {T V} `{Typed object T} (vw : view object T V) wrap zero c :
  copies vw anyway c → object_copies vw wrap (as_object wrap (copy_new zero c)).
Proof.
  intros Hc. split; [done|]. intros h l v F Hd.
  destruct (copy_new_spec vw zero c h l v F Hc Hd) as (h' & out & F' & Hrun & Hs & Hd' & HF).
  exists h', out, F'. split_and!; [|done..]. unfold as_object. by run Hrun.
Qed.

(** [DeepCopyObject] of the four API objects returns the nil interface for a
    nil pointer, never an interface around a nil pointer, and otherwise an
    interface around a deep copy in fresh memory. *)
Theorem API_objects_DeepCopyObject :
  object_copies Route_view AsRoute Route_DeepCopyObject ∧
  object_copies RouteList_view AsRouteList RouteList_DeepCopyObject ∧
  object_copies VS_view AsVirtualService VirtualService_DeepCopyObject ∧
  object_copies VSList_view AsVirtualServiceList VirtualServiceList_DeepCopyObject.
Proof.
  split_and!; apply as_object_copies; [apply Route_copies | apply RouteList_copies
    | apply VirtualService_copies | apply VirtualServiceList_copies].
Qed.
End theorems.
