(* ===== verification/RouteListMemory.v ===== *)
(** removeRouteFromRouteList of
    src/routecontroller/controllers/networking/route_controller.go on the
    memory of GoMemory: it removes in place, so the backing array of the list
    it is given changes.  It computes what the definition of RouteController
    does, and on a deep copy, which is what the manager's client hands out, it
    leaves the original list alone. *)
From S2P Require Import Prelude Runtime Api Client RouteController ControllerHelpers.
From S2P Require Import GoMemory Copying DeepCopy DeepCopyTheorems.

(** * Slicing and append *)

Section slices.
Context {obj : Type} {AR : Allocator}.

(** [s[:i]] and [s[i:]] *)
Definition slice_to (s : slice) (i : nat) : Mem obj slice :=
  match s with
  | Some d => if decide (i ≤ Cap d) then mret (Some (mkHeader (Array d) (Offset d) i (Cap d))) else Fault
  | None => if decide (i = 0) then mret None else Fault
  end.
Definition slice_from (s : slice) (i : nat) : Mem obj slice :=
  match s with
  | Some d =>
      if decide (i ≤ Len d)
      then mret (Some (mkHeader (Array d) (Offset d + i) (Len d - i) (Cap d - i))) else Fault
  | None => if decide (i = 0) then mret None else Fault
  end.

(** [append(s, xs...)]: in place when the capacity is enough, otherwise into a
    new array (whose spare capacity is left open; none is used here). *)
Definition append {T} `{Typed obj T} (s xs : slice) : Mem obj slice := λ h,
  new ← elements xs h;
  old ← elements s h;
  let grow := (l ← allocate (inject (old ++ new));
               mret (Some (mkHeader l 0 (length (old ++ new)) (length (old ++ new))))) in
  match s with
  | Some d =>
      if decide (Len d + length new ≤ Cap d) then
        (_ ← write_elements (T:=T) (mkHeader (Array d) (Offset d + Len d) (length new) (length new)) new;
         mret (Some (mkHeader (Array d) (Offset d) (Len d + length new) (Cap d)))) h
      else grow h
  | None => match new with [] => Some (None, h) | _ => grow h end
  end.

Lemma length_splice {T} i (new old : list T) :
  i + length new ≤ length old → length (splice i new old) = length old.
Proof. intros Hi. unfold splice. rewrite !length_app, length_take, length_drop. lia. Qed.

Lemma splice_window {T} i n (new old : list T) :
  i + n + length new ≤ length old →
  take (n + length new) (drop i (splice (i + n) new old)) = take n (drop i old) ++ new.
Proof.
  intros Hi. unfold splice. rewrite drop_app_le by (rewrite length_take; lia).
  assert (drop i (take (i + n) old) = take n (drop i old)) as ->
    by (rewrite skipn_firstn_comm; f_equal; lia).
  assert (length (take n (drop i old)) = n) as Hn by (rewrite length_take, length_drop; lia).
  rewrite (assoc_L (++)). rewrite take_app_length'; [done|].
  rewrite length_app, Hn. done.
Qed.

Lemma elements_array {T} `{Typed obj T} d (ts : list T) h :
  elements (Some d) h = Some ts →
  ∃ arr, h !! Array d = Some (inject arr) ∧ Len d ≤ Cap d ∧ Offset d + Cap d ≤ length arr ∧
    ts = take (Len d) (drop (Offset d) arr).
Proof.
  cbn. intros (arr & (o & Ho & Harr)%bind_Some & Hif)%bind_Some.
  destruct (decide _) as [[H1 H2]|]; [|done]. injection Hif as <-.
  apply project_Some in Harr as ->. by exists arr.
Qed.

Lemma elements_intro {T} `{Typed obj T} d (arr : list T) h :
  h !! Array d = Some (inject arr) → Len d ≤ Cap d → Offset d + Cap d ≤ length arr →
  elements (Some d) h = Some (take (Len d) (drop (Offset d) arr)).
Proof.
  intros Ha H1 H2. cbn. rewrite Ha. cbn. rewrite project_inject. cbn. by rewrite decide_True.
Qed.

(** [append(s[:i], s[i+1:]...)] *)
Lemma remove_at_spec {T} `{Typed obj T} d (pre : list T) t post h :
  elements (Some d) h = Some (pre ++ t :: post) →
  ∃ h' d', (s1 ← slice_to (Some d) (length pre); s2 ← slice_from (Some d) (S (length pre));
            append (T:=T) s1 s2) h = Some (Some d', h') ∧
    Array d' = Array d ∧ elements (Some d') h' = Some (pre ++ post) ∧
    ∀ k, k ≠ Array d → h' !! k = h !! k.
Proof.
  intros Hel. destruct (elements_array _ _ _ Hel) as (arr & Harr & HLC & HCA & Hts).
  assert (length (pre ++ t :: post) = Len d) as Hlen
    by (rewrite Hts, length_take, length_drop; lia).
  rewrite length_app in Hlen. cbn [length] in Hlen.
  assert (take (length pre) (drop (Offset d) arr) = pre) as Hpre.
  { apply (f_equal (take (length pre))) in Hts.
    rewrite take_app_length, take_take, Nat.min_l in Hts by lia. done. }
  assert (take (length post) (drop (Offset d + S (length pre)) arr) = post) as Hpost.
  { apply (f_equal (drop (S (length pre)))) in Hts.
    rewrite cons_middle, app_assoc, drop_app_length' in Hts
      by (rewrite length_app; cbn; lia).
    rewrite Hts at 2. rewrite skipn_firstn_comm, drop_drop. f_equal; first [lia | f_equal; lia]. }
  set (d1 := mkHeader (Array d) (Offset d) (length pre) (Cap d)).
  set (d2 := mkHeader (Array d) (Offset d + S (length pre)) (Len d - S (length pre))
    (Cap d - S (length pre))).
  set (h' := <[Array d := inject (splice (Offset d + length pre) post arr)]> h).
  set (d' := mkHeader (Array d) (Offset d) (length pre + length post) (Cap d)).
  exists h', d'. split_and!.
  - rewrite (bind_eval _ _ (Some d1) h h)
      by (unfold slice_to; rewrite decide_True by lia; done).
    rewrite (bind_eval _ _ (Some d2) h h)
      by (unfold slice_from; rewrite decide_True by lia; done).
    unfold append.
    rewrite (elements_intro d2 arr) by (cbn; done || lia). cbn [mbind option_bind].
    rewrite (elements_intro d1 arr) by (cbn; done || lia). cbn [mbind option_bind d1 Len].
    assert (take (Len d2) (drop (Offset d2) arr) = post) as Hnew.
    { etrans; [|exact Hpost]. cbn [Len Offset d2]. f_equal. lia. }
    rewrite Hnew. cbn [Len Cap d1]. rewrite decide_True by lia.
    rewrite (bind_eval _ _ tt h h'); [done|].
    unfold write_elements. cbn [Array Offset Len d1]. rewrite Harr. cbn [mbind option_bind].
    rewrite project_inject. cbn [mbind option_bind]. rewrite decide_True by lia. done.
  - done.
  - rewrite (elements_intro d' (splice (Offset d + length pre) post arr));
      cbn [Array Len Offset Cap d'].
    + rewrite splice_window, Hpre by lia. done.
    + apply lookup_insert_eq.
    + lia.
    + rewrite length_splice; lia.
  - intros k Hk. subst h'. by rewrite lookup_insert_ne.
Qed.
End slices.

(** * The removal *)

Section removal.
Context `{FL : ForeignLaws} {AR : Allocator}.

Definition RouteM_Name (t : RouteM) : string := ObjectMetaM_Name (route_ObjectMeta t).

(** The loop, from index [idx]; [range] evaluates the slice once. *)
Fixpoint remove_loop (routeToRemove : ptr object RouteM) (routes : ptr object RouteListM)
    (ranged : slice) (idxs : list nat) : Mem object slice :=
  match idxs with
  | [] => Load (field routes f_List_Items)
  | idx :: idxs =>
      route ← (at_index (T:=RouteM) ranged idx ≫= Load);
      remove ← Load routeToRemove;
      if String.eqb (RouteM_Name route) (RouteM_Name remove) then
        s1 ← Load (field routes f_List_Items);
        s1 ← slice_to s1 idx;
        s2 ← Load (field routes f_List_Items);
        s2 ← slice_from s2 (S idx);
        append (T:=RouteM) s1 s2
      else remove_loop routeToRemove routes ranged idxs
  end.

Definition removeRouteFromRouteList_mem (routeToRemove : ptr object RouteM)
    (routes : ptr object RouteListM) : Mem object slice :=
  ranged ← Load (field routes f_List_Items);
  remove_loop routeToRemove routes ranged (seq 0 (slice_len ranged)).

(** The Route of Api that a value is: Api does not tell nil from empty. *)
Definition api_destination (d : DestinationV) : RouteDestination :=
  mkRouteDestination (dest_Guid d) (dest_Weight d) (dest_Port d) (dest_App d)
    (mkDestinationSelector (default ∅ (sel_MatchLabels (dest_Selector d)))).
Definition api_route (r : RouteV) : Route :=
  let s := route_Spec r in
  mkRoute (route_TypeMeta r) (ObjectMetaV_api (route_ObjectMeta r))
    (mkRouteSpec (spec_Host s) (spec_Path s) (spec_Url s) (spec_Domain s)
       (api_destination <$> default [] (spec_Destinations s)))
    (mkRouteStatus (default [] (status_Conditions (route_Status r)))).
Definition api_items (items : option (list RouteV)) : list Route := api_route <$> default [] items.

Lemma RouteM_Name_spec h t v F :
  deep Route_view h t = Some (v, F) →
  Name (Route_ObjectMeta (api_route v)) = RouteM_Name t.
Proof.
  intros (vs & Hd & ->)%deep_struct_Some.
  apply deep_pair_Some in Hd as (m & Fm & [s st] & F' & Hm & _ & -> & ->).
  cbn. by eapply ObjectMeta_Name_spec.
Qed.

(** What the loop finds, in the terms of the elements it looks at. *)
Lemma remove_loop_spec (p : ptr object RouteM) (q : ptr object RouteListM) d ts t l h :
  load p h = Some t → load q h = Some l → list_Items l = Some d →
  elements (Some d) h = Some ts →
  ∀ k i, i + k = length ts →
  Forall (λ x, RouteM_Name x ≠ RouteM_Name t) (take i ts) →
  (Forall (λ x, RouteM_Name x ≠ RouteM_Name t) ts ∧
    remove_loop p q (Some d) (seq i k) h = Some (Some d, h)) ∨
  ∃ pre x post h' d', ts = pre ++ x :: post ∧
    Forall (λ x, RouteM_Name x ≠ RouteM_Name t) pre ∧ RouteM_Name x = RouteM_Name t ∧
    remove_loop p q (Some d) (seq i k) h = Some (Some d', h') ∧
    Array d' = Array d ∧ elements (Some d') h' = Some (pre ++ post) ∧
    ∀ k, k ≠ Array d → h' !! k = h !! k.
Proof.
  intros Hp Hq Hl Hts.
  assert (Load (field q f_List_Items) h = Some (Some d, h)) as Hitems.
  { apply Load_eval. rewrite <- Hl. exact (load_field q f_List_Items l h Hq). }
  induction k as [|k IH]; intros i Hi Hpre; cbn [seq remove_loop].
  - left. rewrite take_ge in Hpre by lia. by split.
  - destruct (lookup_lt_is_Some_2 ts i) as [x Hx]; [lia|].
    destruct (elements_lookup _ _ _ _ _ Hts Hx) as [Hil Hload].
    assert ((at_index (T:=RouteM) (Some d) i ≫= Load) h = Some (x, h)) as Hat.
    { rewrite (bind_eval _ _ (element (Array d) (Offset d + i)) h h).
      - by apply Load_eval.
      - cbn [at_index]. by rewrite decide_True. }
    run Hat. run (Load_eval _ _ _ Hp).
    destruct (String.eqb_spec (RouteM_Name x) (RouteM_Name t)) as [Heq|Hne].
    + right. exists (take i ts), x, (drop (S i) ts).
      pose proof (take_drop_middle _ _ _ Hx) as Hsplit.
      assert (length (take i ts) = i) as Hlen by (rewrite length_take; lia).
      rewrite <- Hsplit in Hts. destruct (remove_at_spec _ _ _ _ _ Hts)
        as (h' & d' & Hrun & HA & Hel & Hframe). rewrite Hlen in Hrun.
      exists h', d'. split_and!; [done..| |done|done|done].
      assert (slice_to (Some d) i h = Some (Some (mkHeader (Array d) (Offset d) i (Cap d)), h)) as Hto.
      { destruct (elements_array _ _ _ Hts) as (_ & _ & HLC & _).
        unfold slice_to. by rewrite decide_True by lia. }
      rewrite (bind_eval _ _ _ _ _ Hto) in Hrun. run Hitems. run Hto. by run Hitems.
    + apply IH; [lia|]. rewrite (take_S_r _ _ _ Hx). apply Forall_app. by split; [|constructor].
Qed.

Lemma deep_names h ts vs F n :
  deep_list Route_view h ts = Some (vs, F) → Forall (λ x, RouteM_Name x ≠ n) ts →
  Forall (λ r, Name (Route_ObjectMeta r) ≠ n) (api_route <$> vs).
Proof.
  intros Hd Hall. revert vs F Hd. induction Hall as [|x ts Hx _ IH]; intros vs F.
  - intros [= <- <-]. constructor.
  - rewrite deep_list_cons. intros (v & Fv & vs' & F' & Hv & Hvs & -> & ->).
    rewrite fmap_cons. constructor; [by rewrite (RouteM_Name_spec _ _ _ _ Hv) | by eapply IH].
Qed.

(** C20: on memory the removal computes what the value-level definition does,
    never faults, and writes to the list's own backing array only. *)
Theorem removeRouteFromRouteList_in_place h p t r Fr q l v F
    (Hp : load p h = Some t) (Hr : deep Route_view h t = Some (r, Fr))
    (Hq : load q h = Some l) (Hl : deep RouteList_view h l = Some (v, F)) :
  ∃ s h' items F', removeRouteFromRouteList_mem p q h = Some (s, h') ∧
    deep (slice_view Route_view) h' s = Some (items, F') ∧ F' ⊆ F ∧
    api_items items
    = (removeRouteFromRouteList (api_route r) (mkRouteList (api_items (list_Items v)))).1 ∧
    ∀ k, k ∉ F → h' !! k = h !! k.
Proof.
  split_value Hl. unfold removeRouteFromRouteList_mem.
  pose proof (load_field q f_List_Items l h Hq) as Hitems. cbn [lget f_List_Items] in Hitems.
  run (Load_eval _ _ _ Hitems). rewrite removeRoute_removeFirst.
  rewrite (RouteM_Name_spec _ _ _ _ Hr). cbn [Items list_Items].
  destruct (list_Items l) as [d|] eqn:Hd.
  - apply deep_slice_Some in Hl as (ts & rs & Frs & Hts & Hrs & HA & -> & ->).
    destruct (remove_loop_spec p q d ts t l h Hp Hq Hd Hts (slice_len (Some d)) 0)
      as [[Hall Hrun]|(pre & x & post & h' & d' & -> & Hpre & Hx & Hrun & HA' & Hel & Hframe)].
    + by rewrite (elements_length _ _ _ Hts).
    + constructor.
    + exists (Some d), h, (Some rs), ({[Array d]} ∪ Frs). split_and!; [done| |set_solver| |done].
      * apply deep_slice_Some. by exists ts, rs, Frs.
      * unfold api_items. cbn [from_option id]. symmetry. apply removeFirst_none. by eapply deep_names.
    + apply deep_list_app_inv in Hrs as (vs1 & F1 & vs2 & F2 & H1 & H2 & -> & ->).
      apply deep_list_cons in H2 as (y & Fy & vs3 & F3 & Hy & H3 & -> & ->).
      exists (Some d'), h', (Some (vs1 ++ vs3)), ({[Array d']} ∪ (F1 ∪ F3)).
      assert (deep_list Route_view h' (pre ++ post) = Some (vs1 ++ vs3, F1 ∪ F3)) as Hnew.
      { apply deep_list_app; (eapply deep_list_frame; [done|]); intros k Hk; apply Hframe;
          set_solver. }
      split_and!; [done| |set_solver| |].
      * apply deep_slice_Some. exists (pre ++ post), (vs1 ++ vs3), (F1 ∪ F3).
        split_and!; [done..|rewrite HA'; set_solver|done|done].
      * unfold api_items. cbn [from_option id]. rewrite !fmap_app, fmap_cons.
        symmetry. apply removeFirst_split; [by eapply deep_names|].
        by rewrite (RouteM_Name_spec _ _ _ _ Hy).
      * intros k Hk. apply Hframe. set_solver.
  - injection Hl as <- <-. exists None, h, None, ∅.
    split_and!; [|done|set_solver|done..]. cbn [slice_len seq remove_loop].
    by apply Load_eval.
Qed.
End removal.

Section isolation.
Context `{FL : ForeignLaws} {GR : GoRuntime} {GL : GoRuntimeLaws GR}.
Context {AR : Allocator} {AL : AllocatorLaws AR}.

(** C21: removing a Route in place from a deep copy of a cached list gives the
    list without that Route and leaves the cached list as it was. *)
Theorem cached_list_isolated h cached v F target r Fr
    (Hc : deep (pointer_view RouteList_view) h (Some cached) = Some (Some v, F))
    (Hr : deep (pointer_view Route_view) h (Some target) = Some (Some r, Fr)) :
  ∃ h1 copy s h2 items F',
    RouteList_DeepCopy (Some cached) h = Some (Some copy, h1) ∧
    removeRouteFromRouteList_mem (variable target) (variable copy) h1 = Some (s, h2) ∧
    deep (slice_view Route_view) h2 s = Some (items, F') ∧
    api_items items
    = (removeRouteFromRouteList (api_route r) (mkRouteList (api_items (list_Items v)))).1 ∧
    deep (pointer_view RouteList_view) h2 (Some cached) = Some (Some v, F).
Proof.
  destruct (copy_new_spec RouteList_view RouteList_zero _ _ _ _ _ RouteList_copies Hc)
    as (h1 & copy & Fc & Hrun & Hs & Hd & HF).
  destruct (copies_apart _ _ _ _ _ _ _ _ Hc Hd Hs HF) as [Hapart _].
  pose proof (deep_mono _ _ _ _ _ _ Hr Hs) as Hr1.
  apply deep_pointer_Some in Hr1 as (t & r' & Ft & Ht & Hr1 & [= <-] & ->).
  apply deep_pointer_Some in Hd as (l & v' & Fl & Hl & Hd & [= <-] & ->).
  destruct (removeRouteFromRouteList_in_place h1 _ t r Ft _ l v Fl Ht Hr1 Hl Hd)
    as (s & h2 & items & F' & Hrem & Hitems & _ & Happ & Hframe).
  exists h1, copy, s, h2, items, F'. split_and!; [done..|].
  apply Hapart. intros k Hk. apply Hframe. set_solver.
Qed.
End isolation.
