(* ===== verification/DeepCopyExamples.v ===== *)
(** A concrete layout of the structs of other packages, with deep copies that
    have the laws; a cached RouteList in memory, copied by evaluation; and the
    instances of the theorems on it. *)
From S2P Require Import Prelude Runtime Api Client RouteController.
From S2P Require Import GoMemory Copying DeepCopy DeepCopyTheorems RouteListMemory.

#[local] Existing Instance go_reference.
#[local] Existing Instance bump_allocator.

(** ObjectMeta with a map and a slice, Istio's VirtualService with two slices. *)
Record MetaOf (M S : Type) := mkMetaOf {
  meta_Name : string; meta_Namespace : string; meta_UID : string;
  meta_Labels : M; meta_Finalizers : S;
}.
Arguments mkMetaOf {M S}. Arguments meta_Name {M S}. Arguments meta_Namespace {M S}.
Arguments meta_UID {M S}. Arguments meta_Labels {M S}. Arguments meta_Finalizers {M S}.

Record HostsOf (S : Type) := mkHostsOf { of_Hosts : S; of_Gateways : S }.
Arguments mkHostsOf {S}. Arguments of_Hosts {S}. Arguments of_Gateways {S}.

Definition foreign_types : ForeignTypes := {|
  ObjectMetaM := MetaOf pointer slice;
  ObjectMetaV := MetaOf (option (gmap string string)) (option (list string));
  ObjectMeta_zero := mkMetaOf "" "" "" None None;
  ListMetaM := string; ListMetaV := string; ListMeta_zero := "";
  IstioM := HostsOf slice;
  IstioV := HostsOf (option (list string));
  Istio_zero := mkHostsOf None None;
  foreign_obj := list string;
|}.
#[local] Existing Instance foreign_types.

#[local] Program Instance typed_string : Typed object string :=
  {| inject := Foreign; project o := match o with Foreign l => Some l | _ => None end |}.
Solve Obligations with intros; by repeat (case_match || simplify_eq/=).

#[local] Obligation Tactic :=
  intros; first [reflexivity | match goal with |- _ = ?t => by destruct t end].
Program Definition f_Labels : lens (MetaOf pointer slice) pointer :=
  mkLens meta_Labels (λ x m, mkMetaOf (meta_Name m) (meta_Namespace m) (meta_UID m) x
    (meta_Finalizers m)) _ _ _.
Program Definition f_Finalizers : lens (MetaOf pointer slice) slice :=
  mkLens meta_Finalizers (λ x m, mkMetaOf (meta_Name m) (meta_Namespace m) (meta_UID m)
    (meta_Labels m) x) _ _ _.
Program Definition f_Hosts : lens (HostsOf slice) slice :=
  mkLens of_Hosts (λ x m, mkHostsOf x (of_Gateways m)) _ _ _.
Program Definition f_Gateways : lens (HostsOf slice) slice :=
  mkLens of_Gateways (λ x m, mkHostsOf (of_Hosts m) x) _ _ _.

Definition Meta_view : view object (MetaOf pointer slice)
    (MetaOf (option (gmap string string)) (option (list string))) :=
  struct_view (λ m, (meta_Labels m, meta_Finalizers m))
    (pair_view (pointer_view plain) (slice_view plain))
    (λ m '(ls, fs), mkMetaOf (meta_Name m) (meta_Namespace m) (meta_UID m) ls fs).
Definition Meta_DeepCopyInto (in_ out : ptr object (MetaOf pointer slice)) : Mem object unit :=
  _ ← assign in_ out;
  _ ← copy_map (field in_ f_Labels) (field out f_Labels);
  copy_plain_elements "" (field in_ f_Finalizers) (field out f_Finalizers).
Definition Hosts_view : view object (HostsOf slice) (HostsOf (option (list string))) :=
  struct_view (λ m, (of_Hosts m, of_Gateways m)) (pair_view (slice_view plain) (slice_view plain))
    (λ m '(hs, gs), mkHostsOf hs gs).
Definition Hosts_DeepCopyInto (in_ out : ptr object (HostsOf slice)) : Mem object unit :=
  _ ← assign in_ out;
  _ ← copy_plain_elements "" (field in_ f_Hosts) (field out f_Hosts);
  copy_plain_elements "" (field in_ f_Gateways) (field out f_Gateways).

Definition foreign_ops : ForeignOps foreign_types := {|
  ObjectMeta_view := Meta_view;
  ListMeta_view := plain;
  Istio_view := Hosts_view;
  ObjectMeta_DeepCopyInto := Meta_DeepCopyInto;
  ListMeta_DeepCopyInto := assign;
  Istio_DeepCopyInto := Hosts_DeepCopyInto;
  ObjectMetaM_Name := meta_Name;
  ObjectMetaV_api m :=
    mkObjectMeta (meta_Name m) (meta_Namespace m) (meta_UID m) (default ∅ (meta_Labels m)) ∅ []
      (default [] (meta_Finalizers m)) None;
|}.
#[local] Existing Instance foreign_ops.

Lemma Meta_copies : copies Meta_view anyway Meta_DeepCopyInto.
Proof.
  start_struct. split_value Hd. unfold Meta_DeepCopyInto. run Hassign.
  copy_struct_field (copies_map (obj:=object)) f_Labels Hv.
  copy_struct_field (copies_plain_elements (obj:=object) "") f_Finalizers Hd. end_struct.
Qed.

Lemma Hosts_copies : copies Hosts_view anyway Hosts_DeepCopyInto.
Proof.
  start_struct. split_value Hd. unfold Hosts_DeepCopyInto. run Hassign.
  copy_struct_field (copies_plain_elements (obj:=object) "") f_Hosts Hv.
  copy_struct_field (copies_plain_elements (obj:=object) "") f_Gateways Hd. end_struct.
Qed.

#[local] Instance foreign_laws : ForeignLaws foreign_types foreign_ops.
Proof.
  split; [apply Meta_copies | apply copies_assign | apply Hosts_copies|].
  intros h m v F (vs & Hd & ->)%deep_struct_Some. by destruct vs.
Qed.

(** * A cached list of two Routes *)

Definition meta (name : string) (labels : pointer) : ObjectMetaM :=
  mkMetaOf name "workload-namespace" (name +:+ "-uid") labels None.
Definition route_in_memory (name : string) (labels : pointer) (destinations : slice) : RouteM :=
  mkRouteOf (mkTypeMeta "Route" "") (meta name labels)
    (mkSpecOf "test0" "/path0" "test0.domain0.example.com" (mkRouteDomain "domain0.example.com" false)
       destinations)
    (mkStatusOf None).

(** Location 1 is the list, 2 its backing array, of capacity 3. *)
Definition memory : heap object :=
  {[ 1%positive := RouteLists [mkListOf (mkTypeMeta "RouteList" "") "42" (Some (mkHeader 2%positive 0 2 3))];
     2%positive := Routes [route_in_memory "a" (Some 3%positive) (Some (mkHeader 4%positive 1 1 1));
                           route_in_memory "b" None None; Route_zero];
     3%positive := Maps [{[ "space" := "s1" ]}];
     4%positive := RouteDestinations [Destination_zero;
       mkDestinationOf "d0" (Some 5%positive) (Some 5%positive)
         (mkDestinationApp "app" (mkAppProcess "web")) (mkSelectorOf (Some 6%positive))];
     5%positive := Ints [100%Z];
     6%positive := Maps [{[ "app" := "app-guid" ]}];
     7%positive := Routes [route_in_memory "a" None None];
     8%positive := VirtualServiceLists [mkVSListOf TypeMeta_zero "" (Some (mkHeader 9%positive 0 1 1))];
     9%positive := VirtualServices [VS_zero] ]}.

(** The value behind a pointer, read by evaluation. *)
Definition value_at {T V} `{Typed object T} (vw : view object T V) (h : heap object) (p : pointer)
    : option V := deep (pointer_view vw) h p ≫= fst.

Definition cached_value : RouteListV :=
  default (mkListOf TypeMeta_zero "" None) (value_at RouteList_view memory (Some 1%positive)).
Definition cached_footprint : gset loc :=
  default ∅ (snd <$> deep (pointer_view RouteList_view) memory (Some 1%positive)).

(** Weight and Port of the destination are one cell in the original and two in
    the copy. *)
Example copied_list_value :
  match RouteList_DeepCopy (Some 1%positive) memory with
  | Some (out, h) =>
      bool_decide (out = Some 10%positive) &&
      bool_decide ((api_items ∘ list_Items <$> value_at RouteList_view h out)
                   = Some (api_items (list_Items cached_value)))
  | None => false
  end = true.
Proof. vm_compute. reflexivity. Qed.

Lemma cached_deep :
  deep (pointer_view RouteList_view) memory (Some 1%positive)
  = Some (Some cached_value, cached_footprint).
Proof. vm_compute. reflexivity. Qed.

Definition removed_value : RouteV :=
  default (mkRouteOf TypeMeta_zero (mkMetaOf "" "" "" None None)
             (mkSpecOf "" "" "" RouteDomain_zero None) (mkStatusOf None))
    (value_at Route_view memory (Some 7%positive)).

Lemma removed_deep :
  deep (pointer_view Route_view) memory (Some 7%positive) = Some (Some removed_value, {[7%positive]}).
Proof. vm_compute. reflexivity. Qed.

Definition kept_names (items : list Route) : list string :=
  (λ r, Name (Route_ObjectMeta r)) <$> items.

Lemma API_objects_DeepCopy_witness :
  (∃ h' out F', RouteList_DeepCopy (Some 1%positive) memory = Some (Some out, h') ∧
     deep (pointer_view RouteList_view) h' (Some out) = Some (Some cached_value, F') ∧
     F' ## dom memory) ∧
  ∃ h' out, VirtualServiceList_DeepCopy (Some 8%positive) memory = Some (Some out, h') ∧ memory ⊆ h'.
Proof.
  destruct API_objects_DeepCopy as (_ & [_ Hlist] & _ & [_ Hvs]). split.
  - destruct (Hlist memory 1%positive cached_value cached_footprint cached_deep)
      as (h' & out & F' & Hrun & _ & HF & Hd & _).
    exists h', out, F'. split; [exact Hrun|]. split; [exact Hd | exact HF].
  - destruct (Hvs memory 8%positive
      (default (mkVSListOf TypeMeta_zero "" None) (value_at VSList_view memory (Some 8%positive)))
      {[8; 9]}%positive) as (h' & out & _ & Hrun & Hs & _).
    + vm_compute. reflexivity.
    + exists h', out. split; [exact Hrun | exact Hs].
Defined.

Lemma API_structs_DeepCopy_witness :
  RouteSpec_DeepCopy None memory = Some (None, memory) ∧
  ∃ h' out F', RouteDestination_DeepCopy (Some 4%positive) memory = Some (Some out, h') ∧
    deep (pointer_view Destination_view) h' (Some out)
    = Some (Some (mkDestinationOf "" None None DestinationApp_zero (mkSelectorOf None)), F').
Proof.
  destruct API_structs_DeepCopy as (_ & _ & _ & _ & _ & [_ Hdest] & [Hnil _] & _).
  split; [apply Hnil|].
  destruct (Hdest memory 4%positive
    (mkDestinationOf "" None None DestinationApp_zero (mkSelectorOf None)) {[4%positive]})
    as (h' & out & F' & Hrun & _ & _ & Hd & _).
  - vm_compute. reflexivity.
  - exists h', out, F'. split; [exact Hrun | exact Hd].
Defined.

Lemma API_objects_DeepCopyObject_witness :
  RouteList_DeepCopyObject None memory = Some (NilObject, memory) ∧
  ∃ h' out, RouteList_DeepCopyObject (Some 1%positive) memory = Some (AsRouteList (Some out), h').
Proof.
  destruct API_objects_DeepCopyObject as (_ & [Hnil Hlist] & _). split; [apply Hnil|].
  destruct (Hlist memory 1%positive cached_value cached_footprint cached_deep)
    as (h' & out & _ & Hrun & _).
  exists h', out. exact Hrun.
Defined.

Lemma removeRouteFromRouteList_in_place_witness :
  ∃ s h' items F',
    removeRouteFromRouteList_mem (variable 7%positive) (variable 1%positive) memory = Some (s, h') ∧
    deep (slice_view Route_view) h' s = Some (items, F') ∧
    kept_names (api_items items) = ["b"].
Proof.
  destruct (removeRouteFromRouteList_in_place memory (variable 7%positive)
    (route_in_memory "a" None None) removed_value ∅ (variable 1%positive)
    (mkListOf (mkTypeMeta "RouteList" "") "42" (Some (mkHeader 2%positive 0 2 3)))
    cached_value (cached_footprint ∖ {[1%positive]}))
    as (s & h' & items & F' & Hrun & Hd & _ & Hitems & _).
  - vm_compute. reflexivity.
  - vm_compute. reflexivity.
  - vm_compute. reflexivity.
  - vm_compute. reflexivity.
  - exists s, h', items, F'. split; [exact Hrun|]. split; [exact Hd|].
    rewrite Hitems. vm_compute. reflexivity.
Defined.

Lemma cached_list_isolated_witness :
  ∃ h1 copy s h2 items F',
    RouteList_DeepCopy (Some 1%positive) memory = Some (Some copy, h1) ∧
    removeRouteFromRouteList_mem (variable 7%positive) (variable copy) h1 = Some (s, h2) ∧
    deep (slice_view Route_view) h2 s = Some (items, F') ∧
    kept_names (api_items items) = ["b"] ∧
    deep (pointer_view RouteList_view) h2 (Some 1%positive)
    = Some (Some cached_value, cached_footprint).
Proof.
  destruct (cached_list_isolated memory 1%positive cached_value cached_footprint 7%positive
    removed_value {[7%positive]} cached_deep removed_deep)
    as (h1 & copy & s & h2 & items & F' & Hcopy & Hrem & Hd & Hitems & Hcached).
  exists h1, copy, s, h2, items, F'.
  split; [exact Hcopy|]. split; [exact Hrem|]. split; [exact Hd|]. split; [|exact Hcached].
  rewrite Hitems. vm_compute. reflexivity.
Defined.
