(* ===== verification/GoFloat.v ===== *)
(** Go's [float64], on the executable binary64 arithmetic of the Standard
    Library ([SpecFloat] at precision 53 and maximal exponent 1024): the
    conversions and operations the source uses. *)
From S2P Require Import Prelude.
From Stdlib Require Import SpecFloat.
Local Open Scope Z_scope.

Definition float64 : Type := spec_float.

(** [float64(z)], rounded to nearest, ties to even. *)
Definition float64_of (z : Z) : float64 := binary_normalize 53 1024 z 0 false.

Definition fmul (x y : float64) : float64 := SFmul 53 1024 x y.
Definition fdiv (x y : float64) : float64 := SFdiv 53 1024 x y.

(** [x > y] and [x < y]: false when either side is NaN. *)
Definition fgt (x y : float64) : bool := SFltb y x.
Definition flt (x y : float64) : bool := SFltb x y.

(** [int64(x)]: truncation towards zero; out of range the result is
    implementation-defined in Go, amd64 gives the least integer. *)
Definition float64_trunc (x : float64) : Z :=
  match x with
  | S754_zero _ => 0
  | S754_finite s m e =>
      let a := match e with
               | Zneg k => Z.pos m / 2 ^ Z.pos k
               | _ => Z.pos m * 2 ^ e
               end in
      let v := if s then - a else a in
      if (- 2 ^ 63 <=? v) && (v <? 2 ^ 63) then v else - 2 ^ 63
  | _ => - 2 ^ 63
  end.

Definition is_nan (x : float64) : bool := match x with S754_nan => true | _ => false end.

Lemma fgt_nan_l y : fgt S754_nan y = false.
Proof. by destruct y as [[]|[]| |[]]. Qed.

Example zero_over_zero : fdiv (float64_of 0) (float64_of 0) = S754_nan.
Proof. reflexivity. Qed.

Example three_quarters : fdiv (float64_of 3) (float64_of 4) = S754_finite false 6755399441055744 (-53).
Proof. vm_compute. reflexivity. Qed.

Example float64_trunc_ex :
  float64_trunc (fmul (float64_of 7) (fdiv (float64_of 1000000000) (float64_of 10))) = 700000000.
Proof. vm_compute. reflexivity. Qed.

(** * Integers below 2^53 are doubled exactly *)

(** [p] times 2^k. *)
Definition shift (k : nat) (p : positive) : positive := Nat.iter k xO p.

Lemma shift_value k p : Z.pos (shift k p) = Z.pos p * 2 ^ Z.of_nat k.
Proof.
  unfold shift. induction k as [|k IH]; [simpl; lia|]. rewrite Nat2Z.inj_succ, Z.pow_succ_r by lia.
  change (Nat.iter (S k) xO p) with (xO (Nat.iter k xO p)). lia.
Qed.

Lemma digits_shift k p : Z.pos (digits2_pos (shift k p)) = Z.pos (digits2_pos p) + Z.of_nat k.
Proof.
  unfold shift. induction k as [|k IH]; [simpl; lia|].
  change (Nat.iter (S k) xO p) with (xO (Nat.iter k xO p)). simpl digits2_pos. lia.
Qed.

Lemma digits_bound p : 2 ^ (Z.pos (digits2_pos p) - 1) <= Z.pos p < 2 ^ Z.pos (digits2_pos p).
Proof.
  induction p as [p IH|p IH|]; [..|simpl; lia]; simpl digits2_pos;
    rewrite Pos2Z.inj_succ; unfold Z.succ;
    replace (Z.pos (digits2_pos p) + 1 - 1) with (Z.succ (Z.pos (digits2_pos p) - 1)) by lia;
    rewrite Z.pow_succ_r, Z.pow_add_r by lia; lia.
Qed.

Lemma digits_small p k : 0 <= k → Z.pos p < 2 ^ k → Z.pos (digits2_pos p) <= k.
Proof.
  intros Hk Hp. pose proof (digits_bound p) as [Hlow _].
  apply Z.nlt_ge. intros Hd. assert (2 ^ k <= 2 ^ (Z.pos (digits2_pos p) - 1)); [|lia].
  apply Z.pow_le_mono_r; lia.
Qed.

Lemma iter_pos_iter {A} (f : A → A) n x : iter_pos f n x = Nat.iter (Pos.to_nat n) f x.
Proof.
  revert x. induction n as [n IH|n IH|]; intros x; cbn [iter_pos]; rewrite ?IH, <- ?Nat.iter_add.
  - rewrite Pos2Nat.inj_xI. rewrite <- (Nat.iter_succ_r (_ + _)). f_equal. lia.
  - f_equal. rewrite Pos2Nat.inj_xO. lia.
  - done.
Qed.

Lemma shr_shift k p :
  Nat.iter k shr_1 (Build_shr_record (Z.pos (shift k p)) false false)
  = Build_shr_record (Z.pos p) false false.
Proof.
  induction k as [|k IH]; [done|]. rewrite Nat.iter_succ_r.
  change (shift (S k) p) with (xO (shift k p)). exact IH.
Qed.

Lemma shr_fexp_exact k p e :
  fexp 53 1024 (Z.pos (digits2_pos p) + Z.of_nat k + e) = Z.of_nat k + e →
  shr_fexp 53 1024 (Z.pos (shift k p)) e loc_Exact
  = (Build_shr_record (Z.pos p) false false, Z.of_nat k + e).
Proof.
  intros He. unfold shr_fexp. cbn [Zdigits2 shr_record_of_loc]. rewrite digits_shift, He.
  destruct k as [|k].
  - replace (Z.of_nat 0 + e - e) with 0 by lia. done.
  - replace (Z.of_nat (S k) + e - e) with (Z.pos (Pos.of_nat (S k))) by lia. cbn [shr].
    rewrite iter_pos_iter, Nat2Pos.id, shr_shift by done. f_equal. lia.
Qed.

(** A product of mantissas that loses nothing to the rounding. *)
Lemma round_exact s k p e :
  fexp 53 1024 (Z.pos (digits2_pos p) + Z.of_nat k + e) = Z.of_nat k + e →
  Z.of_nat k + e <= 971 →
  binary_round_aux 53 1024 s (Z.pos (shift k p)) e loc_Exact = S754_finite s p (Z.of_nat k + e).
Proof.
  intros He Hmax. unfold binary_round_aux. rewrite shr_fexp_exact by done.
  cbn [shr_m loc_of_shr_record round_nearest_even].
  pose proof (shr_fexp_exact 0 p (Z.of_nat k + e)) as Hagain. change (shift 0 p) with p in Hagain.
  rewrite Hagain.
  2: { replace (Z.pos (digits2_pos p) + Z.of_nat 0 + (Z.of_nat k + e))
         with (Z.pos (digits2_pos p) + Z.of_nat k + e) by lia. lia. }
  cbn [shr_m]. rewrite (proj2 (Z.leb_le _ _)) by lia. f_equal.
Qed.

Lemma iter_shift p d : Pos.iter xO p d = shift (Pos.to_nat d) p.
Proof. apply Pos2Nat.inj_iter. Qed.

(** An integer of at most 53 digits, brought to 53 digits. *)
Lemma binary_round_small s p :
  Z.pos (digits2_pos p) <= 53 →
  binary_round 53 1024 s p 0
  = S754_finite s (shift (Z.to_nat (53 - Z.pos (digits2_pos p))) p) (Z.pos (digits2_pos p) - 53).
Proof.
  intros Hd. unfold binary_round, shl_align.
  set (d := Z.pos (digits2_pos p)) in *.
  assert (fexp 53 1024 (d + 0) - 0 = d - 53) as -> by (unfold fexp, emin; lia).
  assert (∀ q e, q = shift (Z.to_nat (53 - d)) p → e = d - 53 →
    binary_round_aux 53 1024 s (Z.pos q) e loc_Exact
    = S754_finite s (shift (Z.to_nat (53 - d)) p) (d - 53)) as Hround.
  { intros q e -> ->. apply (round_exact s 0); [|lia].
    rewrite digits_shift. fold d. unfold fexp, emin. lia. }
  destruct (d - 53) as [|k|k] eqn:Hk; [|lia|].
  - apply Hround; [|done]. replace (Z.to_nat (53 - d)) with 0%nat by lia. done.
  - apply Hround; [|unfold fexp, emin; lia].
    rewrite iter_shift. f_equal. lia.
Qed.

Lemma double_exact s p :
  Z.pos (digits2_pos p) <= 53 →
  float64_trunc (SFmul 53 1024 (binary_round 53 1024 s p 0) (float64_of 2))
  = (if s then -1 else 1) * (2 * Z.pos p).
Proof.
  intros Hd. rewrite binary_round_small by done.
  change (float64_of 2) with (S754_finite false 4503599627370496 (-51)).
  set (d := Z.pos (digits2_pos p)) in *. set (q := shift (Z.to_nat (53 - d)) p).
  cbn [SFmul].
  assert (q * 4503599627370496 = shift 52 q)%positive as ->.
  { apply Pos2Z.inj. rewrite shift_value, Pos2Z.inj_mul. done. }
  assert (Z.pos (digits2_pos q) = 53) as Hq.
  { unfold q. rewrite digits_shift. lia. }
  rewrite round_exact; [|rewrite Hq; unfold fexp, emin; lia|lia].
  replace (Z.of_nat 52 + (d - 53 + -51)) with (d - 52) by lia.
  rewrite Bool.xorb_false_r.
  assert (Z.pos p < 2 ^ 53) as Hp.
  { pose proof (digits_bound p). assert (2 ^ Z.pos (digits2_pos p) <= 2 ^ 53); [|lia].
    apply Z.pow_le_mono_r; lia. }
  assert (Z.pos q = Z.pos p * 2 ^ (53 - d)) as Hv.
  { unfold q. rewrite shift_value. f_equal. f_equal. lia. }
  assert (match d - 52 with Zneg k => Z.pos q / 2 ^ Z.pos k | _ => Z.pos q * 2 ^ (d - 52) end
    = 2 * Z.pos p) as Ha.
  { rewrite Hv. destruct (d - 52) as [|k|k] eqn:Hk.
    - replace (53 - d) with 1 by lia. lia.
    - replace (53 - d) with 0 by lia. replace k with 1%positive by lia. lia.
    - replace (53 - d) with (Z.succ (Z.pos k)) by lia. rewrite Z.pow_succ_r by lia.
      replace (Z.pos p * (2 * 2 ^ Z.pos k)) with (2 * Z.pos p * 2 ^ Z.pos k) by lia.
      apply Z.div_mul. assert (0 < 2 ^ Z.pos k) by (apply Z.pow_pos_nonneg; lia). lia. }
  unfold float64_trunc. rewrite Ha.
  destruct s; (rewrite (proj2 (andb_true_iff _ _)); [lia|split; [apply Z.leb_le|apply Z.ltb_lt]; lia]).
Qed.

Lemma float64_double z :
  - 2 ^ 53 < z < 2 ^ 53 → float64_trunc (fmul (float64_of z) (float64_of 2)) = 2 * z.
Proof.
  intros Hz. unfold fmul. destruct z as [|p|p]; [done|..].
  - change (float64_of (Z.pos p)) with (binary_round 53 1024 false p 0).
    rewrite (double_exact false p) by (apply digits_small; lia). lia.
  - change (float64_of (Z.neg p)) with (binary_round 53 1024 true p 0).
    rewrite (double_exact true p) by (apply digits_small; lia). lia.
Qed.
