(* ===== verification/GoTime.v ===== *)
(** [time.Duration] and [time.ParseDuration] of Go's standard library, which
    src/routecontroller/cfg/config.go uses for the resync interval: a duration
    is a 64-bit number of nanoseconds, and parsing accepts a sign and a
    sequence of decimal numbers, each with an optional fraction and a unit. *)
From S2P Require Import Prelude GoFloat.
From Stdlib Require Import Ascii.
Local Open Scope Z_scope.

Definition Nanosecond : Z := 1.
Definition Microsecond : Z := 1000 * Nanosecond.
Definition Millisecond : Z := 1000 * Microsecond.
Definition Second : Z := 1000 * Millisecond.
Definition Minute : Z := 60 * Second.
Definition Hour : Z := 60 * Minute.

(** The two spellings of the micro sign, as UTF-8. *)
Definition utf8 (bytes : list nat) : string :=
  String.string_of_list_ascii (ascii_of_nat <$> bytes).

Definition unitMap : list (string * Z) :=
  [("ns", Nanosecond); ("us", Microsecond); (utf8 [194; 181; 115]%nat, Microsecond);
   (utf8 [206; 188; 115]%nat, Microsecond); ("ms", Millisecond); ("s", Second);
   ("m", Minute); ("h", Hour)].

Definition lookup_unit (u : string) : option Z :=
  snd <$> head (filter (λ kv, kv.1 = u) unitMap).

Definition digit (c : ascii) : option Z :=
  let n := Z.of_nat (nat_of_ascii c) in
  if (48 <=? n) && (n <=? 57) then Some (n - 48) else None.

(** [(1<<63 - 1) / 10] *)
Definition cutoff : Z := max_int64 / 10.

(** The value of the leading digits and the rest, or overflow. *)
Fixpoint leadingInt (x : Z) (s : list ascii) : option (Z * list ascii) :=
  match s with
  | c :: s' =>
      match digit c with
      | None => Some (x, s)
      | Some d =>
          if cutoff <? x then None
          else let x := int64 (x * 10 + d) in
               if x <? 0 then None else leadingInt x s'
      end
  | [] => Some (x, [])
  end.

(** The leading digits as an integer over a power of ten; digits beyond the
    64-bit range are skipped. *)
Fixpoint leadingFraction (x : Z) (scale : float64) (overflow : bool) (s : list ascii)
    : Z * float64 * list ascii :=
  match s with
  | c :: s' =>
      match digit c with
      | None => (x, scale, s)
      | Some d =>
          if overflow then leadingFraction x scale true s'
          else if cutoff <? x then leadingFraction x scale true s'
          else let y := int64 (x * 10 + d) in
               if y <? 0 then leadingFraction x scale true s'
               else leadingFraction y (fmul scale (float64_of 10)) false s'
      end
  | [] => (x, scale, [])
  end.

(** The unit: everything up to the next digit or period. *)
Fixpoint takeUnit (s : list ascii) : list ascii * list ascii :=
  match s with
  | c :: s' =>
      if Ascii.eqb c "." || bool_decide (is_Some (digit c)) then ([], s)
      else let '(u, rest) := takeUnit s' in (c :: u, rest)
  | [] => ([], [])
  end.

Definition starts_number (s : list ascii) : bool :=
  match s with
  | c :: _ => Ascii.eqb c "." || bool_decide (is_Some (digit c))
  | [] => false
  end.

Definition starts_with (c : ascii) (s : list ascii) : bool :=
  match s with c' :: _ => Ascii.eqb c' c | [] => false end.

(** One round of the loop: a number and its unit, in nanoseconds, and the
    rest.  [None] is any of the errors. *)
Definition parseOne (s : list ascii) : option (Z * list ascii) :=
  if negb (starts_number s) then None
  else
    '(v, s1) ← leadingInt 0 s;
    let pre := negb (Nat.eqb (length s) (length s1)) in
    let '(f, scale, s2, post) :=
      if starts_with "." s1 then
        let s' := tail s1 in
        let '(f, scale, s2) := leadingFraction 0 (float64_of 1) false s' in
        (f, scale, s2, negb (Nat.eqb (length s') (length s2)))
      else (0, float64_of 1, s1, false) in
    if negb pre && negb post then None
    else
      let '(u, s3) := takeUnit s2 in
      match u with
      | [] => None
      | _ =>
          unit ← lookup_unit (String.string_of_list_ascii u);
          if max_int64 / unit <? v then None
          else
            let v := v * unit in
            let v := if 0 <? f
                     then int64 (v + float64_trunc (fmul (float64_of f)
                                   (fdiv (float64_of unit) scale)))
                     else v in
            if v <? 0 then None else Some (v, s3)
      end.

(** The loop; every round consumes at least a digit or a period, so the length
    of the string bounds the number of rounds. *)
Fixpoint parseRest (fuel : nat) (d : Z) (s : list ascii) : option Z :=
  match s with
  | [] => Some d
  | _ =>
      match fuel with
      | O => None
      | S fuel =>
          '(v, s) ← parseOne s;
          let d := int64 (d + v) in
          if d <? 0 then None else parseRest fuel d s
      end
  end.

(** The optional sign. *)
Definition parseSign (s : list ascii) : bool * list ascii :=
  if starts_with "-" s || starts_with "+" s then (starts_with "-" s, tail s) else (false, s).

Definition ParseDuration (str : string) : option Z :=
  let '(neg, s) := parseSign (String.list_ascii_of_string str) in
  if bool_decide (s = ["0"%char]) then Some 0
  else if bool_decide (s = []) then None
  else
    d ← parseRest (length s) 0 s;
    Some (if neg then - d else d).

Example ParseDuration_15ms : ParseDuration "15ms" = Some (15 * Millisecond).
Proof. vm_compute. reflexivity. Qed.
Example ParseDuration_mixed : ParseDuration "-1h15m30.918273645s" = Some (-4530918273645).
Proof. vm_compute. reflexivity. Qed.
Example ParseDuration_min_max :
  ParseDuration "9223372036854775807ns" = Some max_int64 ∧
  ParseDuration "9223372036854775808ns" = None ∧ ParseDuration "3000000h" = None.
Proof. vm_compute. done. Qed.
Example ParseDuration_bad :
  ParseDuration <$> [""; "3"; "-"; "s"; "."; ".s"; "1 s"; "1x"] = replicate 8 None.
Proof. vm_compute. reflexivity. Qed.
Example ParseDuration_fractions :
  ParseDuration <$> [".5s"; "0.3333333333333333333h"; "0.100000000000000000000h"]
  = [Some 500000000; Some 1200000000000; Some 360000000000].
Proof. vm_compute. reflexivity. Qed.

(** * Whole numbers with a unit *)

Definition is_digit (c : ascii) : Prop := is_Some (digit c).

(** The decimal value of a list of digits, on top of [x]. *)
Fixpoint digits_value (x : Z) (s : list ascii) : Z :=
  match s with
  | [] => x
  | c :: s' => digits_value (x * 10 + default 0 (digit c)) s'
  end.

Lemma digit_range c d : digit c = Some d → 0 <= d <= 9.
Proof. unfold digit. destruct (_ && _) eqn:Hc; [|done]. intros [= <-]. lia. Qed.

Lemma digits_value_mono x s : 0 <= x → Forall is_digit s → x <= digits_value x s.
Proof.
  revert x. induction s as [|c s IH]; intros x Hx Hs; cbn [digits_value]; [lia|].
  apply Forall_cons in Hs as [[d Hd] Hs]. rewrite Hd. cbn [default from_option id].
  pose proof (digit_range _ _ Hd). etrans; [|apply IH; [lia|done]]. lia.
Qed.

Lemma leadingInt_digits x s rest :
  0 <= x → Forall is_digit s → digits_value x s <= max_int64 →
  (∀ c, head rest = Some c → digit c = None) →
  leadingInt x (s ++ rest) = Some (digits_value x s, rest).
Proof.
  revert x. induction s as [|c s IH]; intros x Hx Hs Hmax Hrest; cbn [app].
  - destruct rest as [|c rest]; cbn [leadingInt]; [done|]. by rewrite (Hrest c eq_refl).
  - apply Forall_cons in Hs as [[d Hd] Hs]. cbn [leadingInt digits_value] in *.
    rewrite Hd in *. cbn [default from_option id] in Hmax |- *.
    pose proof (digit_range _ _ Hd) as Hrange.
    pose proof (digits_value_mono (x * 10 + d) s ltac:(lia) Hs) as Hmono.
    assert ((cutoff <? x) = false) as ->.
    { apply Z.ltb_ge. unfold cutoff. apply Z.div_le_lower_bound; lia. }
    assert (int64 (x * 10 + d) = x * 10 + d) as ->.
    { apply int64_id. unfold in_int64, max_int64 in *. lia. }
    assert ((x * 10 + d <? 0) = false) as -> by (apply Z.ltb_ge; lia).
    apply IH; [lia|done..].
Qed.

(** The characters a unit is made of. *)
Definition unit_char (c : ascii) : bool :=
  negb (Ascii.eqb c ".") && bool_decide (digit c = None).

Lemma takeUnit_all u : forallb unit_char u = true → takeUnit u = (u, []).
Proof.
  induction u as [|c u IH]; [done|]. cbn [forallb takeUnit]. intros [Hc Hu]%andb_true_iff.
  unfold unit_char in Hc. apply andb_true_iff in Hc as [Hdot Hd%bool_decide_eq_true].
  apply negb_true_iff in Hdot. rewrite Hdot, Hd, bool_decide_false by by intros [].
  cbn [orb]. by rewrite (IH Hu).
Qed.

(** A whole number of units in the range of [int64] is read exactly. *)
Lemma parseOne_whole s u k :
  s ≠ [] → Forall is_digit s → u ≠ [] → forallb unit_char u = true →
  lookup_unit (String.string_of_list_ascii u) = Some k → 0 < k →
  digits_value 0 s * k <= max_int64 →
  parseOne (s ++ u) = Some (digits_value 0 s * k, []).
Proof.
  intros Hs Hdigits Hu Hchars Hk Hpos Hmax. unfold parseOne.
  pose proof (digits_value_mono 0 s ltac:(lia) Hdigits) as Hge.
  assert (starts_number (s ++ u) = true) as ->.
  { destruct s as [|c s]; [done|]. cbn. apply Forall_cons in Hdigits as [Hc _].
    by rewrite bool_decide_true, orb_true_r. }
  cbn [negb].
  rewrite leadingInt_digits; [|lia|done|nia|]; cycle 1.
  { intros c Hc. destruct u as [|c' u]; [done|]. injection Hc as ->.
    cbn [forallb] in Hchars. apply andb_true_iff in Hchars as [Hc _].
    unfold unit_char in Hc. by apply andb_true_iff in Hc as [_ ?%bool_decide_eq_true]. }
  cbn [mbind option_bind].
  assert (Nat.eqb (length (s ++ u)) (length u) = false) as ->.
  { apply Nat.eqb_neq. rewrite length_app. destruct s; [done|]. cbn. lia. }
  assert (starts_with "." u = false) as Hnodot.
  { destruct u as [|c u']; [done|]. cbn [forallb] in Hchars.
    apply andb_true_iff in Hchars as [Hc _]. unfold unit_char in Hc.
    apply andb_true_iff in Hc as [Hc _]. by apply negb_true_iff in Hc. }
  rewrite Hnodot. cbn [negb andb]. rewrite (takeUnit_all u Hchars).
  destruct u as [|c u]; [done|]. rewrite Hk. cbn [mbind option_bind].
  assert ((max_int64 `div` k <? digits_value 0 s) = false) as ->.
  { apply Z.ltb_ge, Z.div_le_lower_bound; lia. }
  rewrite Z.ltb_irrefl. by assert ((digits_value 0 s * k <? 0) = false) as -> by (apply Z.ltb_ge; nia).
Qed.

Lemma parseRest_one s v :
  s ≠ [] → parseOne s = Some (v, []) → 0 <= v <= max_int64 → parseRest (length s) 0 s = Some v.
Proof.
  intros Hs Hone Hv. destruct s as [|c s]; [done|]. cbn [length parseRest].
  rewrite Hone. cbn [mbind option_bind].
  rewrite Z.add_0_l, int64_id by (unfold in_int64, max_int64 in *; lia).
  assert ((v <? 0) = false) as -> by (apply Z.ltb_ge; lia). by destruct (length s).
Qed.

Lemma ParseDuration_whole s u k :
  s ≠ [] → Forall is_digit s → u ≠ [] → forallb unit_char u = true →
  lookup_unit (String.string_of_list_ascii u) = Some k → 0 < k →
  digits_value 0 s * k <= max_int64 →
  ParseDuration (String.string_of_list_ascii (s ++ u)) = Some (digits_value 0 s * k).
Proof.
  intros Hs Hdigits Hu Hchars Hk Hpos Hmax. unfold ParseDuration.
  rewrite String.list_ascii_of_string_of_list_ascii.
  pose proof (parseOne_whole s u k Hs Hdigits Hu Hchars Hk Hpos Hmax) as Hone.
  pose proof (digits_value_mono 0 s ltac:(lia) Hdigits) as Hge.
  assert (parseSign (s ++ u) = (false, s ++ u)) as ->.
  { destruct s as [|c s]; [done|]. apply Forall_cons in Hdigits as [[d Hd] _].
    unfold parseSign, starts_with. cbn [app].
    destruct (Ascii.eqb_spec c "-"%char) as [->|]; [done|].
    by destruct (Ascii.eqb_spec c "+"%char) as [->|]. }
  rewrite bool_decide_false, bool_decide_false; [| |].
  - rewrite (parseRest_one _ (digits_value 0 s * k)); [done|by destruct s|done|nia].
  - by destruct s.
  - intros Heq. apply (f_equal length) in Heq. rewrite length_app in Heq.
    destruct s, u; cbn in Heq; try done; lia.
Qed.

(** * The fuel is enough, and the result is a 64-bit duration *)

Lemma leadingInt_length x s v rest :
  leadingInt x s = Some (v, rest) → (length rest ≤ length s)%nat.
Proof.
  revert x. induction s as [|c s IH]; intros x; cbn [leadingInt]; [by intros [= <- <-]|].
  destruct (digit c) as [d|]; [|by intros [= <- <-]].
  destruct (cutoff <? x); [done|]. destruct (_ <? 0); [done|]. intros Hs%IH. cbn. lia.
Qed.

Lemma leadingFraction_length x scale b s f scale' rest :
  leadingFraction x scale b s = (f, scale', rest) → (length rest ≤ length s)%nat.
Proof.
  revert x scale b. induction s as [|c s IH]; intros x scale b; cbn [leadingFraction];
    [by intros [= <- <- <-]|].
  destruct (digit c) as [d|]; [|by intros [= <- <- <-]]. cbn [length].
  destruct b; [|destruct (cutoff <? x); [|destruct (_ <? 0)]]; intros Hs%IH; lia.
Qed.

Lemma takeUnit_length s u rest : takeUnit s = (u, rest) → (length rest ≤ length s)%nat.
Proof.
  revert u. induction s as [|c s IH]; intros u; cbn [takeUnit]; [by intros [= <- <-]|].
  destruct (_ || _); [by intros [= <- <-]|]. destruct (takeUnit s) as [u' rest'].
  intros [= <- <-]. cbn. pose proof (IH u' eq_refl). lia.
Qed.

Lemma parseOne_shorter s v rest :
  parseOne s = Some (v, rest) → (length rest < length s)%nat ∧ 0 <= v.
Proof.
  unfold parseOne. destruct (starts_number s); [|done]. cbn [negb].
  destruct (leadingInt 0 s) as [[v0 s1]|] eqn:Hint; [|done]. cbn [mbind option_bind].
  apply leadingInt_length in Hint.
  destruct (if starts_with "." s1 then _ else _) as [[[f scale] s2] post] eqn:Hfrac.
  assert ((length s2 ≤ length s1)%nat ∧ (post = true → (length s2 < length s1)%nat)) as [Hle Hpost].
  { destruct (starts_with "." s1) eqn:Hdot; [|by injection Hfrac as <- <- <- <-].
    destruct (leadingFraction _ _ _ _) as [[f' scale'] s2'] eqn:Hf.
    injection Hfrac as <- <- <- <-. apply leadingFraction_length in Hf.
    destruct s1 as [|c s1]; [done|]. cbn [tail length] in *. split; [|intros _]; lia. }
  destruct (negb _ && negb post) eqn:Hnone; [done|].
  destruct (takeUnit s2) as [u s3] eqn:Hu. apply takeUnit_length in Hu.
  destruct u as [|c u]; [done|]. destruct (lookup_unit _) as [k|]; [|done]. cbn [mbind option_bind].
  destruct (_ <? v0); [done|]. destruct (_ <? 0) eqn:Hneg; [done|]. intros [= <- <-].
  split; [|by apply Z.ltb_ge in Hneg].
  apply andb_false_iff in Hnone as [Hpre|Hpost'].
  - apply negb_false_iff, negb_true_iff, Nat.eqb_neq in Hpre. lia.
  - apply negb_false_iff in Hpost'. specialize (Hpost Hpost'). lia.
Qed.

(** More fuel than the length of the input changes nothing. *)
Lemma parseRest_fuel n m d s :
  (length s ≤ n)%nat → (length s ≤ m)%nat → parseRest n d s = parseRest m d s.
Proof.
  revert m d s. induction n as [|n IH]; intros m d s Hn Hm.
  - destruct s; [by destruct m | cbn in Hn; lia].
  - destruct s as [|c s]; [by destruct m|]. destruct m as [|m]; [cbn in Hm; lia|].
    cbn [parseRest]. destruct (parseOne (c :: s)) as [[v rest]|] eqn:Hone; [|done].
    apply parseOne_shorter in Hone as [Hlen _]. cbn [length mbind option_bind] in *.
    destruct (_ <? 0); [done|]. apply IH; lia.
Qed.

Lemma parseRest_range n d s r :
  0 <= d <= max_int64 → parseRest n d s = Some r → 0 <= r <= max_int64.
Proof.
  revert d s. induction n as [|n IH]; intros d s Hd; destruct s as [|c s]; cbn [parseRest];
    [by intros [= <-] | done | by intros [= <-] |].
  destruct (parseOne (c :: s)) as [[v rest]|]; [|done]. cbn [mbind option_bind].
  destruct (_ <? 0) eqn:Hneg; [done|]. apply IH. apply Z.ltb_ge in Hneg.
  pose proof (int64_range (d + v)) as Hr. unfold in_int64, max_int64 in *. lia.
Qed.

Lemma ParseDuration_range s d : ParseDuration s = Some d → in_int64 d.
Proof.
  unfold ParseDuration. destruct (parseSign _) as [neg l].
  destruct (bool_decide (l = _)); [by intros [= <-]|]. destruct (bool_decide (l = [])); [done|].
  destruct (parseRest (length l) 0 l) as [r|] eqn:Hr; [|done]. intros [= <-].
  apply parseRest_range in Hr; [|unfold max_int64; lia].
  unfold in_int64, max_int64 in *. destruct neg; lia.
Qed.
