(* ===== verification/Cfg.v ===== *)
(** src/routecontroller/cfg/config.go: the configuration of the controller,
    read from environment variables. *)
From S2P Require Import Prelude GoTime.
From Stdlib Require Import Ascii.
Local Open Scope Z_scope.

(** The [Istio] sub-struct has one field, [Gateway]. *)
Record Config := mkConfig {
  Cfg_ResyncInterval : Z;
  Istio_Gateway : string;
  LeaderElectionNamespace : string;
}.

(** [Load]: [env] is the environment os.LookupEnv reads.
    [fmt.Sprintf("%ss", v)] appends the unit to the value of the variable. *)
Definition Load (env : gmap string string) : outcome Config :=
  match env !! "ISTIO_GATEWAY_NAME" with
  | None => Err (errors_New "ISTIO_GATEWAY_NAME not configured")
  | Some gateway =>
      match env !! "LEADER_ELECTION_NAMESPACE" with
      | None => Err (errors_New "LEADER_ELECTION_NAMESPACE not configured")
      | Some namespace =>
          match env !! "RESYNC_INTERVAL" with
          | Some resync_interval =>
              match ParseDuration (resync_interval +:+ "s") with
              | None => Err (errors_New "could not parse the RESYNC_INTERVAL duration")
              | Some d => Ok (mkConfig d gateway namespace)
              end
          | None => Ok (mkConfig (30 * Second) gateway namespace)
          end
      end
  end.

Lemma Load_cases env :
  (env !! "ISTIO_GATEWAY_NAME" = None ∧
   Load env = Err (errors_New "ISTIO_GATEWAY_NAME not configured")) ∨
  (is_Some (env !! "ISTIO_GATEWAY_NAME") ∧ env !! "LEADER_ELECTION_NAMESPACE" = None ∧
   Load env = Err (errors_New "LEADER_ELECTION_NAMESPACE not configured")) ∨
  (∃ gateway namespace, env !! "ISTIO_GATEWAY_NAME" = Some gateway ∧
   env !! "LEADER_ELECTION_NAMESPACE" = Some namespace ∧
   Load env = match ParseDuration <$> ((λ v, v +:+ "s") <$> env !! "RESYNC_INTERVAL") with
              | None => Ok (mkConfig (30 * Second) gateway namespace)
              | Some None => Err (errors_New "could not parse the RESYNC_INTERVAL duration")
              | Some (Some d) => Ok (mkConfig d gateway namespace)
              end).
Proof.
  unfold Load. destruct (env !! "ISTIO_GATEWAY_NAME") as [g|]; [right | by left].
  destruct (env !! "LEADER_ELECTION_NAMESPACE") as [n|]; [right | by left].
  exists g, n. split_and!; [done..|].
  destruct (env !! "RESYNC_INTERVAL") as [v|]; [|done]. cbn. by destruct (ParseDuration _).
Qed.

(** [Load] succeeds exactly when both required variables are set and the
    resync interval, if set, is a duration once "s" is appended to it; the
    configuration then holds the variables' values, the interval is 30 seconds
    when its variable is not set, and it always fits a 64-bit duration. *)
Theorem Load_spec env c :
  Load env = Ok c ↔
  env !! "ISTIO_GATEWAY_NAME" = Some (Istio_Gateway c) ∧
  env !! "LEADER_ELECTION_NAMESPACE" = Some (LeaderElectionNamespace c) ∧
  match env !! "RESYNC_INTERVAL" with
  | None => Cfg_ResyncInterval c = 30 * Second
  | Some v => ParseDuration (v +:+ "s") = Some (Cfg_ResyncInterval c)
  end ∧ in_int64 (Cfg_ResyncInterval c).
Proof.
  destruct (Load_cases env) as [(Hg & ->) | [([? ?] & Hn & ->) | (g & n & Hg & Hn & ->)]].
  - split; [done|]. rewrite Hg. by intros [? _].
  - split; [done|]. rewrite Hn. by intros (_ & ? & _).
  - rewrite Hg, Hn. destruct (env !! "RESYNC_INTERVAL") as [v|]; cbn.
    + destruct (ParseDuration (v +:+ "s")) as [d|] eqn:Hd.
      * split; [intros [= <-]; cbn; split_and!; [done..|by eapply ParseDuration_range]|].
        destruct c. cbn. by intros ([= <-] & [= <-] & [= <-] & _).
      * split; [done|]. by intros (_ & _ & ? & _).
    + split; [intros [= <-]; cbn; by split_and!|].
      destruct c. cbn. by intros ([= <-] & [= <-] & -> & _).
Qed.

Definition with_resync (v : string) : gmap string string :=
  {[ "ISTIO_GATEWAY_NAME" := "istio-ingress"; "LEADER_ELECTION_NAMESPACE" := "cf-system";
     "RESYNC_INTERVAL" := v ]}.

Lemma append_string_of_list s u :
  String.string_of_list_ascii s +:+ u =
  String.string_of_list_ascii (s ++ String.list_ascii_of_string u).
Proof.
  induction s as [|c s IH]; cbn.
  - symmetry. apply String.string_of_list_ascii_of_string.
  - by rewrite <- IH.
Qed.

(** A number followed by [u] in the variable, where [u ++ "s"] is a unit. *)
Lemma resync_interval_unit env digits u k c :
  digits ≠ [] → Forall is_digit digits →
  forallb unit_char (String.list_ascii_of_string (u +:+ "s")) = true →
  lookup_unit (u +:+ "s") = Some k → 0 < k → digits_value 0 digits * k <= max_int64 →
  env !! "RESYNC_INTERVAL" = Some (String.string_of_list_ascii digits +:+ u) →
  Load env = Ok c → Cfg_ResyncInterval c = digits_value 0 digits * k.
Proof.
  intros Hne Hd Hchars Hu Hk Hmax Henv Hload.
  assert (u +:+ "s" ≠ "") as Hnonempty by by destruct u.
  destruct (Load_cases env) as [(_ & H) | [(_ & _ & H) | (g & n & _ & _ & H)]];
    rewrite H in Hload; [done..|]. rewrite Henv in Hload. cbn in Hload.
  assert ((String.string_of_list_ascii digits +:+ u) +:+ "s" =
    String.string_of_list_ascii digits +:+ (u +:+ "s")) as Happ.
  { clear. induction digits as [|d ds IH]; [done|].
    apply (f_equal (String d)). exact IH. }
  rewrite Happ, append_string_of_list, (ParseDuration_whole digits _ k) in Hload; [|done|done| |done| |done..].
  - by injection Hload as <-.
  - by destruct (u +:+ "s").
  - by rewrite String.string_of_list_ascii_of_string.
Qed.

(** A resync interval of decimal digits is a number of seconds, exactly,
    up to the range of a 64-bit duration. *)
Theorem Load_seconds env digits c
    (Hne : digits ≠ []) (Hdigits : Forall is_digit digits)
    (Hrange : digits_value 0 digits * Second <= max_int64)
    (Henv : env !! "RESYNC_INTERVAL" = Some (String.string_of_list_ascii digits))
    (Hload : Load env = Ok c) :
  Cfg_ResyncInterval c = digits_value 0 digits * Second.
Proof.
  eapply (resync_interval_unit env digits ""); try done. rewrite Henv. f_equal.
  by rewrite append_string_of_list, app_nil_r.
Qed.

(** C40: the value is taken together with the appended "s", so that an interval
    written with the unit of minutes is accepted, as that many milliseconds. *)
Theorem Load_minutes env digits c
    (Hne : digits ≠ []) (Hdigits : Forall is_digit digits)
    (Hrange : digits_value 0 digits * Millisecond <= max_int64)
    (Henv : env !! "RESYNC_INTERVAL" = Some (String.string_of_list_ascii digits +:+ "m"))
    (Hload : Load env = Ok c) :
  Cfg_ResyncInterval c = digits_value 0 digits * Millisecond.
Proof. by eapply (resync_interval_unit env digits "m"). Qed.

Lemma Load_seconds_witness :
  Load (with_resync "90") = Ok (mkConfig (90 * Second) "istio-ingress" "cf-system") ∧
  90 * Second = digits_value 0 ["9"%char; "0"%char] * Second.
Proof.
  split; [vm_compute; reflexivity|].
  apply (Load_seconds (with_resync "90") ["9"%char; "0"%char]
    (mkConfig (90 * Second) "istio-ingress" "cf-system")).
  - discriminate.
  - repeat constructor; eexists; reflexivity.
  - vm_compute. discriminate.
  - vm_compute. reflexivity.
  - vm_compute. reflexivity.
Defined.

Lemma Load_minutes_witness :
  Load (with_resync "15m") = Ok (mkConfig (15 * Millisecond) "istio-ingress" "cf-system") ∧
  15 * Millisecond = digits_value 0 ["1"%char; "5"%char] * Millisecond.
Proof.
  split; [vm_compute; reflexivity|].
  apply (Load_minutes (with_resync "15m") ["1"%char; "5"%char]
    (mkConfig (15 * Millisecond) "istio-ingress" "cf-system")).
  - discriminate.
  - repeat constructor; eexists; reflexivity.
  - vm_compute. discriminate.
  - vm_compute. reflexivity.
  - vm_compute. reflexivity.
Defined.
