(* ===== verification/Upgrade.v ===== *)
(** src/test/uptime/internal/checker/upgrade.go: a goroutine that polls kapp
    for an upgrade in progress and remembers when it has finished.  The struct
    and its methods, then the goroutine, the callers and the mutex as a
    transition system whose events are what the threads do, one critical
    section at a time. *)
From S2P Require Import Prelude.

(** * kapp's answer *)

Record kappRow := mkRow { Row_Name : string; Row_FinishedAt : string }.
Record kappTable := mkTable { Rows : list kappRow }.
Record kappResponse := mkResponse { Tables : list kappTable }.

(** A nested [for table { for row { if p { return f } } }], returning [d]
    when no row satisfies [p]. *)
Fixpoint first_row {B} (p : kappRow → bool) (f : kappRow → B) (rows : list kappRow) : option B :=
  match rows with
  | [] => None
  | row :: rows => if p row then Some (f row) else first_row p f rows
  end.

Fixpoint first_row_of {B} (p : kappRow → bool) (f : kappRow → B) (d : B)
    (tables : list kappTable) : B :=
  match tables with
  | [] => d
  | table :: tables =>
      match first_row p f (Rows table) with
      | Some r => r
      | None => first_row_of p f d tables
      end
  end.

Definition checkIfUpgradeHasFinished (resp : kappResponse) (upgradeName : string) : bool :=
  first_row_of (λ row, String.eqb (Row_Name row) upgradeName)
    (λ row, negb (String.eqb (Row_FinishedAt row) "")) false (Tables resp).

Definition discoverUpgradeName (resp : kappResponse) : string :=
  first_row_of (λ row, String.eqb (Row_FinishedAt row) "") Row_Name "" (Tables resp).

(** * The checker *)

Record Upgrade := mkUpgrade { upgradeName : string; upgradeDone : bool }.

Definition HasFoundUpgrade (u : Upgrade) : bool := negb (String.eqb (upgradeName u) "").
Definition IsUpgradeFinished (u : Upgrade) : bool := upgradeDone u.

(** [kappAppChangeLS] panics when the command fails or prints no JSON; [resp]
    is what it returns otherwise. *)
Definition checkUpgrade (u : Upgrade) (resp : kappResponse) : Upgrade :=
  if String.eqb (upgradeName u) "" then
    mkUpgrade (discoverUpgradeName resp) (upgradeDone u)
  else if checkIfUpgradeHasFinished resp (upgradeName u) then mkUpgrade (upgradeName u) true
  else u.

(** * The threads *)

(** The channel [stopChan]: nil, made, closed. *)
Inductive chan := chan_nil | chan_open | chan_closed.

(** The goroutine: not started, in its select, about to lock the mutex, in the
    critical section, or returned after [waitGroup.Done()]. *)
Inductive poller_pc := NotStarted | Selecting | Locking | Checking | Exited.

Record system := mkSystem { upgrade : Upgrade; stopChan : chan; poller : poller_pc }.

(** The zero value of the struct. *)
Definition initial : system := mkSystem (mkUpgrade "" false) chan_nil NotStarted.

Inductive upgrade_event :=
  | EStart                             (* Start() *)
  | ETick                              (* <-time.After(PollInterval) *)
  | ELock                              (* checkUpgrade: mutex.Lock() *)
  | ECheck (resp : kappResponse)       (* its body, then Unlock() *)
  | EExit                              (* <-stopChan, waitGroup.Done(), return *)
  | EClose                             (* Stop(): close(stopChan) *)
  | EWaited                            (* Stop(): waitGroup.Wait() returns *)
  | EFound (b : bool)                  (* HasFoundUpgrade() returns *)
  | EFinished (b : bool).              (* IsUpgradeFinished() returns *)

(** The mutex is held exactly while the goroutine is in its critical section;
    the readers' critical sections are single steps that need it free.  When
    both cases of the select are ready either is taken. *)
Inductive upgrade_step : system → upgrade_event → system → Prop :=
  | step_start u :
      upgrade_step (mkSystem u chan_nil NotStarted) EStart (mkSystem u chan_open Selecting)
  | step_tick u c : upgrade_step (mkSystem u c Selecting) ETick (mkSystem u c Locking)
  | step_lock u c : upgrade_step (mkSystem u c Locking) ELock (mkSystem u c Checking)
  | step_check u c resp :
      upgrade_step (mkSystem u c Checking) (ECheck resp)
        (mkSystem (checkUpgrade u resp) c Selecting)
  | step_exit u :
      upgrade_step (mkSystem u chan_closed Selecting) EExit (mkSystem u chan_closed Exited)
  | step_close u pc :
      upgrade_step (mkSystem u chan_open pc) EClose (mkSystem u chan_closed pc)
  | step_waited u : upgrade_step (mkSystem u chan_closed Exited) EWaited (mkSystem u chan_closed Exited)
  | step_found u c pc :
      pc ≠ Checking →
      upgrade_step (mkSystem u c pc) (EFound (HasFoundUpgrade u)) (mkSystem u c pc)
  | step_finished u c pc :
      pc ≠ Checking →
      upgrade_step (mkSystem u c pc) (EFinished (IsUpgradeFinished u)) (mkSystem u c pc).

Inductive upgrade_run : system → list upgrade_event → system → Prop :=
  | run_nil s : upgrade_run s [] s
  | run_cons s1 e s2 es s3 :
      upgrade_step s1 e s2 → upgrade_run s2 es s3 → upgrade_run s1 (e :: es) s3.

(** * The searches *)

Definition rows_of (resp : kappResponse) : list kappRow := concat (Rows <$> Tables resp).

(** The first row that satisfies [p]. *)
Definition find_row (p : kappRow → bool) (resp : kappResponse) : option kappRow :=
  head (filter (λ row, p row = true) (rows_of resp)).

Lemma first_row_find {B} p (f : kappRow → B) rows :
  first_row p f rows = f <$> head (filter (λ row, p row = true) rows).
Proof.
  induction rows as [|row rows IH]; [done|]. cbn [first_row].
  destruct (p row) eqn:Hp; [by rewrite filter_cons_True by done|].
  rewrite filter_cons_False by by rewrite Hp. exact IH.
Qed.

Lemma first_row_of_find {B} p (f : kappRow → B) d resp :
  first_row_of p f d (Tables resp) = from_option f d (find_row p resp).
Proof.
  unfold find_row, rows_of. destruct resp as [tables]. cbn [Tables].
  induction tables as [|table tables IH]; [done|]. cbn [first_row_of fmap list_fmap concat].
  rewrite first_row_find, filter_app, IH.
  by destruct (filter _ (Rows table)) as [|row rows].
Qed.

Lemma find_row_Some p resp row :
  find_row p resp = Some row ↔
  ∃ pre post, rows_of resp = pre ++ row :: post ∧ p row = true ∧
    Forall (λ row', p row' = false) pre.
Proof.
  unfold find_row. induction (rows_of resp) as [|x rows IH].
  { split; [done|]. by intros ([] & ? & ? & _). }
  rewrite filter_cons. destruct (decide (p x = true)) as [Hx|Hx].
  - split.
    + intros [= <-]. by exists [], rows.
    + intros ([|y pre] & post & Heq & Hp & Hpre).
      * by injection Heq as -> _.
      * injection Heq as -> ->. apply Forall_cons in Hpre as [Hy _]. congruence.
  - rewrite IH. split.
    + intros (pre & post & -> & Hp & Hpre). exists (x :: pre), post. split_and!; [done..|].
      constructor; [by apply not_true_iff_false | done].
    + intros ([|y pre] & post & Heq & Hp & Hpre); injection Heq as -> ->; [done|].
      apply Forall_cons in Hpre as [_ Hpre]. by exists pre, post.
Qed.

Lemma find_row_name name resp row :
  find_row (λ row, String.eqb (Row_Name row) name) resp = Some row ↔
  ∃ pre post, rows_of resp = pre ++ row :: post ∧ Row_Name row = name ∧
    Forall (λ row', Row_Name row' ≠ name) pre.
Proof.
  rewrite find_row_Some. split; intros (pre & post & Heq & Hname & Hpre); exists pre, post.
  - apply String.eqb_eq in Hname. split_and!; [done..|]. eapply Forall_impl; [exact Hpre|].
    intros x Hx. by apply String.eqb_neq.
  - apply String.eqb_eq in Hname. split_and!; [done..|]. eapply Forall_impl; [exact Hpre|].
    intros x Hx. by apply String.eqb_neq.
Qed.

(** The two searches return at the first row that fits, over all tables in
    order: the name discovered is that of the first unfinished change, and a
    change has finished when the first row of its name says when; without such
    a row nothing is found and nothing has finished. *)
Theorem kapp_searches resp name :
  discoverUpgradeName resp =
    from_option Row_Name "" (find_row (λ row, String.eqb (Row_FinishedAt row) "") resp) ∧
  (checkIfUpgradeHasFinished resp name = true ↔
   ∃ pre row post, rows_of resp = pre ++ row :: post ∧ Row_Name row = name ∧
     Row_FinishedAt row ≠ "" ∧ Forall (λ row', Row_Name row' ≠ name) pre).
Proof.
  split; [apply first_row_of_find|].
  unfold checkIfUpgradeHasFinished. rewrite first_row_of_find. split.
  - destruct (find_row _ resp) as [row|] eqn:Hf; [|done]. cbn [from_option]. intros Hfin.
    apply find_row_name in Hf as (pre & post & Heq & Hname & Hpre).
    exists pre, row, post. split_and!; [done..| |done].
    by apply negb_true_iff, String.eqb_neq in Hfin.
  - intros (pre & row & post & Heq & Hname & Hfin & Hpre).
    assert (find_row (λ row, String.eqb (Row_Name row) name) resp = Some row) as ->
      by (apply find_row_name; by exists pre, post).
    by apply negb_true_iff, String.eqb_neq.
Qed.

(** * Runs *)

Lemma upgrade_run_app_inv s es1 es2 s' :
  upgrade_run s (es1 ++ es2) s' → ∃ s1, upgrade_run s es1 s1 ∧ upgrade_run s1 es2 s'.
Proof.
  revert s. induction es1 as [|e es1 IH]; intros s; cbn [app].
  - intros Hr. exists s. by split; [constructor|].
  - inversion 1 as [|? ? s1 ? ? Hs Hr]; subst. destruct (IH s1 Hr) as (s2 & H1 & H2).
    exists s2. split; [by econstructor | done].
Qed.

Lemma upgrade_run_one s e s' : upgrade_run s [e] s' → upgrade_step s e s'.
Proof. inversion 1 as [|? ? s1 ? ? Hs Hr]; subst. by inversion Hr; subst. Qed.

(** Reachability from the zero value, by induction on the last event. *)
Lemma upgrade_run_ind_r (P : list upgrade_event → system → Prop) :
  P [] initial →
  (∀ es e s s', upgrade_run initial es s → P es s → upgrade_step s e s' → P (es ++ [e]) s') →
  ∀ es s, upgrade_run initial es s → P es s.
Proof.
  intros H0 Hs es. induction es as [|e es IH] using rev_ind; intros s Hr.
  - by inversion Hr; subst.
  - apply upgrade_run_app_inv in Hr as (s1 & H1 & H2%upgrade_run_one). by eapply Hs; eauto.
Qed.

(** What was learnt is never forgotten. *)
Definition learns (u u' : Upgrade) : Prop :=
  (upgradeName u ≠ "" → upgradeName u' = upgradeName u) ∧
  (upgradeDone u = true → upgradeDone u' = true).

#[export] Instance learns_preorder : PreOrder learns.
Proof.
  split; [by intros u|]. intros u1 u2 u3 [Hn1 Hd1] [Hn2 Hd2]. split; [|by auto].
  intros Hn. rewrite <- (Hn1 Hn). apply Hn2. by rewrite Hn1.
Qed.

Lemma checkUpgrade_learns u resp : learns u (checkUpgrade u resp).
Proof.
  unfold checkUpgrade. destruct (String.eqb_spec (upgradeName u) "") as [He|He].
  - by split; cbn.
  - by destruct (checkIfUpgradeHasFinished resp (upgradeName u)); split; cbn.
Qed.

Lemma upgrade_step_learns s e s' : upgrade_step s e s' → learns (upgrade s) (upgrade s').
Proof. destruct 1; cbn; try reflexivity. apply checkUpgrade_learns. Qed.

Lemma upgrade_run_learns s es s' : upgrade_run s es s' → learns (upgrade s) (upgrade s').
Proof. induction 1; [done|]. etrans; [by eapply upgrade_step_learns | done]. Qed.

Lemma HasFoundUpgrade_true u : HasFoundUpgrade u = true ↔ upgradeName u ≠ "".
Proof. unfold HasFoundUpgrade. by rewrite negb_true_iff, String.eqb_neq. Qed.

Lemma step_EFound s b s' : upgrade_step s (EFound b) s' → s' = s ∧ b = HasFoundUpgrade (upgrade s).
Proof. by inversion 1; subst. Qed.

Lemma step_EFinished s b s' :
  upgrade_step s (EFinished b) s' → s' = s ∧ b = IsUpgradeFinished (upgrade s).
Proof. by inversion 1; subst. Qed.

(** C34: once a caller has been told that an upgrade was found, or that it has
    finished, every later call of any thread is told the same. *)
Theorem Upgrade_monotone s es s' b
    (Hrun : upgrade_run s (EFound true :: es ++ [EFound b]) s' ∨
            upgrade_run s (EFinished true :: es ++ [EFinished b]) s') :
  b = true.
Proof.
  assert (∀ e e', upgrade_run s (e :: es ++ [e']) s' →
    ∃ s1 s2 s3, upgrade_step s e s1 ∧ learns (upgrade s1) (upgrade s2) ∧ upgrade_step s2 e' s3)
    as Hsplit.
  { intros e e' Hr. inversion Hr as [|? ? s1 ? ? Hs H1]; subst.
    apply upgrade_run_app_inv in H1 as (s2 & H1 & H2%upgrade_run_one). exists s1, s2, s'.
    split_and!; [done | by eapply upgrade_run_learns | done]. }
  destruct Hrun as [Hr|Hr]; apply Hsplit in Hr as (s1 & s2 & s3 & H1 & [Hn Hd] & H3).
  - apply step_EFound in H1 as [-> Ht]. apply step_EFound in H3 as [-> ->].
    symmetry in Ht. apply HasFoundUpgrade_true in Ht. apply HasFoundUpgrade_true. by rewrite Hn.
  - apply step_EFinished in H1 as [-> Ht]. apply step_EFinished in H3 as [-> ->]. by apply Hd.
Qed.

(** The answers of kapp that justify what the struct says. *)
Definition justified (es : list upgrade_event) (u : Upgrade) : Prop :=
  (upgradeName u ≠ "" → ∃ es1 resp es2, es = es1 ++ ECheck resp :: es2 ∧
     discoverUpgradeName resp = upgradeName u) ∧
  (upgradeDone u = true → upgradeName u ≠ "" ∧
     ∃ es1 resp es2 resp' es3, es = es1 ++ ECheck resp :: es2 ++ ECheck resp' :: es3 ∧
       discoverUpgradeName resp = upgradeName u ∧
       checkIfUpgradeHasFinished resp' (upgradeName u) = true).

Lemma justified_snoc es e u : justified es u → justified (es ++ [e]) u.
Proof.
  intros [Hn Hd]. split.
  - intros H. destruct (Hn H) as (es1 & resp & es2 & -> & ?). exists es1, resp, (es2 ++ [e]).
    by rewrite <- app_assoc.
  - intros H. destruct (Hd H) as (? & es1 & resp & es2 & resp' & es3 & -> & ? & ?).
    split; [done|]. exists es1, resp, es2, resp', (es3 ++ [e]). split_and!; [|done..].
    by rewrite <- app_assoc, <- app_comm_cons, <- app_assoc.
Qed.

Lemma justified_check es u resp :
  justified es u → justified (es ++ [ECheck resp]) (checkUpgrade u resp).
Proof.
  intros Hj. pose proof (justified_snoc es (ECheck resp) u Hj) as [Hn Hd]. destruct Hj as [Hn' Hd'].
  unfold checkUpgrade. destruct (String.eqb_spec (upgradeName u) "") as [He|He].
  - split; cbn; [intros _; by exists es, resp, []|]. intros Hdone. by destruct (Hd Hdone).
  - destruct (checkIfUpgradeHasFinished resp (upgradeName u)) eqn:Hf; [|done].
    split; cbn; [exact Hn|]. intros _. split; [done|].
    destruct (Hn' He) as (es1 & resp1 & es2 & -> & Hr). exists es1, resp1, es2, resp, [].
    by rewrite <- app_assoc.
Qed.

Lemma reachable_justified es s : upgrade_run initial es s → justified es (upgrade s).
Proof.
  apply (upgrade_run_ind_r (λ es s, justified es (upgrade s))); [split; by cbn|].
  intros es' e s1 s2 _ Hj Hs.
  destruct Hs; cbn in *; try (by apply justified_snoc). by apply justified_check.
Qed.

(** C33: the checker reports an upgrade as finished only if kapp, asked twice in
    this order, first listed it as the first change in progress and then
    listed it with the time it finished. *)
Theorem Upgrade_finished_evidence es s
    (Hrun : upgrade_run initial (es ++ [EFinished true]) s) :
  ∃ name es1 resp es2 resp' es3,
    name ≠ "" ∧ es = es1 ++ ECheck resp :: es2 ++ ECheck resp' :: es3 ∧
    discoverUpgradeName resp = name ∧ checkIfUpgradeHasFinished resp' name = true.
Proof.
  apply upgrade_run_app_inv in Hrun as (s1 & H1 & H2%upgrade_run_one).
  apply reachable_justified in H1 as [_ Hd]. apply step_EFinished in H2 as [-> Ht].
  destruct (Hd ltac:(done)) as (Hne & es1 & resp & es2 & resp' & es3 & -> & Hr & Hr').
  by exists (upgradeName (upgrade s1)), es1, resp, es2, resp', es3.
Qed.

Lemma stopped_run u es s' :
  upgrade_run (mkSystem u chan_closed Exited) es s' →
  upgrade s' = u ∧
  Forall (λ e, match e with EWaited | EFound _ | EFinished _ => True | _ => False end) es.
Proof.
  induction es as [|e es IH]; inversion 1 as [|? ? s2 ? ? H1 Hr]; subst; [done|].
  assert (s2 = mkSystem u chan_closed Exited) as -> by by inversion H1.
  destruct (IH Hr) as [-> Hall]. split; [done|]. constructor; [by inversion H1 | done].
Qed.

(** When [Stop] has returned the goroutine is gone: nothing is checked any
    more and what the methods report stays as it is. *)
Theorem Stop_quiesces s es s'
    (Hrun : upgrade_run s (EWaited :: es) s') :
  upgrade s' = upgrade s ∧
  Forall (λ e, match e with EWaited | EFound _ | EFinished _ => True | _ => False end) es.
Proof.
  inversion Hrun as [|? ? s1 ? ? Hs Hr]; subst. inversion Hs as [| | | | | |u| |]; subst.
  by apply stopped_run.
Qed.

(** C35: [Stop] does not hang: once the channel is closed the goroutine, wherever
    it is, can return after at most two more of its own steps and the pending
    answer of kapp, whatever that is. *)
Theorem Stop_returns u pc resp
    (Hstarted : pc ≠ NotStarted) :
  ∃ es u', upgrade_run (mkSystem u chan_closed pc) (es ++ [EWaited]) (mkSystem u' chan_closed Exited) ∧
    (length es ≤ 3)%nat ∧ ∀ r, ECheck r ∈ es → r = resp.
Proof.
  assert (∀ es, (∀ r, ECheck r ∈ es → r = resp) ↔ Forall (λ e, ∀ r, e = ECheck r → r = resp) es)
    as Hiff.
  { intros es. rewrite Forall_forall. split; [intros H e He r ->; auto | intros H r Hr; eauto]. }
  destruct pc; [done|..].
  - exists [EExit], u. rewrite Hiff. split_and!; [|cbn; lia|by repeat constructor].
    repeat econstructor.
  - exists [ELock; ECheck resp; EExit], (checkUpgrade u resp). rewrite Hiff.
    split_and!; [|cbn; lia|]; [repeat econstructor|].
    repeat constructor; try done. by intros r [=].
  - exists [ECheck resp; EExit], (checkUpgrade u resp). rewrite Hiff.
    split_and!; [|cbn; lia|]; [repeat econstructor|].
    repeat constructor; try done. by intros r [=].
  - exists [], u. split_and!; [|cbn; lia|by intros r ?%not_elem_of_nil]. repeat econstructor.
Qed.

(** * An example run *)

Definition in_progress : kappResponse :=
  mkResponse [mkTable [mkRow "cf-change-2" ""; mkRow "cf-change-1" "2020-10-01T12:00:00Z"]].
Definition all_done : kappResponse :=
  mkResponse [mkTable [mkRow "cf-change-2" "2020-10-01T13:00:00Z";
                       mkRow "cf-change-1" "2020-10-01T12:00:00Z"]].

Definition example_events : list upgrade_event :=
  [EStart; EFound false; ETick; ELock; ECheck in_progress; EFound true; ETick; ELock; ECheck all_done].

Lemma example_run :
  upgrade_run initial example_events (mkSystem (mkUpgrade "cf-change-2" true) chan_open Selecting).
Proof. repeat econstructor; discriminate. Qed.

Lemma Upgrade_monotone_witness :
  let s := mkSystem (mkUpgrade "cf-change-2" true) chan_open Selecting in
  upgrade_run s (EFinished true :: [ETick] ++ [EFinished true])
    (mkSystem (mkUpgrade "cf-change-2" true) chan_open Locking) ∧ true = true.
Proof.
  intros s.
  assert (upgrade_run s (EFinished true :: [ETick] ++ [EFinished true])
    (mkSystem (mkUpgrade "cf-change-2" true) chan_open Locking)) as Hr.
  { repeat econstructor; discriminate. }
  split; [exact Hr|]. exact (Upgrade_monotone s [ETick] _ true (or_intror Hr)).
Defined.

Lemma Upgrade_finished_evidence_witness :
  ∃ name es1 resp es2 resp' es3,
    name ≠ "" ∧ example_events = es1 ++ ECheck resp :: es2 ++ ECheck resp' :: es3 ∧
    discoverUpgradeName resp = name ∧ checkIfUpgradeHasFinished resp' name = true.
Proof.
  apply (Upgrade_finished_evidence example_events
    (mkSystem (mkUpgrade "cf-change-2" true) chan_open Selecting)).
  repeat econstructor; discriminate.
Defined.

Lemma Stop_quiesces_witness :
  let u := mkUpgrade "cf-change-2" true in
  upgrade_run (mkSystem u chan_closed Exited) [EWaited; EFinished true] (mkSystem u chan_closed Exited) ∧
  Forall (λ e, match e with EWaited | EFound _ | EFinished _ => True | _ => False end)
    [EFinished true].
Proof.
  intros u.
  assert (upgrade_run (mkSystem u chan_closed Exited) [EWaited; EFinished true]
    (mkSystem u chan_closed Exited)) as Hr by (repeat econstructor; discriminate).
  split; [exact Hr|]. apply (Stop_quiesces _ [EFinished true] _ Hr).
Defined.

Lemma Stop_returns_witness :
  ∃ es u', upgrade_run (mkSystem (mkUpgrade "" false) chan_closed Locking) (es ++ [EWaited])
      (mkSystem u' chan_closed Exited) ∧
    (length es ≤ 3)%nat ∧ ∀ r, ECheck r ∈ es → r = in_progress.
Proof. apply (Stop_returns (mkUpgrade "" false) Locking in_progress). discriminate. Defined.
