(* ===== verification/Uptime.v ===== *)
(** src/test/uptime/internal/uptime (data_plane_results.go,
    control_plane_results.go) and the collector that fills them
    (src/test/uptime/internal/collector/request.go): counters of the uptime
    measurement.  Go [int]s wrap at 64 bits, percentages are [float64]s,
    durations nanoseconds; an error is the text of its [Error()]. *)
From S2P Require Import Prelude GoFloat.
Local Open Scope Z_scope.

(** * data_plane_results.go *)

Record DataPlaneResults := mkDataPlane {
  SliPassCount : Z;
  SliFailCount : Z;
  NumberOfUnexpectedResponseCodes : Z;
  NumberOfExceededSLORequestLatencies : Z;
  Errors : list string;
  RequestLatencies : list Z;
}.

Definition zero_DataPlaneResults : DataPlaneResults := mkDataPlane 0 0 0 0 [] [].

(** [x++] *)
Definition incr (x : Z) : Z := int64 (x + 1).

Definition DataPlane_SuccessPercentage (u : DataPlaneResults) : float64 :=
  fdiv (float64_of (SliPassCount u)) (float64_of (int64 (SliFailCount u + SliPassCount u))).

Definition RecordError (u : DataPlaneResults) (err : string) : DataPlaneResults :=
  mkDataPlane (SliPassCount u) (incr (SliFailCount u)) (NumberOfUnexpectedResponseCodes u)
    (NumberOfExceededSLORequestLatencies u) (Errors u ++ [err]) (RequestLatencies u).

Definition DataPlane_Record (u : DataPlaneResults) (hasPassedSLI hasStatusOK hasMetRequestLatencySLO : bool)
    (requestLatency : Z) : DataPlaneResults :=
  mkDataPlane
    (if hasPassedSLI then incr (SliPassCount u) else SliPassCount u)
    (if hasPassedSLI then SliFailCount u else incr (SliFailCount u))
    (if hasStatusOK then NumberOfUnexpectedResponseCodes u
     else incr (NumberOfUnexpectedResponseCodes u))
    (if hasMetRequestLatencySLO then NumberOfExceededSLORequestLatencies u
     else incr (NumberOfExceededSLORequestLatencies u))
    (Errors u) (RequestLatencies u ++ [requestLatency]).

Definition uniqErrors (u : DataPlaneResults) : gmap string Z :=
  foldl (λ uniqErrs err, <[err := int64 (default 0 (uniqErrs !! err) + 1)]> uniqErrs) ∅ (Errors u).

(** Lowest, highest and average latency; the sum wraps at 64 bits. *)
Definition calculateRequestLatencyStats (u : DataPlaneResults) : Z * Z * Z :=
  match RequestLatencies u with
  | [] => (0, 0, 0)
  | t0 :: _ =>
      let '(low, high, accumulator) :=
        foldl (λ acc time,
          let '(low, high, accumulator) := acc in
          (if time <? low then time else low,
           if high <? time then time else high,
           int64 (accumulator + time))) (t0, 0, 0) (RequestLatencies u) in
      (low, high, Z.quot accumulator (Z.of_nat (length (RequestLatencies u))))
  end.

(** * control_plane_results.go *)

Record ControlPlaneResults := mkControlPlane {
  ControlPlaneSLODataPlaneAvailabilityPercentage : float64;
  collectorResults : list DataPlaneResults;
  dataReady : bool;
  sliPassCount : Z;
  sliFailCount : Z;
  successPercentage : float64;
}.

Definition new_ControlPlaneResults (slo : float64) : ControlPlaneResults :=
  mkControlPlane slo [] false 0 0 (float64_of 0).

Definition AddResult (c : ControlPlaneResults) (result : DataPlaneResults) : ControlPlaneResults :=
  mkControlPlane (ControlPlaneSLODataPlaneAvailabilityPercentage c)
    (collectorResults c ++ [result]) false (sliPassCount c) (sliFailCount c) (successPercentage c).

Definition sample_passes (slo : float64) (result : DataPlaneResults) : bool :=
  fgt (DataPlane_SuccessPercentage result) slo.

Definition prepareResults (c : ControlPlaneResults) : ControlPlaneResults :=
  if dataReady c then c
  else
    let '(pass, fail) :=
      foldl (λ acc result,
        if sample_passes (ControlPlaneSLODataPlaneAvailabilityPercentage c) result
        then (incr acc.1, acc.2) else (acc.1, incr acc.2))
        (sliPassCount c, sliFailCount c) (collectorResults c) in
    mkControlPlane (ControlPlaneSLODataPlaneAvailabilityPercentage c) (collectorResults c) true
      pass fail (fdiv (float64_of pass) (float64_of (int64 (pass + fail)))).

Definition ControlPlane_SuccessPercentage (c : ControlPlaneResults) : float64 * ControlPlaneResults :=
  let c := prepareResults c in (successPercentage c, c).

(** The lines [PrintResults] prints per sample: index, "Total Samples",
    errors, non-200 codes, exceeded latencies. *)
Definition PrintResults_samples (c : ControlPlaneResults)
    : list (nat * Z * Z * Z * Z) * ControlPlaneResults :=
  let c := prepareResults c in
  (imap (λ i result, (i, int64 (sliPassCount c + sliFailCount c), Z.of_nat (length (Errors result)),
     NumberOfUnexpectedResponseCodes result, NumberOfExceededSLORequestLatencies result))
     (collectorResults c), c).

(** * request.go *)

(** What one turn of the measuring loop sees: the time since the start, then
    the error or the status code and latency of the request. *)
Record turn := mkTurn { elapsed : Z; response : string + Z * Z }.

Definition StatusOK : Z := 200.

Section collector.
Context (DataPlaneSLOMaxRequestLatency : Z).

Definition record_response (result : DataPlaneResults) (resp : string + Z * Z) : DataPlaneResults :=
  match resp with
  | inl err => RecordError result err
  | inr (status, requestLatency) =>
      let hasStatusOK := status =? StatusOK in
      let hasMetRequestLatencySLO := requestLatency <? DataPlaneSLOMaxRequestLatency in
      let hasPassedSLI := hasStatusOK && hasMetRequestLatencySLO in
      DataPlane_Record result hasPassedSLI hasStatusOK hasMetRequestLatencySLO requestLatency
  end.

(** The loop of the goroutine on the turns it sees; [None] while it has not
    returned yet. *)
Fixpoint measure (sampleTime : Z) (result : DataPlaneResults) (turns : list turn)
    : option DataPlaneResults :=
  match turns with
  | [] => None
  | t :: turns =>
      if sampleTime <? elapsed t then Some result
      else measure sampleTime (record_response result (response t)) turns
  end.
End collector.

(** [addResult], under the mutex: [results] is nil before the first one. *)
Definition addResult (slo : float64) (results : option ControlPlaneResults)
    (result : DataPlaneResults) : option ControlPlaneResults :=
  Some (AddResult (default (new_ControlPlaneResults slo) results) result).

(** * What is counted *)

(** A wrapped counter is the exact number, wrapped. *)
Lemma incr_int64 z : incr (int64 z) = int64 (z + 1).
Proof. apply int64_add_l. Qed.

Lemma incr_count {A} (p : A → bool) l x :
  int64 (count p (l ++ [x])) = if p x then incr (int64 (count p l)) else int64 (count p l).
Proof. rewrite count_snoc. destruct (p x); [by rewrite incr_int64 | by rewrite Z.add_0_r]. Qed.

(** * Measuring *)

Definition is_error (r : string + Z * Z) : bool := match r with inl _ => true | _ => false end.
Definition not_ok (r : string + Z * Z) : bool :=
  match r with inr (status, _) => negb (status =? StatusOK) | _ => false end.
Definition too_slow (max : Z) (r : string + Z * Z) : bool :=
  match r with inr (_, latency) => negb (latency <? max) | _ => false end.
Definition good (max : Z) (r : string + Z * Z) : bool :=
  negb (is_error r) && negb (not_ok r) && negb (too_slow max r).

(** The results that say exactly what the responses [rs] were. *)
Definition tally (max : Z) (rs : list (string + Z * Z)) : DataPlaneResults :=
  mkDataPlane (int64 (count (good max) rs)) (int64 (count (λ r, negb (good max r)) rs))
    (int64 (count not_ok rs)) (int64 (count (too_slow max) rs))
    (omap (λ r, match r with inl e => Some e | inr _ => None end) rs)
    (omap (λ r, match r with inl _ => None | inr (_, l) => Some l end) rs).

Lemma record_response_tally max rs r :
  record_response max (tally max rs) r = tally max (rs ++ [r]).
Proof.
  unfold tally. rewrite !incr_count, !omap_app. destruct r as [e|[status l]]; cbn.
  - unfold RecordError. cbn. rewrite !app_nil_r. done.
  - unfold DataPlane_Record, good. cbn. rewrite !app_nil_r.
    by destruct (status =? StatusOK), (l <? max).
Qed.

Lemma measure_tally max sampleTime rs turns pre t :
  Forall (λ t, elapsed t <= sampleTime) pre → sampleTime < elapsed t →
  measure max sampleTime (tally max rs) (pre ++ t :: turns)
  = Some (tally max (rs ++ (response <$> pre))).
Proof.
  intros Hpre Ht. revert rs. induction pre as [|t0 pre IH]; intros rs; cbn [app measure].
  - assert ((sampleTime <? elapsed t) = true) as -> by lia. by rewrite app_nil_r.
  - apply Forall_cons in Hpre as [H0 Hpre].
    assert ((sampleTime <? elapsed t0) = false) as -> by lia.
    rewrite record_response_tally, (IH Hpre). rewrite fmap_cons. by rewrite <- app_assoc.
Qed.

Lemma measure_returns max sampleTime result0 turns result :
  measure max sampleTime result0 turns = Some result →
  ∃ pre t post, turns = pre ++ t :: post ∧ Forall (λ t, elapsed t <= sampleTime) pre ∧
    sampleTime < elapsed t.
Proof.
  revert result0. induction turns as [|t turns IH]; intros result0; cbn [measure]; [done|].
  destruct (Z.ltb_spec sampleTime (elapsed t)) as [Hlt|Hle].
  - intros _. by exists [], t, turns.
  - intros (pre & t' & post & -> & Hpre & Ht)%IH. exists (t :: pre), t', post.
    split_and!; [done | by constructor | done].
Qed.

(** The loop returns if some turn begins after the sample time. *)
Lemma measure_ends max sampleTime result0 turns t :
  t ∈ turns → sampleTime < elapsed t → is_Some (measure max sampleTime result0 turns).
Proof.
  intros Ht Hlt. revert result0. induction turns as [|t0 turns IH]; intros result0.
  { by apply not_elem_of_nil in Ht. }
  cbn [measure]. destruct (Z.ltb_spec sampleTime (elapsed t0)); [by eexists|].
  apply elem_of_cons in Ht as [->|Ht]; [lia|]. by apply IH.
Qed.

(** The measuring loop returns at the first turn that begins after the
    sample time, and its results then count every response before it exactly
    once: as passed if it arrived, in time, with status 200, as failed
    otherwise, with the unexpected codes, the slow responses, the errors and
    the latencies in order; counters are exact modulo the width of [int]. *)
Theorem measure_counts max sampleTime turns result :
  measure max sampleTime zero_DataPlaneResults turns = Some result ↔
  ∃ pre t post, turns = pre ++ t :: post ∧ Forall (λ t, elapsed t <= sampleTime) pre ∧
    sampleTime < elapsed t ∧ result = tally max (response <$> pre).
Proof.
  change zero_DataPlaneResults with (tally max []). split.
  - intros Hm. destruct (measure_returns _ _ _ _ _ Hm) as (pre & t & post & -> & Hpre & Ht).
    rewrite measure_tally in Hm by done. injection Hm as <-. by exists pre, t, post.
  - intros (pre & t & post & -> & Hpre & Ht & ->). by rewrite measure_tally.
Qed.

(** * Latencies *)

Definition zsum (l : list Z) : Z := foldr Z.add 0 l.

Lemma zsum_snoc l x : zsum (l ++ [x]) = zsum l + x.
Proof. unfold zsum. induction l as [|y l IH]; cbn; [lia|]. rewrite IH. lia. Qed.

Lemma zsum_bounds lo hi l :
  Forall (λ t, lo <= t <= hi) l → lo * Z.of_nat (length l) <= zsum l <= hi * Z.of_nat (length l).
Proof. unfold zsum. induction 1 as [|t l Ht _ IH]; cbn [length foldr]; lia. Qed.

Definition latency_step (acc : Z * Z * Z) (time : Z) : Z * Z * Z :=
  let '(low, high, accumulator) := acc in
  (if time <? low then time else low, if high <? time then time else high,
   int64 (accumulator + time)).

Lemma latency_fold t0 l :
  let '(low, high, acc) := foldl latency_step (t0, 0, 0) l in
  Forall (λ t, low <= t <= high) l ∧ low <= t0 ∧ 0 <= high ∧ low ∈ t0 :: l ∧ high ∈ 0 :: l ∧
  acc = int64 (zsum l).
Proof.
  induction l as [|t l IH] using rev_ind.
  { cbn. split_and!; [constructor | lia.. | by left | by left | done]. }
  rewrite foldl_snoc. destruct (foldl latency_step (t0, 0, 0) l) as [[low high] acc].
  destruct IH as (Hall & H0 & Hh & Hlow & Hhigh & ->). unfold latency_step.
  assert (∀ lo hi, lo <= low → high <= hi → lo <= t <= hi → Forall (λ t, lo <= t <= hi) (l ++ [t]))
    as Hsnoc.
  { intros lo hi Hlo Hhi Ht. apply Forall_app. split; [|by constructor].
    eapply Forall_impl; [exact Hall|]. cbn. lia. }
  assert (∀ x d, x ∈ d :: l → x ∈ d :: l ++ [t]) as Hin.
  { intros x d. rewrite !elem_of_cons, elem_of_app. tauto. }
  assert (∀ d, t ∈ d :: l ++ [t]) as Hlast.
  { intros d. rewrite elem_of_cons, elem_of_app, list_elem_of_singleton. tauto. }
  rewrite zsum_snoc. destruct (Z.ltb_spec t low), (Z.ltb_spec high t);
    split_and!; first [apply Hsnoc; lia | lia | by auto | apply int64_add_l].
Qed.

(** With latencies that are not negative and whose sum fits 64 bits, the
    lowest and the highest are latencies that bound all of them, and the
    average, which lies between them, is the sum divided by their number,
    rounded down; without any latency all three are zero. *)
Theorem latency_stats u
    (Hnonneg : Forall (λ t, 0 <= t) (RequestLatencies u))
    (Hsum : zsum (RequestLatencies u) <= max_int64) :
  match RequestLatencies u with
  | [] => calculateRequestLatencyStats u = (0, 0, 0)
  | ts =>
      let '(low, high, avg) := calculateRequestLatencyStats u in
      low ∈ ts ∧ high ∈ ts ∧ Forall (λ t, low <= t <= high) ts ∧ low <= avg <= high ∧
      avg = zsum ts / Z.of_nat (length ts)
  end.
Proof.
  unfold calculateRequestLatencyStats. destruct (RequestLatencies u) as [|t0 ts]; [done|].
  change (foldl _ (t0, 0, 0) (t0 :: ts)) with (foldl latency_step (t0, 0, 0) (t0 :: ts)).
  pose proof (latency_fold t0 (t0 :: ts)) as Hf.
  destruct (foldl latency_step (t0, 0, 0) (t0 :: ts)) as [[low high] acc].
  destruct Hf as (Hall & _ & Hh & Hlow & Hhigh & ->).
  set (l := t0 :: ts) in *. pose proof (zsum_bounds _ _ _ Hall) as Hb.
  assert (0 < Z.of_nat (length l)) as Hlen by (unfold l; cbn [length]; lia).
  rewrite Forall_forall in Hnonneg.
  assert (low ∈ l) as Hlow' by (apply elem_of_cons in Hlow as [->|]; [by left | done]).
  pose proof (Hnonneg low Hlow') as H0.
  assert (high ∈ l) as Hhigh'.
  { apply elem_of_cons in Hhigh as [->|]; [|done]. assert (low = 0) as <-; [|done].
    rewrite Forall_forall in Hall. specialize (Hall low Hlow'). lia. }
  rewrite int64_id by (unfold in_int64, max_int64 in *; nia).
  rewrite Z.quot_div_nonneg by nia. split_and!; [done..| | |done].
  - apply Z.div_le_lower_bound; lia.
  - apply Z.div_le_upper_bound; lia.
Qed.

(** * Errors *)

(** [uniqErrors] maps each error text that occurs to the number of its
    occurrences, and nothing else. *)
Theorem uniqErrors_lookup u e :
  uniqErrors u !! e =
  if bool_decide (e ∈ Errors u) then Some (int64 (count (String.eqb e) (Errors u))) else None.
Proof.
  unfold uniqErrors. induction (Errors u) as [|x l IH] using rev_ind; [done|].
  rewrite foldl_snoc. destruct (String.eqb_spec e x) as [->|Hne].
  - rewrite lookup_insert_eq, bool_decide_true by (rewrite elem_of_app; right; by left).
    f_equal. rewrite count_snoc, String.eqb_refl, IH.
    destruct (decide (x ∈ l)) as [Hin|Hin].
    + rewrite bool_decide_true by done. cbn [default from_option id]. apply int64_add_l.
    + rewrite bool_decide_false by done. cbn [default from_option id]. f_equal.
      rewrite count_none; [done|]. intros y Hy. apply String.eqb_neq. by intros ->.
  - rewrite lookup_insert_ne by done. rewrite IH, count_snoc.
    rewrite (proj2 (String.eqb_neq e x) Hne), Z.add_0_r.
    erewrite bool_decide_ext; [done|]. rewrite elem_of_app, list_elem_of_singleton. intuition congruence.
Qed.

(** * Availability over all samples *)

Lemma prepare_fold slo rs a b :
  foldl (λ acc result, if sample_passes slo result
           then (incr acc.1, acc.2) else (acc.1, incr acc.2)) (int64 a, int64 b) rs
  = (int64 (a + count (sample_passes slo) rs),
     int64 (b + count (λ r, negb (sample_passes slo r)) rs)).
Proof.
  induction rs as [|r rs IH] using rev_ind; [cbn; by rewrite !count_nil, !Z.add_0_r|].
  rewrite foldl_snoc, IH, !count_snoc. cbn [fst snd].
  destruct (sample_passes slo r); cbn [negb]; rewrite !incr_int64; do 2 f_equal; lia.
Qed.

Lemma AddResult_fold c rs :
  foldl AddResult c rs =
  mkControlPlane (ControlPlaneSLODataPlaneAvailabilityPercentage c) (collectorResults c ++ rs)
    (match rs with [] => dataReady c | _ => false end)
    (sliPassCount c) (sliFailCount c) (successPercentage c).
Proof.
  revert c. induction rs as [|r rs IH]; intros c; cbn [foldl].
  - rewrite app_nil_r. by destruct c.
  - rewrite IH. cbn. rewrite <- app_assoc. by destruct rs.
Qed.

Lemma int64_add x y : int64 (int64 x + int64 y) = int64 (x + y).
Proof. by rewrite int64_add_l, Z.add_comm, int64_add_l, Z.add_comm. Qed.

(** The state after evaluating counters that stood at [a] and [b]. *)
Definition evaluated (slo : float64) (rs : list DataPlaneResults) (a b : Z) : ControlPlaneResults :=
  let pass := int64 (a + count (sample_passes slo) rs) in
  let fail := int64 (b + count (λ r, negb (sample_passes slo r)) rs) in
  mkControlPlane slo rs true pass fail
    (fdiv (float64_of pass) (float64_of (int64 (a + b + Z.of_nat (length rs))))).

Lemma prepareResults_evaluated slo rs a b p :
  prepareResults (mkControlPlane slo rs false (int64 a) (int64 b) p) = evaluated slo rs a b.
Proof.
  unfold prepareResults, evaluated. cbn [dataReady sliPassCount sliFailCount collectorResults
    ControlPlaneSLODataPlaneAvailabilityPercentage].
  rewrite prepare_fold. do 3 f_equal. rewrite int64_add. f_equal.
  rewrite <- (count_negb (sample_passes slo) rs). lia.
Qed.

Lemma fresh_percentage slo rs :
  ControlPlane_SuccessPercentage (foldl AddResult (new_ControlPlaneResults slo) rs)
  = (successPercentage (evaluated slo rs 0 0), evaluated slo rs 0 0).
Proof.
  rewrite AddResult_fold. unfold ControlPlane_SuccessPercentage, new_ControlPlaneResults.
  cbn [ControlPlaneSLODataPlaneAvailabilityPercentage collectorResults dataReady sliPassCount
    sliFailCount successPercentage app].
  assert ((match rs with [] => false | _ => false end) = false) as -> by by destruct rs.
  by rewrite (prepareResults_evaluated slo rs 0 0).
Qed.

(** ** Asking more than once *)

(** Samples are added in batches, and the percentage is asked for after each. *)
Definition asked (slo : float64) (batches : list (list DataPlaneResults)) : ControlPlaneResults :=
  foldl (λ c rs, (ControlPlane_SuccessPercentage (foldl AddResult c rs)).2)
    (new_ControlPlaneResults slo) batches.

(** What has been counted by then: with each batch that is not empty, all the
    samples there are, so those of the batches before it once more. *)
Fixpoint counted_from (before : list DataPlaneResults) (batches : list (list DataPlaneResults))
    : list DataPlaneResults :=
  match batches with
  | [] => []
  | [] :: batches => counted_from before batches
  | rs :: batches => (before ++ rs) ++ counted_from (before ++ rs) batches
  end.
Definition counted : list (list DataPlaneResults) → list DataPlaneResults := counted_from [].

Lemma counted_from_snoc before batches rs :
  counted_from before (batches ++ [rs]) =
  counted_from before batches ++ match rs with [] => [] | _ => before ++ concat batches ++ rs end.
Proof.
  revert before. induction batches as [|b batches IH]; intros before; cbn [app counted_from concat].
  - destruct rs; by rewrite ?app_nil_r.
  - destruct b as [|x b]; [apply IH|]. rewrite IH, <- !app_assoc. by destruct rs.
Qed.

Lemma counted_from_Permutation before before' batches batches' :
  before ≡ₚ before' → Forall2 (≡ₚ) batches batches' →
  counted_from before batches ≡ₚ counted_from before' batches'.
Proof.
  intros Hb Hall. revert before before' Hb.
  induction Hall as [|b b' batches batches' Hp _ IH]; intros before before' Hb; [done|].
  destruct b as [|x b].
  - apply Permutation_nil in Hp as ->. by apply IH.
  - destruct b' as [|x' b']; [by apply symmetry, Permutation_nil in Hp|].
    assert (before ++ x :: b ≡ₚ before' ++ x' :: b') as Hb' by by rewrite Hb, Hp.
    cbn [counted_from]. by rewrite (IH _ _ Hb'), Hb'.
Qed.

Lemma counted_one rs : counted [rs] = rs.
Proof. unfold counted. destruct rs as [|r rs]; [done|]. cbn. by rewrite app_nil_r. Qed.

(** The state after evaluating the samples in [seen]. *)
Definition evaluated_on (slo : float64) (rs seen : list DataPlaneResults) : ControlPlaneResults :=
  let pass := int64 (count (sample_passes slo) seen) in
  mkControlPlane slo rs true pass (int64 (count (λ r, negb (sample_passes slo r)) seen))
    (fdiv (float64_of pass) (float64_of (int64 (Z.of_nat (length seen))))).

Lemma asked_counted slo batches :
  batches ≠ [] → asked slo batches = evaluated_on slo (concat batches) (counted batches).
Proof.
  induction batches as [|rs batches IH] using rev_ind; [done|]. intros _.
  unfold asked. rewrite foldl_snoc. fold (asked slo batches).
  destruct batches as [|b batches].
  - cbn [app concat]. rewrite counted_one, app_nil_r. cbn [asked foldl]. by rewrite fresh_percentage.
  - rewrite IH by done. unfold counted. rewrite counted_from_snoc, AddResult_fold. fold counted.
    rewrite concat_app. cbn [concat]. rewrite app_nil_r.
    set (all := concat (b :: batches)). fold (counted (b :: batches)).
    set (seen := counted (b :: batches)). unfold evaluated_on at 1 2 3 4 5.
    cbn [ControlPlaneSLODataPlaneAvailabilityPercentage collectorResults dataReady sliPassCount
      sliFailCount successPercentage].
    destruct rs as [|r rs]; [by rewrite !app_nil_r|].
    unfold ControlPlane_SuccessPercentage. cbn [snd app]. rewrite prepareResults_evaluated.
    unfold evaluated, evaluated_on. rewrite !count_app, length_app.
    do 3 f_equal. rewrite count_negb, !length_app. f_equal. lia.
Qed.

(** C37: let samples be added in batches, each in any order, and let the
    percentage be asked for after each batch.  It is the share, among the
    samples counted, of those above the objective: after the first batch the
    samples counted are the samples added; with each later one all samples are
    counted again, since the counters are not reset.  Asking again changes
    nothing. *)
Theorem SuccessPercentage_spec slo batches batches'
    (Hne : batches ≠ []) (Hp : Forall2 (≡ₚ) batches batches') :
  let passed := count (sample_passes slo) (counted batches) in
  let total := Z.of_nat (length (counted batches)) in
  (length batches = 1%nat → counted batches = concat batches) ∧
  let '(p, c) := ControlPlane_SuccessPercentage (asked slo batches') in
  p = fdiv (float64_of (int64 passed)) (float64_of (int64 total)) ∧
  sliPassCount c = int64 passed ∧ sliFailCount c = int64 (total - passed) ∧
  collectorResults c ≡ₚ concat batches ∧
  c = asked slo batches' ∧ ControlPlane_SuccessPercentage c = (p, c).
Proof.
  intros passed total. split.
  { destruct batches as [|rs [|]]; [done| |done]. intros _. cbn [concat]. by rewrite counted_one, app_nil_r. }
  rewrite asked_counted by by (intros ->; apply Forall2_nil_inv_r in Hp).
  assert (counted batches' ≡ₚ counted batches) as Hcount.
  { symmetry. by apply counted_from_Permutation. }
  assert (concat batches' ≡ₚ concat batches) as Hconcat.
  { clear -Hp. induction Hp as [|b b' l l' Hb _ IH]; [done|]. cbn [concat]. by rewrite Hb, IH. }
  unfold evaluated_on, ControlPlane_SuccessPercentage. cbn -[counted fdiv int64 float64_of].
  rewrite !(count_Permutation _ _ _ Hcount), (Permutation_length Hcount).
  split_and!; [done..| |done|done|done].
  subst passed total. f_equal. rewrite <- (count_negb (sample_passes slo) (counted batches)). lia.
Qed.

(** So samples evaluated once are counted again when more samples are added and
    the percentage is asked for again. *)
Theorem SuccessPercentage_recounts slo rs1 r rs2 :
  let c1 := (ControlPlane_SuccessPercentage (foldl AddResult (new_ControlPlaneResults slo) rs1)).2 in
  let c2 := (ControlPlane_SuccessPercentage (foldl AddResult c1 (r :: rs2))).2 in
  sliPassCount c2 = int64 (2 * count (sample_passes slo) rs1 + count (sample_passes slo) (r :: rs2)) ∧
  int64 (sliPassCount c2 + sliFailCount c2)
    = int64 (2 * Z.of_nat (length rs1) + Z.of_nat (length (r :: rs2))).
Proof.
  intros c1 c2. change c2 with (asked slo [rs1; r :: rs2]). rewrite asked_counted by done.
  unfold evaluated_on. cbn [sliPassCount sliFailCount].
  assert (counted [rs1; r :: rs2] = rs1 ++ rs1 ++ r :: rs2) as ->.
  { unfold counted. destruct rs1; cbn; by rewrite !app_nil_r. }
  rewrite int64_add, count_negb, !length_app, !count_app. split; f_equal; lia.
Qed.

(** A sample without any request has no percentage and does not pass. *)
Lemma empty_sample_fails slo : sample_passes slo zero_DataPlaneResults = false.
Proof. apply fgt_nan_l. Qed.

(** The collector's results are those of the struct it creates at first. *)
Lemma addResult_fold slo r rs :
  foldl (addResult slo) None (r :: rs) = Some (foldl AddResult (new_ControlPlaneResults slo) (r :: rs)).
Proof.
  cbn [foldl]. unfold addResult at 2. cbn [default from_option id].
  generalize (AddResult (new_ControlPlaneResults slo) r) as c.
  induction rs as [|r' rs IH]; intros c; [done|]. apply IH.
Qed.

(** * Instances *)

Definition example_latencies : DataPlaneResults := mkDataPlane 3 0 0 0 [] [120; 80; 101].

Lemma latency_stats_witness :
  calculateRequestLatencyStats example_latencies = (80, 120, 100) ∧ 100 = zsum [120; 80; 101] / 3.
Proof.
  pose proof (latency_stats example_latencies) as H. split; [vm_compute; reflexivity|].
  apply H; [repeat constructor; discriminate | vm_compute; discriminate].
Defined.

(** 99 of 100 requests and 90 of 100, with an objective of 95%. *)
Definition good_sample : DataPlaneResults := mkDataPlane 99 1 1 0 [] [].
Definition bad_sample : DataPlaneResults := mkDataPlane 90 10 10 0 [] [].
Definition example_slo : float64 := fdiv (float64_of 95) (float64_of 100).

Lemma SuccessPercentage_spec_witness :
  (ControlPlane_SuccessPercentage (asked example_slo [[bad_sample; good_sample]])).1
    = fdiv (float64_of 1) (float64_of 2) ∧
  (ControlPlane_SuccessPercentage (asked example_slo [[good_sample]; [bad_sample]])).1
    = fdiv (float64_of 2) (float64_of 3).
Proof.
  split.
  - destruct (SuccessPercentage_spec example_slo [[good_sample; bad_sample]]
      [[bad_sample; good_sample]]) as [_ H]; [done| |].
    { repeat constructor. }
    destruct (ControlPlane_SuccessPercentage _) as [p c]. destruct H as [H _]. rewrite H.
    vm_compute. reflexivity.
  - destruct (SuccessPercentage_spec example_slo [[good_sample]; [bad_sample]]
      [[good_sample]; [bad_sample]]) as [_ H]; [done|repeat constructor|].
    destruct (ControlPlane_SuccessPercentage _) as [p c]. destruct H as [H _]. rewrite H.
    vm_compute. reflexivity.
Defined.

Example samples_counted_twice :
  let c1 := (ControlPlane_SuccessPercentage
    (AddResult (new_ControlPlaneResults example_slo) good_sample)).2 in
  let c2 := (ControlPlane_SuccessPercentage (AddResult c1 bad_sample)).2 in
  (sliPassCount c2, sliFailCount c2) = (2, 1).
Proof. vm_compute. reflexivity. Qed.

(** Every line of [PrintResults] shows the number of samples as its own total. *)
Example PrintResults_totals :
  (PrintResults_samples
    (foldl AddResult (new_ControlPlaneResults example_slo) [good_sample; bad_sample])).1
  = [(0%nat, 2, 0, 1, 0); (1%nat, 2, 0, 10, 0)].
Proof. vm_compute. reflexivity. Qed.
