(* ===== verification/RouteMapper.v ===== *)
(** src/test/scale/internal/collector/route_mapper.go: goroutines that each
    delete a route, map another one and poll it 60 times, and the counters
    they share under a mutex. *)
From S2P Require Import Prelude GoFloat.
Local Open Scope Z_scope.

(** * cfWithRetry *)

(** One attempt: the exit code of the session, or [None] when waiting 30
    seconds for it fails the test. *)
Definition attempt : Type := option Z.

(** At most three attempts; [Fail] panics.  [GinkgoRecover] in the goroutine
    turns the panic into a failed test. *)
Fixpoint retry (i : nat) (attempts : nat → attempt) : outcome unit :=
  match i with
  | O => Panic "Never successfully ran cf command"
  | S i =>
      match attempts 0%nat with
      | None => Panic "session did not exit"
      | Some code => if code =? 0 then Ok tt else retry i (λ n, attempts (S n))
      end
  end.

Definition cfWithRetry (attempts : nat → attempt) : outcome unit := retry 3 attempts.

(** * Polling *)

Definition StatusOK : Z := 200.

(** What one request of the poll gets: an error, or a status code at a time in
    Unix seconds. *)
Inductive poll := PollError | PollStatus (status now : Z).

#[export] Instance poll_eq_dec : EqDecision poll.
Proof. solve_decision. Defined.

Record poll_state := mkPoll { lastFailure : Z; succeeded : bool; postFailed : bool }.

Definition poll_step (s : poll_state) (p : poll) : poll_state :=
  match p with
  | PollError => s
  | PollStatus status now =>
      if negb (status =? StatusOK) then
        mkPoll now (succeeded s)
          (if succeeded s && negb (postFailed s) then true else postFailed s)
      else if negb (succeeded s) then mkPoll (lastFailure s) true false
      else if postFailed s then mkPoll (lastFailure s) (succeeded s) false
      else s
  end.

(** [lastFailure] is the clock as it was read before the loop. *)
Definition poll_all (lastFailure : Z) (polls : list poll) : poll_state :=
  foldl poll_step (mkPoll lastFailure false false) polls.

(** * The shared counters *)

Record RouteMapper := mkRouteMapper {
  results : list float64;
  failures : Z;
  postFailures : Z;
}.

Definition zero_RouteMapper : RouteMapper := mkRouteMapper [] 0 0.

Definition addResult (r : RouteMapper) (result : float64) : RouteMapper :=
  mkRouteMapper (results r ++ [result]) (failures r) (postFailures r).
Definition addFailure (r : RouteMapper) : RouteMapper :=
  mkRouteMapper (results r) (int64 (failures r + 1)) (postFailures r).
Definition addPostFailure (r : RouteMapper) : RouteMapper :=
  mkRouteMapper (results r) (failures r) (int64 (postFailures r + 1)).

(** * MapRoute *)

(** What happens to one goroutine: its two cf commands, the clock as it is read
    twice before the loop, for [startTime] and for [lastFailure], and the
    outcome of each poll. *)
Record mapping := mkMapping {
  delete_attempts : nat → attempt;
  map_attempts : nat → attempt;
  startTime : Z;
  initialFailure : Z;
  polls : nat → poll;
}.

(** The updates of the counters a goroutine makes, each a critical section of
    its own, in order. *)
Inductive update := UFailure | UPostFailure | UResult (result : float64).

Definition apply_update (r : RouteMapper) (u : update) : RouteMapper :=
  match u with
  | UFailure => addFailure r
  | UPostFailure => addPostFailure r
  | UResult x => addResult r x
  end.

Definition verdict (startTime : Z) (s : poll_state) : list update :=
  if negb (succeeded s) then [UFailure]
  else (if postFailed s then [UPostFailure] else [])
       ++ [UResult (float64_of (int64 (lastFailure s - startTime)))].

Definition MapRoute (m : mapping) : outcome (list update) :=
  _ ← cfWithRetry (delete_attempts m);
  _ ← cfWithRetry (map_attempts m);
  Ok (verdict (startTime m) (poll_all (initialFailure m) (polls m <$> seq 0 60))).

(** * The verdict on one route *)

(** The polls that got an answer. *)
Definition answer (p : poll) : option (Z * Z) :=
  match p with PollError => None | PollStatus status now => Some (status, now) end.

Definition ok_answer (a : Z * Z) : bool := a.1 =? StatusOK.

Definition time_of_last_failure (start : Z) (l : list poll) : Z :=
  from_option snd start (last (filter (λ a, ok_answer a = false) (omap answer l))).

Definition ever_ok (l : list poll) : bool := existsb ok_answer (omap answer l).
Definition ends_ok (l : list poll) : bool := from_option ok_answer true (last (omap answer l)).

Section snoc.
Context (start : Z) (l : list poll) (status now : Z).

Lemma time_of_last_failure_snoc :
  time_of_last_failure start (l ++ [PollStatus status now])
  = if status =? StatusOK then time_of_last_failure start l else now.
Proof.
  unfold time_of_last_failure. rewrite omap_app, filter_app. cbn [omap list_omap answer].
  destruct (status =? StatusOK) eqn:Hs.
  - rewrite filter_cons_False by (unfold ok_answer; cbn; by rewrite Hs). by rewrite app_nil_r.
  - rewrite filter_cons_True by done. by rewrite filter_nil, last_snoc.
Qed.

Lemma ever_ok_snoc : ever_ok (l ++ [PollStatus status now]) = ever_ok l || (status =? StatusOK).
Proof. unfold ever_ok. rewrite omap_app, existsb_app. cbn. by rewrite orb_false_r. Qed.

Lemma ends_ok_snoc : ends_ok (l ++ [PollStatus status now]) = (status =? StatusOK).
Proof. unfold ends_ok. rewrite omap_app. cbn [omap list_omap answer]. by rewrite last_snoc. Qed.
End snoc.

Lemma answers_snoc_error l : omap answer (l ++ [PollError]) = omap answer l.
Proof. rewrite omap_app. cbn. by rewrite app_nil_r. Qed.

Lemma poll_all_eq start l :
  poll_all start l =
  mkPoll (time_of_last_failure start l) (ever_ok l) (ever_ok l && negb (ends_ok l)).
Proof.
  unfold poll_all. induction l as [|p l IH] using rev_ind; [done|].
  rewrite foldl_snoc, IH. destruct p as [|status now]; cbn [poll_step].
  - unfold time_of_last_failure, ever_ok, ends_ok. by rewrite answers_snoc_error.
  - rewrite time_of_last_failure_snoc, ever_ok_snoc, ends_ok_snoc.
    by destruct (status =? StatusOK), (ever_ok l), (ends_ok l).
Qed.

Lemma ever_ok_true l : ever_ok l = true ↔ ∃ now, PollStatus StatusOK now ∈ l.
Proof.
  unfold ever_ok. rewrite existsb_exists. setoid_rewrite <- list_elem_of_In.
  setoid_rewrite list_elem_of_omap. split.
  - intros ([status now] & ([|status' now'] & Hin & Ha) & Hok); [done|]. injection Ha as -> ->.
    apply Z.eqb_eq in Hok. cbn in Hok. subst. by exists now.
  - intros [now Hin]. exists (StatusOK, now). split; [|done]. by exists (PollStatus StatusOK now).
Qed.

(** C38: what the polling loop concludes: the route became healthy exactly when
    some poll was answered with 200; it is held to have failed afterwards
    exactly when, besides, the last answer was not 200; the last failure is the
    time of the last answer that was not 200, and the time read before the loop
    when there is none.
    Polls that got no answer count for nothing. *)
Theorem poll_all_spec start l :
  let s := poll_all start l in
  (succeeded s = true ↔ ∃ now, PollStatus StatusOK now ∈ l) ∧
  (postFailed s = true ↔ succeeded s = true ∧
    ∃ status now, last (omap answer l) = Some (status, now) ∧ status ≠ StatusOK) ∧
  lastFailure s =
    from_option snd start (last (filter (λ a, a.1 ≠ StatusOK) (omap answer l))) ∧
  poll_all start (filter (λ p, p ≠ PollError) l) = s.
Proof.
  cbn zeta. rewrite !poll_all_eq. cbn [succeeded postFailed lastFailure]. split_and!.
  - apply ever_ok_true.
  - rewrite andb_true_iff, negb_true_iff. apply and_iff_compat_l. unfold ends_ok.
    destruct (last (omap answer l)) as [[status now]|]; cbn [from_option].
    + unfold ok_answer. rewrite Z.eqb_neq. split; [intros Hne; by exists status, now|].
      by intros (? & ? & [= <- <-] & ?).
    + split; [done|]. by intros (? & ? & ? & _).
  - unfold time_of_last_failure. do 2 f_equal. apply list_filter_iff. intros a.
    unfold ok_answer. apply Z.eqb_neq.
  - unfold time_of_last_failure, ever_ok, ends_ok.
    assert (omap answer (filter (λ p, p ≠ PollError) l) = omap answer l) as ->; [|done].
    induction l as [|p l IH]; [done|]. destruct p as [|status now].
    + by rewrite filter_cons_False by auto.
    + rewrite filter_cons_True by done. cbn. by rewrite IH.
Qed.

(** * Retrying *)

Lemma retry_Ok n attempts :
  retry n attempts = Ok tt ↔
  ∃ i, (i < n)%nat ∧ attempts i = Some 0 ∧
    ∀ j, (j < i)%nat → ∃ code, attempts j = Some code ∧ code ≠ 0.
Proof.
  revert attempts. induction n as [|n IH]; intros attempts; cbn [retry].
  { split; [done|]. intros (i & Hi & _). lia. }
  destruct (attempts 0%nat) as [code|] eqn:H0.
  - destruct (Z.eqb_spec code 0) as [->|Hne].
    + split; [intros _|done]. exists 0%nat. split_and!; [lia|done|]. lia.
    + rewrite IH. split.
      * intros (i & Hi & Ha & Hj). exists (S i). split_and!; [lia|done|].
        intros [|j] Hlt; [by exists code | apply Hj; lia].
      * intros ([|i] & Hi & Ha & Hj); [congruence|]. exists i. split_and!; [lia|done|].
        intros j Hlt. apply (Hj (S j)). lia.
  - split; [done|]. intros ([|i] & Hi & Ha & Hj); [congruence|].
    destruct (Hj 0%nat ltac:(lia)) as (? & ? & _). congruence.
Qed.

Lemma retry_cases n attempts : retry n attempts = Ok tt ∨ panics (retry n attempts).
Proof.
  revert attempts. induction n as [|n IH]; intros attempts; cbn [retry]; [right; by eexists|].
  destruct (attempts 0%nat) as [code|]; [|right; by eexists]. by destruct (code =? 0); [left|].
Qed.

(** The cf command is tried at most three times: [cfWithRetry] returns
    exactly when one of the first three attempts exits with 0 and those before
    it exited with another code; in every other case it fails the test by
    panicking. *)
Theorem cfWithRetry_spec attempts :
  (cfWithRetry attempts = Ok tt ↔
   ∃ i, (i < 3)%nat ∧ attempts i = Some 0 ∧
     ∀ j, (j < i)%nat → ∃ code, attempts j = Some code ∧ code ≠ 0) ∧
  (cfWithRetry attempts = Ok tt ∨ panics (cfWithRetry attempts)).
Proof. split; [apply retry_Ok | apply retry_cases]. Qed.

(** * The counters of all goroutines *)

Definition polled (m : mapping) : list poll := polls m <$> seq 0 60.

Lemma MapRoute_Ok m us :
  MapRoute m = Ok us → us = verdict (startTime m) (poll_all (initialFailure m) (polled m)).
Proof.
  unfold MapRoute. fold (polled m). generalize (polled m) as l. intros l.
  intros ([] & _ & H)%bind_Ok. apply bind_Ok in H as ([] & _ & H). by injection H as <-.
Qed.

Definition is_result (u : update) : bool := match u with UResult _ => true | _ => false end.
Definition is_failure (u : update) : bool := match u with UFailure => true | _ => false end.
Definition is_post_failure (u : update) : bool := match u with UPostFailure => true | _ => false end.

Lemma apply_update_fields r u :
  Z.of_nat (length (results (apply_update r u)))
    = Z.of_nat (length (results r)) + (if is_result u then 1 else 0) ∧
  failures (apply_update r u) = (if is_failure u then int64 (failures r + 1) else failures r) ∧
  postFailures (apply_update r u)
    = (if is_post_failure u then int64 (postFailures r + 1) else postFailures r).
Proof.
  destruct u; split_and!; try reflexivity; cbn [apply_update addResult addFailure addPostFailure
    results is_result]; rewrite ?length_app; cbn [length]; lia.
Qed.

Lemma wrapped_step {A} (p : A → bool) l x z :
  z = int64 (count p l) →
  (if p x then int64 (z + 1) else z) = int64 (count p (l ++ [x])).
Proof.
  intros ->. rewrite count_snoc. destruct (p x); [apply int64_add_l | by rewrite Z.add_0_r].
Qed.

Lemma apply_updates us :
  let r := foldl apply_update zero_RouteMapper us in
  Z.of_nat (length (results r)) = count is_result us ∧
  failures r = int64 (count is_failure us) ∧ postFailures r = int64 (count is_post_failure us).
Proof.
  induction us as [|u us IH] using rev_ind; [done|]. cbn zeta in *.
  rewrite foldl_snoc. destruct IH as (Hr & Hf & Hp).
  destruct (apply_update_fields (foldl apply_update zero_RouteMapper us) u) as (-> & -> & ->).
  split_and!; [by rewrite count_snoc, Hr | by apply wrapped_step..].
Qed.

Lemma verdict_counts start initial l :
  let us := verdict start (poll_all initial l) in
  count is_result us = (if ever_ok l then 1 else 0) ∧
  count is_failure us = (if ever_ok l then 0 else 1) ∧
  count is_post_failure us = (if ever_ok l && negb (ends_ok l) then 1 else 0).
Proof.
  cbn zeta. rewrite poll_all_eq. unfold verdict. cbn [succeeded postFailed].
  by destruct (ever_ok l), (ends_ok l).
Qed.

(** However the goroutines interleave, in the end each mapping whose cf
    commands succeeded is counted once: as a failure when its route never
    became healthy, with a result otherwise, and as a post-failure when,
    besides a result, its last answer was not 200. *)
Theorem mappings_counted ms uss us
    (Hms : Forall2 (λ m us, MapRoute m = Ok us) ms uss) (Hp : us ≡ₚ concat uss) :
  let r := foldl apply_update zero_RouteMapper us in
  let healthy m := ever_ok (polled m) in
  Z.of_nat (length (results r)) = count healthy ms ∧
  failures r = int64 (Z.of_nat (length ms) - count healthy ms) ∧
  postFailures r = int64 (count (λ m, healthy m && negb (ends_ok (polled m))) ms).
Proof.
  intros r healthy. destruct (apply_updates us) as (Hr & Hf & Hpf). fold r in Hr, Hf, Hpf.
  rewrite Hr, Hf, Hpf, !(count_Permutation _ _ _ Hp).
  assert (count is_result (concat uss) = count healthy ms ∧
    count is_failure (concat uss) = Z.of_nat (length ms) - count healthy ms ∧
    count is_post_failure (concat uss) = count (λ m, healthy m && negb (ends_ok (polled m))) ms)
    as (-> & -> & ->); [|done].
  clear -Hms. induction Hms as [|m us ms uss Hm _ (IHr & IHf & IHp)]; [done|].
  cbn [concat length]. rewrite !count_app, IHr, IHf, IHp.
  destruct (verdict_counts (startTime m) (initialFailure m) (polled m)) as (Hr & Hf & Hp).
  apply MapRoute_Ok in Hm as ->. rewrite Hr, Hf, Hp. subst healthy.
  rewrite !count_cons. cbn beta. destruct (ever_ok (polled m)), (ends_ok (polled m)); cbn [negb andb];
    split_and!; lia.
Qed.

(** * Instances *)

Definition healthy_mapping : mapping :=
  mkMapping (λ _, Some 0) (λ n, Some (if Nat.eqb n 0 then 1 else 0)) 1000 1000
    (λ j, PollStatus (if Nat.ltb j 5 then 503 else 200) (1000 + Z.of_nat j)).
Definition dead_mapping : mapping :=
  mkMapping (λ _, Some 0) (λ _, Some 0) 1000 1000 (λ j, PollStatus 404 (1000 + Z.of_nat j)).

Lemma mappings_counted_witness :
  let r := foldl apply_update zero_RouteMapper [UFailure; UResult (float64_of 4)] in
  Z.of_nat (length (results r)) = 1 ∧ failures r = 1 ∧ postFailures r = 0.
Proof.
  pose proof (mappings_counted [healthy_mapping; dead_mapping]
    [[UResult (float64_of 4)]; [UFailure]] [UFailure; UResult (float64_of 4)]) as H.
  cbn zeta in H. destruct H as (Hr & Hf & Hp).
  - repeat constructor; vm_compute; reflexivity.
  - apply Permutation_swap.
  - cbn zeta. split_and!; [rewrite Hr | rewrite Hf | rewrite Hp]; vm_compute; reflexivity.
Defined.
