(* ===== verification/Collector.v ===== *)
(** The collectors of the uptime and the scale tests share a design: every call
    starts a goroutine, which works for a while, makes its updates of the shared
    results one by one under a mutex, and then leaves the wait group; the test
    waits for the group and gets the results.  This is that design, whatever
    the results and the updates are. *)
From S2P Require Import Prelude.
Local Open Scope Z_scope.

Section collector.
(** The results, the updates, and how an update changes the results. *)
Context {R U : Type} (apply : R → U → R) (zero : R).
(** What a goroutine is started for, and the updates it may end up making. *)
Context {J : Type} (comes_to : J → list U → Prop).

(** * The transition system *)

(** Where a goroutine is: at its work; before the next of its updates; holding
    the mutex, before and after it loaded the results, and after it stored
    them; after [waitGroup.Done()]. *)
Inductive phase : Type :=
  | Working
  | Pending (us : list U)
  | Locked (u : U) (us : list U)
  | Loaded (seen : R) (u : U) (us : list U)
  | Stored (us : list U)
  | Finished.

Record goroutine := mkGoroutine { job : J; at_phase : phase }.

(** [mutex] is the goroutine that holds it. *)
Record collector := mkCollector {
  waitGroup : Z;
  mutex : option nat;
  shared : R;
  pool : list goroutine;
}.

Definition new_collector : collector := mkCollector 0 None zero [].

Definition moved (c : collector) (g : nat) (j : J) (p : phase) : list goroutine :=
  <[g := mkGoroutine j p]> (pool c).

Inductive event : Type :=
  | ECall (j : J)
  | EGo
  | EWaited
  | EResults (r : R).

Inductive step : collector → event → collector → Prop :=
  (** [waitGroup.Add(1)] and [go] *)
  | step_call c j :
      step c (ECall j)
        (mkCollector (waitGroup c + 1) (mutex c) (shared c) (pool c ++ [mkGoroutine j Working]))
  | step_work c g j us :
      pool c !! g = Some (mkGoroutine j Working) → comes_to j us →
      step c EGo (mkCollector (waitGroup c) (mutex c) (shared c) (moved c g j (Pending us)))
  | step_lock c g j u us :
      pool c !! g = Some (mkGoroutine j (Pending (u :: us))) → mutex c = None →
      step c EGo (mkCollector (waitGroup c) (Some g) (shared c) (moved c g j (Locked u us)))
  | step_load c g j u us :
      pool c !! g = Some (mkGoroutine j (Locked u us)) →
      step c EGo
        (mkCollector (waitGroup c) (mutex c) (shared c) (moved c g j (Loaded (shared c) u us)))
  | step_store c g j seen u us :
      pool c !! g = Some (mkGoroutine j (Loaded seen u us)) →
      step c EGo
        (mkCollector (waitGroup c) (mutex c) (apply seen u) (moved c g j (Stored us)))
  | step_unlock c g j us :
      pool c !! g = Some (mkGoroutine j (Stored us)) →
      step c EGo (mkCollector (waitGroup c) None (shared c) (moved c g j (Pending us)))
  (** [waitGroup.Done()] *)
  | step_done c g j :
      pool c !! g = Some (mkGoroutine j (Pending [])) →
      step c EGo (mkCollector (waitGroup c - 1) (mutex c) (shared c) (moved c g j Finished))
  (** [Wait] returns *)
  | step_waited c : waitGroup c = 0 → step c EWaited c
  (** [GetResults], under the mutex *)
  | step_results c : mutex c = None → step c (EResults (shared c)) c.

Inductive run : collector → list event → collector → Prop :=
  | run_nil c : run c [] c
  | run_cons c1 e c2 es c3 : step c1 e c2 → run c2 es c3 → run c1 (e :: es) c3.

(** The calls made so far. *)
Definition called (es : list event) : list J :=
  omap (λ e, match e with ECall j => Some j | _ => None end) es.

(** * The invariant *)

Definition running (g : goroutine) : bool :=
  match at_phase g with Finished => false | _ => true end.
Definition holding (p : phase) : bool :=
  match p with Locked _ _ | Loaded _ _ _ | Stored _ => true | _ => false end.
(** The updates a goroutine has still to make. *)
Definition rest (p : phase) : list U :=
  match p with
  | Working | Finished => []
  | Pending us | Stored us => us
  | Locked u us | Loaded _ u us => u :: us
  end.

(** A goroutine that has made the updates [made]. *)
Definition fits (g : goroutine) (made : list U) : Prop :=
  match at_phase g with
  | Working => made = []
  | p => comes_to (job g) (made ++ rest p)
  end.

Record invariant (js : list J) (c : collector) (log : list U) (made : list (list U)) : Prop := {
  inv_shared : shared c = foldl apply zero log;
  inv_log : log ≡ₚ concat made;
  inv_made : Forall2 fits (pool c) made;
  inv_jobs : job <$> pool c = js;
  inv_group : waitGroup c = count running (pool c);
  inv_held g : mutex c = Some g → ∃ x, pool c !! g = Some x ∧ holding (at_phase x) = true;
  inv_holds g x : pool c !! g = Some x → holding (at_phase x) = true → mutex c = Some g;
  inv_loaded g j seen u us : pool c !! g = Some (mkGoroutine j (Loaded seen u us)) → seen = shared c;
}.

Lemma count_insert {A} (p : A → bool) l i x y :
  l !! i = Some x →
  count p (<[i := y]> l) = count p l - (if p x then 1 else 0) + (if p y then 1 else 0).
Proof.
  intros Hi. pose proof (lookup_lt_Some _ _ _ Hi) as Hlt.
  rewrite insert_take_drop by done. rewrite <- (take_drop_middle l i x Hi) at 3.
  rewrite !count_app, !count_cons. lia.
Qed.

Lemma concat_insert {A} (ls : list (list A)) i l x :
  ls !! i = Some l → concat (<[i := l ++ [x]]> ls) ≡ₚ concat ls ++ [x].
Proof.
  intros Hi. pose proof (lookup_lt_Some _ _ _ Hi) as Hlt.
  rewrite insert_take_drop by done. rewrite <- (take_drop_middle ls i l Hi) at 3.
  rewrite !concat_app. cbn [concat]. rewrite <- !app_assoc. do 2 apply Permutation_app_head.
  apply Permutation_app_comm.
Qed.

Lemma new_invariant : invariant [] new_collector [] [].
Proof. by constructor; try constructor. Qed.

(** A goroutine moves on to another phase. *)
Lemma moved_invariant js c log made g j p p' m m' wg mu r log' :
  invariant js c log made → pool c !! g = Some (mkGoroutine j p) → made !! g = Some m →
  fits (mkGoroutine j p') m' →
  r = foldl apply zero log' → log' ≡ₚ concat (<[g := m']> made) →
  wg = waitGroup c - (if running (mkGoroutine j p) then 1 else 0)
       + (if running (mkGoroutine j p') then 1 else 0) →
  (if holding p' then mu = Some g ∧ (holding p = true ∨ mutex c = None)
   else mu = if holding p then None else mutex c) →
  (r = shared c ∨ holding p = true) →
  (∀ seen u us, p' = Loaded seen u us → seen = r) →
  invariant js (mkCollector wg mu r (moved c g j p')) log' (<[g := m']> made).
Proof.
  intros [Hsh Hlog Hmade Hjobs Hwg Hheld Hholds Hloaded] Hg Hm Hfits Hr Hlog' Hwg' Hmu Hsame Hseen.
  pose proof (lookup_lt_Some _ _ _ Hg) as Hlt.
  assert (∀ g' x, moved c g j p' !! g' = Some x →
    (g' = g ∧ x = mkGoroutine j p') ∨ (g' ≠ g ∧ pool c !! g' = Some x)) as Hat.
  { intros g' x [(-> & -> & _)|[? ?]]%list_lookup_insert_Some; [by left|by right]. }
  assert (∀ g' x, g' ≠ g → pool c !! g' = Some x → holding (at_phase x) = true →
    holding p = false ∧ holding p' = false ∧ mu = Some g') as Hother.
  { intros g' x Hne Hx Hhold. pose proof (Hholds _ _ Hx Hhold) as Hmutex.
    assert (holding p = false) as Hp.
    { destruct (holding p) eqn:Hp; [|done]. pose proof (Hholds _ _ Hg Hp). congruence. }
    rewrite Hp in Hmu. destruct (holding p'); [|split_and!; congruence].
    destruct Hmu as [_ [?|?]]; congruence. }
  constructor; cbn [shared pool waitGroup mutex]; try done.
  - by apply Forall2_insert.
  - unfold moved. rewrite list_fmap_insert, list_insert_id; [done|].
    by rewrite list_lookup_fmap, Hg.
  - unfold moved. rewrite (count_insert _ _ _ _ _ Hg). lia.
  - intros g' ->. unfold moved. destruct (holding p') eqn:Hp'.
    + destruct Hmu as [[= ->] _]. eexists. by rewrite list_lookup_insert_eq.
    + destruct (holding p) eqn:Hp; [done|]. destruct (Hheld g') as (x & Hx & Hhold); [done|].
      exists x. split; [|done]. rewrite list_lookup_insert_ne; [done|].
      intros ->. rewrite Hg in Hx. injection Hx as <-. cbn in Hhold. congruence.
  - intros g' x [[-> ->]|[Hne Hx]]%Hat Hhold.
    + cbn in Hhold. rewrite Hhold in Hmu. tauto.
    + by destruct (Hother g' x Hne Hx Hhold) as (_ & _ & ->).
  - intros g' j' seen u us [[-> [= <- <-]]|[Hne Hx]]%Hat; [by eapply Hseen|].
    destruct Hsame as [->|Hp]; [by eapply Hloaded|].
    destruct (Hother g' _ Hne Hx eq_refl) as (Hp' & _). congruence.
Qed.

Lemma made_at js c log made g x :
  invariant js c log made → pool c !! g = Some x → ∃ m, made !! g = Some m ∧ fits x m.
Proof. intros Hinv Hg. by eapply Forall2_lookup_l; [apply (inv_made _ _ _ _ Hinv)|]. Qed.

(** What the updates made are while a goroutine makes none. *)
Lemma quiet js c log made g x :
  invariant js c log made → pool c !! g = Some x →
  ∃ m, made !! g = Some m ∧ fits x m ∧ log ≡ₚ concat (<[g := m]> made).
Proof.
  intros Hinv Hg. destruct (made_at _ _ _ _ _ _ Hinv Hg) as (m & Hm & Hf).
  exists m. split_and!; [done..|]. rewrite list_insert_id by done. apply (inv_log _ _ _ _ Hinv).
Qed.

Lemma step_invariant js c e c' log made :
  invariant js c log made → step c e c' →
  ∃ log' made', invariant (js ++ called [e]) c' log' made'.
Proof.
  intros Hinv Hstep. pose proof Hinv as [Hsh Hlog Hmade Hjobs Hwg Hheld Hholds Hloaded].
  destruct Hstep as [c j|c g j us Hg Hcomes|c g j u us Hg Hfree|c g j u us Hg|c g j seen u us Hg
    |c g j us Hg|c g j Hg|c Hzero|c Hfree]; cbn [called omap list_omap]; rewrite ?app_nil_r.
  - exists log, (made ++ [[]]). constructor; cbn [shared pool waitGroup mutex]; try done.
    + rewrite concat_app. cbn. by rewrite !app_nil_r.
    + apply Forall2_app; [done|]. by constructor.
    + by rewrite fmap_app, Hjobs.
    + rewrite count_snoc. cbn. lia.
    + intros g (x & Hx & Hhold)%Hheld. exists x. by rewrite (lookup_app_l_Some _ _ _ _ Hx).
    + intros g x [Hx|[_ Hx]]%lookup_app_Some Hhold; [by eapply Hholds|].
      apply list_lookup_singleton_Some in Hx as [_ <-]. done.
    + intros g j' seen u us [Hx|[_ Hx]]%lookup_app_Some; [by eapply Hloaded|].
      by apply list_lookup_singleton_Some in Hx as [_ [=]].
  - destruct (quiet _ _ _ _ _ _ Hinv Hg) as (m & Hm & Hf & Hsame). exists log, (<[g := m]> made).
    apply (moved_invariant _ _ _ _ _ _ _ _ m m _ _ _ _ Hinv Hg Hm); cbn; try (done || lia || by left).
    cbn in Hf. by subst m.
  - destruct (quiet _ _ _ _ _ _ Hinv Hg) as (m & Hm & Hf & Hsame). exists log, (<[g := m]> made).
    apply (moved_invariant _ _ _ _ _ _ _ _ m m _ _ _ _ Hinv Hg Hm); cbn; try (done || lia || by left).
    cbn. tauto.
  - destruct (quiet _ _ _ _ _ _ Hinv Hg) as (m & Hm & Hf & Hsame). exists log, (<[g := m]> made).
    pose proof (Hholds _ _ Hg eq_refl).
    apply (moved_invariant _ _ _ _ _ _ _ _ m m _ _ _ _ Hinv Hg Hm); cbn; try (done || lia || by left).
    + cbn. tauto.
    + by intros ? ? ? [= <- _ _].
  - destruct (quiet _ _ _ _ _ _ Hinv Hg) as (m & Hm & Hf & Hsame).
    pose proof (Hholds _ _ Hg eq_refl). pose proof (Hloaded _ _ _ _ _ Hg) as ->.
    exists (log ++ [u]), (<[g := m ++ [u]]> made).
    apply (moved_invariant _ _ _ _ _ _ _ _ m _ _ _ _ _ Hinv Hg Hm); cbn; try (done || lia || by left).
    + cbn in *. by rewrite <- app_assoc.
    + by rewrite foldl_snoc, <- Hsh.
    + by rewrite (concat_insert _ _ _ _ Hm), Hlog.
    + cbn. tauto.
  - destruct (quiet _ _ _ _ _ _ Hinv Hg) as (m & Hm & Hf & Hsame). exists log, (<[g := m]> made).
    apply (moved_invariant _ _ _ _ _ _ _ _ m m _ _ _ _ Hinv Hg Hm); cbn; try (done || lia || by left).
  - destruct (quiet _ _ _ _ _ _ Hinv Hg) as (m & Hm & Hf & Hsame). exists log, (<[g := m]> made).
    apply (moved_invariant _ _ _ _ _ _ _ _ m m _ _ _ _ Hinv Hg Hm); cbn; try (done || lia || by left).
  - by exists log, made.
  - by exists log, made.
Qed.

Lemma called_app es es' : called (es ++ es') = called es ++ called es'.
Proof. apply omap_app. Qed.

Lemma run_invariant c es c' js log made :
  invariant js c log made → run c es c' →
  ∃ log' made', invariant (js ++ called es) c' log' made'.
Proof.
  intros Hinv Hrun. revert js log made Hinv.
  induction Hrun as [c|c1 e c2 es c3 Hstep _ IH]; intros js log made Hinv.
  - exists log, made. cbn. by rewrite app_nil_r.
  - destruct (step_invariant _ _ _ _ _ _ Hinv Hstep) as (log' & made' & Hinv').
    destruct (IH _ _ _ Hinv') as (log'' & made'' & Hinv''). exists log'', made''.
    by rewrite <- app_assoc, <- called_app in Hinv''.
Qed.

(** Every reachable state keeps the invariant. *)
Lemma reachable_invariant es c :
  run new_collector es c → ∃ log made, invariant (called es) c log made.
Proof. intros Hrun. exact (run_invariant _ _ _ _ _ _ new_invariant Hrun). Qed.

(** * When Wait returns *)

Lemma not_running_finished js c log made :
  invariant js c log made → waitGroup c = 0 → Forall (λ x, at_phase x = Finished) (pool c).
Proof.
  intros Hinv Hzero. rewrite (inv_group _ _ _ _ Hinv) in Hzero. apply Forall_forall. intros x Hx.
  destruct (running x) eqn:Hrun; [|unfold running in Hrun; by destruct (at_phase x)].
  apply list_elem_of_split in Hx as (l1 & l2 & Hpool). rewrite Hpool in Hzero.
  rewrite count_app, count_cons, Hrun in Hzero. unfold count in Hzero. lia.
Qed.

Lemma finished_updates l made :
  Forall2 fits l made → Forall (λ x, at_phase x = Finished) l →
  Forall2 comes_to (job <$> l) made.
Proof.
  induction 1 as [|x m l made Hx _ IH]; intros Hf; [constructor|].
  apply Forall_cons in Hf as [Hfin Hf]. cbn. constructor; [|by apply IH].
  unfold fits in Hx. rewrite Hfin in Hx. cbn in Hx. by rewrite app_nil_r in Hx.
Qed.

(** Once the group is empty, every goroutine has made all its updates, one after
    another in some order, and none was lost. *)
Lemma all_collected es c :
  run new_collector es c → waitGroup c = 0 →
  mutex c = None ∧
  ∃ log uss, Forall2 comes_to (called es) uss ∧ log ≡ₚ concat uss ∧
    shared c = foldl apply zero log.
Proof.
  intros Hrun Hzero. destruct (reachable_invariant _ _ Hrun) as (log & made & Hinv).
  pose proof (not_running_finished _ _ _ _ Hinv Hzero) as Hfin. split.
  - destruct (mutex c) as [g|] eqn:Hg; [|done].
    destruct (inv_held _ _ _ _ Hinv g Hg) as (x & Hx & Hhold).
    rewrite Forall_lookup in Hfin. by rewrite (Hfin _ _ Hx) in Hhold.
  - exists log, made. split_and!; [|apply (inv_log _ _ _ _ Hinv)|apply (inv_shared _ _ _ _ Hinv)].
    rewrite <- (inv_jobs _ _ _ _ Hinv). by apply finished_updates; [apply (inv_made _ _ _ _ Hinv)|].
Qed.

Lemma empty_group_stays es c e c' :
  run new_collector es c → waitGroup c = 0 → step c e c' → called [e] = [] → c' = c.
Proof.
  intros Hrun Hzero Hstep He. destruct (reachable_invariant _ _ Hrun) as (log & made & Hinv).
  pose proof (not_running_finished _ _ _ _ Hinv Hzero) as Hfin. rewrite Forall_lookup in Hfin.
  destruct Hstep as [| | | | | | | |]; try done;
    match goal with H : pool _ !! _ = Some _ |- _ => by apply Hfin in H end.
Qed.

(** The wait group never goes below zero, which would panic. *)
Lemma group_counts es c : run new_collector es c → 0 <= waitGroup c.
Proof.
  intros Hrun. destruct (reachable_invariant _ _ Hrun) as (log & made & Hinv).
  rewrite (inv_group _ _ _ _ Hinv). unfold count. lia.
Qed.

Lemma run_app_inv c es1 es2 c' : run c (es1 ++ es2) c' → ∃ c1, run c es1 c1 ∧ run c1 es2 c'.
Proof.
  revert c. induction es1 as [|e es1 IH]; intros c Hrun; [exists c; split; [constructor|done]|].
  inversion Hrun as [|? ? ? ? ? Hstep Hrun']; subst.
  destruct (IH _ Hrun') as (c1 & H1 & H2). exists c1. split; [by econstructor|done].
Qed.

Lemma run_app c es1 c1 es2 c2 : run c es1 c1 → run c1 es2 c2 → run c (es1 ++ es2) c2.
Proof. induction 1; [done|]. intros H2. cbn. by econstructor; [|auto]. Qed.

Lemma empty_group_idle es c es2 c' :
  run new_collector es c → waitGroup c = 0 → run c es2 c' → called es2 = [] → c' = c.
Proof.
  intros Hes Hzero Hes2 Hnone. induction Hes2 as [|c e c2 es2 c3 Hstep _ IH]; [done|].
  change (e :: es2) with ([e] ++ es2) in Hnone. rewrite called_app in Hnone.
  apply app_eq_nil in Hnone as [He Hnone].
  pose proof (empty_group_stays _ _ _ _ Hes Hzero Hstep He) as ->. by apply IH.
Qed.

(** What [GetResults] returns after [Wait], with no call in between. *)
Lemma results_after_wait es es2 r c :
  run new_collector (es ++ EWaited :: es2 ++ [EResults r]) c → called es2 = [] →
  ∃ log uss, Forall2 comes_to (called es) uss ∧ log ≡ₚ concat uss ∧ r = foldl apply zero log.
Proof.
  intros (c1 & Hes & Hrun)%run_app_inv Hnone.
  inversion Hrun as [|? ? c1' ? ? Hw Hrun' Heq]; subst. inversion Hw as [| | | | | | |? Hzero|]; subst.
  destruct (all_collected _ _ Hes Hzero) as (_ & log & uss & Huss & Hlog & Hshared).
  exists log, uss. split_and!; [done..|]. rewrite <- Hshared.
  apply run_app_inv in Hrun' as (c2 & Hes2 & Hres).
  pose proof (empty_group_idle _ _ _ _ Hes Hzero Hes2 Hnone) as ->.
  inversion Hres as [|? ? ? ? ? Hr]; subst. by inversion Hr.
Qed.

(** * Wait returns *)

Definition is_working (x : goroutine) : nat := match at_phase x with Working => 1 | _ => 0 end.
(** The steps a goroutine has left once its work is over. *)
Definition steps_left (x : goroutine) : nat :=
  match at_phase x with
  | Working | Finished => 0
  | Pending us => 4 * length us + 1
  | Locked _ us => 4 * length us + 4
  | Loaded _ _ us => 4 * length us + 3
  | Stored us => 4 * length us + 2
  end.

Lemma sum_insert {A} (f : A → nat) l i x y :
  l !! i = Some x → (sum_list_with f (<[i := y]> l) + f x = sum_list_with f l + f y)%nat.
Proof.
  revert i. induction l as [|z l IH]; intros [|i] Hi; simpl in *; try done.
  - injection Hi as ->. lia.
  - specialize (IH _ Hi). lia.
Qed.

(** While the group is not empty some goroutine can go on. *)
Lemma goes_on js c log made :
  invariant js c log made → (∀ j, j ∈ js → ∃ us, comes_to j us) → waitGroup c ≠ 0 →
  ∃ c', step c EGo c' ∧
    (sum_list_with is_working (pool c') < sum_list_with is_working (pool c) ∨
     sum_list_with is_working (pool c') = sum_list_with is_working (pool c) ∧
     sum_list_with steps_left (pool c') < sum_list_with steps_left (pool c))%nat.
Proof.
  intros Hinv Hwork Hne.
  assert (∀ g j p p', pool c !! g = Some (mkGoroutine j p) → is_working (mkGoroutine j p) = 0%nat →
    is_working (mkGoroutine j p') = 0%nat →
    (steps_left (mkGoroutine j p') < steps_left (mkGoroutine j p))%nat →
    (sum_list_with is_working (moved c g j p') = sum_list_with is_working (pool c) ∧
     sum_list_with steps_left (moved c g j p') < sum_list_with steps_left (pool c))%nat) as Hless.
  { intros g j p p' Hg Hw Hw' Hlt. unfold moved.
    pose proof (sum_insert is_working _ _ _ (mkGoroutine j p') Hg).
    pose proof (sum_insert steps_left _ _ _ (mkGoroutine j p') Hg). lia. }
  destruct (mutex c) as [g|] eqn:Hmutex.
  - destruct (inv_held _ _ _ _ Hinv g Hmutex) as ([j p] & Hg & Hhold).
    destruct p as [| |u us|seen u us|us|]; try done; eexists; (split; [econstructor; by eauto|]);
      right; apply (Hless _ _ _ _ Hg); cbn; lia.
  - assert (∃ x, x ∈ pool c ∧ running x = true) as ([j p] & Hin & Hrun).
    { rewrite (inv_group _ _ _ _ Hinv) in Hne. destruct (decide (Exists (λ x, running x = true) (pool c)))
        as [[x ?]%Exists_exists|Hno]; [by exists x|]. destruct Hne. apply count_none. intros x Hx.
      destruct (running x) eqn:Hr; [|done]. destruct Hno. apply Exists_exists. by exists x. }
    apply list_elem_of_lookup in Hin as [g Hg]. cbn in Hrun.
    destruct p as [|[|u us]|u us|seen u us|us|]; try done.
    + destruct (Hwork j) as [us Hus].
      { rewrite <- (inv_jobs _ _ _ _ Hinv). apply list_elem_of_fmap. exists (mkGoroutine j Working).
        split; [done|]. by eapply list_elem_of_lookup_2. }
      eexists. split; [by eapply step_work|]. left. cbn. unfold moved.
      pose proof (sum_insert is_working _ _ _ (mkGoroutine j (Pending us)) Hg) as H. cbn in H. lia.
    + eexists. split; [by eapply step_done|]. right. apply (Hless _ _ _ _ Hg); cbn; lia.
    + eexists. split; [by eapply step_lock|]. right. apply (Hless _ _ _ _ Hg); cbn; lia.
    + pose proof (inv_holds _ _ _ _ Hinv _ _ Hg eq_refl). congruence.
    + pose proof (inv_holds _ _ _ _ Hinv _ _ Hg eq_refl). congruence.
    + pose proof (inv_holds _ _ _ _ Hinv _ _ Hg eq_refl). congruence.
Qed.

(** If every goroutine's work comes to an end, the group becomes empty: no
    deadlock, and [Wait] can return. *)
Lemma group_drains js c log made :
  invariant js c log made → (∀ j, j ∈ js → ∃ us, comes_to j us) →
  ∃ n c', run c (replicate n EGo) c' ∧ waitGroup c' = 0.
Proof.
  intros Hinv Hwork.
  remember (sum_list_with is_working (pool c)) as w eqn:Hw.
  remember (sum_list_with steps_left (pool c)) as l eqn:Hl.
  revert l c log made Hinv Hw Hl. induction w as [w IHw] using lt_wf_ind.
  intros l. induction l as [l IHl] using lt_wf_ind. intros c log made Hinv -> ->.
  destruct (Z.eq_dec (waitGroup c) 0) as [Hzero|Hne]; [by exists 0%nat, c; split; [constructor|]|].
  destruct (goes_on _ _ _ _ Hinv Hwork Hne) as (c1 & Hstep & Hless).
  destruct (step_invariant _ _ _ _ _ _ Hinv Hstep) as (log1 & made1 & Hinv1).
  cbn in Hinv1. rewrite app_nil_r in Hinv1.
  assert (∃ n c', run c1 (replicate n EGo) c' ∧ waitGroup c' = 0) as (n & c' & Hrun & Hzero).
  { destruct Hless as [Hless|[Heq Hless]]; [by eapply (IHw _ Hless)|by eapply (IHl _ Hless)]. }
  exists (S n), c'. split; [by econstructor|done].
Qed.
End collector.

(** One step of a concrete run, with the state it leads to computed. *)
Tactic Notation "take" tactic1(t) := eapply run_cons; [t|]; cbn.
