(* ===== verification/RequestCollector.v ===== *)
(** src/test/uptime/internal/collector/request.go: the collector of the
    control plane measurement, as an instance of the design in [Collector], and
    what the test reads from it once it has waited. *)
From S2P Require Import Prelude GoFloat Collector Uptime.
Local Open Scope Z_scope.

(** One call of [Request]: its arguments, and what its goroutine is to see: the
    turns of its loop, each with the time since the start and the response. *)
Record request := mkRequest {
  route : string;
  delay : Z;
  request_sampleTime : Z;
  request_turns : list turn;
}.

(** The turns that begin before the sample time is over. *)
Fixpoint timely (sampleTime : Z) (turns : list turn) : list turn :=
  match turns with
  | [] => []
  | t :: turns => if sampleTime <? elapsed t then [] else t :: timely sampleTime turns
  end.

Section requests.
(** The fields DataPlaneSLOMaxRequestLatency and
    ControlPlaneSLODataPlaneAvailabilityPercentage of the collector. *)
Context (max : Z) (slo : float64).

(** The goroutine sleeps, measures until the sample time is over, and adds one
    result. *)
Definition sampled (q : request) (us : list DataPlaneResults) : Prop :=
  ∃ result,
    measure max (request_sampleTime q) zero_DataPlaneResults (request_turns q) = Some result ∧
    us = [result].

(** The struct with the goroutines it started; its calls, their goroutines,
    [Wait] and [GetResults]. *)
Definition Request : Type :=
  collector (R:=option ControlPlaneResults) (U:=DataPlaneResults) (J:=request).
Definition request_event : Type := event (R:=option ControlPlaneResults) (J:=request).
Definition new_Request : Request := new_collector None.
Definition Request_step : Request → request_event → Request → Prop := step (addResult slo) sampled.
Definition Request_run : Request → list request_event → Request → Prop :=
  run (addResult slo) sampled.

(** The sample of a call: every response of its sample time counted once, each
    as what it is. *)
Definition sample (q : request) : DataPlaneResults :=
  tally max (response <$> timely (request_sampleTime q) (request_turns q)).

Lemma timely_app sampleTime pre t post :
  Forall (λ t, elapsed t <= sampleTime) pre → sampleTime < elapsed t →
  timely sampleTime (pre ++ t :: post) = pre.
Proof.
  intros Hpre Ht. induction Hpre as [|t0 pre H0 _ IH]; cbn [app timely].
  - by assert ((sampleTime <? elapsed t) = true) as -> by lia.
  - assert ((sampleTime <? elapsed t0) = false) as -> by lia. by rewrite IH.
Qed.

Lemma sampled_sample q us : sampled q us → us = [sample q].
Proof.
  intros (result & (pre & t & post & Hturns & Hpre & Ht & ->)%measure_counts & ->).
  unfold sample. by rewrite Hturns, timely_app.
Qed.

Lemma sampled_samples qs uss : Forall2 sampled qs uss → uss = (λ q, [sample q]) <$> qs.
Proof.
  induction 1 as [|q us qs uss Hq _ ->]; [done|]. by rewrite (sampled_sample _ _ Hq).
Qed.

Lemma concat_one {A} (l : list A) : concat ((λ x, [x]) <$> l) = l.
Proof. induction l as [|x l IH]; [done|]. cbn. by f_equal. Qed.

Lemma addResult_all log :
  foldl (addResult slo) None log =
  match log with [] => None | _ => Some (foldl AddResult (new_ControlPlaneResults slo) log) end.
Proof. destruct log; [done|]. apply addResult_fold. Qed.

(** C36: in every interleaving of the goroutines, once [Wait] has returned
    [GetResults] is nil exactly if nothing was requested; otherwise it holds, in
    some order, exactly one result per call, which counts every response that
    its goroutine got within the sample time once and as what it was; and the
    success percentage is the share of the calls whose result is above the
    objective. *)
Theorem Request_collects es es2 r c
    (Hrun : Request_run new_Request (es ++ EWaited :: es2 ++ [EResults r]) c)
    (Hnone : called es2 = []) :
  match r with
  | None => called es = []
  | Some cp =>
      called es ≠ [] ∧ collectorResults cp ≡ₚ sample <$> called es ∧
      (ControlPlane_SuccessPercentage cp).1 =
        fdiv (float64_of (int64 (count (λ q, sample_passes slo (sample q)) (called es))))
          (float64_of (int64 (Z.of_nat (length (called es)))))
  end.
Proof.
  destruct (results_after_wait _ _ _ _ _ _ _ Hrun Hnone) as (log & uss & Huss & Hlog & ->).
  rewrite (sampled_samples _ _ Huss) in Hlog.
  rewrite (list_fmap_compose sample (λ x, [x])), concat_one in Hlog.
  rewrite addResult_all. pose proof (Permutation_length Hlog) as Hlen.
  rewrite length_fmap in Hlen.
  destruct log as [|d log]; [by apply length_zero_iff_nil|]. split_and!.
  - intros Hempty. by rewrite Hempty in Hlen.
  - by rewrite AddResult_fold.
  - rewrite fresh_percentage. cbn [fst successPercentage evaluated].
    by rewrite (count_Permutation _ _ _ Hlog), count_fmap, <- Hlen.
Qed.

(** [Wait] can always return, once every call's sample time comes to an end. *)
Lemma Request_Wait_returns es c :
  Request_run new_Request es c →
  (∀ q, q ∈ called es → ∃ t, t ∈ request_turns q ∧ request_sampleTime q < elapsed t) →
  ∃ n c', Request_run c (replicate n EGo) c' ∧ waitGroup c' = 0.
Proof.
  intros Hrun Hends. destruct (reachable_invariant _ _ _ _ _ Hrun) as (log & made & Hinv).
  eapply group_drains; [exact Hinv|]. intros q Hq.
  destruct (Hends q Hq) as (t & Hin & Ht).
  destruct (measure_ends max (request_sampleTime q) zero_DataPlaneResults (request_turns q) t)
    as [result Hm]; [done..|]. by exists [result], result.
Qed.
End requests.

(** * Example: two requests whose goroutines interleave *)

Definition passing_turns : list turn := [mkTurn 0 (inr (200, 5)); mkTurn 11 (inl "late")].
Definition failing_turns : list turn :=
  [mkTurn 0 (inr (200, 5)); mkTurn 4 (inl "refused"); mkTurn 7 (inr (503, 5)); mkTurn 11 (inl "late")].
Definition example_request (route : string) (turns : list turn) : request :=
  mkRequest route 15 10 turns.
Definition passing_result : DataPlaneResults := tally 100 [inr (200, 5)].
Definition failing_result : DataPlaneResults := tally 100 [inr (200, 5); inl "refused"; inr (503, 5)].

Lemma passing_sampled route : sampled 100 (example_request route passing_turns) [passing_result].
Proof. by exists passing_result. Qed.
Lemma failing_sampled route : sampled 100 (example_request route failing_turns) [failing_result].
Proof. by exists failing_result. Qed.

(** Both are at work, the first comes to its update before the second, and
    the second makes its update before the first. *)
Definition example_events (q1 q2 : request) (r : option ControlPlaneResults) : list request_event :=
  [ECall q1; ECall q2; EGo; EGo; EGo; EGo; EGo; EGo; EGo; EGo; EGo; EGo; EGo; EGo]
  ++ EWaited :: [] ++ [EResults r].

Lemma interleaved max slo q1 q2 d1 d2 :
  sampled max q1 [d1] → sampled max q2 [d2] →
  ∃ c, Request_run max slo new_Request
    (example_events q1 q2 (foldl (addResult slo) None [d2; d1])) c.
Proof.
  intros H1 H2. eexists. unfold example_events, Request_run. cbn [app].
  take (apply step_call).
  take (apply step_call).
  take (eapply (step_work _ _ _ 0); [reflexivity|exact H1]).
  take (eapply (step_work _ _ _ 1); [reflexivity|exact H2]).
  take (eapply (step_lock _ _ _ 1); reflexivity).
  take (eapply (step_load _ _ _ 1); reflexivity).
  take (eapply (step_store _ _ _ 1); reflexivity).
  take (eapply (step_unlock _ _ _ 1); reflexivity).
  take (eapply (step_lock _ _ _ 0); reflexivity).
  take (eapply (step_load _ _ _ 0); reflexivity).
  take (eapply (step_done _ _ _ 1); reflexivity).
  take (eapply (step_store _ _ _ 0); reflexivity).
  take (eapply (step_unlock _ _ _ 0); reflexivity).
  take (eapply (step_done _ _ _ 0); reflexivity).
  take (apply step_waited; reflexivity).
  take (refine (step_results _ _ (mkCollector _ _ _ _) _); reflexivity). apply run_nil.
Qed.

Definition example_collected : option ControlPlaneResults :=
  foldl (addResult example_slo) None [failing_result; passing_result].

Lemma Request_collects_witness :
  ∃ cp, example_collected = Some cp ∧
    collectorResults cp ≡ₚ [passing_result; failing_result] ∧
    (ControlPlane_SuccessPercentage cp).1 = fdiv (float64_of 1) (float64_of 2).
Proof.
  destruct (interleaved 100 example_slo _ _ _ _ (passing_sampled "host-0")
    (failing_sampled "host-1")) as [c Hrun].
  change (foldl _ _ _) with example_collected in Hrun.
  destruct (Request_collects 100 example_slo _ _ _ _ Hrun eq_refl) as (_ & Hperm & Hpct).
  eexists. split; [reflexivity|]. split; [exact Hperm|exact Hpct].
Defined.
