(* ===== verification/MappingCollector.v ===== *)
(** src/test/scale/internal/collector/route_mapper.go: the collector of the scale
    test as an instance of the design in [Collector]. *)
From S2P Require Import Prelude GoFloat Collector RouteMapper.
Local Open Scope Z_scope.

(** What a goroutine does to the counters: the updates of [MapRoute], and none
    when a cf command failed, since [GinkgoRecover] stops the panic before the
    deferred [waitGroup.Done()]. *)
Definition mapped (m : mapping) (us : list update) : Prop :=
  us = match MapRoute m with Ok us => us | _ => [] end.

(** The struct with the goroutines it started; calls, goroutines, [Wait] and the
    getters, each of which reads under the mutex. *)
Definition Mapper : Type := collector (R:=RouteMapper) (U:=update) (J:=mapping).
Definition mapper_event : Type := event (R:=RouteMapper) (J:=mapping).
Definition new_Mapper : Mapper := new_collector zero_RouteMapper.
Definition Mapper_step : Mapper → mapper_event → Mapper → Prop := step apply_update mapped.
Definition Mapper_run : Mapper → list mapper_event → Mapper → Prop := run apply_update mapped.

(** What each getter returns of the counters it reads. *)
Definition GetResults (r : RouteMapper) : list float64 := results r.
Definition GetFailures (r : RouteMapper) : Z := failures r.
Definition GetPostFailures (r : RouteMapper) : Z := postFailures r.

(** The mappings whose cf commands succeeded. *)
Definition ran (m : mapping) : bool := match MapRoute m with Ok _ => true | _ => false end.

Lemma MapRoute_ran m : ran m = true → MapRoute m = Ok (verdict (startTime m) (poll_all (initialFailure m) (polled m))).
Proof.
  unfold ran. destruct (MapRoute m) as [us|e|why] eqn:Hm; [|done..]. intros _.
  by rewrite (MapRoute_Ok _ _ Hm).
Qed.

(** The updates of all goroutines together, whether they ran or not. *)
Lemma mapped_counts ms uss :
  Forall2 mapped ms uss →
  count is_result (concat uss) = count (λ m, ran m && ever_ok (polled m)) ms ∧
  count is_failure (concat uss) = count (λ m, ran m && negb (ever_ok (polled m))) ms ∧
  count is_post_failure (concat uss)
    = count (λ m, ran m && ever_ok (polled m) && negb (ends_ok (polled m))) ms.
Proof.
  induction 1 as [|m us ms uss Hm _ (IHr & IHf & IHp)]; [done|].
  cbn [concat]. rewrite !count_app, !count_cons, IHr, IHf, IHp. unfold mapped in Hm.
  destruct (ran m) eqn:Hran.
  - rewrite (MapRoute_ran _ Hran) in Hm. subst us.
    destruct (verdict_counts (startTime m) (initialFailure m) (polled m)) as (-> & -> & ->).
    by destruct (ever_ok (polled m)), (ends_ok (polled m)).
  - unfold ran in Hran. destruct (MapRoute m); [done|by subst us..].
Qed.

(** C39: in every interleaving of the goroutines, once [Wait] has returned the
    getters count each mapping whose cf commands succeeded exactly once: as a
    failure when its route never became healthy, with a result otherwise, and
    as a post-failure when, besides, its last answer was not 200; a mapping
    whose cf command failed leaves no trace in the counters. *)
Theorem RouteMapper_counts es es2 r c
    (Hrun : Mapper_run new_Mapper (es ++ EWaited :: es2 ++ [EResults r]) c)
    (Hnone : called es2 = []) :
  let healthy m := ran m && ever_ok (polled m) in
  Z.of_nat (length (GetResults r)) = count healthy (called es) ∧
  GetFailures r = int64 (count (λ m, ran m && negb (ever_ok (polled m))) (called es)) ∧
  GetPostFailures r = int64 (count (λ m, healthy m && negb (ends_ok (polled m))) (called es)).
Proof.
  destruct (results_after_wait _ _ _ _ _ _ _ Hrun Hnone) as (log & uss & Huss & Hlog & ->).
  unfold GetResults, GetFailures, GetPostFailures. destruct (apply_updates log) as (-> & -> & ->).
  rewrite !(count_Permutation _ _ _ Hlog). by destruct (mapped_counts _ _ Huss) as (-> & -> & ->).
Qed.

(** Every goroutine comes to its updates: the retries and polls are bounded. *)
Lemma Mapper_Wait_returns es c :
  Mapper_run new_Mapper es c → ∃ n c', Mapper_run c (replicate n EGo) c' ∧ waitGroup c' = 0.
Proof.
  intros Hrun. destruct (reachable_invariant _ _ _ _ _ Hrun) as (log & made & Hinv).
  eapply group_drains; [exact Hinv|]. intros m _. by eexists.
Qed.

(** * Example: one route that became healthy, and one whose commands failed *)

Definition broken_mapping : mapping := mkMapping (λ _, Some 1) (λ _, Some 0) 1000 1001 (λ _, PollError).

Definition example_events (r : RouteMapper) : list mapper_event :=
  [ECall healthy_mapping; ECall broken_mapping; EGo; EGo; EGo; EGo; EGo; EGo; EGo; EGo]
  ++ EWaited :: [] ++ [EResults r].

Lemma mapper_run_example :
  ∃ c, Mapper_run new_Mapper (example_events (apply_update zero_RouteMapper (UResult (float64_of 4)))) c.
Proof.
  assert (mapped healthy_mapping [UResult (float64_of 4)]) as Hhealthy by (vm_compute; reflexivity).
  assert (mapped broken_mapping []) as Hbroken by (vm_compute; reflexivity).
  revert Hhealthy Hbroken. unfold example_events. generalize healthy_mapping, broken_mapping.
  generalize (UResult (float64_of 4)).
  intros u m1 m2 Hhealthy Hbroken. eexists. unfold Mapper_run. cbn [app].
  take (apply step_call). take (apply step_call).
  take (eapply (step_work _ _ _ 1); [reflexivity|exact Hbroken]).
  take (eapply (step_work _ _ _ 0); [reflexivity|exact Hhealthy]).
  take (eapply (step_lock _ _ _ 0); reflexivity).
  take (eapply (step_done _ _ _ 1); reflexivity).
  take (eapply (step_load _ _ _ 0); reflexivity).
  take (eapply (step_store _ _ _ 0); reflexivity).
  take (eapply (step_unlock _ _ _ 0); reflexivity).
  take (eapply (step_done _ _ _ 0); reflexivity).
  take (apply step_waited; reflexivity).
  take (refine (step_results _ _ (mkCollector _ _ _ _) _); reflexivity). apply run_nil.
Qed.

Lemma RouteMapper_counts_witness :
  ∃ r, Z.of_nat (length (GetResults r)) = 1 ∧ GetFailures r = 0 ∧ GetPostFailures r = 0.
Proof.
  destruct mapper_run_example as [c Hrun].
  destruct (RouteMapper_counts _ _ _ _ Hrun eq_refl) as (Hr & Hf & Hp).
  eexists. split_and!; [rewrite Hr|rewrite Hf|rewrite Hp]; vm_compute; reflexivity.
Defined.
