(* ===== verification/GoFlag.v ===== *)
(** Package flag of Go's standard library, as main.go uses it: the command
    line's flag set with its string and boolean flags, and [Parse]. *)
From S2P Require Import Prelude.
From Stdlib Require Import Ascii.
From Equations Require Import Equations.

(** * Flags *)

(** The variable a flag sets, with its present value. *)
Inductive Value : Type :=
  | StringValue (s : string)
  | BoolValue (b : bool).

#[export] Instance Value_eq_dec : EqDecision Value.
Proof. solve_decision. Defined.

(** The flags defined so far ([FlagSet.formal]). *)
Notation FlagSet := (gmap string Value).

(** [Var] panics when the flag is defined already. *)
Definition Var (name : string) (v : Value) (f : FlagSet) : option FlagSet :=
  match f !! name with
  | Some _ => None
  | None => Some (<[name := v]> f)
  end.

Definition StringVar (name value : string) := Var name (StringValue value).
Definition BoolVar (name : string) (value : bool) := Var name (BoolValue value).

(** strconv.ParseBool *)
Definition ParseBool (s : string) : option bool :=
  if bool_decide (s ∈ ["1"; "t"; "T"; "true"; "TRUE"; "True"]) then Some true
  else if bool_decide (s ∈ ["0"; "f"; "F"; "false"; "FALSE"; "False"]) then Some false
  else None.

(** [Value.Set] *)
Definition Value_Set (v : Value) (s : string) : option Value :=
  match v with
  | StringValue _ => Some (StringValue s)
  | BoolValue _ => BoolValue <$> ParseBool s
  end.

Definition IsBoolFlag (v : Value) : bool :=
  match v with BoolValue _ => true | StringValue _ => false end.

(** * Parsing *)

Inductive parse_error : Type :=
  | ErrHelp
  | bad_flag_syntax (s : string)
  | not_defined (name : string)
  | invalid_boolean (value name : string)
  | needs_an_argument (name : string).

(** What [parseOne] does: no flag left, a flag set, or an error. *)
Inductive parse_step : Type :=
  | Stop (args : list string)
  | Seen (f : FlagSet) (args : list string)
  | Failed (e : parse_error).

(** What precedes the first [=], and what follows it. *)
Fixpoint cut (s : string) : string * option string :=
  match s with
  | EmptyString => ("", None)
  | String c s' =>
      if Ascii.eqb c "=" then ("", Some s')
      else let '(name, value) := cut s' in (String c name, value)
  end.

(** The value of a flag that is no boolean: after [=] or the next argument. *)
Definition flag_argument (value : option string) (args : list string)
    : option (string * list string) :=
  match value, args with
  | Some v, _ => Some (v, args)
  | None, v :: args => Some (v, args)
  | None, [] => None
  end.

Definition set_flag (f : FlagSet) (name : string) (v : option Value) (args : list string)
    (e : parse_error) : parse_step :=
  match v with Some v => Seen (<[name := v]> f) args | None => Failed e end.

(** An argument without its dashes; [args] are the arguments after it. *)
Definition parse_flag (f : FlagSet) (s name : string) (args : list string) : parse_step :=
  match name with
  | EmptyString => Failed (bad_flag_syntax s)
  | String c _ =>
      if Ascii.eqb c "-" || Ascii.eqb c "=" then Failed (bad_flag_syntax s)
      else
        let '(name, value) := cut name in
        match f !! name with
        | None =>
            if String.eqb name "help" || String.eqb name "h" then Failed ErrHelp
            else Failed (not_defined name)
        | Some flag =>
            if IsBoolFlag flag then
              set_flag f name (Value_Set flag (default "true" value)) args
                (invalid_boolean (default "true" value) name)
            else
              match flag_argument value args with
              | None => Failed (needs_an_argument name)
              | Some (v, args) => set_flag f name (Value_Set flag v) args (invalid_boolean v name)
              end
        end
  end.

Definition parseOne (f : FlagSet) (args : list string) : parse_step :=
  match args with
  | [] => Stop []
  | s :: rest =>
      match s with
      | String d (String c name) =>
          if negb (Ascii.eqb d "-") then Stop args
          else if Ascii.eqb c "-" then
            if String.eqb name "" then Stop rest else parse_flag f s name rest
          else parse_flag f s (String c name) rest
      | _ => Stop args
      end
  end.

Definition args_left (st : parse_step) : option (list string) :=
  match st with Seen _ args => Some args | _ => None end.

Lemma parse_flag_shorter f s name args f' args' :
  parse_flag f s name args = Seen f' args' → length args' ≤ length args.
Proof.
  unfold parse_flag, set_flag, flag_argument. destruct name as [|c name]; [done|].
  destruct (_ || _); [done|]. destruct (cut _) as [n v].
  destruct (f !! n) as [flag|]; [|by destruct (_ || _)].
  destruct (IsBoolFlag flag); [by destruct (Value_Set _ _); intros [= <- <-]|].
  destruct v as [v|], args as [|a args]; cbn [length]; try done;
    destruct (Value_Set _ _); intros [= <- <-]; cbn [length]; lia.
Qed.

Lemma parseOne_consumes f args f' args' :
  parseOne f args = Seen f' args' → length args' < length args.
Proof.
  unfold parseOne. destruct args as [|s rest]; [done|].
  destruct s as [|d [|c name]]; [done..|]. cbn [length].
  destruct (negb _); [done|]. destruct (Ascii.eqb c _); [destruct (String.eqb _ _); [done|]|];
    intros ?%parse_flag_shorter; lia.
Qed.

Definition parsed : Type := (FlagSet * list string) + parse_error.

Definition inspect {A} (x : A) : {y : A | x = y} := exist _ x eq_refl.

(** [FlagSet.Parse]: the flags with their values and the arguments left. *)
Equations Parse (f : FlagSet) (args : list string) : parsed by wf (length args) lt :=
  Parse f args with inspect (parseOne f args) := {
    | exist _ (Stop rest) _ => inl (f, rest)
    | exist _ (Failed e) _ => inr e
    | exist _ (Seen f' args') Hstep => Parse f' args' }.
Next Obligation. intros. by eapply parseOne_consumes. Defined.

(** What [Parse] does, one argument after the other. *)
Lemma Parse_parseOne f args :
  Parse f args =
  match parseOne f args with
  | Stop rest => inl (f, rest)
  | Failed e => inr e
  | Seen f' args' => Parse f' args'
  end.
Proof. rewrite Parse_equation_1. cbn. by destruct (parseOne f args). Qed.

(** * Command lines *)

(** The ways to set a flag, with one dash or two. *)
Inductive setting : Type :=
  | equals (two : bool) (name value : string)
  | spaced (two : bool) (name value : string)
  | bare (two : bool) (name : string).

Definition dashed (two : bool) (s : string) : string :=
  String "-" (if two then String "-" s else s).

(** The arguments a setting is written as. *)
Definition render (st : setting) : list string :=
  match st with
  | equals two name value => [dashed two (name +:+ "=" +:+ value)]
  | spaced two name value => [dashed two name; value]
  | bare two name => [dashed two name]
  end.

Definition setting_name (st : setting) : string :=
  match st with equals _ name _ | spaced _ name _ | bare _ name => name end.
Definition setting_value (st : setting) : string :=
  match st with equals _ _ value | spaced _ _ value => value | bare _ _ => "true" end.

(** A name that the syntax allows. *)
Definition flag_name (name : string) : bool :=
  match name with
  | EmptyString => false
  | String c _ => negb (Ascii.eqb c "-" || Ascii.eqb c "=") && bool_decide (cut name = (name, None))
  end.

(** The value a setting gives to a flag, when it is one that the flag takes: a
    boolean flag does not read the next argument, the others need a value. *)
Definition set_by (v : Value) (st : setting) : option Value :=
  match v, st with
  | BoolValue _, spaced _ _ _ | StringValue _, bare _ _ => None
  | _, _ => Value_Set v (setting_value st)
  end.

Definition setting_result (f : FlagSet) (st : setting) : option Value :=
  if flag_name (setting_name st) then f !! setting_name st ≫= λ v, set_by v st else None.

Definition apply_setting (f : FlagSet) (st : setting) : FlagSet :=
  match setting_result f st with Some v => <[setting_name st := v]> f | None => f end.

Lemma cut_equals name value :
  cut name = (name, None) → cut (name +:+ "=" +:+ value) = (name, Some value).
Proof.
  change ("=" +:+ value) with (String "=" value).
  induction name as [|c name IH]; [done|]. cbn [cut]. destruct (Ascii.eqb c "=") eqn:Hc; [done|].
  destruct (cut name) as [n v]. intros [= -> ->].
  change (String c name +:+ String "=" value) with (String c (name +:+ String "=" value)).
  cbn [cut]. by rewrite Hc, IH.
Qed.

Lemma parseOne_dashed f two c name args :
  Ascii.eqb c "-" || Ascii.eqb c "=" = false →
  parseOne f (dashed two (String c name) :: args) =
  parse_flag f (dashed two (String c name)) (String c name) args.
Proof. intros [Hc _]%orb_false_iff. destruct two; cbn; [done|]. by rewrite Hc. Qed.

Lemma parseOne_setting f st args :
  is_Some (setting_result f st) → parseOne f (render st ++ args) = Seen (apply_setting f st) args.
Proof.
  unfold apply_setting, setting_result. intros [v Hv].
  destruct (flag_name (setting_name st)) eqn:Hname; [|done]. rewrite Hv.
  unfold flag_name in Hname. destruct (setting_name st) as [|c n] eqn:Hst; [done|].
  apply andb_true_iff in Hname as [Hc%negb_true_iff Hcut%bool_decide_eq_true].
  destruct st as [two name value|two name value|two name]; cbn in Hst; subst name;
    cbn [render app setting_value] in *;
    [change (String c n +:+ "=" +:+ value) with (String c (n +:+ "=" +:+ value))|..];
    rewrite parseOne_dashed by done; unfold parse_flag; rewrite Hc;
    [change (String c (n +:+ "=" +:+ value)) with (String c n +:+ "=" +:+ value);
     rewrite (cut_equals _ _ Hcut)|rewrite Hcut..];
    destruct (f !! String c n) as [[s|b]|]; cbn in Hv |- *; try done;
    unfold set_flag; by simplify_option_eq.
Qed.

Lemma set_by_kind v st w : set_by v st = Some w → IsBoolFlag w = IsBoolFlag v.
Proof.
  destruct v as [s|b], st as [? ? x|? ? x|]; cbn; try done;
    [by intros [= <-].. | |by intros [= <-]]. by destruct (ParseBool x); intros [= <-].
Qed.

Lemma set_by_ext v w st : IsBoolFlag w = IsBoolFlag v → set_by w st = set_by v st.
Proof. by destruct v, w. Qed.

Lemma apply_setting_result f st st' :
  setting_result (apply_setting f st) st' = setting_result f st'.
Proof.
  unfold apply_setting. destruct (setting_result f st) as [v|] eqn:Hv; [|done].
  unfold setting_result in *. destruct (flag_name (setting_name st')); [|done].
  destruct (flag_name (setting_name st)); [|done].
  destruct (decide (setting_name st = setting_name st')) as [<-|Hne];
    [rewrite lookup_insert_eq|by rewrite lookup_insert_ne].
  destruct (f !! setting_name st) as [w|]; [|done]. cbn in *.
  apply set_by_ext. by eapply set_by_kind.
Qed.

(** A command line written from settings gives the flags their last values and
    leaves what follows the flags. *)
Lemma Parse_settings f sts rest :
  Forall (λ st, is_Some (setting_result f st)) sts →
  Parse f ((sts ≫= render) ++ rest) = Parse (foldl apply_setting f sts) rest.
Proof.
  revert f. induction sts as [|st sts IH]; intros f Hf; [done|].
  apply Forall_cons in Hf as [Hst Hsts]. cbn [mbind list_bind foldl].
  rewrite <- app_assoc, Parse_parseOne, parseOne_setting by done. apply IH.
  eapply Forall_impl; [exact Hsts|]. intros st'. by rewrite apply_setting_result.
Qed.

(** The value of the last setting of a flag. *)
Definition last_value (name : string) (sts : list setting) : option string :=
  last (setting_value <$> filter (λ st, setting_name st = name) sts).

Lemma last_value_cons name st sts :
  last_value name (st :: sts) =
  match last_value name sts with
  | Some v => Some v
  | None => if decide (setting_name st = name) then Some (setting_value st) else None
  end.
Proof.
  unfold last_value. rewrite filter_cons. case_decide; [|by destruct (last _)].
  rewrite fmap_cons, last_cons. done.
Qed.

Lemma apply_setting_lookup f st name v :
  f !! name = Some v → is_Some (setting_result f st) →
  apply_setting f st !! name =
  if decide (setting_name st = name) then Value_Set v (setting_value st) else Some v.
Proof.
  intros Hv [w Hw]. unfold apply_setting. rewrite Hw. unfold setting_result in Hw.
  destruct (flag_name _); [|done]. case_decide as Hn.
  - subst name. rewrite lookup_insert_eq. rewrite Hv in Hw. cbn in Hw. rewrite <- Hw.
    by destruct v, st.
  - by rewrite lookup_insert_ne.
Qed.

(** After the settings a flag holds the value of the last one that names it. *)
Lemma settings_lookup f sts name v :
  f !! name = Some v → Forall (λ st, is_Some (setting_result f st)) sts →
  foldl apply_setting f sts !! name =
  match last_value name sts with Some s => Value_Set v s | None => Some v end.
Proof.
  revert f v. induction sts as [|st sts IH]; intros f v Hv Hf; [done|].
  apply Forall_cons in Hf as [Hst Hsts]. cbn [foldl]. rewrite last_value_cons.
  pose proof (apply_setting_lookup f st name v Hv Hst) as Happ.
  assert (Forall (λ st', is_Some (setting_result (apply_setting f st) st')) sts) as Hsts'.
  { eapply Forall_impl; [exact Hsts|]. intros st'. by rewrite apply_setting_result. }
  case_decide as Hn; [|by rewrite (IH _ _ Happ Hsts'); destruct (last_value _ _)].
  assert (∃ w, Value_Set v (setting_value st) = Some w ∧ ∀ s, Value_Set w s = Value_Set v s) as (w & Hw & Hws).
  { subst name. destruct Hst as [w Hw]. unfold setting_result in Hw.
    destruct (flag_name _); [|done]. rewrite Hv in Hw. cbn in Hw. exists w.
    assert (Value_Set v (setting_value st) = Some w) as Hset by (by destruct v, st).
    split; [done|]. apply set_by_kind in Hw. by destruct v, w. }
  rewrite Hw in Happ. rewrite (IH _ _ Happ Hsts').
  by destruct (last_value name sts).
Qed.
