(* ===== verification/Main.v ===== *)
(** src/routecontroller/main.go, [SetupWithManager] of
    controllers/networking/route_controller.go and the registration of the API
    types: how the controller starts.

    controller-runtime is not part of the repository: a program is a sequence of
    calls to it, each of which may reply with any error, and the theorems hold
    whatever the replies are.  Log calls are left out. *)
From S2P Require Import Prelude Api RouteController GoTime Cfg GoFlag.

(** * Calls to controller-runtime *)

(** controller-runtime's scheme.Builder: the group version, and the Go types
    registered with it. *)
Record Builder := mkBuilder { Builder_GroupVersion : GroupVersion; Builder_types : list string }.
Definition Register (b : Builder) (types : list string) : Builder :=
  mkBuilder (Builder_GroupVersion b) (Builder_types b ++ types).

(** [SchemeBuilder] of the two API packages, as it is declared and after their
    [init]. *)
Definition v1alpha1_new_SchemeBuilder : Builder := mkBuilder v1alpha1_GroupVersion [].
Definition v1alpha3_new_SchemeBuilder : Builder := mkBuilder v1alpha3_GroupVersion [].
Definition v1alpha1_SchemeBuilder : Builder :=
  Register v1alpha1_new_SchemeBuilder ["Route"; "RouteList"].
Definition v1alpha3_SchemeBuilder : Builder :=
  Register v1alpha3_new_SchemeBuilder ["VirtualService"; "VirtualServiceList"].

(** client-go's own types, or those of a builder. *)
Inductive scheme_types : Type :=
  | clientgoscheme
  | builder_types (b : Builder).

(** A client.Object, by its dynamic type. *)
Inductive Object : Type :=
  | Route_Object (route : Route)
  | Service_Object (service : Service)
  | VirtualService_Object (vs : VirtualService).

Inductive kind : Type := Kind_Route | Kind_Service | Kind_VirtualService.
Definition kind_of (o : Object) : kind :=
  match o with
  | Route_Object _ => Kind_Route
  | Service_Object _ => Kind_Service
  | VirtualService_Object _ => Kind_VirtualService
  end.

(** The fields of ctrl.Options that main sets, but for the scheme. *)
Record Options := mkOptions {
  MetricsBindAddress : string;
  LeaderElection : bool;
  LeaderElectionID : string;
  Options_LeaderElectionNamespace : string;
  Options_Port : Z;
}.

(** [IndexField] and [For] are given an empty object of a type. *)
Inductive manager_call : Type :=
  | AddToScheme (types : scheme_types)
  | GetConfig
  | NewManager (options : Options)
  | IndexField (obj : kind) (field : string) (extractValue : Object → outcome (list string))
  | Complete (for_ : kind) (r : RouteReconciler)
  | Start.

(** How a program ends: it returns, exits with a code, or panics. *)
Inductive ending (A : Type) : Type :=
  | Returned (x : A)
  | Exited (code : Z)
  | Panicked (why : string).
Arguments Returned {A} x.
Arguments Exited {A} code.
Arguments Panicked {A} why.

Inductive setup (A : Type) : Type :=
  | End (e : ending A)
  | Call (c : manager_call) (k : option error → setup A).
Arguments End {A} e.
Arguments Call {A} c k.

#[export] Instance setup_ret : MRet setup := λ A x, End (Returned x).
Fixpoint setup_bind_def {A B} (f : A → setup B) (p : setup A) : setup B :=
  match p with
  | End (Returned x) => f x
  | End (Exited code) => End (Exited code)
  | End (Panicked why) => End (Panicked why)
  | Call c k => Call c (λ e, setup_bind_def f (k e))
  end.
#[export] Instance setup_bind : MBind setup := @setup_bind_def.

(** The error a call replies with. *)
Definition ask (c : manager_call) : setup (option error) := Call c mret.

(** os.Exit *)
Definition Exit {A} (code : Z) : setup A := End (Exited code).

(** [if err != nil { os.Exit(1) }] *)
Definition or_exit (err : option error) : setup unit :=
  match err with Some _ => Exit 1 | None => mret tt end.

(** * The program *)

(** [AddToScheme] of the two API packages: the method of their builder. *)
Definition v1alpha1_AddToScheme : setup (option error) :=
  ask (AddToScheme (builder_types v1alpha1_SchemeBuilder)).
Definition v1alpha3_AddToScheme : setup (option error) :=
  ask (AddToScheme (builder_types v1alpha3_SchemeBuilder)).

(** [init] of package main discards the errors. *)
Definition init : setup unit :=
  _ ← ask (AddToScheme clientgoscheme);
  _ ← v1alpha1_AddToScheme;
  _ ← v1alpha3_AddToScheme;
  mret tt.

(** The functions given to [IndexField]: a failed type assertion panics. *)
Definition extract_fqdn (rawObj : Object) : outcome (list string) :=
  match rawObj with
  | Route_Object route => Ok (fqdnIndex route)
  | _ => Panic "interface conversion: client.Object is not *v1alpha1.Route"
  end.
Definition extract_owner (rawObj : Object) : outcome (list string) :=
  match rawObj with
  | Service_Object service => Ok (serviceOwnerIndex service)
  | _ => Panic "interface conversion: client.Object is not *v1.Service"
  end.

Definition SetupWithManager (r : RouteReconciler) : setup (option error) :=
  err ← ask (IndexField Kind_Route fqdnFieldKey extract_fqdn);
  match err with
  | Some e => mret (Some e)
  | None =>
      err ← ask (IndexField Kind_Service serviceOwnerKey extract_owner);
      match err with
      | Some e => mret (Some e)
      | None => ask (Complete Kind_Route r)
      end
  end.

(** The flags of main, next to those that the imported packages define. *)
Definition main_flags (imported : FlagSet) : option FlagSet :=
  f ← StringVar "metrics-addr" ":8080" imported;
  BoolVar "enable-leader-election" false f.

Definition string_flag (f : FlagSet) (name : string) : string :=
  match f !! name with Some (StringValue s) => s | _ => "" end.
Definition bool_flag (f : FlagSet) (name : string) : bool :=
  match f !! name with Some (BoolValue b) => b | _ => false end.

(** flag.Parse of the command line ends the program on an error. *)
Definition parse_command_line (f : FlagSet) (args : list string) : setup FlagSet :=
  match Parse f args with
  | inl (f, _) => mret f
  | inr ErrHelp => Exit 0
  | inr _ => Exit 2
  end.

Definition manager_options (flags : FlagSet) (config : Config) : Options :=
  mkOptions (string_flag flags "metrics-addr") (bool_flag flags "enable-leader-election")
    "cf-k8s-networking-routecontroller" (LeaderElectionNamespace config) 9443.

Definition main_reconciler (config : Config) : RouteReconciler :=
  mkRouteReconciler (Istio_Gateway config) (Cfg_ResyncInterval config).

(** [main], with the command line's arguments and the environment. *)
Definition main (imported : FlagSet) (args : list string) (env : gmap string string) : setup unit :=
  match main_flags imported with
  | None => End (Panicked "flag redefined")
  | Some f =>
      flags ← parse_command_line f args;
      match Load env with
      | Err _ => Exit 1
      | Panic why => End (Panicked why)
      | Ok config =>
          _ ← ask GetConfig ≫= or_exit;
          _ ← ask (NewManager (manager_options flags config)) ≫= or_exit;
          _ ← SetupWithManager (main_reconciler config) ≫= or_exit;
          ask Start ≫= or_exit
      end
  end.

(** The process: package main is initialized, then main runs. *)
Definition program (imported : FlagSet) (args : list string) (env : gmap string string)
    : setup unit := _ ← init; main imported args env.

(** * Behaviours *)

(** The calls a program makes, with the errors they reply, and its ending. *)
Notation trace := (list (manager_call * option error)).

Fixpoint behaves {A} (p : setup A) (t : trace) (res : ending A) : Prop :=
  match p with
  | End e => t = [] ∧ res = e
  | Call c k => ∃ e t', t = (c, e) :: t' ∧ behaves (k e) t' res
  end.

(** Calls made in order until one fails; that one ends the program. *)
Inductive until_error : list manager_call → trace → ending unit → Prop :=
  | all_succeeded : until_error [] [] (Returned tt)
  | call_failed c cs e : until_error (c :: cs) [(c, Some e)] (Exited 1)
  | call_succeeded c cs t res :
      until_error cs t res → until_error (c :: cs) ((c, None) :: t) res.

(** The calls of a start that succeeds. *)
Definition startup (options : Options) (r : RouteReconciler) : list manager_call :=
  [GetConfig; NewManager options; IndexField Kind_Route fqdnFieldKey extract_fqdn;
   IndexField Kind_Service serviceOwnerKey extract_owner; Complete Kind_Route r; Start].

(** What the process does after its initialization. *)
Definition started (imported : FlagSet) (args : list string) (env : gmap string string)
    (t : trace) (res : ending unit) : Prop :=
  match main_flags imported with
  | None => t = [] ∧ res = Panicked "flag redefined"
  | Some f =>
      match Parse f args, Load env with
      | inr ErrHelp, _ => t = [] ∧ res = Exited 0
      | inr _, _ => t = [] ∧ res = Exited 2
      | inl (flags, _), Ok config =>
          until_error (startup (manager_options flags config) (main_reconciler config)) t res
      | inl _, _ => t = [] ∧ res = Exited 1
      end
  end.

Lemma behaves_End {A} (e : ending A) t res : behaves (End e) t res ↔ t = [] ∧ res = e.
Proof. done. Qed.

Lemma behaves_until c k cs :
  (∀ e t res, behaves (k (Some e)) t res ↔ t = [] ∧ res = Exited 1) →
  (∀ t res, behaves (k None) t res ↔ until_error cs t res) →
  ∀ t res, behaves (Call c k) t res ↔ until_error (c :: cs) t res.
Proof.
  intros Hsome Hnone t res. cbn. split.
  - intros ([e|] & t' & -> & Hb).
    + apply Hsome in Hb as [-> ->]. apply call_failed.
    + apply call_succeeded. by apply Hnone.
  - inversion 1; subst; eexists _, _; (split; [done|]); [by apply Hsome | by apply Hnone].
Qed.

Lemma Load_not_panics env : ¬ panics (Load env).
Proof.
  intros [why Hw]. unfold Load in Hw. by repeat case_match.
Qed.

Lemma main_started imported args env t res :
  behaves (main imported args env) t res ↔ started imported args env t res.
Proof.
  unfold main, started, parse_command_line. destruct (main_flags imported) as [f|]; [|done].
  destruct (Parse f args) as [[flags rest]|[]]; try done. cbn.
  destruct (Load env) as [config|e|why] eqn:Hload; [|done|].
  - revert t res. unfold startup.
    do 6 (refine (behaves_until _ _ _ _ _); [done|]).
    intros t res. split; [intros [-> ->]; apply all_succeeded | by inversion 1].
  - exfalso. apply (Load_not_panics env). by eexists.
Qed.

(** C17: starting the controller, whatever controller-runtime replies. The types
    are registered first, and errors of that are ignored; a malformed command
    line ends the process with code 2 (0 for help) and an invalid environment
    with code 1, before anything is set up; otherwise the calls of the start
    are made in order, the first that fails ends the process with code 1 and
    is the last, and the process returns only if none failed. *)
Theorem program_behaviour imported args env t res :
  behaves (program imported args env) t res ↔
  ∃ e1 e2 e3 t',
    t = (AddToScheme clientgoscheme, e1)
        :: (AddToScheme (builder_types v1alpha1_SchemeBuilder), e2)
        :: (AddToScheme (builder_types v1alpha3_SchemeBuilder), e3) :: t' ∧
    started imported args env t' res.
Proof.
  split.
  - intros (e1 & t1 & -> & e2 & t2 & -> & e3 & t3 & -> & Hb).
    eexists _, _, _, _. split; [done|]. by apply main_started.
  - intros (e1 & e2 & e3 & t' & -> & Hs%main_started).
    do 3 (eexists _, _; split; [done|]). exact Hs.
Qed.

(** * Consequences *)

Lemma until_error_elem cs t res c e : until_error cs t res → (c, e) ∈ t → c ∈ cs.
Proof.
  induction 1 as [|c' cs e'|c' cs t res _ IH]; intros Hin; [by apply not_elem_of_nil in Hin|..];
    apply elem_of_cons in Hin as [[= -> ?]|Hin]; try by left.
  - by apply not_elem_of_nil in Hin.
  - right. auto.
Qed.

(** A call that was made comes after all those before it, which succeeded. *)
Lemma until_error_last cs c t res e :
  until_error (cs ++ [c]) t res → c ∉ cs → (c, e) ∈ t → t = ((., None) <$> cs) ++ [(c, e)].
Proof.
  revert t. induction cs as [|c' cs IH]; intros t Hu Hc Hin; cbn in *.
  - inversion Hu as [|? ? e'|? ? t' ? Hu']; subst; [|inversion Hu'; subst];
      by apply list_elem_of_singleton in Hin as [= ->].
  - apply not_elem_of_cons in Hc as [Hne Hc]. inversion Hu as [|? ? e'|? ? t' ? Hu']; subst.
    + by apply list_elem_of_singleton in Hin as [= ->].
    + apply elem_of_cons in Hin as [[= ->]|Hin]; [done|]. f_equal. by apply IH.
Qed.

Definition is_AddToScheme (c : manager_call) : bool :=
  match c with AddToScheme _ => true | _ => false end.

(** A call that main makes itself, and not the initialization. *)
Lemma program_called imported args env t res c e :
  behaves (program imported args env) t res → (c, e) ∈ t → is_AddToScheme c = false →
  ∃ f flags rest config pre t',
    main_flags imported = Some f ∧ Parse f args = inl (flags, rest) ∧ Load env = Ok config ∧
    t = pre ++ t' ∧ Forall (λ x, is_AddToScheme x.1 = true) pre ∧ (c, e) ∈ t' ∧
    until_error (startup (manager_options flags config) (main_reconciler config)) t' res.
Proof.
  intros (e1 & t1 & -> & e2 & t2 & -> & e3 & t3 & -> & Hs%main_started) Hin Hc.
  do 3 (apply elem_of_cons in Hin as [[= -> _]|Hin]; [done|]).
  unfold started in Hs. destruct (main_flags imported) as [f|] eqn:Hf;
    [|by destruct Hs as [-> _]; apply not_elem_of_nil in Hin].
  destruct (Parse f args) as [[flags rest]|[]] eqn:Hp;
    try by destruct Hs as [-> _]; apply not_elem_of_nil in Hin.
  destruct (Load env) as [config|e'|why] eqn:Hl;
    try by destruct Hs as [-> _]; apply not_elem_of_nil in Hin.
  exists f, flags, rest, config, [(AddToScheme clientgoscheme, e1);
    (AddToScheme (builder_types v1alpha1_SchemeBuilder), e2);
    (AddToScheme (builder_types v1alpha3_SchemeBuilder), e3)], t3.
  split_and!; try done. by repeat constructor.
Qed.

Lemma Load_values env c :
  Load env = Ok c →
  env !! "ISTIO_GATEWAY_NAME" = Some (Istio_Gateway c) ∧
  env !! "LEADER_ELECTION_NAMESPACE" = Some (LeaderElectionNamespace c) ∧
  Cfg_ResyncInterval c = match env !! "RESYNC_INTERVAL" with
                         | None => (30 * Second)%Z
                         | Some v => default 0%Z (ParseDuration (v +:+ "s"))
                         end.
Proof.
  destruct (Load_cases env) as [(_ & ->)|[(_ & _ & ->)|(g & n & Hg & Hn & ->)]]; [done..|].
  rewrite Hg, Hn. destruct (env !! "RESYNC_INTERVAL") as [v|]; cbn; [|by intros [= <-]].
  destruct (ParseDuration _) as [d|]; by intros [= <-].
Qed.

(** C18: the manager is started only after it was given what the reconciler
    relies on: the index of Routes by FQDN and the index of Services by owner,
    on which the queries of Reconcile run, and the reconciler with the gateway
    and the resync interval of the environment, after which nothing else is
    registered; leader election uses the namespace of the environment. *)
Theorem start_configured imported args env t res e
    (Hb : behaves (program imported args env) t res) (Hin : (Start, e) ∈ t) :
  ∃ pre options r,
    t = pre ++ [(NewManager options, None);
                (IndexField Kind_Route fqdnFieldKey extract_fqdn, None);
                (IndexField Kind_Service serviceOwnerKey extract_owner, None);
                (Complete Kind_Route r, None); (Start, e)] ∧
    (∀ e', (Start, e') ∉ pre) ∧
    env !! "ISTIO_GATEWAY_NAME" = Some (IstioGateway r) ∧
    env !! "LEADER_ELECTION_NAMESPACE" = Some (Options_LeaderElectionNamespace options) ∧
    ResyncInterval r = match env !! "RESYNC_INTERVAL" with
                       | None => (30 * Second)%Z
                       | Some v => default 0%Z (ParseDuration (v +:+ "s"))
                       end.
Proof.
  destruct (program_called _ _ _ _ _ _ _ Hb Hin eq_refl)
    as (f & flags & rest & config & pre & t' & _ & _ & Hl & -> & Hpre & Hin' & Hu).
  exists (pre ++ [(GetConfig, None)]), (manager_options flags config), (main_reconciler config).
  destruct (Load_values env config Hl) as (Hg & Hn & Hr). rewrite <- app_assoc. split_and!.
  - f_equal. apply (until_error_last [_; _; _; _; _] Start t' res e Hu); [|done].
    rewrite !not_elem_of_cons. repeat split; try done. apply not_elem_of_nil.
  - intros e' [Hin''|[= ]%list_elem_of_singleton]%elem_of_app.
    rewrite Forall_forall in Hpre. by specialize (Hpre _ Hin'').
  - exact Hg.
  - exact Hn.
  - exact Hr.
Qed.

(** No flag follows: the end of the line, or an argument without a dash. *)
Definition operands (rest : list string) : Prop := ∀ f, parseOne f rest = Stop rest.

Lemma main_flags_Some imported f :
  main_flags imported = Some f →
  f !! "metrics-addr" = Some (StringValue ":8080") ∧
  f !! "enable-leader-election" = Some (BoolValue false).
Proof.
  unfold main_flags, StringVar, BoolVar, Var. destruct (imported !! _); [done|]. cbn.
  destruct (_ !! "enable-leader-election"); [done|]. intros [= <-].
  split; [by rewrite lookup_insert_ne, lookup_insert_eq|by rewrite lookup_insert_eq].
Qed.

(** C23: the command line and the options of the manager: written in any of the
    forms the flag package takes, in any order and any number of times, each
    flag of main gets the value of its last setting, or keeps its default. *)
Theorem command_line imported f sts rest env t res options e
    (Hflags : main_flags imported = Some f)
    (Hsts : Forall (λ st, is_Some (setting_result f st)) sts) (Hrest : operands rest)
    (Hb : behaves (program imported ((sts ≫= render) ++ rest) env) t res)
    (Hin : (NewManager options, e) ∈ t) :
  MetricsBindAddress options = default ":8080" (last_value "metrics-addr" sts) ∧
  LeaderElection options = default false (last_value "enable-leader-election" sts ≫= ParseBool) ∧
  LeaderElectionID options = "cf-k8s-networking-routecontroller" ∧ Options_Port options = 9443%Z.
Proof.
  destruct (program_called _ _ _ _ _ _ _ Hb Hin eq_refl)
    as (f' & flags & rest' & config & pre & t' & Hf' & Hp & _ & _ & _ & Hin' & Hu).
  rewrite Hflags in Hf'. injection Hf' as <-.
  rewrite Parse_settings, Parse_parseOne, (Hrest _) in Hp by done. injection Hp as <- <-.
  destruct (main_flags_Some _ _ Hflags) as [Hm Hl].
  apply (settings_lookup _ _ _ _ Hm) in Hsts as Hm'. apply (settings_lookup _ _ _ _ Hl) in Hsts as Hl'.
  assert (options = manager_options (foldl apply_setting f sts) config) as ->.
  { apply (until_error_elem _ _ _ _ _ Hu) in Hin'. unfold startup in Hin'.
    rewrite !elem_of_cons in Hin'.
    by destruct Hin' as [[=]|[[= ->]|[[=]|[[=]|[[=]|[[=]|?%not_elem_of_nil]]]]]]. }
  unfold manager_options, string_flag, bool_flag. cbn. rewrite Hm', Hl'.
  split_and!; [by destruct (last_value _ _)| |done..].
  destruct (last_value "enable-leader-election" sts) as [s|]; [cbn|done].
  destruct (ParseBool s); done.
Qed.

(** * Running *)

(** The behaviour of a program when each call replies by a function. *)
Fixpoint run_setup {A} (reply : manager_call → option error) (p : setup A) : trace * ending A :=
  match p with
  | End e => ([], e)
  | Call c k => let '(t, e) := run_setup reply (k (reply c)) in ((c, reply c) :: t, e)
  end.

Lemma run_setup_behaves {A} reply (p : setup A) :
  behaves p (run_setup reply p).1 (run_setup reply p).2.
Proof.
  induction p as [e|c k IH]; [done|]. cbn. specialize (IH (reply c)).
  destruct (run_setup reply (k (reply c))) as [t e]. eexists _, _. split; [done|exact IH].
Qed.

(** The controller as it is deployed, next to controller-runtime's own flag. *)
Definition example_imported : FlagSet := {[ "kubeconfig" := StringValue "" ]}.
Definition example_env : gmap string string := with_resync "15".
Definition no_error (c : manager_call) : option error := None.
Definition taken_port (c : manager_call) : option error :=
  match c with NewManager _ => Some (errors_New "address already in use") | _ => None end.

Definition example_settings : list setting :=
  [bare true "enable-leader-election"; spaced false "metrics-addr" "127.0.0.1:8080";
   equals true "metrics-addr" ":9090"].

Definition example_run (args : list string) (reply : manager_call → option error) :=
  run_setup reply (program example_imported args example_env).

Definition call_name (c : manager_call) : string :=
  match c with
  | AddToScheme _ => "AddToScheme"
  | GetConfig => "GetConfig"
  | NewManager _ => "NewManager"
  | IndexField _ field _ => "IndexField " +:+ field
  | Complete _ _ => "Complete"
  | Start => "Start"
  end.

Example example_starts :
  (call_name ∘ fst <$> (example_run ["--enable-leader-election=true"] no_error).1,
   (example_run ["--enable-leader-election=true"] no_error).2) =
  (["AddToScheme"; "AddToScheme"; "AddToScheme"; "GetConfig"; "NewManager";
    "IndexField spec.fqdn"; "IndexField spec.owner"; "Complete"; "Start"], Returned tt).
Proof. vm_compute. reflexivity. Qed.

Example example_fails :
  (call_name ∘ fst <$> (example_run [] taken_port).1, (example_run [] taken_port).2) =
  (["AddToScheme"; "AddToScheme"; "AddToScheme"; "GetConfig"; "NewManager"], Exited 1).
Proof. vm_compute. reflexivity. Qed.

(** A boolean flag does not take the next argument: it is set, and the parsing
    ends there. *)
Example boolean_argument :
  (Parse (default ∅ (main_flags example_imported)) ["-enable-leader-election"; "false"; "-metrics-addr"; "x"])
  = inl (<["enable-leader-election" := BoolValue true]> (default ∅ (main_flags example_imported)),
         ["false"; "-metrics-addr"; "x"]).
Proof. vm_compute. reflexivity. Qed.

Lemma start_configured_witness :
  ∃ pre options r,
    (example_run [] no_error).1 = pre ++
      [(NewManager options, None); (IndexField Kind_Route fqdnFieldKey extract_fqdn, None);
       (IndexField Kind_Service serviceOwnerKey extract_owner, None);
       (Complete Kind_Route r, None); (Start, None)] ∧
    IstioGateway r = "istio-ingress" ∧ ResyncInterval r = (15 * Second)%Z.
Proof.
  destruct (start_configured example_imported [] example_env (example_run [] no_error).1
    (example_run [] no_error).2 None) as (pre & options & r & Ht & _ & Hg & _ & Hr).
  - apply run_setup_behaves.
  - apply (list_elem_of_lookup_2 _ 8). vm_compute. reflexivity.
  - exists pre, options, r. split; [exact Ht|]. split.
    + injection Hg as Hg. exact (eq_sym Hg).
    + rewrite Hr. vm_compute. reflexivity.
Defined.

Definition example_flags : FlagSet := default ∅ (main_flags example_imported).
Definition example_options : Options :=
  manager_options (foldl apply_setting example_flags example_settings)
    (mkConfig (15 * Second) "istio-ingress" "cf-system").

Lemma command_line_witness :
  MetricsBindAddress example_options = ":9090" ∧ LeaderElection example_options = true.
Proof.
  destruct (command_line example_imported example_flags example_settings [] example_env
    (example_run ((example_settings ≫= render) ++ []) no_error).1
    (example_run ((example_settings ≫= render) ++ []) no_error).2 example_options None)
    as (Hm & Hl & _).
  - vm_compute. reflexivity.
  - repeat constructor; eexists; vm_compute; reflexivity.
  - intros f. reflexivity.
  - apply run_setup_behaves.
  - apply (list_elem_of_lookup_2 _ 4). vm_compute. reflexivity.
  - split; [exact Hm|exact Hl].
Defined.
