(* ===== verification/ExitMatcher.v ===== *)
(** src/routecontroller/stress/matchers/exit_and_log_matcher.go: the gomega
    matcher of the stress tests, which checks that a command exited with code
    0.  gexec's sessions and gomega's formatting are not part of the
    repository: they are the class [Gexec]. *)
From S2P Require Import Prelude.
Local Open Scope Z_scope.

Class Gexec := {
  (** a gexec.Session, as it is at one point in time *)
  Session : Type;
  ExitCode : Session → Z;
  Out_Contents : Session → string;
  Err_Contents : Session → string;
  (** a value of another type *)
  value : Type;
  (** format.Object and format.Message *)
  format_Object : value → string;
  format_Message : Z → string → string;
}.

(** gexec documents ExitCode as -1 while the process runs; [later] relates a
    session to what it is afterwards. *)
Class GexecLaws (G : Gexec) := {
  later : relation Session;
  ExitCode_final s s' : later s s' → ExitCode s ≠ -1 → ExitCode s' = ExitCode s;
}.

Section matcher.
Context {G : Gexec}.

(** The argument of a matcher, by its dynamic type: a pointer to a session,
    another type with the method ExitCode, or a type without. *)
Inductive actual_value : Type :=
  | Session_pointer (session : option Session)
  | Other_Exiter (code : Z)
  | Other_value (v : value).

Record exitMatcher := mkExitMatcher { actualExitCode : Z }.

Definition ExitSuccessfully : exitMatcher := mkExitMatcher 0.

(** [actual.(Exiter)] and the call of its method; ExitCode of a nil session
    dereferences it. *)
Definition exit_code (actual : actual_value) : option (outcome Z) :=
  match actual with
  | Session_pointer s => Some (ExitCode <$> deref s)
  | Other_Exiter code => Some (Ok code)
  | Other_value _ => None
  end.

Definition not_an_exiter (actual : actual_value) : error :=
  errors_New ("ExitSuccessfully must be passed a gexec.Exiter (Missing method ExitCode() int) Got:
" +:+ match actual with Other_value v => format_Object v | _ => "" end).

(** [Match]: the matcher afterwards, and the result. *)
Definition Match (m : exitMatcher) (actual : actual_value) : exitMatcher * outcome bool :=
  match exit_code actual with
  | None => (m, Err (not_an_exiter actual))
  | Some (Ok code) => (mkExitMatcher code, Ok (Z.eqb 0 code))
  | Some (Err e) => (m, Err e)
  | Some (Panic why) => (m, Panic why)
  end.

Definition did_not_exit : string := "Expected process to exit.  It did not.".
Definition output_report (stdout stderr : string) : string :=
  "to match exit code 0.
STDOUT:
" +:+ stdout +:+ "
STDERR:
" +:+ stderr +:+ "
".

Definition FailureMessage (m : exitMatcher) (actual : actual_value) : outcome string :=
  match actual with
  | Session_pointer session =>
      if Z.eqb (actualExitCode m) (-1) then Ok did_not_exit
      else
        s ← deref session;
        Ok (format_Message (actualExitCode m) (output_report (Out_Contents s) (Err_Contents s)))
  | _ => Panic "ExitSuccessfully must be passed a gexec.Session"
  end.

Definition NegatedFailureMessage (m : exitMatcher) (actual : actual_value) : outcome string :=
  Ok (format_Message (actualExitCode m) "not to match exit code 0").

Definition MatchMayChangeInTheFuture (m : exitMatcher) (actual : actual_value) : outcome bool :=
  match actual with
  | Session_pointer session => s ← deref session; Ok (Z.eqb (ExitCode s) (-1))
  | _ => Ok true
  end.

(** What an actual value becomes: a session goes on, another Exiter may reply
    any code, a value without the method stays what it is. *)
Inductive evolves `{!GexecLaws G} : actual_value → actual_value → Prop :=
  | evolves_session s s' : later s s' → evolves (Session_pointer (Some s)) (Session_pointer (Some s'))
  | evolves_nil : evolves (Session_pointer None) (Session_pointer None)
  | evolves_exiter code code' : evolves (Other_Exiter code) (Other_Exiter code')
  | evolves_value v : evolves (Other_value v) (Other_value v).

(** The matcher keeps the contract by which Eventually stops polling: once
    it says that the match may not change, matching at any later time gives
    the same result, and it then also holds the same exit code; it goes on
    exactly while a session has not exited and for everything that is no
    session. *)
Theorem match_final `{!GexecLaws G} m m' actual actual'
    (Hev : evolves actual actual') (Hno : MatchMayChangeInTheFuture m actual = Ok false) :
  Match m actual' = Match m actual ∧ (Match m' actual').2 = (Match m actual).2 ∧
  ∃ s, actual = Session_pointer (Some s) ∧ ExitCode s ≠ -1 ∧
    (Match m actual).2 = Ok (Z.eqb (ExitCode s) 0).
Proof.
  destruct Hev as [s s' Hl| | |]; cbn in Hno; try done.
  injection Hno as Hno%Z.eqb_neq. unfold Match. cbn. rewrite (ExitCode_final _ _ Hl Hno).
  split_and!; [done..|]. exists s. by rewrite Z.eqb_sym.
Qed.

(** What a failed expectation reports.  A session that still ran is reported
    as such, one that failed with its code and output; for any other value
    that has an exit code the report is a panic, although the match accepts
    it. *)
Theorem failure_reported m actual m' (Hmatch : Match m actual = (m', Ok false)) :
  match actual with
  | Session_pointer (Some s) =>
      actualExitCode m' = ExitCode s ∧ ExitCode s ≠ 0 ∧
      FailureMessage m' actual =
        Ok (if Z.eqb (ExitCode s) (-1) then did_not_exit
            else format_Message (ExitCode s) (output_report (Out_Contents s) (Err_Contents s)))
  | Other_Exiter code => code ≠ 0 ∧ panics (FailureMessage m' actual)
  | _ => False
  end.
Proof.
  unfold Match in Hmatch. destruct actual as [[s|]|code|v]; cbn in Hmatch; try done;
    injection Hmatch as <- Hne.
  - cbn. split_and!; [done|by intros Heq; rewrite Heq in Hne|].
    by destruct (Z.eqb _ _).
  - split; [by intros ->|by eexists].
Qed.
End matcher.

(** * An instance *)

(** A command that ran, or runs on, with its output. *)
Definition example_gexec : Gexec := {|
  Session := Z * string;
  ExitCode := fst;
  Out_Contents := snd;
  Err_Contents _ := "";
  value := unit;
  format_Object _ := "<nil>";
  format_Message code s := (if Z.eqb code 1 then "Expected 1 " else "Expected ") +:+ s;
|}.

Definition example_gexec_laws : GexecLaws example_gexec.
Proof.
  refine {| later := (λ s s' : Z * string, s.1 ≠ -1 → s'.1 = s.1) : relation (@Session example_gexec) |}.
  intros s s' Hl. exact Hl.
Defined.

Definition example_exited : @actual_value example_gexec := @Session_pointer example_gexec (Some (1, "boom")).
Definition example_drained : @actual_value example_gexec := @Session_pointer example_gexec (Some (1, "boom!")).

Lemma match_final_witness :
  (@Match example_gexec (@ExitSuccessfully) example_drained).2 = Ok false.
Proof.
  destruct (@match_final example_gexec example_gexec_laws (mkExitMatcher 5) ExitSuccessfully
    example_exited example_drained) as (_ & Heq & _).
  - apply (@evolves_session example_gexec example_gexec_laws). intros _. reflexivity.
  - reflexivity.
  - exact Heq.
Defined.

Lemma failure_reported_witness :
  FailureMessage (mkExitMatcher 1) example_exited =
  Ok ("Expected 1 " +:+ output_report "boom" "").
Proof.
  destruct (@failure_reported example_gexec ExitSuccessfully example_exited (mkExitMatcher 1))
    as (_ & _ & Hm); [reflexivity|exact Hm].
Defined.
