(* ===== verification/GoJSON.v ===== *)
(** encoding/json of Go's standard library, as far as
    src/test/acceptance/cfg/cfg.go uses it: the syntax that [Unmarshal]
    accepts, with the strings it decodes to. *)
From S2P Require Import Prelude.
From Stdlib Require Import Ascii.

(** * Values *)

Notation chars := (list ascii).

(** A number is kept as its literal; the members of an object in order, keys
    repeated or not. *)
Inductive json : Type :=
  | JNull
  | JBool (b : bool)
  | JNumber (literal : chars)
  | JString (s : chars)
  | JArray (l : list json)
  | JObject (members : list (chars * json)).

(** * UTF-8 *)

Definition code (c : ascii) : Z := Z.of_N (N_of_ascii c).
Definition char (z : Z) : ascii := ascii_of_N (Z.to_N z).
Definition between (lo hi z : Z) : bool := Z.leb lo z && Z.leb z hi.

(** unicode/utf8's EncodeRune; surrogates and numbers out of range become U+FFFD. *)
Definition rune_error : Z := 65533.
Definition EncodeRune (r : Z) : chars :=
  let r := if between 0 1114111 r && negb (between 55296 57343 r) then r else rune_error in
  char <$>
    (if Z.ltb r 128 then [r]
     else if Z.ltb r 2048 then [Z.lor 192 (Z.shiftr r 6); Z.lor 128 (Z.land r 63)]
     else if Z.ltb r 65536 then
       [Z.lor 224 (Z.shiftr r 12); Z.lor 128 (Z.land (Z.shiftr r 6) 63); Z.lor 128 (Z.land r 63)]
     else
       [Z.lor 240 (Z.shiftr r 18); Z.lor 128 (Z.land (Z.shiftr r 12) 63);
        Z.lor 128 (Z.land (Z.shiftr r 6) 63); Z.lor 128 (Z.land r 63)]).

(** How many bytes a well-formed sequence at the head takes: none when the head
    is no such sequence. *)
Definition rune_length (s : chars) : nat :=
  match code <$> take 4 s with
  | a :: rest =>
      if Z.ltb a 128 then 1
      else
        match rest with
        | b :: rest =>
            if between 194 223 a && between 128 191 b then 2
            else
              match rest with
              | c :: rest =>
                  let second :=
                    if Z.eqb a 224 then between 160 191 b
                    else if Z.eqb a 237 then between 128 159 b
                    else between 225 239 a && between 128 191 b in
                  if second && between 128 191 c then 3
                  else
                    match rest with
                    | [d] =>
                        let second :=
                          if Z.eqb a 240 then between 144 191 b
                          else if Z.eqb a 244 then between 128 143 b
                          else between 241 243 a && between 128 191 b in
                        if second && between 128 191 c && between 128 191 d then 4 else 0
                    | _ => 0
                    end
              | [] => 0
              end
        | [] => 0
        end
  | [] => 0
  end.

(** * Strings *)

Definition hex_value (c : ascii) : option Z :=
  let z := code c in
  if between 48 57 z then Some (z - 48)%Z
  else if between 97 102 z then Some (z - 87)%Z
  else if between 65 70 z then Some (z - 55)%Z
  else None.

(** Four hexadecimal digits. *)
Definition getu4 (s : chars) : option (Z * chars) :=
  match s with
  | a :: b :: c :: d :: s =>
      a ← hex_value a; b ← hex_value b; c ← hex_value c; d ← hex_value d;
      Some ((((a * 16 + b) * 16 + c) * 16 + d)%Z, s)
  | _ => None
  end.

Definition simple_escape (c : ascii) : option ascii :=
  match find (λ kv, Ascii.eqb kv.1 c)
    [("034", "034"); ("\", "\"); ("/", "/"); ("b", "008"); ("f", "012"); ("n", "010");
     ("r", "013"); ("t", "009")]%char with
  | Some kv => Some kv.2
  | None => None
  end.

(** utf16.DecodeRune *)
Definition DecodeRune (r1 r2 : Z) : Z :=
  if between 55296 56319 r1 && between 56320 57343 r2
  then ((r1 - 55296) * 1024 + (r2 - 56320) + 65536)%Z else rune_error.

(** A [\u] escape: a surrogate takes the one that follows with it when they form
    a pair, and stands for U+FFFD otherwise. *)
Definition unicode_escape (s : chars) : option (chars * chars) :=
  '(r, s) ← getu4 s;
  if between 55296 57343 r then
    match s with
    | b :: u :: s' =>
        if Ascii.eqb b "\" && Ascii.eqb u "u" then
          match getu4 s' with
          | Some (r2, s'') =>
              if Z.eqb (DecodeRune r r2) rune_error then Some (EncodeRune rune_error, s)
              else Some (EncodeRune (DecodeRune r r2), s'')
          | None => Some (EncodeRune rune_error, s)
          end
        else Some (EncodeRune rune_error, s)
    | _ => Some (EncodeRune rune_error, s)
    end
  else Some (EncodeRune r, s).

(** What follows the opening quote: the decoded string and the rest. Every
    round takes at least one byte. *)
Fixpoint parse_string (fuel : nat) (s : chars) : option (chars * chars) :=
  match fuel, s with
  | S fuel, c :: s' =>
      if Ascii.eqb c "034" then Some ([], s')
      else if Ascii.eqb c "\" then
        match s' with
        | e :: s'' =>
            '(decoded, rest) ←
              (if Ascii.eqb e "u" then unicode_escape s''
               else e ← simple_escape e; Some ([e], s''));
            '(str, rest) ← parse_string fuel rest;
            Some (decoded ++ str, rest)
        | [] => None
        end
      else if Z.ltb (code c) 32 then None
      else
        let n := rune_length s in
        let decoded := if Nat.eqb n 0 then EncodeRune rune_error else take n s in
        '(str, rest) ← parse_string fuel (drop (Nat.max 1 n) s);
        Some (decoded ++ str, rest)
  | _, _ => None
  end.

(** * Numbers *)

Definition is_decimal (c : ascii) : bool := between 48 57 (code c).

(** The longest prefix of digits, and the rest. *)
Fixpoint digits (s : chars) : chars * chars :=
  match s with
  | c :: s' => if is_decimal c then let '(ds, rest) := digits s' in (c :: ds, rest) else ([], s)
  | [] => ([], [])
  end.

Definition one_or_more_digits (s : chars) : option (chars * chars) :=
  match digits s with
  | ([], _) => None
  | ds => Some ds
  end.

Definition parse_int (s : chars) : option (chars * chars) :=
  match s with
  | c :: s' => if Ascii.eqb c "0" then Some (["0"%char], s') else one_or_more_digits s
  | [] => None
  end.

Definition parse_fraction (s : chars) : option (chars * chars) :=
  match s with
  | c :: s' =>
      if Ascii.eqb c "." then '(ds, rest) ← one_or_more_digits s'; Some (c :: ds, rest)
      else Some ([], s)
  | [] => Some ([], [])
  end.

Definition parse_exponent (s : chars) : option (chars * chars) :=
  match s with
  | e :: s' =>
      if Ascii.eqb e "e" || Ascii.eqb e "E" then
        let '(sign, s') :=
          match s' with
          | c :: s'' => if Ascii.eqb c "+" || Ascii.eqb c "-" then ([c], s'') else ([], s')
          | [] => ([], s')
          end in
        '(ds, rest) ← one_or_more_digits s';
        Some (e :: sign ++ ds, rest)
      else Some ([], s)
  | [] => Some ([], [])
  end.

Definition parse_number (s : chars) : option (chars * chars) :=
  let '(sign, s) :=
    match s with
    | c :: s' => if Ascii.eqb c "-" then ([c], s') else ([], s)
    | [] => ([], s)
    end in
  '(int, s) ← parse_int s;
  '(frac, s) ← parse_fraction s;
  '(exp, s) ← parse_exponent s;
  Some (sign ++ int ++ frac ++ exp, s).

(** * Values *)

Definition is_space (c : ascii) : bool :=
  Ascii.eqb c " " || Ascii.eqb c "009" || Ascii.eqb c "010" || Ascii.eqb c "013".

Fixpoint skip_space (s : chars) : chars :=
  match s with
  | c :: s' => if is_space c then skip_space s' else s
  | [] => []
  end.

(** The text after [word]. *)
Fixpoint after_word (word s : chars) : option chars :=
  match word, s with
  | [], _ => Some s
  | c :: word, c' :: s => if Ascii.eqb c c' then after_word word s else None
  | _ :: _, [] => None
  end.

(** The next character that is no space, and what follows it. *)
Definition next (s : chars) : option (ascii * chars) :=
  match skip_space s with c :: s => Some (c, s) | [] => None end.

(** A value at the head; the elements after [[] and the members after [{],
    where [first] says that none was read. *)
Fixpoint parse_value (fuel : nat) (s : chars) {struct fuel} : option (json * chars) :=
  match fuel with
  | O => None
  | S fuel =>
      '(c, rest) ← next s;
      if Ascii.eqb c "n" then rest ← after_word ["u"; "l"; "l"]%char rest; Some (JNull, rest)
      else if Ascii.eqb c "t" then
        rest ← after_word ["r"; "u"; "e"]%char rest; Some (JBool true, rest)
      else if Ascii.eqb c "f" then
        rest ← after_word ["a"; "l"; "s"; "e"]%char rest; Some (JBool false, rest)
      else if Ascii.eqb c "034" then
        '(str, rest) ← parse_string (length rest) rest; Some (JString str, rest)
      else if Ascii.eqb c "[" then
        '(l, rest) ← parse_elements fuel true rest; Some (JArray l, rest)
      else if Ascii.eqb c "{" then
        '(l, rest) ← parse_members fuel true rest; Some (JObject l, rest)
      else '(literal, rest) ← parse_number (c :: rest); Some (JNumber literal, rest)
  end
with parse_elements (fuel : nat) (first : bool) (s : chars) {struct fuel}
    : option (list json * chars) :=
  match fuel with
  | O => None
  | S fuel =>
      '(c, rest) ← next s;
      if Ascii.eqb c "]" then if first then Some ([], rest) else None
      else
        '(v, rest) ← parse_value fuel s;
        '(c, rest) ← next rest;
        if Ascii.eqb c "]" then Some ([v], rest)
        else if Ascii.eqb c "," then
          '(l, rest) ← parse_elements fuel false rest; Some (v :: l, rest)
        else None
  end
with parse_members (fuel : nat) (first : bool) (s : chars) {struct fuel}
    : option (list (chars * json) * chars) :=
  match fuel with
  | O => None
  | S fuel =>
      '(c, rest) ← next s;
      if Ascii.eqb c "}" then if first then Some ([], rest) else None
      else if Ascii.eqb c "034" then
        '(key, rest) ← parse_string (length rest) rest;
        '(c, rest) ← next rest;
        if negb (Ascii.eqb c ":") then None
        else
          '(v, rest) ← parse_value fuel rest;
          '(c, rest) ← next rest;
          if Ascii.eqb c "}" then Some ([(key, v)], rest)
          else if Ascii.eqb c "," then
            '(l, rest) ← parse_members fuel false rest; Some ((key, v) :: l, rest)
          else None
      else None
  end.

(** A whole text: one value, with nothing but space around it. *)
Definition parse (s : chars) : option json :=
  '(v, rest) ← parse_value (S (S (2 * length s))) s;
  match skip_space rest with [] => Some v | _ => None end.

Definition bytes_of (s : string) : chars := String.list_ascii_of_string s.

