(* ===== verification/JSONText.v ===== *)
(** The grammar of JSON texts (RFC 8259, with any space, escapes and UTF-8
    the grammar allows), and that the parser of [GoJSON] reads every text of it as
    the value it spells, however long. *)
From S2P Require Import Prelude GoJSON.
From Stdlib Require Import Ascii.

(** * The grammar *)

Definition spaces (ws : chars) : Prop := Forall (λ c, is_space c = true) ws.

(** One character as it stands in a string: a well-formed UTF-8 sequence that is
    no quote, backslash or control character. *)
Definition verbatim (seq : chars) : Prop :=
  ∃ c t, seq = c :: t ∧
    rune_length seq = length seq ∧ c ≠ "034"%char ∧ c ≠ "\"%char ∧ (32 <= code c)%Z.

Definition hex4 (r : Z) (t : chars) : Prop := length t = 4 ∧ getu4 t = Some (r, []).

(** [string_text str t]: [t] between quotes spells [str]. *)
Inductive string_text : chars → chars → Prop :=
  | text_end : string_text [] []
  | text_verbatim seq str t :
      verbatim seq → string_text str t → string_text (seq ++ str) (seq ++ t)
  | text_escape e c str t :
      simple_escape e = Some c → string_text str t →
      string_text (c :: str) ("\"%char :: e :: t)
  | text_unicode r u str t :
      hex4 r u → between 55296 57343 r = false → string_text str t →
      string_text (EncodeRune r ++ str) ("\"%char :: "u"%char :: u ++ t)
  | text_pair r1 u1 r2 u2 str t :
      hex4 r1 u1 → hex4 r2 u2 →
      between 55296 56319 r1 = true → between 56320 57343 r2 = true → string_text str t →
      string_text (EncodeRune (DecodeRune r1 r2) ++ str)
        (("\"%char :: "u"%char :: u1) ++ ("\"%char :: "u"%char :: u2) ++ t).

Definition decimals (ds : chars) : Prop := ds ≠ [] ∧ Forall (λ c, is_decimal c = true) ds.

Inductive int_text : chars → Prop :=
  | int_zero : int_text ["0"%char]
  | int_digits c ds : c ≠ "0"%char → decimals (c :: ds) → int_text (c :: ds).

Inductive fraction_text : chars → Prop :=
  | fraction_none : fraction_text []
  | fraction_digits ds : decimals ds → fraction_text ("."%char :: ds).

Inductive exponent_text : chars → Prop :=
  | exponent_none : exponent_text []
  | exponent_digits e ds :
      (e = "e" ∨ e = "E")%char → decimals ds → exponent_text (e :: ds)
  | exponent_signed e sign ds :
      (e = "e" ∨ e = "E")%char → (sign = "+" ∨ sign = "-")%char → decimals ds →
      exponent_text (e :: sign :: ds).

Inductive number_text : chars → Prop :=
  | number_positive int frac exp :
      int_text int → fraction_text frac → exponent_text exp → number_text (int ++ frac ++ exp)
  | number_negative int frac exp :
      int_text int → fraction_text frac → exponent_text exp →
      number_text ("-"%char :: int ++ frac ++ exp).

Definition quoted (t : chars) : chars := "034"%char :: t ++ ["034"%char].

(** A value without space around it, the elements between brackets, and the
    members between braces. *)
Inductive value_text : json → chars → Prop :=
  | text_null : value_text JNull ["n"; "u"; "l"; "l"]%char
  | text_true : value_text (JBool true) ["t"; "r"; "u"; "e"]%char
  | text_false : value_text (JBool false) ["f"; "a"; "l"; "s"; "e"]%char
  | text_number literal : number_text literal → value_text (JNumber literal) literal
  | text_string str t : string_text str t → value_text (JString str) (quoted t)
  | text_empty_array ws : spaces ws → value_text (JArray []) ("["%char :: ws ++ ["]"%char])
  | text_array l t : elements_text l t → value_text (JArray l) ("["%char :: t ++ ["]"%char])
  | text_empty_object ws : spaces ws → value_text (JObject []) ("{"%char :: ws ++ ["}"%char])
  | text_object ms t : members_text ms t → value_text (JObject ms) ("{"%char :: t ++ ["}"%char])
with elements_text : list json → chars → Prop :=
  | text_element v t ws ws' :
      value_text v t → spaces ws → spaces ws' → elements_text [v] (ws ++ t ++ ws')
  | text_elements v t ws ws' l t' :
      value_text v t → spaces ws → spaces ws' → elements_text l t' →
      elements_text (v :: l) ((ws ++ t ++ ws') ++ ","%char :: t')
with members_text : list (chars * json) → chars → Prop :=
  | text_member key k v t ws1 ws2 ws3 ws4 :
      string_text key k → value_text v t →
      spaces ws1 → spaces ws2 → spaces ws3 → spaces ws4 →
      members_text [(key, v)] (ws1 ++ quoted k ++ ws2 ++ ":"%char :: ws3 ++ t ++ ws4)
  | text_members key k v t ws1 ws2 ws3 ws4 ms t' :
      string_text key k → value_text v t →
      spaces ws1 → spaces ws2 → spaces ws3 → spaces ws4 → members_text ms t' →
      members_text ((key, v) :: ms)
        ((ws1 ++ quoted k ++ ws2 ++ ":"%char :: ws3 ++ t ++ ws4) ++ ","%char :: t').

(** A whole document. *)
Definition json_text (v : json) (s : chars) : Prop :=
  ∃ ws t ws', spaces ws ∧ value_text v t ∧ spaces ws' ∧ s = ws ++ t ++ ws'.

Scheme value_text_mut := Induction for value_text Sort Prop
  with elements_text_mut := Induction for elements_text Sort Prop
  with members_text_mut := Induction for members_text Sort Prop.
Combined Scheme texts_mut from value_text_mut, elements_text_mut, members_text_mut.

(** * Strings *)

Lemma rune_length_app seq c t s :
  seq = c :: t → rune_length seq = length seq → rune_length (seq ++ s) = length seq.
Proof.
  intros -> H. destruct t as [|c2 [|c3 [|c4 [|c5 t]]]]; revert H; cbn -[between Z.ltb Z.eqb];
    repeat case_match; try done.
Qed.

Lemma parse_string_verbatim n seq s str rest :
  verbatim seq → parse_string n s = Some (str, rest) →
  parse_string (S n) (seq ++ s) = Some (seq ++ str, rest).
Proof.
  intros (c & t & -> & Hlen & Hquote%Ascii.eqb_neq & Hslash%Ascii.eqb_neq & Hcode) Hs.
  pose proof (rune_length_app (c :: t) c t s eq_refl Hlen) as Hrune.
  cbn [parse_string app] in *. rewrite Hquote, Hslash.
  rewrite (proj2 (Z.ltb_ge _ _)), Hrune by done. simpl.
  by rewrite drop_app_length, Hs, take_app_length.
Qed.

Lemma getu4_app r u s : hex4 r u → getu4 (u ++ s) = Some (r, s).
Proof.
  intros [Hlen H]. destruct u as [|a [|b [|c [|d [|]]]]]; try done. revert H. cbn.
  destruct (hex_value a), (hex_value b), (hex_value c), (hex_value d); cbn; try done.
  by intros [= <-].
Qed.

Lemma parse_string_unicode n u decoded s str rest :
  unicode_escape (u ++ s) = Some (decoded, s) → parse_string n s = Some (str, rest) →
  parse_string (S n) ("\"%char :: "u"%char :: u ++ s) = Some (decoded ++ str, rest).
Proof. intros Hu Hs. cbn. by rewrite Hu; cbn; rewrite Hs. Qed.

Lemma unicode_escape_single r u s :
  hex4 r u → between 55296 57343 r = false → unicode_escape (u ++ s) = Some (EncodeRune r, s).
Proof. intros Hu Hr. unfold unicode_escape. rewrite (getu4_app r) by done. cbn. by rewrite Hr. Qed.

Lemma unicode_escape_pair r1 u1 r2 u2 s :
  hex4 r1 u1 → hex4 r2 u2 → between 55296 56319 r1 = true → between 56320 57343 r2 = true →
  unicode_escape ((u1 ++ "\"%char :: "u"%char :: u2) ++ s)
  = Some (EncodeRune (DecodeRune r1 r2), s).
Proof.
  intros Hu1 Hu2 Hr1 Hr2. unfold unicode_escape. rewrite <- app_assoc. simpl.
  rewrite (getu4_app r1) by done. cbn -[DecodeRune getu4].
  rewrite (getu4_app r2) by done.
  assert (between 55296 57343 r1 = true) as ->.
  { unfold between in *. rewrite !andb_true_iff, !Z.leb_le in *. lia. }
  assert (Z.eqb (DecodeRune r1 r2) rune_error = false) as ->; [|done].
  unfold DecodeRune. rewrite Hr1, Hr2. unfold between, rune_error in *.
  rewrite !andb_true_iff, !Z.leb_le in *. apply Z.eqb_neq. cbn [andb]. lia.
Qed.

Lemma hex4_length r u : hex4 r u → length u = 4.
Proof. by intros []. Qed.

(** Any text of a string is read to its end. *)
Lemma string_text_parsed str t rest n :
  string_text str t → length t < n →
  parse_string n (t ++ "034"%char :: rest) = Some (str, rest).
Proof.
  intros Ht. revert n.
  induction Ht as [|seq str t Hseq _ IH|e c str t He _ IH|r u str t Hu Hr _ IH
    |r1 u1 r2 u2 str t Hu1 Hu2 Hr1 Hr2 _ IH]; intros [|n] Hn; try (simpl in Hn; lia).
  - done.
  - rewrite <- app_assoc. apply parse_string_verbatim; [done|]. apply IH.
    destruct Hseq as (c & s & -> & _). rewrite length_app in Hn. simpl in Hn. lia.
  - simpl in *. assert (Ascii.eqb e "u" = false) as ->.
    { destruct (Ascii.eqb_spec e "u") as [->|]; [discriminate He|done]. }
    rewrite He. cbn. rewrite IH by lia. done.
  - pose proof (hex4_length _ _ Hu). simpl in Hn. rewrite length_app in Hn.
    simpl. rewrite <- app_assoc.
    apply parse_string_unicode; [by apply unicode_escape_single|apply IH; lia].
  - pose proof (hex4_length _ _ Hu1). pose proof (hex4_length _ _ Hu2).
    simpl in Hn. rewrite !length_app in Hn. simpl in Hn. rewrite !length_app in Hn.
    replace ((("\"%char :: "u"%char :: u1) ++ ("\"%char :: "u"%char :: u2) ++ t) ++ "034"%char :: rest)
      with ("\"%char :: "u"%char :: (u1 ++ "\"%char :: "u"%char :: u2) ++ t ++ "034"%char :: rest)
      by (simpl; by rewrite <- ?app_assoc; simpl; rewrite <- ?app_assoc).
    apply parse_string_unicode; [by apply unicode_escape_pair|apply IH; lia].
Qed.

(** * Numbers *)

(** What may follow a value. *)
Definition delimiter (c : ascii) : bool :=
  is_space c || Ascii.eqb c "," || Ascii.eqb c "]" || Ascii.eqb c "}".
Definition delimited (rest : chars) : Prop :=
  match rest with c :: _ => delimiter c = true | [] => True end.

(** The next character does not go on with the digits. *)
Definition no_digit (rest : chars) : Prop :=
  match rest with c :: _ => is_decimal c = false | [] => True end.

Lemma delimiter_cases (P : ascii → Prop) c :
  delimiter c = true →
  Forall P [" "; "009"; "010"; "013"; ","; "]"; "}"]%char → P c.
Proof.
  unfold delimiter, is_space. rewrite !orb_true_iff, !Ascii.eqb_eq.
  intros Hc HP. rewrite Forall_forall in HP. apply HP. set_solver.
Qed.

(** What a delimiter is not, and what a number can therefore not go on with. *)
Definition stops_number (c : ascii) : bool :=
  negb (is_decimal c) && negb (Ascii.eqb c ".") && negb (Ascii.eqb c "e") && negb (Ascii.eqb c "E").

Lemma delimiter_stops c : delimiter c = true → stops_number c = true.
Proof. intros Hc. apply (delimiter_cases (λ c, stops_number c = true) c Hc). by repeat constructor. Qed.

Lemma digits_app ds rest :
  Forall (λ c, is_decimal c = true) ds → no_digit rest → digits (ds ++ rest) = (ds, rest).
Proof.
  intros Hds Hrest. induction Hds as [|c ds Hc _ IH]; simpl.
  - destruct rest as [|c rest]; simpl in *; [done|by rewrite Hrest].
  - by rewrite Hc, IH.
Qed.

Lemma one_or_more_digits_app ds rest :
  decimals ds → no_digit rest → one_or_more_digits (ds ++ rest) = Some (ds, rest).
Proof.
  intros [Hne Hds] Hrest. unfold one_or_more_digits. rewrite digits_app by done. by destruct ds.
Qed.

Lemma delimited_no_digit rest : delimited rest → no_digit rest.
Proof.
  destruct rest as [|c rest]; [done|]. intros Hc%delimiter_stops. simpl.
  unfold stops_number in Hc. rewrite !andb_true_iff, !negb_true_iff in Hc. tauto.
Qed.

Lemma exponent_no_digit exp rest : exponent_text exp → delimited rest → no_digit (exp ++ rest).
Proof. destruct 1 as [|e ds [-> | ->]|e sign ds [-> | ->]]; [apply delimited_no_digit|done..]. Qed.

Lemma fraction_no_digit frac exp rest :
  fraction_text frac → exponent_text exp → delimited rest → no_digit (frac ++ exp ++ rest).
Proof. destruct 1; [apply exponent_no_digit|done]. Qed.

Lemma parse_int_app int rest : int_text int → no_digit rest → parse_int (int ++ rest) = Some (int, rest).
Proof.
  destruct 1 as [|c ds Hc%Ascii.eqb_neq Hds]; intros Hrest; [done|]. simpl. rewrite Hc.
  by apply (one_or_more_digits_app (c :: ds)).
Qed.

Lemma parse_exponent_app exp rest :
  exponent_text exp → delimited rest → parse_exponent (exp ++ rest) = Some (exp, rest).
Proof.
  intros Hexp Hrest. pose proof (delimited_no_digit _ Hrest).
  destruct Hexp as [|e ds He Hds|e sign ds He Hsign Hds]; simpl.
  - destruct rest as [|c rest]; [done|]. apply delimiter_stops in Hrest.
    unfold stops_number in Hrest. rewrite !andb_true_iff, !negb_true_iff in Hrest. simpl.
    by destruct Hrest as [[[_ _] ->] ->].
  - pose proof Hds as [Hne Hall]. destruct ds as [|c ds]; [done|].
    apply Forall_cons_1 in Hall as [Hc _].
    assert (Ascii.eqb c "+" || Ascii.eqb c "-" = false) as Hsign.
    { destruct (Ascii.eqb_spec c "+") as [->|]; [done|]. by destruct (Ascii.eqb_spec c "-") as [->|]. }
    pose proof (one_or_more_digits_app (c :: ds) rest Hds ltac:(done)) as Hone. simpl in Hone.
    destruct He as [-> | ->]; simpl; rewrite Hsign; by rewrite Hone.
  - destruct He as [-> | ->]; destruct Hsign as [-> | ->]; simpl;
      by rewrite one_or_more_digits_app.
Qed.

Lemma parse_fraction_app frac exp rest :
  fraction_text frac → exponent_text exp → delimited rest →
  parse_fraction (frac ++ exp ++ rest) = Some (frac, exp ++ rest).
Proof.
  intros Hfrac Hexp Hrest. destruct Hfrac as [|ds Hds]; simpl.
  - destruct Hexp as [|e ds [-> | ->]|e sign ds [-> | ->]]; simpl; try done.
    destruct rest as [|c rest]; [done|]. apply delimiter_stops in Hrest.
    unfold stops_number in Hrest. rewrite !andb_true_iff, !negb_true_iff in Hrest. simpl.
    by destruct Hrest as [[[_ ->] _] _].
  - rewrite one_or_more_digits_app; [done..|]. by apply exponent_no_digit.
Qed.

Lemma number_text_parsed literal rest :
  number_text literal → delimited rest → parse_number (literal ++ rest) = Some (literal, rest).
Proof.
  assert (∀ int frac exp, int_text int → fraction_text frac → exponent_text exp → delimited rest →
    ('(int, s) ← parse_int (int ++ frac ++ exp ++ rest);
     '(frac, s) ← parse_fraction s;
     '(exp, s) ← parse_exponent s; Some (int ++ frac ++ exp, s)) = Some (int ++ frac ++ exp, rest)) as Hpos.
  { intros int frac exp Hint Hfrac Hexp Hrest.
    rewrite parse_int_app by (done || by apply fraction_no_digit). simpl.
    rewrite parse_fraction_app by done. simpl. by rewrite parse_exponent_app. }
  intros [int frac exp Hint Hfrac Hexp|int frac exp Hint Hfrac Hexp] Hrest;
    specialize (Hpos _ _ _ Hint Hfrac Hexp Hrest).
  - rewrite <- !app_assoc.
    destruct Hint as [|c ds Hc [_ Hds]]; [exact Hpos|].
    unfold parse_number. cbn -[Ascii.eqb parse_int parse_fraction parse_exponent].
    assert (Ascii.eqb c "-" = false) as ->; [|exact Hpos].
    apply Forall_cons_1 in Hds as [Hd _]. by destruct (Ascii.eqb_spec c "-") as [->|].
  - simpl. rewrite <- !app_assoc. revert Hpos. unfold parse_number. simpl.
    destruct (parse_int _) as [[]|]; [|done]. simpl. destruct (parse_fraction _) as [[]|]; [|done]. simpl.
    destruct (parse_exponent _) as [[]|]; [|done]. simpl. by intros [= -> ->].
Qed.

(** * Values *)

(** Arithmetic on the lengths of concatenations. *)
Ltac lengths := repeat (rewrite length_app in * || (progress (cbn [length] in * ))); lia.

Lemma next_spaces ws c rest : spaces ws → is_space c = false → next (ws ++ c :: rest) = Some (c, rest).
Proof.
  intros Hws Hc. unfold next. induction Hws as [|c' ws Hc' _ IH]; simpl; [by rewrite Hc|].
  by rewrite Hc'.
Qed.

Lemma next_cons c rest : is_space c = false → next (c :: rest) = Some (c, rest).
Proof. apply (next_spaces [] c), Forall_nil_2. Qed.

Lemma skip_spaces ws : spaces ws → skip_space ws = [].
Proof. induction 1 as [|c ws Hc _ IH]; [done|]. simpl. by rewrite Hc. Qed.

(** What a number can start with. *)
Definition number_head (c : ascii) : bool := Ascii.eqb c "-" || is_decimal c.

Lemma number_text_head literal :
  number_text literal → ∃ c t, literal = c :: t ∧ number_head c = true.
Proof.
  destruct 1 as [int frac exp [|c ds _ [_ Hds]]|]; [by eexists _, _|exists c, (ds ++ frac ++ exp)|by eexists _, _].
  apply Forall_cons_1 in Hds as [Hc _]. split; [done|]. unfold number_head. by rewrite Hc, orb_true_r.
Qed.

(** What tells numbers from the other values, and values from what ends a list. *)
Definition other_head (c : ascii) : bool :=
  Ascii.eqb c "n" || Ascii.eqb c "t" || Ascii.eqb c "f" || Ascii.eqb c "034" || Ascii.eqb c "["
  || Ascii.eqb c "{".

Lemma number_head_not c :
  number_head c = true → other_head c = false ∧ is_space c = false ∧ Ascii.eqb c "]" = false.
Proof. by destruct c as [[] [] [] [] [] [] [] []]. Qed.

Lemma other_head_not c : other_head c = true → is_space c = false ∧ Ascii.eqb c "]" = false.
Proof. by destruct c as [[] [] [] [] [] [] [] []]. Qed.

Lemma value_text_head v t :
  value_text v t → ∃ c t', t = c :: t' ∧ is_space c = false ∧ Ascii.eqb c "]" = false.
Proof.
  destruct 1 as [| | |literal Hl| | | | |]; try by eexists _, _.
  destruct (number_text_head _ Hl) as (c & t & -> & Hc%number_head_not). exists c, t. tauto.
Qed.

Definition value_parsed v t : Prop := ∀ n ws rest,
  spaces ws → delimited rest → 2 * length (ws ++ t ++ rest) + 1 ≤ n →
  parse_value n (ws ++ t ++ rest) = Some (v, rest).
Definition elements_parsed l t : Prop := ∀ n first rest,
  2 * length (t ++ "]"%char :: rest) + 2 ≤ n →
  parse_elements n first (t ++ "]"%char :: rest) = Some (l, rest).
Definition members_parsed ms t : Prop := ∀ n first rest,
  2 * length (t ++ "}"%char :: rest) + 2 ≤ n →
  parse_members n first (t ++ "}"%char :: rest) = Some (ms, rest).

Lemma parse_value_next n ws c rest :
  spaces ws → is_space c = false → parse_value n (ws ++ c :: rest) = parse_value n (c :: rest).
Proof.
  intros Hws Hc. destruct n; [done|]. cbn [parse_value].
  rewrite next_spaces by done. by rewrite next_cons.
Qed.

(** Values that start with their own character. *)
Lemma parsed_by_head v t c :
  is_space c = false → head t = Some c →
  (∀ n rest, delimited rest → 2 * length (t ++ rest) + 1 ≤ n →
     parse_value n (t ++ rest) = Some (v, rest)) →
  value_parsed v t.
Proof.
  intros Hc Ht H n ws rest Hws Hrest Hn. destruct t as [|? t]; [done|]. injection Ht as ->. simpl.
  rewrite parse_value_next by done. apply (H n rest Hrest).
  rewrite !length_app in *. simpl in *. lia.
Qed.

Lemma after_word_app word rest : after_word word (word ++ rest) = Some rest.
Proof. induction word; simpl; [done|]. by rewrite Ascii.eqb_refl. Qed.

Lemma number_parsed literal : number_text literal → value_parsed (JNumber literal) literal.
Proof.
  intros Hl. destruct (number_text_head _ Hl) as (c & t & -> & Hc).
  destruct (number_head_not c Hc) as (Hother & Hspace & _).
  apply (parsed_by_head _ _ c); [done..|]. intros [|n] rest Hrest Hn; [simpl in Hn; lia|].
  unfold other_head in Hother. rewrite !orb_false_iff in Hother.
  destruct Hother as [[[[[H1 H2] H3] H4] H5] H6]. cbn [parse_value app].
  rewrite next_cons by done. cbn [mbind option_bind].
  rewrite H1, H2, H3, H4, H5, H6.
  pose proof (number_text_parsed _ rest Hl Hrest) as Hp. simpl in Hp. by rewrite Hp.
Qed.

Lemma string_parsed str t : string_text str t → value_parsed (JString str) (quoted t).
Proof.
  intros Ht. apply (parsed_by_head _ _ "034"%char); [done..|].
  intros [|n] rest Hrest Hn; [lia|]. unfold quoted. cbn [parse_value app].
  rewrite next_cons by done. cbn. rewrite <- app_assoc. cbn.
  rewrite (string_text_parsed str); [done..|]. rewrite length_app. simpl. lia.
Qed.

Lemma array_parsed l t : elements_parsed l t → value_parsed (JArray l) ("["%char :: t ++ ["]"%char]).
Proof.
  intros Hl. apply (parsed_by_head _ _ "["%char); [done..|].
  intros [|n] rest Hrest Hn; [lia|]. cbn [parse_value app].
  rewrite next_cons by done. rewrite <- app_assoc in *. cbn -[parse_elements] in *.
  rewrite <- app_assoc in Hn. simpl in Hn. rewrite Hl by lia. done.
Qed.

Lemma object_parsed ms t : members_parsed ms t → value_parsed (JObject ms) ("{"%char :: t ++ ["}"%char]).
Proof.
  intros Hl. apply (parsed_by_head _ _ "{"%char); [done..|].
  intros [|n] rest Hrest Hn; [lia|]. cbn [parse_value app].
  rewrite next_cons by done. rewrite <- app_assoc in *. cbn -[parse_members] in *.
  rewrite <- app_assoc in Hn. simpl in Hn. rewrite Hl by lia. done.
Qed.

Lemma empty_array_parsed ws : spaces ws → value_parsed (JArray []) ("["%char :: ws ++ ["]"%char]).
Proof.
  intros Hws. apply (parsed_by_head _ _ "["%char); [done..|].
  intros [|[|n]] rest Hrest Hn; [simpl in Hn; lia..|]. cbn [parse_value parse_elements app].
  rewrite next_cons by done. rewrite <- app_assoc. cbn -[next].
  by rewrite next_spaces.
Qed.

Lemma empty_object_parsed ws : spaces ws → value_parsed (JObject []) ("{"%char :: ws ++ ["}"%char]).
Proof.
  intros Hws. apply (parsed_by_head _ _ "{"%char); [done..|].
  intros [|[|n]] rest Hrest Hn; [simpl in Hn; lia..|]. cbn [parse_value parse_members app].
  rewrite next_cons by done. rewrite <- app_assoc. cbn -[next].
  by rewrite next_spaces.
Qed.

Lemma delimited_spaces ws c rest : spaces ws → delimiter c = true → delimited (ws ++ c :: rest).
Proof. destruct 1 as [|c' ws Hc]; [done|]. intros _. simpl. unfold delimiter. by rewrite Hc. Qed.

(** One element and what follows it. *)
Lemma element_step v t ws ws' n first c rest :
  value_parsed v t → value_text v t → spaces ws → spaces ws' →
  delimiter c = true → is_space c = false →
  2 * length ((ws ++ t ++ ws') ++ c :: rest) + 2 ≤ S n →
  parse_elements (S n) first ((ws ++ t ++ ws') ++ c :: rest) =
  if Ascii.eqb c "]" then Some ([v], rest)
  else if Ascii.eqb c "," then
    '(l, rest) ← parse_elements n false rest; Some (v :: l, rest)
  else None.
Proof.
  intros Hv Ht Hws Hws' Hc Hspace Hn.
  replace ((ws ++ t ++ ws') ++ c :: rest) with (ws ++ t ++ ws' ++ c :: rest) in *
    by by rewrite <- !app_assoc.
  destruct (value_text_head _ _ Ht) as (h & t' & Heq & Hh & Hbracket).
  assert (parse_value n (ws ++ t ++ ws' ++ c :: rest) = Some (v, ws' ++ c :: rest)) as Hp.
  { apply Hv; [done|by apply delimited_spaces|lia]. }
  cbn [parse_elements]. rewrite Hp.
  replace (next (ws ++ t ++ ws' ++ c :: rest)) with (Some (h, t' ++ ws' ++ c :: rest)).
  2: { rewrite Heq. simpl. by rewrite next_spaces. }
  cbn [mbind option_bind]. rewrite Hbracket. by rewrite next_spaces.
Qed.

(** One member and what follows it. *)
Lemma member_step key k v t ws1 ws2 ws3 ws4 n first c rest :
  string_text key k → value_parsed v t → spaces ws1 → spaces ws2 → spaces ws3 → spaces ws4 →
  delimiter c = true → is_space c = false →
  let s := (ws1 ++ quoted k ++ ws2 ++ ":"%char :: ws3 ++ t ++ ws4) ++ c :: rest in
  2 * length s + 2 ≤ S n →
  parse_members (S n) first s =
  if Ascii.eqb c "}" then Some ([(key, v)], rest)
  else if Ascii.eqb c "," then
    '(l, rest) ← parse_members n false rest; Some ((key, v) :: l, rest)
  else None.
Proof.
  intros Hk Hv Hws1 Hws2 Hws3 Hws4 Hc Hspace s Hn.
  set (after := ws3 ++ t ++ ws4 ++ c :: rest).
  assert (s = ws1 ++ "034"%char :: k ++ "034"%char :: ws2 ++ ":"%char :: after) as Hs.
  { subst s after. unfold quoted. repeat (rewrite <- app_assoc; simpl). done. }
  assert (length after < length s) as Hafter.
  { rewrite Hs. lengths. }
  assert (parse_value n after = Some (v, ws4 ++ c :: rest)) as Hp.
  { apply Hv; [done|by apply delimited_spaces|]. unfold after in Hafter. lia. }
  clearbody s after. subst s. cbn [parse_members].
  rewrite next_spaces by done. cbn -[next].
  rewrite (string_text_parsed key) by (done || lengths). cbn -[next].
  rewrite next_spaces by done. cbn -[next]. rewrite Hp. cbn -[next]. by rewrite next_spaces.
Qed.

Lemma texts_parsed :
  (∀ v t, value_text v t → value_parsed v t) ∧
  (∀ l t, elements_text l t → elements_parsed l t) ∧
  (∀ ms t, members_text ms t → members_parsed ms t).
Proof.
  apply texts_mut;
    eauto using number_parsed, string_parsed, empty_array_parsed, empty_object_parsed,
      array_parsed, object_parsed.
  - apply (parsed_by_head _ _ "n"%char); [done..|]. intros [|n] rest _ Hn; [lia|done].
  - apply (parsed_by_head _ _ "t"%char); [done..|]. intros [|n] rest _ Hn; [lia|done].
  - apply (parsed_by_head _ _ "f"%char); [done..|]. intros [|n] rest _ Hn; [lia|done].
  - intros v t ws ws' Ht Hv Hws Hws' [|n] first rest Hn; [lia|]. by rewrite (element_step v).
  - intros v t ws ws' l t' Ht Hv Hws Hws' _ Hl [|n] first rest Hn; [lia|].
    rewrite <- app_assoc in Hn |- *. cbn [app] in Hn |- *. rewrite (element_step v) by done. simpl.
    rewrite Hl; [done|]. lengths.
  - intros key k v t ws1 ws2 ws3 ws4 Hk _ Hv ? ? ? ? [|n] first rest Hn; [lia|].
    by rewrite (member_step key k v).
  - intros key k v t ws1 ws2 ws3 ws4 ms t' Hk _ Hv ? ? ? ? _ Hms [|n] first rest Hn; [lia|].
    rewrite <- app_assoc in Hn |- *. cbn [app] in Hn |- *. rewrite (member_step key k v) by done. simpl.
    rewrite Hms; [done|]. lengths.
Qed.

(** Every text of the grammar is read as the value it spells. *)
Lemma json_text_parsed v s : json_text v s → parse s = Some v.
Proof.
  intros (ws & t & ws' & Hws & Ht & Hws' & ->). unfold parse.
  rewrite (proj1 texts_parsed v t Ht); [simpl; by rewrite skip_spaces|done| |lia].
  destruct Hws' as [|c ws' Hc]; [done|]. simpl. unfold delimiter. by rewrite Hc.
Qed.

(** * Fuel: every step takes a character, so that the length of the text is enough *)

Lemma skip_space_length s : length (skip_space s) ≤ length s.
Proof. induction s as [|c s IH]; simpl; [lia|]. case_match; simpl; lia. Qed.

Lemma next_length s c rest : next s = Some (c, rest) → length rest < length s.
Proof.
  unfold next. pose proof (skip_space_length s). destruct (skip_space s) as [|c' s']; [done|].
  intros [= <- <-]. simpl in *. lia.
Qed.

Lemma after_word_length word s rest : after_word word s = Some rest → length rest ≤ length s.
Proof.
  revert s. induction word as [|c word IH]; intros [|c' s]; simpl; [by intros [= <-]..|done|].
  case_match; [|done]. intros ?%IH. lia.
Qed.

Lemma getu4_length s r rest : getu4 s = Some (r, rest) → length rest ≤ length s.
Proof.
  destruct s as [|a [|b [|c [|d s]]]]; try done. cbn.
  destruct (hex_value a), (hex_value b), (hex_value c), (hex_value d); cbn; try done.
  intros [= _ <-]. lia.
Qed.

Lemma unicode_escape_length s d rest : unicode_escape s = Some (d, rest) → length rest ≤ length s.
Proof.
  unfold unicode_escape. destruct (getu4 s) as [[r s']|] eqn:Hr; [|done]. apply getu4_length in Hr.
  cbn -[DecodeRune]. case_match; [|by intros [= _ <-]].
  destruct s' as [|b [|u s']]; [by intros [= _ <-]..|].
  case_match; [|by intros [= _ <-]].
  destruct (getu4 s') as [[r2 s'']|] eqn:Hr2; [|by intros [= _ <-]]. apply getu4_length in Hr2.
  simpl in Hr. case_match; intros [= _ <-]; simpl; lia.
Qed.

Lemma parse_string_length n s str rest :
  parse_string n s = Some (str, rest) → length rest < length s.
Proof.
  revert s str rest. induction n as [|n IH]; intros s str rest; [done|]. destruct s as [|c s]; [done|].
  cbn [parse_string]. case_match; [intros [= _ <-]; simpl; lia|]. case_match.
  - destruct s as [|e s]; [done|].
    intros ([d rest1] & He & ([str' rest2] & Hstr & [= _ <-])%bind_Some)%bind_Some.
    apply IH in Hstr. simpl. revert He. case_match; [intros ?%unicode_escape_length; lia|].
    intros (? & _ & [= _ <-])%bind_Some. lia.
  - case_match; [done|]. intros ([str' rest2] & Hstr%IH & [= _ <-])%bind_Some.
    rewrite length_drop in Hstr. simpl in *. lia.
Qed.

Lemma digits_length s ds rest : digits s = (ds, rest) → length rest + length ds = length s.
Proof.
  revert ds. induction s as [|c s IH]; intros ds; simpl; [by intros [= <- <-]|].
  case_match; [|by intros [= <- <-]]. destruct (digits s) as [ds' rest'] eqn:Hd.
  intros [= <- <-]. specialize (IH _ eq_refl). simpl. lia.
Qed.

Lemma one_or_more_digits_length s ds rest :
  one_or_more_digits s = Some (ds, rest) → length rest < length s.
Proof.
  unfold one_or_more_digits. destruct (digits s) as [ds' rest'] eqn:Hd. apply digits_length in Hd.
  destruct ds'; [done|]. intros [= <- <-]. simpl in Hd. lia.
Qed.

Lemma parse_number_length s literal rest :
  parse_number s = Some (literal, rest) → length rest < length s.
Proof.
  assert (∀ s l rest, parse_int s = Some (l, rest) → length rest < length s) as Hint.
  { intros [|c s1] l r; [done|]. unfold parse_int. case_match.
    - intros [= _ <-]. simpl. lia.
    - apply one_or_more_digits_length. }
  assert (∀ s l rest, parse_fraction s = Some (l, rest) → length rest ≤ length s) as Hfrac.
  { intros [|c s1] l r; simpl; [by intros [= _ <-]|]. case_match; [|by intros [= _ <-]].
    intros ([ds r'] & Hd%one_or_more_digits_length & [= _ <-])%bind_Some. lia. }
  assert (∀ s l rest, parse_exponent s = Some (l, rest) → length rest ≤ length s) as Hexp.
  { intros [|e s1] l r; simpl; [by intros [= _ <-]|]. case_match; [|by intros [= _ <-]].
    destruct s1 as [|c s1]; [done|]. destruct (Ascii.eqb c "+" || Ascii.eqb c "-");
      intros ([ds r'] & Hd%one_or_more_digits_length & [= _ <-])%bind_Some; simpl in *; lia. }
  unfold parse_number. set (signed := match s with [] => _ | _ => _ end).
  assert (length signed.2 ≤ length s) as Hs.
  { unfold signed. destruct s as [|c s1]; [done|]. case_match; simpl; lia. }
  destruct signed as [sign s1].
  intros ([int s2] & H1%Hint & ([frac s3] & H2%Hfrac & ([exp s4] & H3%Hexp & [= _ <-])%bind_Some)
    %bind_Some)%bind_Some. simpl in Hs. lia.
Qed.

Lemma parse_length n :
  (∀ s v rest, parse_value n s = Some (v, rest) → length rest < length s) ∧
  (∀ first s l rest, parse_elements n first s = Some (l, rest) → length rest < length s) ∧
  (∀ first s l rest, parse_members n first s = Some (l, rest) → length rest < length s).
Proof.
  induction n as [|n (IHv & IHe & IHm)]; [done|]. split_and!.
  - intros s v rest. cbn [parse_value].
    intros ([c rest1] & Hnext%next_length & Hgo)%bind_Some. revert Hgo.
    repeat case_match; intros Hx; apply bind_Some in Hx as (x & Hx & Hres);
      try (destruct x as [x r]); injection Hres as _ <-;
      first [apply after_word_length in Hx | apply parse_string_length in Hx | apply IHe in Hx
            | apply IHm in Hx | apply parse_number_length in Hx; simpl in Hx]; lia.
  - intros first s l rest. cbn [parse_elements].
    intros ([c rest1] & Hnext%next_length & Hgo)%bind_Some. revert Hgo.
    case_match; [case_match; [|done]; by intros [= _ <-]|].
    intros ([v rest2] & Hv%IHv & ([c' rest3] & Hnext'%next_length & Hgo)%bind_Some)%bind_Some. revert Hgo.
    case_match; [intros [= _ <-]; lia|]. case_match; [|done].
    intros ([l' rest4] & Hl%IHe & [= _ <-])%bind_Some. lia.
  - intros first s l rest. cbn [parse_members].
    intros ([c rest1] & Hnext%next_length & Hgo)%bind_Some. revert Hgo.
    case_match; [case_match; [|done]; by intros [= _ <-]|].
    case_match; [|done].
    intros ([key rest2] & Hk%parse_string_length & ([c' rest3] & Hnext'%next_length & Hgo)%bind_Some)%bind_Some.
    revert Hgo. case_match; [done|].
    intros ([v rest4] & Hv%IHv & ([c'' rest5] & Hnext''%next_length & Hgo)%bind_Some)%bind_Some. revert Hgo.
    case_match; [intros [= _ <-]; lia|]. case_match; [|done].
    intros ([l' rest6] & Hl%IHm & [= _ <-])%bind_Some. lia.
Qed.

Lemma parse_fuel n :
  (∀ m s, 2 * length s + 1 ≤ n → 2 * length s + 1 ≤ m → parse_value n s = parse_value m s) ∧
  (∀ m first s, 2 * length s + 2 ≤ n → 2 * length s + 2 ≤ m →
     parse_elements n first s = parse_elements m first s) ∧
  (∀ m first s, 2 * length s + 2 ≤ n → 2 * length s + 2 ≤ m →
     parse_members n first s = parse_members m first s).
Proof.
  induction n as [|n (IHv & IHe & IHm)]; [split_and!; intros; lia|]. split_and!.
  - intros [|m] s Hn Hm; [lia|]. cbn [parse_value].
    destruct (next s) as [[c rest]|] eqn:Hnext; [|done]. apply next_length in Hnext. cbn.
    by rewrite (IHe m true rest), (IHm m true rest) by lia.
  - intros [|m] first s Hn Hm; [lia|]. cbn [parse_elements].
    destruct (next s) as [[c rest]|]; [|done]. cbn. case_match; [done|].
    rewrite (IHv m s) by lia. destruct (parse_value m s) as [[v rest1]|] eqn:Hv; [|done].
    apply parse_length in Hv. cbn.
    destruct (next rest1) as [[c' rest2]|] eqn:Hnext; [|done]. apply next_length in Hnext. cbn.
    by rewrite (IHe m false rest2) by lia.
  - intros [|m] first s Hn Hm; [lia|]. cbn [parse_members].
    destruct (next s) as [[c rest]|] eqn:Hnext; [|done]. apply next_length in Hnext. cbn.
    case_match; [done|]. case_match; [|done].
    destruct (parse_string _ rest) as [[key rest1]|] eqn:Hk; [|done].
    apply parse_string_length in Hk. cbn.
    destruct (next rest1) as [[c1 rest2]|] eqn:Hnext1; [|done]. apply next_length in Hnext1. cbn.
    case_match; [done|]. rewrite (IHv m rest2) by lia.
    destruct (parse_value m rest2) as [[v rest3]|] eqn:Hv; [|done]. apply parse_length in Hv. cbn.
    destruct (next rest3) as [[c2 rest4]|] eqn:Hnext2; [|done]. apply next_length in Hnext2. cbn.
    by rewrite (IHm m false rest4) by lia.
Qed.

Lemma parse_string_fuel n m s :
  length s ≤ n → length s ≤ m → parse_string n s = parse_string m s.
Proof.
  revert m s. induction n as [|n IH]; intros [|m] [|c s] Hn Hm; simpl in Hn, Hm; try (done || lia).
  cbn [parse_string]. case_match; [done|]. case_match.
  - destruct s as [|e s]; [done|].
    destruct (if Ascii.eqb e "u" then _ else _) as [[d rest]|] eqn:He; [|done]. cbn.
    assert (length rest ≤ length s).
    { revert He. case_match; [apply unicode_escape_length|].
      by intros (? & _ & [= _ <-])%bind_Some. }
    simpl in Hn, Hm. by rewrite (IH m rest) by lia.
  - case_match; [done|]. by rewrite (IH m) by (rewrite length_drop; simpl; lia).
Qed.

(** More fuel than [parse] takes changes nothing: it fails only on what is no
    JSON text. *)
Lemma parse_enough n s :
  2 * length s + 1 ≤ n →
  parse s = ('(v, rest) ← parse_value n s; match skip_space rest with [] => Some v | _ => None end).
Proof. intros Hn. unfold parse. by rewrite (proj1 (parse_fuel _) n) by lia. Qed.

(** * Writing flat objects: strings of ASCII characters, and booleans *)

Definition hex_digit (z : Z) : ascii := char (if Z.ltb z 10 then 48 + z else 87 + z).

Definition escape (c : ascii) : chars :=
  if Ascii.eqb c "034" || Ascii.eqb c "\" then ["\"%char; c]
  else if Z.ltb (code c) 32 then
    ["\"; "u"; "0"; "0"]%char ++ [hex_digit (Z.shiftr (code c) 4); hex_digit (Z.land (code c) 15)]
  else [c].

Definition print_string (s : chars) : chars := quoted (s ≫= escape).

Definition print_flat (v : chars + bool) : chars :=
  match v with
  | inl s => print_string s
  | inr true => ["t"; "r"; "u"; "e"]%char
  | inr false => ["f"; "a"; "l"; "s"; "e"]%char
  end.
Definition flat_json (v : chars + bool) : json :=
  match v with inl s => JString s | inr b => JBool b end.

Definition print_member (m : chars * (chars + bool)) : chars :=
  print_string m.1 ++ ":"%char :: print_flat m.2.
Fixpoint print_members (ms : list (chars * (chars + bool))) : chars :=
  match ms with
  | [] => []
  | [m] => print_member m
  | m :: ms => print_member m ++ ","%char :: print_members ms
  end.
Definition print_object (ms : list (chars * (chars + bool))) : chars :=
  "{"%char :: print_members ms ++ ["}"%char].

Definition is_ascii (s : chars) : Prop := Forall (λ c, (code c < 128)%Z) s.
Definition ascii_member (m : chars * (chars + bool)) : Prop :=
  is_ascii m.1 ∧ match m.2 with inl s => is_ascii s | inr _ => True end.

Lemma control_escape c :
  Z.ltb (code c) 32 = true →
  EncodeRune (code c) = [c] ∧ between 55296 57343 (code c) = false ∧
  hex4 (code c)
    ["0"%char; "0"%char; hex_digit (Z.shiftr (code c) 4); hex_digit (Z.land (code c) 15)].
Proof. unfold hex4. by destruct c as [[] [] [] [] [] [] [] []]. Qed.

Lemma verbatim_ascii c :
  (32 <= code c < 128)%Z → c ≠ "034"%char → c ≠ "\"%char → verbatim [c].
Proof.
  intros Hc ? ?. exists c, []. split_and!; try done; [|lia]. unfold rune_length. simpl.
  by rewrite (proj2 (Z.ltb_lt _ _)) by lia.
Qed.

Lemma escape_text c str t :
  (code c < 128)%Z → string_text str t → string_text (c :: str) (escape c ++ t).
Proof.
  intros Hc Ht. unfold escape. destruct (Ascii.eqb_spec c "034") as [->|Hquote].
  { by apply text_escape. }
  destruct (Ascii.eqb_spec c "\") as [->|Hslash]; [by apply text_escape|]. cbn [orb].
  destruct (Z.ltb (code c) 32) eqn:Hctl.
  - destruct (control_escape c Hctl) as (Henc & Hr & Hhex).
    pose proof (text_unicode _ _ str t Hhex Hr Ht) as H. by rewrite Henc in H.
  - apply (text_verbatim [c]); [|done]. apply Z.ltb_ge in Hctl. by apply verbatim_ascii.
Qed.

Lemma print_string_text s : is_ascii s → string_text s (s ≫= escape).
Proof. induction 1 as [|c s Hc _ IH]; [apply text_end|]. simpl. by apply escape_text. Qed.

Lemma print_flat_text v :
  match v with inl s => is_ascii s | inr _ => True end → value_text (flat_json v) (print_flat v).
Proof.
  destruct v as [s|[]]; intros Hv;
    [by apply text_string, print_string_text|apply text_true|apply text_false].
Qed.

Lemma print_members_text ms :
  ms ≠ [] → Forall ascii_member ms →
  members_text (prod_map id flat_json <$> ms) (print_members ms).
Proof.
  intros Hne Hms. induction Hms as [|[k v] ms [Hk Hv] Hms IH]; [done|]. simpl in Hk, Hv.
  pose proof (text_member k _ (flat_json v) (print_flat v) [] [] [] []
    (print_string_text k Hk) (print_flat_text v Hv)) as Hone.
  pose proof (text_members k _ (flat_json v) (print_flat v) [] [] [] []
    (prod_map id flat_json <$> ms) (print_members ms)
    (print_string_text k Hk) (print_flat_text v Hv)) as Hmore.
  simpl in *. rewrite app_nil_r in *. destruct ms as [|m ms]; [by apply Hone; constructor|].
  apply Hmore; try by constructor. by apply IH.
Qed.

Lemma print_object_text ms :
  Forall ascii_member ms → json_text (JObject (prod_map id flat_json <$> ms)) (print_object ms).
Proof.
  intros Hms. exists [], (print_object ms), []. split_and!; try by constructor.
  - destruct ms as [|m ms]; [by apply (text_empty_object []); constructor|].
    by apply text_object, print_members_text.
  - by rewrite app_nil_r.
Qed.
