(* ===== verification/AcceptanceConfig.v ===== *)
(** src/test/acceptance/cfg/cfg.go: the configuration of the acceptance tests,
    decoded from a JSON file by encoding/json, and what the tests read of it. *)
From S2P Require Import Prelude GoTime GoFloat GoJSON JSONText.
From Stdlib Require Import Ascii.

Record Config := mkConfig {
  KubeConfigPath : string;
  KeepClusterChanges : bool;
  KeepCFChanges : bool;
  API : string;
  AdminUser : string;
  AdminPassword : string;
  AppsDomain : string;
  ExistingUser : string;
  ExistingUserPassword : string;
  ShouldKeepUser : bool;
  UseExistingUser : bool;
  UseExistingOrganization : bool;
  ExistingOrganization : string;
}.

#[export] Instance Config_eq_dec : EqDecision Config.
Proof. solve_decision. Defined.

(** [&Config{}] *)
Definition zero_Config : Config := mkConfig "" false false "" "" "" "" "" "" false false false "".

(** * What the tests read *)

Definition GetAdminUser (c : Config) : string := AdminUser c.
Definition GetAdminPassword (c : Config) : string := AdminPassword c.
Definition GetUseExistingOrganization (c : Config) : bool := UseExistingOrganization c.
Definition GetUseExistingSpace (c : Config) : bool := false.
Definition GetExistingOrganization (c : Config) : string := ExistingOrganization c.
Definition GetExistingSpace (c : Config) : outcome string := Panic "implement me".
Definition GetUseExistingUser (c : Config) : bool := UseExistingUser c.
Definition GetExistingUser (c : Config) : string := ExistingUser c.
Definition GetExistingUserPassword (c : Config) : string := ExistingUserPassword c.
Definition GetShouldKeepUser (c : Config) : bool := ShouldKeepUser c.
Definition GetConfigurableTestPassword (c : Config) : string := "".
Definition GetAdminClient (c : Config) : string := "".
Definition GetAdminClientSecret (c : Config) : string := "".
Definition GetExistingClient (c : Config) : string := "".
Definition GetExistingClientSecret (c : Config) : outcome string := Panic "implement me".
Definition GetApiEndpoint (c : Config) : string := API c.
Definition GetSkipSSLValidation (c : Config) : bool := true.
Definition GetNamePrefix (c : Config) : string := "ACCEPTANCE".

(** [time.Duration(float64(timeout) * 2)] *)
Definition GetScaledTimeout (c : Config) (timeout : Z) : Z :=
  float64_trunc (fmul (float64_of timeout) (float64_of 2)).

Definition CfPushTimeoutDuration (c : Config) : Z := (240 * Second)%Z.
Definition CfPushDockerTimeoutDuration (c : Config) : Z := (120 * Second)%Z.
Definition DefaultTimeoutDuration (c : Config) : Z := (60 * Second)%Z.

(** * The struct as encoding/json sees it *)

(** The fields in the order of the struct, each with the key its tag gives it
    and the assignment to it. *)
Inductive target : Type :=
  | TString (set : string → Config → Config)
  | TBool (set : bool → Config → Config).

Definition with_KubeConfigPath v c :=
  mkConfig v (KeepClusterChanges c) (KeepCFChanges c) (API c) (AdminUser c) (AdminPassword c)
    (AppsDomain c) (ExistingUser c) (ExistingUserPassword c) (ShouldKeepUser c)
    (UseExistingUser c) (UseExistingOrganization c) (ExistingOrganization c).
Definition with_KeepClusterChanges v c :=
  mkConfig (KubeConfigPath c) v (KeepCFChanges c) (API c) (AdminUser c) (AdminPassword c)
    (AppsDomain c) (ExistingUser c) (ExistingUserPassword c) (ShouldKeepUser c)
    (UseExistingUser c) (UseExistingOrganization c) (ExistingOrganization c).
Definition with_KeepCFChanges v c :=
  mkConfig (KubeConfigPath c) (KeepClusterChanges c) v (API c) (AdminUser c) (AdminPassword c)
    (AppsDomain c) (ExistingUser c) (ExistingUserPassword c) (ShouldKeepUser c)
    (UseExistingUser c) (UseExistingOrganization c) (ExistingOrganization c).
Definition with_API v c :=
  mkConfig (KubeConfigPath c) (KeepClusterChanges c) (KeepCFChanges c) v (AdminUser c)
    (AdminPassword c) (AppsDomain c) (ExistingUser c) (ExistingUserPassword c) (ShouldKeepUser
    c) (UseExistingUser c) (UseExistingOrganization c) (ExistingOrganization c).
Definition with_AdminUser v c :=
  mkConfig (KubeConfigPath c) (KeepClusterChanges c) (KeepCFChanges c) (API c) v (AdminPassword
    c) (AppsDomain c) (ExistingUser c) (ExistingUserPassword c) (ShouldKeepUser c)
    (UseExistingUser c) (UseExistingOrganization c) (ExistingOrganization c).
Definition with_AdminPassword v c :=
  mkConfig (KubeConfigPath c) (KeepClusterChanges c) (KeepCFChanges c) (API c) (AdminUser c) v
    (AppsDomain c) (ExistingUser c) (ExistingUserPassword c) (ShouldKeepUser c)
    (UseExistingUser c) (UseExistingOrganization c) (ExistingOrganization c).
Definition with_AppsDomain v c :=
  mkConfig (KubeConfigPath c) (KeepClusterChanges c) (KeepCFChanges c) (API c) (AdminUser c)
    (AdminPassword c) v (ExistingUser c) (ExistingUserPassword c) (ShouldKeepUser c)
    (UseExistingUser c) (UseExistingOrganization c) (ExistingOrganization c).
Definition with_ExistingUser v c :=
  mkConfig (KubeConfigPath c) (KeepClusterChanges c) (KeepCFChanges c) (API c) (AdminUser c)
    (AdminPassword c) (AppsDomain c) v (ExistingUserPassword c) (ShouldKeepUser c)
    (UseExistingUser c) (UseExistingOrganization c) (ExistingOrganization c).
Definition with_ExistingUserPassword v c :=
  mkConfig (KubeConfigPath c) (KeepClusterChanges c) (KeepCFChanges c) (API c) (AdminUser c)
    (AdminPassword c) (AppsDomain c) (ExistingUser c) v (ShouldKeepUser c) (UseExistingUser c)
    (UseExistingOrganization c) (ExistingOrganization c).
Definition with_ShouldKeepUser v c :=
  mkConfig (KubeConfigPath c) (KeepClusterChanges c) (KeepCFChanges c) (API c) (AdminUser c)
    (AdminPassword c) (AppsDomain c) (ExistingUser c) (ExistingUserPassword c) v
    (UseExistingUser c) (UseExistingOrganization c) (ExistingOrganization c).
Definition with_UseExistingUser v c :=
  mkConfig (KubeConfigPath c) (KeepClusterChanges c) (KeepCFChanges c) (API c) (AdminUser c)
    (AdminPassword c) (AppsDomain c) (ExistingUser c) (ExistingUserPassword c) (ShouldKeepUser
    c) v (UseExistingOrganization c) (ExistingOrganization c).
Definition with_UseExistingOrganization v c :=
  mkConfig (KubeConfigPath c) (KeepClusterChanges c) (KeepCFChanges c) (API c) (AdminUser c)
    (AdminPassword c) (AppsDomain c) (ExistingUser c) (ExistingUserPassword c) (ShouldKeepUser
    c) (UseExistingUser c) v (ExistingOrganization c).
Definition with_ExistingOrganization v c :=
  mkConfig (KubeConfigPath c) (KeepClusterChanges c) (KeepCFChanges c) (API c) (AdminUser c)
    (AdminPassword c) (AppsDomain c) (ExistingUser c) (ExistingUserPassword c) (ShouldKeepUser
    c) (UseExistingUser c) (UseExistingOrganization c) v.

Definition fields : list (string * target) := [
  ("kubeconfig_path", TString with_KubeConfigPath);
  ("keep_cluster_changes", TBool with_KeepClusterChanges);
  ("keep_cf_changes", TBool with_KeepCFChanges);
  ("api", TString with_API);
  ("admin_user", TString with_AdminUser);
  ("admin_password", TString with_AdminPassword);
  ("apps_domain", TString with_AppsDomain);
  ("existing_user", TString with_ExistingUser);
  ("existing_user_password", TString with_ExistingUserPassword);
  ("keep_user_at_suite_end", TBool with_ShouldKeepUser);
  ("use_existing_user", TBool with_UseExistingUser);
  ("use_existing_organization", TBool with_UseExistingOrganization);
  ("existing_organization", TString with_ExistingOrganization)].

(** A byte of a tag against a byte of a key: the same, or one letter in both cases. *)
Definition same_letter (c d : ascii) : bool :=
  Ascii.eqb c d
  || between 65 90 (Z.land (code c) 223) && Z.eqb (Z.land (code c) 223) (Z.land (code d) 223).

(** The two characters beyond ASCII that fold to a letter: the Kelvin sign and the long s. *)
Definition kelvin : chars := EncodeRune 8490.
Definition smallLongEss : chars := EncodeRune 383.
Definition special_letter (c : ascii) (key : chars) : option chars :=
  if Ascii.eqb c "k" || Ascii.eqb c "K" then after_word kelvin key
  else if Ascii.eqb c "s" || Ascii.eqb c "S" then after_word smallLongEss key
  else None.

(** encoding/json's [foldFunc]: equality up to case, with a tag in ASCII. *)
Fixpoint equal_fold (tag key : chars) : bool :=
  match tag, key with
  | [], [] => true
  | c :: tag, d :: key' =>
      if Z.ltb (code d) 128 then same_letter c d && equal_fold tag key'
      else
        match special_letter c key with
        | Some rest => equal_fold tag rest
        | None => false
        end
  | _, _ => false
  end.

(** The field a key names: the one with that name, or else the first with that
    name up to case. *)
Definition field_of (key : chars) : option (string * target) :=
  match find (λ f, bool_decide (bytes_of f.1 = key)) fields with
  | Some f => Some f
  | None => find (λ f, equal_fold (bytes_of f.1) key) fields
  end.

(** * Unmarshal *)

Definition json_kind (v : json) : string :=
  match v with
  | JNull => "null"
  | JBool _ => "bool"
  | JNumber _ => "number"
  | JString _ => "string"
  | JArray _ => "array"
  | JObject _ => "object"
  end.

Definition type_name (t : target) : string :=
  match t with TString _ => "string" | TBool _ => "bool" end.

(** The text of an UnmarshalTypeError at a field. *)
Definition field_type_error (f : string * target) (v : json) : string :=
  "json: cannot unmarshal " +:+ json_kind v +:+ " into Go struct field Config." +:+ f.1
  +:+ " of type " +:+ type_name f.2.

(** A member of the object: [null] leaves the field, a value of another type
    too, with an error that is kept when it is the first, and a key that names no
    field is skipped. *)
Definition decode_member (st : Config * option string) (m : chars * json) : Config * option string :=
  match field_of m.1 with
  | None => st
  | Some f =>
      match f.2, m.2 with
      | _, JNull => st
      | TString set, JString s => (set (String.string_of_list_ascii s) st.1, st.2)
      | TBool set, JBool b => (set b st.1, st.2)
      | _, v => (st.1, Some (default (field_type_error f v) st.2))
      end
  end.

(** A document into a Config: what it becomes and the error. *)
Definition Unmarshal (doc : json) (c : Config) : Config * option string :=
  match doc with
  | JObject ms => foldl decode_member (c, None) ms
  | JNull => (c, None)
  | v => (c, Some ("json: cannot unmarshal " +:+ json_kind v +:+ " into Go value of type cfg.Config"))
  end.

Section config.
(** [ioutil.ReadFile]: the content of the file, or the text of the error. *)
Context (ReadFile : string → chars + string).
(** The text of the SyntaxError for what is no JSON text. *)
Context (syntax_error : chars → string).

Definition NewConfig (configPath kubeConfigPath : string)
    (keepClusterChanges keepCFChanges : bool) : outcome Config :=
  match ReadFile configPath with
  | inr err => Err (errors_New ("error reading config " +:+ err))
  | inl configFile =>
      match parse configFile with
      | None => Err (errors_New ("error parsing json " +:+ syntax_error configFile))
      | Some doc =>
          match Unmarshal doc zero_Config with
          | (_, Some err) => Err (errors_New ("error parsing json " +:+ err))
          | (config, None) =>
              let config := with_KubeConfigPath kubeConfigPath config in
              let config := with_KeepClusterChanges keepClusterChanges config in
              let config := with_KeepCFChanges keepCFChanges config in
              Ok config
          end
      end
  end.
End config.

(** * What NewConfig makes of a file *)

(** The members of a document that can fill a struct. *)
Definition members (doc : json) : option (list (chars * json)) :=
  match doc with JObject ms => Some ms | JNull => Some [] | _ => None end.

Definition names (tag : string) (m : chars * json) : bool :=
  match field_of m.1 with Some f => String.eqb f.1 tag | None => false end.
Definition is_null (v : json) : bool := match v with JNull => true | _ => false end.
Definition sets (tag : string) (m : chars * json) : bool := names tag m && negb (is_null m.2).

(** The last value a file gives a field. *)
Definition value_at (tag : string) (ms : list (chars * json)) : option json :=
  last (snd <$> filter (λ m, sets tag m) ms).
Definition string_at (tag : string) (ms : list (chars * json)) : string :=
  match value_at tag ms with Some (JString s) => String.string_of_list_ascii s | _ => "" end.
Definition bool_at (tag : string) (ms : list (chars * json)) : bool :=
  match value_at tag ms with Some (JBool b) => b | _ => false end.

Definition config_of (ms : list (chars * json)) : Config :=
  mkConfig
    (string_at "kubeconfig_path" ms) (bool_at "keep_cluster_changes" ms)
    (bool_at "keep_cf_changes" ms) (string_at "api" ms) (string_at "admin_user" ms)
    (string_at "admin_password" ms) (string_at "apps_domain" ms) (string_at "existing_user" ms)
    (string_at "existing_user_password" ms) (bool_at "keep_user_at_suite_end" ms)
    (bool_at "use_existing_user" ms) (bool_at "use_existing_organization" ms)
    (string_at "existing_organization" ms).

(** The three settings that come from the caller instead. *)
Definition overridden (kubeConfigPath : string) (keepClusterChanges keepCFChanges : bool)
    (c : Config) : Config :=
  with_KeepCFChanges keepCFChanges
    (with_KeepClusterChanges keepClusterChanges (with_KubeConfigPath kubeConfigPath c)).

(** A member that fits the field it names. *)
Definition well_typed (m : chars * json) : bool :=
  match field_of m.1 with
  | None => true
  | Some f =>
      match f.2, m.2 with
      | _, JNull | TString _, JString _ | TBool _, JBool _ => true
      | _, _ => false
      end
  end.

Lemma field_of_elem key f : field_of key = Some f → f ∈ fields.
Proof.
  unfold field_of. destruct (find _ fields) as [g|] eqn:Hf.
  - intros [= <-]. apply list_elem_of_In. by apply find_some in Hf as [? _].
  - intros Hg. apply list_elem_of_In. by apply find_some in Hg as [? _].
Qed.

Lemma value_at_snoc tag ms m :
  value_at tag (ms ++ [m]) = if sets tag m then Some m.2 else value_at tag ms.
Proof.
  unfold value_at. rewrite filter_app, fmap_app. unfold filter at 2. simpl. unfold filter.
  destruct (sets tag m); simpl; [by rewrite last_snoc|by rewrite app_nil_r].
Qed.

(** Decoding one more member. *)
Lemma config_of_snoc ms m c' :
  well_typed m = true → decode_member (config_of ms, None) m = (c', None) → c' = config_of (ms ++ [m]).
Proof.
  intros Ht Hd. unfold config_of, string_at, bool_at. rewrite !value_at_snoc.
  unfold decode_member, well_typed, sets, names in *.
  destruct (field_of m.1) as [f|] eqn:Hf; [|by injection Hd as <-].
  apply field_of_elem in Hf. unfold fields in Hf. rewrite !elem_of_cons in Hf.
  destruct_or! Hf; [subst; try done..|by apply elem_of_nil in Hf]; destruct m as [k []]; simpl in *; try done; by injection Hd as <-.
Qed.

Lemma decode_member_error c e m : (decode_member (c, Some e) m).2 = Some e.
Proof.
  unfold decode_member. destruct (field_of m.1) as [[tag [|]]|]; [..|done]; by destruct m as [? []].
Qed.

Lemma decode_member_typed c m : (decode_member (c, None) m).2 = None ↔ well_typed m = true.
Proof.
  unfold decode_member, well_typed.
  destruct (field_of m.1) as [[tag [|]]|]; [..|done]; by destruct m as [? []].
Qed.

Lemma config_of_nil : config_of [] = zero_Config.
Proof. done. Qed.

(** The loop over the members. *)
Lemma decode_members ms c :
  foldl decode_member (zero_Config, None) ms = (c, None) ↔
  Forall (λ m, well_typed m = true) ms ∧ c = config_of ms.
Proof.
  rewrite <- config_of_nil. revert c. induction ms as [|m ms IH] using rev_ind; intros c; simpl.
  { split; [by intros [= <-]|by intros [_ ->]]. }
  rewrite foldl_app, Forall_app, Forall_singleton. simpl.
  destruct (foldl decode_member (config_of [], None) ms) as [c1 [e|]] eqn:Hms.
  - pose proof (decode_member_error c1 e m) as He. split.
    + intros Hm. by rewrite Hm in He.
    + intros [[Hall _] _]. discriminate (proj2 (IH (config_of ms)) (conj Hall eq_refl)).
  - destruct (proj1 (IH c1) eq_refl) as [Hall ->]. split.
    + intros Hm. assert (well_typed m = true) as Ht.
      { apply (decode_member_typed (config_of ms)). by rewrite Hm. }
      split; [done|]. by apply config_of_snoc.
    + intros [[_ Ht] ->]. pose proof (proj2 (decode_member_typed (config_of ms) m) Ht) as He.
      destruct (decode_member (config_of ms, None) m) as [c2 e] eqn:Hm. simpl in He. subst e.
      f_equal. by apply config_of_snoc.
Qed.

Lemma Unmarshal_typed doc c :
  Unmarshal doc zero_Config = (c, None) ↔
  ∃ ms, members doc = Some ms ∧ Forall (λ m, well_typed m = true) ms ∧ c = config_of ms.
Proof.
  destruct doc as [| | | | |ms]; simpl; try by split; [done|intros (? & ? & _)].
  - split; [intros [= <-]; by exists []|by intros (? & [= <-] & _ & ->)].
  - rewrite decode_members. split; [by intros [? ->]; exists ms|by intros (? & [= <-] & ? & ->)].
Qed.

(** C25: NewConfig succeeds exactly when the file can be read, is a JSON text of an
    object (or null), and no member that names a field has another type; then
    each field holds the last value the file gives it, names compared up to
    case and null taken for none, the zero value when there is none, and the
    three settings of the caller replace those of the file.  It never panics. *)
Theorem NewConfig_spec ReadFile syntax_error path kube keepCluster keepCF :
  (∀ c, NewConfig ReadFile syntax_error path kube keepCluster keepCF = Ok c ↔
     ∃ text doc ms, ReadFile path = inl text ∧ parse text = Some doc ∧ members doc = Some ms ∧
       Forall (λ m, well_typed m = true) ms ∧ c = overridden kube keepCluster keepCF (config_of ms)) ∧
  ¬ panics (NewConfig ReadFile syntax_error path kube keepCluster keepCF).
Proof.
  unfold NewConfig. destruct (ReadFile path) as [text|err] eqn:Hread.
  2: { split; [|by intros [why [=]]]. intros c. split; [done|]. by intros (? & ? & ? & [=] & _). }
  destruct (parse text) as [doc|] eqn:Hparse.
  2: { split; [|by intros [why [=]]]. intros c. split; [done|].
       intros (t & ? & ? & [= <-] & Hp & _). congruence. }
  pose proof (Unmarshal_typed doc) as Hu.
  destruct (Unmarshal doc zero_Config) as [c0 [err|]].
  - split; [|by intros [why [=]]]. intros c. split; [done|].
    intros (t & d & ms & [= <-] & Hp & Hms & Ht & _). rewrite Hparse in Hp. injection Hp as <-.
    discriminate (proj2 (Hu (config_of ms))). by exists ms.
  - split; [|by intros [why [=]]]. intros c. split.
    + intros [= <-]. destruct (proj1 (Hu c0) eq_refl) as (ms & Hms & Ht & ->). by exists text, doc, ms.
    + intros (t & d & ms & [= <-] & Hp & Hms & Ht & ->). rewrite Hparse in Hp. injection Hp as <-.
      assert ((c0, None) = (config_of ms, None)) as [= ->] by (apply Hu; by exists ms). done.
Qed.

(** * Writing a configuration *)

Definition members_of (c : Config) : list (chars * (chars + bool)) := [
  (bytes_of "kubeconfig_path", inl (bytes_of (KubeConfigPath c)));
  (bytes_of "keep_cluster_changes", inr (KeepClusterChanges c));
  (bytes_of "keep_cf_changes", inr (KeepCFChanges c));
  (bytes_of "api", inl (bytes_of (API c)));
  (bytes_of "admin_user", inl (bytes_of (AdminUser c)));
  (bytes_of "admin_password", inl (bytes_of (AdminPassword c)));
  (bytes_of "apps_domain", inl (bytes_of (AppsDomain c)));
  (bytes_of "existing_user", inl (bytes_of (ExistingUser c)));
  (bytes_of "existing_user_password", inl (bytes_of (ExistingUserPassword c)));
  (bytes_of "keep_user_at_suite_end", inr (ShouldKeepUser c));
  (bytes_of "use_existing_user", inr (UseExistingUser c));
  (bytes_of "use_existing_organization", inr (UseExistingOrganization c));
  (bytes_of "existing_organization", inl (bytes_of (ExistingOrganization c)))].

Definition config_members (c : Config) : list (chars * json) := prod_map id flat_json <$> members_of c.

Lemma string_bytes s : String.string_of_list_ascii (bytes_of s) = s.
Proof. apply String.string_of_list_ascii_of_string. Qed.

Lemma value_at_permuted tag ms ms' v :
  ms ≡ₚ ms' → snd <$> filter (λ m, sets tag m) ms' = [v] → value_at tag ms = Some v.
Proof.
  intros Hperm Hv. unfold value_at.
  assert (snd <$> filter (λ m, sets tag m) ms ≡ₚ [v]) as H by by rewrite Hperm, Hv.
  symmetry in H. apply Permutation_singleton_l in H. by rewrite <- H.
Qed.

Lemma others_set_nothing tag others :
  Forall (λ m, field_of m.1 = None) others → filter (λ m, sets tag m) others = [].
Proof.
  induction 1 as [|m others Hm _ IH]; [done|]. rewrite filter_cons_False; [done|].
  unfold sets, names. rewrite Hm. by intros [].
Qed.

Lemma config_of_members c others ms :
  ms ≡ₚ config_members c ++ others → Forall (λ m, field_of m.1 = None) others → config_of ms = c.
Proof.
  intros Hperm Hothers.
  assert (∀ tag v, snd <$> filter (λ m, sets tag m) (config_members c) = [v] →
    value_at tag ms = Some v) as Hat.
  { intros tag v Hv. apply (value_at_permuted _ _ _ _ Hperm).
    by rewrite filter_app, fmap_app, (others_set_nothing tag others), Hv. }
  unfold config_of, string_at, bool_at. destruct c; simpl in *.
  erewrite !Hat by reflexivity. cbn [flat_json prod_map snd]. by rewrite !string_bytes.
Qed.

Lemma flat_well_typed c : Forall (λ m, well_typed m = true) (config_members c).
Proof. repeat constructor. Qed.

Lemma unnamed_well_typed others :
  Forall (λ m, field_of m.1 = None) others → Forall (λ m, well_typed m = true) others.
Proof. intros H. eapply Forall_impl; [exact H|]. intros m Hm. unfold well_typed. by rewrite Hm. Qed.

(** What a string of the configuration must be for [print_object] to write it. *)
Definition ascii_config (c : Config) : Prop :=
  Forall (λ s, is_ascii (bytes_of s))
    [KubeConfigPath c; API c; AdminUser c; AdminPassword c; AppsDomain c; ExistingUser c;
     ExistingUserPassword c; ExistingOrganization c].

Lemma ascii_members c : ascii_config c → Forall ascii_member (members_of c).
Proof.
  intros Hc. unfold ascii_config in Hc. rewrite !Forall_cons in Hc.
  destruct Hc as (? & ? & ? & ? & ? & ? & ? & ? & _).
  repeat (constructor; [split; [by repeat constructor|done]|]). constructor.
Qed.

(** C24: every configuration can be written to a file that NewConfig reads back,
    with the settings of the caller in place of the three it overrides: in any text
    of the JSON grammar (any space, any escapes), with the members in any order
    and among any others whose keys name no field; and such a file
    exists for every configuration in ASCII. *)
Theorem config_file_roundtrip ReadFile syntax_error path kube keepCluster keepCF c :
  (∀ others ms text,
     ms ≡ₚ config_members c ++ others → Forall (λ m, field_of m.1 = None) others →
     json_text (JObject ms) text → ReadFile path = inl text →
     NewConfig ReadFile syntax_error path kube keepCluster keepCF
     = Ok (overridden kube keepCluster keepCF c)) ∧
  (ascii_config c → json_text (JObject (config_members c)) (print_object (members_of c))).
Proof.
  split.
  - intros others ms text Hperm Hothers Htext Hread. unfold NewConfig.
    rewrite Hread, (json_text_parsed _ _ Htext).
    assert (Unmarshal (JObject ms) zero_Config = (config_of ms, None)) as ->.
    { apply Unmarshal_typed. exists ms. split_and!; [done| |done]. rewrite Hperm.
      apply Forall_app. split; [apply flat_well_typed|by apply unnamed_well_typed]. }
    by rewrite (config_of_members c others ms).
  - intros Hc. by apply print_object_text, ascii_members.
Qed.

(** C26: a timeout below 2^53 nanoseconds (over 104 days) is scaled to exactly its
    double: neither conversion through float64 nor the product loses anything. *)
Theorem GetScaledTimeout_doubles c timeout
    (Hrange : (- 2 ^ 53 < timeout < 2 ^ 53)%Z) :
  GetScaledTimeout c timeout = (2 * timeout)%Z.
Proof. by apply float64_double. Qed.

Lemma GetScaledTimeout_doubles_witness :
  (- 2 ^ 53 < CfPushTimeoutDuration zero_Config < 2 ^ 53)%Z ∧
  GetScaledTimeout zero_Config (CfPushTimeoutDuration zero_Config) = (480 * Second)%Z.
Proof.
  assert (- 2 ^ 53 < CfPushTimeoutDuration zero_Config < 2 ^ 53)%Z as H by (vm_compute; done).
  split; [exact H|]. apply (GetScaledTimeout_doubles zero_Config _ H).
Defined.

(** Above, the double is rounded: the odd 2^53 + 1 is not a float64. *)
Example GetScaledTimeout_rounds c :
  GetScaledTimeout c (2 ^ 53 + 1) = (2 * (2 ^ 53 + 1) - 2)%Z.
Proof. vm_compute. done. Qed.

(** * Examples *)

(** A text with single quotes for the double ones. *)
Definition text (s : string) : chars :=
  (λ c, if Ascii.eqb c "'" then "034"%char else c) <$> bytes_of s.

Definition readme_example : chars := text "{
   'kubeconfig_path': '/Users/user/.kube/config',
   'api': 'api.example.com',
   'admin_user': 'admin',
   'admin_password': 'PASSWORD',
   'apps_domain': 'apps.example.com'
  }".

(** The example of the comment on Config, which lacks a comma. *)
Definition comment_example : chars := text "{
    'kubeconfig_path': '/Users/user/.kube/config',
    'api': 'api.example.com',
    'admin_user': 'admin',
    'admin_password': 'PASSWORD'
    'apps_domain': 'apps.example.com'
  }".

Definition files (path : string) : chars + string :=
  if String.eqb path "readme.json" then inl readme_example
  else if String.eqb path "comment.json" then inl comment_example
  else if String.eqb path "empty.json" then inl (text "{}")
  else if String.eqb path "folded.json" then
    inl (text "{'API': 'a', 'keep_user_at_\u017fuite_end': true, 'api': null, 'x': [1e3, {}]}")
  else if String.eqb path "number.json" then inl (text "{'api': 1, 'admin_user': 'u'}")
  else inr ("open " +:+ path +:+ ": no such file or directory").
Definition no_json (t : chars) : string := "invalid character".

Example read_readme :
  NewConfig files no_json "readme.json" "kubeconfig" true false =
  Ok (mkConfig "kubeconfig" true false "api.example.com" "admin" "PASSWORD" "apps.example.com"
        "" "" false false false "").
Proof. vm_compute. reflexivity. Qed.

Example comment_example_rejected :
  NewConfig files no_json "comment.json" "kubeconfig" true false =
  Err (errors_New "error parsing json invalid character").
Proof. vm_compute. reflexivity. Qed.

(** No field is required. *)
Example read_empty : NewConfig files no_json "empty.json" "" false false = Ok zero_Config.
Proof. vm_compute. reflexivity. Qed.

Example read_folded :
  NewConfig files no_json "folded.json" "" false false =
  Ok (mkConfig "" false false "a" "" "" "" "" "" true false false "").
Proof. vm_compute. reflexivity. Qed.

Example read_number :
  NewConfig files no_json "number.json" "" false false =
  Err (errors_New
    "error parsing json json: cannot unmarshal number into Go struct field Config.api of type string").
Proof. vm_compute. reflexivity. Qed.

Example read_nothing :
  NewConfig files no_json "config.json" "" false false =
  Err (errors_New "error reading config open config.json: no such file or directory").
Proof. vm_compute. reflexivity. Qed.

Definition example_config : Config :=
  mkConfig "/home" true true "api.example.com" "admin" "pass\word" "apps.example.com" "user" "" true
    false true "org".
Definition example_file (path : string) : chars + string :=
  inl (print_object (members_of example_config)).

Lemma config_file_roundtrip_witness :
  NewConfig example_file no_json "config.json" "kubeconfig" false false
  = Ok (overridden "kubeconfig" false false example_config).
Proof.
  destruct (config_file_roundtrip example_file no_json "config.json" "kubeconfig" false false
    example_config) as [Hread Hwrite].
  assert (ascii_config example_config) as Hascii by (repeat constructor).
  apply (Hread [] (config_members example_config) (print_object (members_of example_config))).
  - by rewrite app_nil_r.
  - constructor.
  - by apply Hwrite.
  - reflexivity.
Defined.
