(* ===== verification/OutboundApp.v ===== *)
(** test/acceptance/assets/outbound-network-request-app/main.go: the app that
    the acceptance tests push to learn whether outbound requests work as soon
    as an app starts.

    A run is the sequence of what it does together with how it ends.  net/http
    and the network are not part of the repository: what their calls come back
    with is an argument, and the theorems hold whatever it is. *)
From S2P Require Import Prelude.

(** What the calls to net/http and ioutil come back with.  [serve] is [None]
    for a server that keeps serving. *)
Record network := mkNetwork {
  get : option error;
  readAll : option error;
  serve : option (option error);
}.

Inductive event : Type :=
  | Get (url : string)
  | ReadAll
  | Body_Close
  | Println (line : string)
  | ListenAndServe (addr : string).

#[export] Instance event_eq_dec : EqDecision event.
Proof. solve_decision. Defined.

(** How the process ends, or that it does not. *)
Inductive run : Type :=
  | Returned
  | Panicked (err : error)
  | Serving.

#[export] Instance run_eq_dec : EqDecision run.
Proof. solve_decision. Defined.

(** [if err != nil { panic(err) }], and what follows. *)
Definition panic_on (err : option error) (k : list event * run) : list event * run :=
  match err with
  | Some e => ([], Panicked e)
  | None => k
  end.

Definition does (l : list event) (k : list event * run) : list event * run := (l ++ k.1, k.2).

(** [defer f()]: [f] is run when the function returns or panics. *)
Definition deferred (f : event) (k : list event * run) : list event * run :=
  (k.1 ++ match k.2 with Serving => [] | _ => [f] end, k.2).

Definition failed_line : string := "=== Network is not available upon start: FAILED === ".
Definition succeeded_line : string := "=== Network is available upon start: SUCCEEDED === ".

(** [main], with the value of the variable PORT. *)
Definition main (PORT : string) (net : network) : list event * run :=
  does [Get "http://example.com/"]
    match get net with
    | Some err => does [Println failed_line] ([], Panicked err)
    | None =>
        deferred Body_Close
          (does [ReadAll] (panic_on (readAll net)
            (does [Println succeeded_line; Println "listening..."]
              (does [ListenAndServe (":" +:+ PORT)]
                match serve net with
                | None => ([], Serving)
                | Some err => panic_on err ([], Returned)
                end))))
    end.

Section main.
Context (PORT : string) (net : network).

Ltac listed :=
  rewrite ?elem_of_cons, ?elem_of_nil; intros;
  repeat match goal with
  | H : False |- _ => destruct H
  | |- ¬ _ => intros ?
  | H : _ ∨ _ |- _ => destruct H
  | H : _ ∧ _ |- _ => destruct H
  | H : is_Some _ |- _ => destruct H
  | H : ?l = [] |- _ => subst l
  end; simplify_eq; eauto 9.
Ltac runs :=
  destruct net as [[?|] [?|] [[?|]|]]; cbn; try split; listed.

(** The app accepts requests, which is what the tests wait for, exactly when
    the request it made at its start was answered in full. *)
Theorem main_listens :
  ListenAndServe (":" +:+ PORT) ∈ (main PORT net).1 ↔ get net = None ∧ readAll net = None.
Proof. runs. Qed.

(** It reports success exactly then, and before it listens. *)
Theorem main_reports :
  (Println succeeded_line ∈ (main PORT net).1 ↔ get net = None ∧ readAll net = None) ∧
  (Println failed_line ∈ (main PORT net).1 ↔ is_Some (get net)) ∧
  ∀ pre post, (main PORT net).1 = pre ++ ListenAndServe (":" +:+ PORT) :: post →
    Println succeeded_line ∈ pre.
Proof.
  split_and!; [runs | runs|]. intros pre post Hmain.
  destruct net as [[?|] [?|] [[?|]|]]; cbn in Hmain;
    repeat (destruct pre as [|? pre]; simplify_eq/=);
    listed.
Qed.

(** It panics with the first error there was. *)
Theorem main_panics err :
  (main PORT net).2 = Panicked err ↔
  get net = Some err ∨
  get net = None ∧ (readAll net = Some err ∨
    readAll net = None ∧ serve net = Some (Some err)).
Proof. runs. Qed.

(** The body of a response is closed once, last, unless the server runs on;
    there is nothing to close when there was no response. *)
Theorem main_closes :
  (get net = None → (main PORT net).2 ≠ Serving →
    ∃ l, (main PORT net).1 = l ++ [Body_Close] ∧ Body_Close ∉ l) ∧
  (is_Some (get net) ∨ (main PORT net).2 = Serving → Body_Close ∉ (main PORT net).1).
Proof.
  split; [|runs]. intros Hget Hend.
  exists (rev (tail (rev (main PORT net).1))).
  destruct net as [[?|] [?|] [[?|]|]]; cbn in *; simplify_eq;
    (split; [done | listed]).
Qed.
End main.

(** An app that starts, and one whose network comes up too late. *)
Example main_up : main "8080" (mkNetwork None None None) =
  ([Get "http://example.com/"; ReadAll; Println succeeded_line; Println "listening...";
    ListenAndServe ":8080"], Serving).
Proof. reflexivity. Qed.

Example main_down err : main "8080" (mkNetwork (Some err) None None) =
  ([Get "http://example.com/"; Println failed_line], Panicked err).
Proof. reflexivity. Qed.
